(* ===== verification/_CoqProject ===== *)
-Q . S2P
Prelude.v
GoStrings.v
GoBytes.v
GoFloat.v
GoText.v
FloatFacts.v
GoFlag.v
GoFiles.v
GoUrl.v
Addresses.v
GoRegexp.v
GoJson.v
Values.v
ValueFacts.v
ValueCodec.v
GoEncode.v
EncodeFacts.v
Paths.v
PathFacts.v
Results.v
Protocol.v
ClientMessages.v
ServerMessages.v
ProtocolFacts.v
MessageCodec.v
Canonical.v
JsonText.v
CanonicalFacts.v
MessageDecode.v
ClientState.v
BaseClient.v
ClientQueries.v
ClientRequests.v
ClientInvariant.v
ClientSession.v
ClientTheorems.v
ClientSharing.v
ClientAnswers.v
ClientQueue.v
QuerySetSteps.v
ResultsFollow.v
SyncManager.v
ManagerRun.v
ManagerFacts.v
ManagerPhases.v
ManagerTheorems.v
ManagerFlush.v
ManagerOutcomes.v
RealtimeClient.v
RealtimeFacts.v
RealtimeInvariant.v
RealtimeTheorems.v
RealtimeUpdates.v
HttpClient.v
HttpTheorems.v
GoUnicode.v
JsSource.v
JsFacts.v
CodeGen.v
CodeGenFacts.v
TypedRefs.v
TypedFacts.v
OneShot.v
Maint.v
MaintCommands.v
MaintFiles.v
MaintFacts.v
Facade.v
FacadeTheorems.v
FacadeObservers.v
ObserverTheorems.v
FacadeCalls.v
SharedClaims.v
FacadeRun.v
FacadeRunFacts.v
FacadeLifetimes.v
RealtimeIdentity.v
FacadeIdentity.v
OneIdentity.v
Chat.v
