(* ===== verification/Prelude.v ===== *)
(** * convex-go: from the value codec to the realtime client

    ** The program

    The module is a Go client for a reactive backend.  Its parts, each built on
    the ones before:

    - [src/internal/core]: the values ([value.go]), the identifiers and function
      paths ([path.go]) and the outcome of a function ([function_result.go]);
    - [src/internal/syncprotocol]: the messages of the WebSocket protocol as JSON
      documents ([sync_protocol.go], [identity_attributes.go]);
    - [src/baseclient]: a state machine without I/O.  The user subscribes to
      queries, starts mutations and actions and sets an identity; each operation
      changes the state and queues protocol messages.  The caller takes the
      messages one at a time ([PopNextMessage]), sends them, and hands over what
      the server answers ([ReceiveMessage]); when the connection is lost it
      rebuilds the queue for a new one ([RestartForReconnect]);
    - [src/internal/syncclient]: the manager, which runs that machine on one
      WebSocket after another.  Its goroutines are the loop of [Run], a read loop
      and a write loop for each connection, and the callers of its methods; a
      mutex guards the base client, channels carry the requests to flush and the
      snapshots of results ([websocket_manager.go],
      [websocket_manager_runtime.go], [connection_state.go]);
    - the package at the root of [src]: the realtime client, which gives every
      subscription a handle and a buffered channel ([subscription_client.go],
      [subscription_handles.go]), an HTTP client, and a facade over both;
    - [function_reference.go] there: typed references, which decode results into
      Go types;
    - [src/internal/codegen] and [src/cmd/convex-go-codegen]: a generator of such
      references from JavaScript sources;
    - [src/cmd/convex-go-maint]: the commands of the maintainers, which check
      benchmarks, coverage, formatting and releases and export the repository;
    - [src/examples/realtime_chat]: a program that uses the client.

    ** The files

    Prelude holds the error monad, list, option and map lemmas and tactics.
    GoStrings, GoBytes, GoFloat and GoJson model what the source uses of the Go
    library: byte strings and the packages strings and path, byte slices with
    little-endian words and base64, float64 bit patterns with the decimal
    numerals of strconv, and the JSON documents and dynamic values of
    encoding/json.  For the commands and the options: GoRegexp (the submatches of
    regexp), GoUnicode (runes decoded from UTF-8 with their classes), GoText
    (fields and lines of a text, [strconv.ParseFloat], the arithmetic of float64, which
    FloatFacts proves exact on integers),
    GoFlag (package flag), GoUrl (parsing and printing of net/url) and GoFiles
    (path/filepath, and a tree of files with the operations of os).

    - Values: [Value], its constructors and accessors, [ConvexJSON],
      [valueFromWire], [decodeValue] of [value.go].  ValueFacts and ValueCodec:
      the round trips, the invariant of what is decoded, the agreement of the
      two decoders.
    - GoEncode: [EncodeValue], [ValueFromGo] and [encodeArgs] of [value.go] over
      reflected Go values.  EncodeFacts: their properties.
    - Paths: [path.go].  PathFacts: what the parsers accept, and that what they
      return parses to itself.
    - Results: [function_result.go].
    - Protocol, ClientMessages, ServerMessages: [sync_protocol.go] and
      [identity_attributes.go], the [MarshalJSON] and [UnmarshalJSON] methods
      and the discriminated decoders.  ProtocolFacts, MessageCodec: every
      well-formed message of either direction survives encoding and decoding.
      MessageDecode: every message a decoder returns is well-formed but for a normal
      form, decoder by decoder (the class [Yields]).
    - Canonical: [canonical.go], the identity of a query.  JsonText: the text of a
      tree determines the tree.  CanonicalFacts: a token stands for one path and
      one argument.
    - ClientState, BaseClient: the state and the operations of
      [client_state.go], [client_receive.go], [optimistic_updates.go] and the
      result snapshots of [protocol_exports.go], with the names of the source.
    - ClientQueries, ClientRequests, ClientInvariant: the invariants of the
      query set and of the requests, and the operations as the steps of a
      transition system ([op], [perform], [reachable]).
    - ClientSession: an abstract server session, and that the client refines it.
    - ClientTheorems, ClientSharing, ClientAnswers, ClientQueue: the properties
      of the base client.
    - QuerySetSteps, ResultsFollow: the base client closed with a network that
      keeps order and loses connections and with a server that answers from a
      database ([world]): one transition system for all three.
    - SyncManager: what the manager does in one go, under a lock or in a single
      goroutine: [connection_state.go], the options, [flushQueued],
      [prepareReconnect], session ids, and [sendLatest] on a channel with one sender.
    - ManagerRun: the goroutines of the manager as a machine.  A [machine] holds
      the base client, the connection state, the channels, where [Run] is
      ([run_pc]), the write loop of every connection there has been, and what
      was written on it ([mx_wire]); [step] is one atomic step of one goroutine.  A
      request to flush is first taken and then forwarded ([take_flush], [forward]),
      and [sendLatest] on the channel of results is three steps ([publish_step]).
    - ManagerFacts, ManagerPhases: the invariants of the machine.
      ManagerTheorems, ManagerFlush, ManagerOutcomes: its properties.
    - RealtimeClient: [subscription_client.go] and [subscription_handles.go] over
      that machine.  A call of a user is a sequence of steps ([call],
      [call_step]); [ws_step] is a step of a call, of the goroutines of the
      client or of the manager's.
    - RealtimeFacts, RealtimeInvariant: who owns each subscriber.
      RealtimeTheorems, RealtimeUpdates: the properties of the realtime client.
    - OneShot: [QueryValue] and [Query] of [subscription_client.go], a call that makes
      other calls, as a machine over [ws_step] ([query_step]); typed subscriptions.
    - HttpClient: [client_http.go]; the transport is an argument.  HttpTheorems:
      its properties.
    - Addresses: [normalizeDeploymentURL] of [client_options.go] and [WebSocketURL] of
      [websocket_manager.go].
    - Facade: [client_options.go], [client_facade.go], [subscription_options.go]
      and [auth_callback.go]: options, the identities of both clients, the
      realtime client made on first use.  FacadeTheorems: its properties.  FacadeCalls: the methods of [client_facade.go] that pass a call on,
      and where their requests go.  SharedClaims: the maps of claims in a memory that
      the caller shares, and the copy the facade makes.
    - FacadeRun: the methods of [client_facade.go] that use the realtime client, once
      more, as steps over the machine of RealtimeClient.  A [system] holds the fields
      of the facade, any number of realtime clients and any number of calls
      ([facade_call]: where each is); [system_step] is a step of a call, or of a
      realtime client by itself.  FacadeRunFacts: every client is seen to by somebody
      ([attended]).  FacadeLifetimes: who ends which client, and when.
      RealtimeIdentity, FacadeIdentity: changes of the identity at a client, with what
      Facade assumes of the client proved of the model of it, and in the system
      ([one_caller]).  OneIdentity: that both clients act for one caller.
    - FacadeObservers: the observers of the facade's connection state,
      [client_connection_state.go], [connection_state.go] and
      [subscription_connection_state.go].  ObserverTheorems: their properties.
    - JsSource: the reader of JavaScript sources, [infer.go] and
      [stripCommentsAndStrings] of [codegen.go] - comments and strings blanked, result
      types inferred.  JsFacts: that it always ends and never reads out of range.
    - CodeGen: the rest of [codegen.go] and the command
      [convex-go-codegen] over it - the walk over the files, the exported
      functions, the names and the text of the generated package.  CodeGenFacts:
      their properties.
    - TypedRefs: [function_reference.go], and [decodeInto] and its callers in
      [client_http.go].  A client is an instance of the class [QueryClient].  TypedFacts:
      what the references of the code generator return.
    - Maint: what the maintenance commands compute from texts ([bench.go], [release.go],
      the coverage check of [main.go]).  MaintCommands: the commands, in a monad over
      the files and the standard output; everything outside is a record [outside].
      MaintFiles: what the export does to the files.  MaintFacts: what the checks
      of benchmarks, coverage and releases decide.
    - Chat: [examples/realtime_chat/main.go] as an interaction tree ([run]) over the
      calls of the client ([chatE]), and the order it keeps in them.

    ** How state and operations correspond

    A Go function that returns an error is a function into [result].  A method of
    [BaseClient] that changes the client takes it and returns the client after
    the call with what the method returns, also when that is an error: the
    changes made before the error are kept.  The Go maps of the client are
    [gmap]s; where the source ranges over a map it sorts what it collects, and
    so does the model.  The maps hold pointers to queries and requests that are
    reached through the maps alone, so that an update in place is an update of
    the map.  The callbacks of the user are arguments: an optimistic update is a
    tree of the calls it makes on the store ([OptimisticUpdate]), an
    authentication callback an [auth_environment].  A parsed JSON document is a
    tree; its text matters in [canonical.go] alone, which has the text
    ([json_text]).

    ** What the theorems show

    - The session.  The abstract session of ClientSession is a server that reads
      the messages of one connection in order, refuses a version that does not
      continue the last one, a query added twice or removed when absent and a
      request id used twice, and keeps the query set, the identity version and the
      requests.  After any history the messages sent and queued are accepted,
      and the session is what the client believes (client_refines_session).
      A restart rebuilds it from nothing (restart_rebuilds_session).
    - The invariants.  The four maps of the query set agree and every query
      counts its subscribers (query_set_invariant); requests in flight and
      remembered outcomes are disjoint, and no more outcomes are remembered than
      the retention limit allows (requests_invariant); without optimistic
      updates in flight the user sees the results of the server
      (optimism_leaves_no_trace).
    - The identity of queries.  The canonical arguments are a well-formed value whatever
      Go value they come from, tokens are equal exactly for equal paths and arguments
      (query_token_identity in CanonicalFacts), and subscriptions share a query exactly
      then (subscriptions_share_exactly).
    - The operations, on every branch: subscribing and unsubscribing, transitions
      and the mutations they complete, replay order, late answers, refused calls,
      the observed timestamp, iteration over results.
    - The closed system.  In every state of client, network and server no transition is
      refused, and what the client holds are the server's answers at one moment, all
      of them once it has caught up (results_follow_server); from any state with a
      connection the network and the server alone can bring that about
      (results_catch_up).
    - Sending.  Every queued message but Authenticate is encoded and read back
      (queued_messages_sent).
    - The manager.  While the write loop of an ended connection takes nothing more, and
      whatever the interleaving is otherwise, what the connection in use has carried is
      the start of a session the abstract server accepts, and until its write loop
      returns the message being written and the queue complete it to one that ends in
      what the client believes (connection_carries_session); the write loop does what
      [flushQueued] does (write_loop_flushes, flushQueued_spec); while a connection
      stays, the steps of flushing end after a fixed number, in whatever turns, with
      every waiting request answered (flush_answered); failed restarts leave no trace
      (retries_leave_no_trace); the connection state is that of [Run], and the observers
      know it unless their first call is overtaken (connection_state_told).
    - The realtime client.  The open handles of users are the subscribers of the base
      client when no call is on its way (subscriptions_accounted), unsubscribing
      takes a subscriber out once (unsubscribed_once), and a reader gets its result in
      the newest snapshot published, when that has one (readers_get_newest).  A one-shot
      query leaves no subscriber behind and tells what it read (one_shot_cleans_up).
    - The HTTP client.  A call does what the function does on a server that runs it
      (calls_run_functions); a request is repeated once at most, with a new
      token (refused_request_repeated_once); mutations are sent one at a time
      and their queue never jams (mutations_take_turns).
    - The facade.  Both clients have one deployment (both_clients_one_host) and act for
      the same caller, whatever calls and clients overlap under the conditions below
      (one_identity_whatever_overlaps; one_identity in FacadeTheorems for
      methods one after another); no realtime client is forgotten (clients_attended) and
      [Close] can always be brought to its end (close_ends); claims kept for later are
      those of the call (kept_claims_unchanged); every HTTP request goes to that
      deployment (requests_stay_home).  Its
      observers are attached to every realtime client in turn and know its state
      (observers_follow, unsubscribed_observer_silent).
    - The code generator.  Blanking keeps the code and the ends of lines and nothing
      else, of texts without escaped ends of lines and escaped backquotes
      (strip_tokens), the inference of a call without comments and strings ends with a
      known type and slices in range (infer_total), a module yields the functions it
      exports and no other (scan_spec), a reference for each of them (scan_references),
      and the command writes its output file alone (command_writes_output_only), or with
      -check nothing (written_file_checks).  A reference with an inferred type returns
      every result of its kind that JSON can carry (generated_result_decodes).
    - The maintenance commands.  An export changes nothing outside its destination but
      for the directories on the way to it (export_leaves_rest) and, when it succeeds,
      is a copy of the tracked files, with a [.git] if asked (export_copies); benchmarks
      are accepted when both outputs can be read and no metric of the baseline got worse
      by more than the limit, and the verdict is no matter of the order of maps
      (bench_compare_verdict); the coverage is the float nearest to the exact ratio
      (coverage_percent); what a validated release satisfies (release_validated).
    - The example.  However long it runs and whatever its calls return, it uses the
      client as it is meant to be used and gives everything back
      (chat_uses_client_properly).
    - The codecs: round trips of values, messages, timestamps and paths; whatever a
      decoder accepts is encoded, reads back as its normal form and is then written
      the same (decoded_messages_normalise); the bounds of the integer encodings; what
      decoders and validators accept.

    ** Bounds

    The counters of the client are the uint32 and uint64 of the source, with
    their wrap-around.  The theorems on histories are about those of fewer than
    2^32 operations, in which no counter wraps: each operation advances a
    counter by at most one.  Recursion is structural, except for [trim_left_fuel]
    of GoStrings, whose fuel is the length of the string and which drops a byte
    at each step.  The retention limit of completed requests is the constant of
    the source.  Histories start from a new client and make the operations of
    the public interface in any order, with any arguments, messages and
    callbacks.

    The steps of the machines are the accesses to what goroutines share: a critical
    section of a mutex, a send or a receive, a write on a connection.  [runs] and
    [ws_runs] count them, again to fewer than 2^32.  What the transport, the clock and a
    callback reply are arguments of the events.  One assumption restricts the schedules
    of [runs], [no_stale_take]: a write loop whose connection has ended takes no further
    message.  The code does not ensure it, and stale_writer_takes in ManagerOutcomes
    shows a schedule where it does and the session is lost; connection_carries_session
    holds where it does not.  The other properties of the manager and of the realtime
    client are of every schedule, but of the realtime client of those in which the
    program has not panicked.  Another, [first_calls_prompt], is for what observers of
    the connection state know: a new observer is called before the state changes again.
    The code does not ensure that either (first_call_overtaken).  flush_forgotten,
    newest_snapshot_dropped, full_channel_stalls, late_subscribe_panics and
    stale_snapshot_stays are five more schedules that end badly.  flush_answered is
    about a connection that takes what is written and does not end; its measure is
    [work] of ManagerFlush.  A one-shot query makes a context for its clean-up;
    one_shot_cleans_up assumes that this has not ended when [Unsubscribe] looks at it
    first ([ends_fresh_context]).

    The sums of coverage_percent are exact while a hundred times the number of
    statements is below 2^53; the last part of bench_compare_verdict is for values
    below 2^46 and a product of limit and old value below 2^52.

    The schedules of one_identity_whatever_overlaps keep the changes of the identity
    apart ([changes_apart]): a change begins when no other is on its way and no realtime
    client is being made, [realtime] reads the settings when no change is on its way,
    tokens are not empty, an identity to act as names someone and does not follow a nil
    one ([whole]), the options give one identity at most, and the flush of a callback
    that a live client has taken does not fail.  The code ensures none of that:
    overlapping_changes_differ in OneIdentity and, at the end of FacadeTheorems,
    identity_lost_in_race and five uses show the two clients act for different callers
    without it.  clients_attended and close_ends hold
    of every schedule; close_ends takes seven steps at most, two of the call and the rest
    of the client.  The methods of the facade are taken one after another in one_identity
    and observers_follow; at the end of ObserverTheorems is an interleaving that leaves
    an observer behind.  kept_claims_unchanged is about claims without maps and slices
    inside, which [cloneUserIdentityAttributes] shares (nested_claims_shared).

    ** What is not modelled

    - The texts of errors: an error is a constructor with the data its text
      shows.  When several members of a message fail to encode, which of the
      errors is reported.  [MustObjectValue], a panic around [ObjectValue].
    - The lexing of JSON.  Documents are trees, and the members of an object are
      a map; keys passed to the encoder are valid UTF-8, strings that are values
      are not assumed to be ([coerce_utf8]).
    - An optimistic callback that diverges, panics or keeps state of its own
      between replays.
    - Of the manager: the adapter around the WebSocket library with its dialer and
      its socket, and the timers, whose waits take no step.  How long a context of a
      bounded time lasts: it ends at any step.
    - Of net/url: hosts in brackets, whose addresses are checked by net/netip; what they
      are is an argument, [ip_literal].  Of encoding/json: decoding into a type of the
      caller's, an argument of the typed references.
    - Outside SharedClaims maps are values: what the caller does with a map it has
      passed has no effect there.
    - Of the code generator: the tables of package unicode, [strconv.Quote],
      [go/format], the parsing of its flags and the file system, which are arguments.
    - Of the HTTP client: a failure of [http.NewRequestWithContext], and redirects, which
      are within the transport.
    - Of the maintenance commands: what a failed write or [MkdirAll] leaves behind; git
      (of which the theorems on exports assume [git_lists_names] and
      [git_repositories]), gofmt, the environment and faults of the system,
      which are arguments; symbolic links; what goes to the standard error.
    - The re-exports of the package at the root and of [baseclient]: aliases and
      functions of one call, for which the definitions of what they name stand.  What
      the example logs. *)
From stdpp Require Export gmap strings list fin_maps fin_sets sorting.
From Stdlib Require Export ZArith Lia.
#[export] Set Default Goal Selector "!".
#[export] Set Warnings "-register-all,-clear-no-such-hyp".

Local Open Scope Z_scope.

Declare Scope convex_scope.
Delimit Scope convex_scope with convex.

(** ** Fallible code

    A Go function that returns [(T, error)] is a function into [result E T]:
    [Ok v] for a nil error, [Err e] otherwise.  The monad instances give the
    [x ← e; k] notation the early [if err != nil] return of the source. *)
Inductive result (E A : Type) : Type :=
  | Ok (a : A)
  | Err (e : E).
Arguments Ok {E A} a.
Arguments Err {E A} e.

#[export] Instance result_ret (E : Type) : MRet (result E) := fun A a => Ok a.
#[export] Instance result_bind (E : Type) : MBind (result E) :=
  fun A B f m => match m with Ok a => f a | Err e => Err e end.
#[export] Instance result_fmap (E : Type) : FMap (result E) :=
  fun A B f m => match m with Ok a => Ok (f a) | Err e => Err e end.

(** [ensure b e] is the guard [if !b { return e }]. *)
Definition ensure {E : Type} (b : bool) (e : E) : result E unit :=
  if b then Ok tt else Err e.

(** Wrapping an error on its way out ([fmt.Errorf] with [%w]). *)
Definition map_err {E F A : Type} (f : E -> F) (m : result E A) : result F A :=
  match m with Ok a => Ok a | Err e => Err (f e) end.

Definition is_ok {E A : Type} (m : result E A) : bool :=
  match m with Ok _ => true | Err _ => false end.

(** [map_traverse f m] is the loop that encodes every entry of a Go map into a
    new map and stops at the first error. *)
Definition map_traverse {E K : Type} `{Countable K} {A B : Type}
    (f : K -> A -> result E B) (m : gmap K A) : result E (gmap K B) :=
  map_fold (fun k a acc => b ← f k a; m' ← acc; mret (<[k := b]> m')) (mret ∅) m.

(** Every entry of a map passes a test. *)
Definition map_forallb {K : Type} `{Countable K} {A : Type}
    (f : K -> A -> bool) (m : gmap K A) : bool :=
  map_fold (fun k a acc => f k a && acc) true m.

(** ** Machine integers *)

Definition wrap (w : Z) (n : Z) : Z := n mod 2 ^ w.
Definition u32 (n : Z) : Z := wrap 32 n.
Definition u64 (n : Z) : Z := wrap 64 n.

(** Two's complement reading of a [w]-bit word, as in Go's [int64(u)]. *)
Definition signed (w : Z) (n : Z) : Z :=
  let m := wrap w n in if m <? 2 ^ (w - 1) then m else m - 2 ^ w.
Definition i64 (n : Z) : Z := signed 64 n.

Definition in_u32 (n : Z) : bool := (0 <=? n) && (n <? 2 ^ 32).
Definition in_u64 (n : Z) : bool := (0 <=? n) && (n <? 2 ^ 64).
Definition in_i64 (n : Z) : bool := (- 2 ^ 63 <=? n) && (n <? 2 ^ 63).

Definition MaxInt64 : Z := 2 ^ 63 - 1.

(** ** Sorting by an integer key

    The source collects the values of a map in iteration order, which Go leaves
    unspecified, and then calls [sort.Slice] with a comparison on an id. *)
Definition key_le {A : Type} (key : A -> Z) (x y : A) : Prop := key x <= key y.
#[export] Instance key_le_dec {A : Type} (key : A -> Z) : RelDecision (key_le key).
Proof. intros x y. unfold key_le. apply _. Defined.

Definition sort_by {A : Type} (key : A -> Z) (l : list A) : list A :=
  merge_sort (key_le key) l.

(** ** Automation *)

Create HintDb convex discriminated.
Create Rewrite HintDb convex.

(** [inv_ok] opens every hypothesis that says a monadic computation returned. *)
Lemma bind_Ok {E A B : Type} (m : result E A) (f : A -> result E B) (b : B) :
  (m ≫= f) = Ok b <-> exists a, m = Ok a /\ f a = Ok b.
Proof.
  destruct m as [a|e]; cbn; [|split; [done|by intros (? & ? & _)]].
  split; [by exists a|by intros (? & [= ->] & ?)].
Qed.

Lemma ensure_Ok {E : Type} (b : bool) (e : E) (u : unit) :
  ensure b e = Ok u <-> b = true.
Proof. destruct b, u; cbn; naive_solver. Qed.

Lemma map_err_Ok {E F A : Type} (f : E -> F) (m : result E A) (a : A) :
  map_err f m = Ok a <-> m = Ok a.
Proof. destruct m; cbn; split; congruence. Qed.

Ltac inv_ok :=
  repeat match goal with
  | H : (_ ≫= _) = Ok _ |- _ =>
      apply bind_Ok in H; let a := fresh "a" in let Ha := fresh "Ha" in
      destruct H as (a & Ha & H)
  | H : ensure _ _ = Ok _ |- _ => apply ensure_Ok in H
  | H : map_err _ _ = Ok _ |- _ => apply map_err_Ok in H
  | H : mret _ = Ok _ |- _ => injection H as H
  | H : Ok _ = Ok _ |- _ => injection H as H
  | H : Err _ = Ok _ |- _ => discriminate H
  | H : Ok _ = Err _ |- _ => discriminate H
  | x : unit |- _ => destruct x
  end; subst.

(** ** Lists and maps under the error monad *)

Lemma mapM_Ok {E A B : Type} (f : A -> result E B) (l : list A) (k : list B) :
  mapM f l = Ok k <-> Forall2 (fun x y => f x = Ok y) l k.
Proof.
  revert k. induction l as [|x l IH]; intros k; cbn.
  - split; [intros [= <-]; constructor | intros H; by inversion H].
  - split.
    + intros H. inv_ok. constructor; [done|]. by apply IH.
    + intros H. inversion H as [|? y ? k' Hy Hk]; subst.
      rewrite Hy; cbn. by rewrite (proj2 (IH _) Hk).
Qed.

Lemma mapM_Err {E A B : Type} (f : A -> result E B) (l : list A) (e : E) :
  mapM f l = Err e -> exists x, x ∈ l /\ f x = Err e.
Proof.
  induction l as [|x l IH]; cbn; [done|].
  destruct (f x) as [y|e'] eqn:Hx; cbn.
  - destruct (mapM f l); cbn; intros [= ->].
    destruct IH as (x' & ? & ?); [done|]. exists x'. split; [by right|done].
  - intros [= ->]. exists x. split; [by left|done].
Qed.

Lemma mapM_round {E F A B : Type} (f : A -> result E B) (g : B -> result F A) (l : list A) k :
  (forall x y, x ∈ l -> f x = Ok y -> g y = Ok x) ->
  mapM f l = Ok k -> mapM g k = Ok l.
Proof.
  intros Hfg Hf. apply mapM_Ok in Hf. apply mapM_Ok.
  induction Hf as [|x y l k Hxy Hf IH]; constructor.
  - apply Hfg; [by left|done].
  - apply IH. intros x' y' Hx'. apply Hfg. by right.
Qed.

Section map_traverse.
Context {E K : Type} `{Countable K} {A B : Type}.

(** A traversal that succeeds relates the two maps entry by entry, so its
    result does not depend on the iteration order. *)
Lemma map_traverse_Ok_lookup (f : K -> A -> result E B) (m : gmap K A) (m' : gmap K B) :
  map_traverse f m = Ok m' ->
  forall k, match m !! k with
            | Some a => exists b, m' !! k = Some b /\ f k a = Ok b
            | None => m' !! k = None
            end.
Proof.
  revert m'. unfold map_traverse.
  induction m as [|i x m Hi Hfirst IH] using map_first_key_ind; intros m' Hm k.
  - rewrite map_fold_empty in Hm. inv_ok. by rewrite !lookup_empty.
  - rewrite map_fold_insert_first_key in Hm by done. inv_ok. specialize (IH _ Ha0 k).
    destruct (decide (i = k)) as [->|Hne].
    + rewrite !lookup_insert_eq. eauto.
    + rewrite !lookup_insert_ne by done. done.
Qed.

Lemma map_traverse_Ok_intro (f : K -> A -> result E B) (m : gmap K A) (m' : gmap K B) :
  (forall k, match m !! k with
             | Some a => exists b, m' !! k = Some b /\ f k a = Ok b
             | None => m' !! k = None
             end) ->
  map_traverse f m = Ok m'.
Proof.
  revert m'. unfold map_traverse.
  induction m as [|i x m Hi Hfirst IH] using map_first_key_ind; intros m' Hm.
  - rewrite map_fold_empty. cbn. f_equal. apply map_eq. intros k.
    specialize (Hm k). rewrite lookup_empty. cbn in Hm. by rewrite Hm.
  - rewrite map_fold_insert_first_key by done. pose proof (Hm i) as Hmi. rewrite lookup_insert_eq in Hmi.
    destruct Hmi as (b & Hb & Hf). rewrite Hf; cbn.
    rewrite (IH (delete i m')).
    + cbn. f_equal. by apply insert_delete_id.
    + intros k. specialize (Hm k). destruct (decide (i = k)) as [->|Hne].
      * by rewrite Hi, lookup_delete_eq.
      * rewrite lookup_insert_ne in Hm by done. by rewrite lookup_delete_ne.
Qed.

Lemma map_traverse_Ok (f : K -> A -> result E B) (m : gmap K A) (m' : gmap K B) :
  map_traverse f m = Ok m' <->
  forall k, match m !! k with
            | Some a => exists b, m' !! k = Some b /\ f k a = Ok b
            | None => m' !! k = None
            end.
Proof. split; [apply map_traverse_Ok_lookup | apply map_traverse_Ok_intro]. Qed.

(** A traversal fails exactly with the error of one of the entries. *)
Lemma map_traverse_Err (f : K -> A -> result E B) (m : gmap K A) e :
  map_traverse f m = Err e -> exists k a, m !! k = Some a /\ f k a = Err e.
Proof.
  unfold map_traverse.
  induction m as [|i x m Hi Hfirst IH] using map_first_key_ind; intros Hm.
  - by rewrite map_fold_empty in Hm.
  - rewrite map_fold_insert_first_key in Hm by done. destruct (f i x) as [b|e'] eqn:Hf; cbn in Hm.
    + destruct (map_fold _ _ m) as [m'|e''] eqn:Hm'; cbn in Hm; [done|].
      injection Hm as ->. destruct IH as (k & a & Hk & Hfk); [done|].
      exists k, a. rewrite lookup_insert_ne by naive_solver. done.
    + injection Hm as ->. exists i, x. by rewrite lookup_insert_eq.
Qed.

Lemma map_traverse_singleton (f : K -> A -> result E B) k a :
  map_traverse f {[k := a]} = (b ← f k a; mret {[k := b]}).
Proof. unfold map_traverse. rewrite map_fold_singleton. by destruct (f k a). Qed.

Lemma map_traverse_insert (f : K -> A -> result E B) k a b (m : gmap K A) (m' : gmap K B) :
  f k a = Ok b -> map_traverse f m = Ok m' -> map_traverse f (<[k := a]> m) = Ok (<[k := b]> m').
Proof.
  rewrite !map_traverse_Ok. intros Hb Hm k'. destruct (decide (k = k')) as [<-|Hne].
  - rewrite !lookup_insert_eq. eauto.
  - rewrite !lookup_insert_ne by done. apply Hm.
Qed.

Lemma map_traverse_total (f : K -> A -> result E B) (m : gmap K A) :
  (forall k a, m !! k = Some a -> exists b, f k a = Ok b) ->
  exists m', map_traverse f m = Ok m'.
Proof.
  intros Hf. destruct (map_traverse f m) as [m'|e] eqn:Hm; [eauto|].
  apply map_traverse_Err in Hm as (k & a & Hk & He).
  destruct (Hf k a Hk). congruence.
Qed.
End map_traverse.

Lemma map_traverse_round {E F K : Type} `{Countable K} {A B : Type}
    (f : K -> A -> result E B) (g : K -> B -> result F A) (m : gmap K A) (m' : gmap K B) :
  (forall k a b, m !! k = Some a -> f k a = Ok b -> g k b = Ok a) ->
  map_traverse f m = Ok m' -> map_traverse g m' = Ok m.
Proof.
  intros Hfg Hm. apply map_traverse_Ok. intros k.
  pose proof (map_traverse_Ok_lookup _ _ _ Hm k) as Hk.
  destruct (m !! k) as [a|] eqn:Ha.
  - destruct Hk as (b & -> & Hb). eauto.
  - by rewrite Hk.
Qed.

Lemma map_traverse_size {E K : Type} `{Countable K} {A B : Type}
    (f : K -> A -> result E B) (m : gmap K A) (m' : gmap K B) :
  map_traverse f m = Ok m' -> dom m' = dom m.
Proof.
  intros Hm. apply set_eq. intros k. rewrite !elem_of_dom.
  pose proof (map_traverse_Ok_lookup _ _ _ Hm k) as Hk.
  destruct (m !! k); [destruct Hk as (? & -> & _)|rewrite Hk]; split; intros []; eauto; done.
Qed.

Lemma map_forallb_true {K : Type} `{Countable K} {A : Type}
    (f : K -> A -> bool) (m : gmap K A) :
  map_forallb f m = true <-> forall k a, m !! k = Some a -> f k a = true.
Proof.
  unfold map_forallb. induction m as [|i x m Hi Hfirst IH] using map_first_key_ind.
  - rewrite map_fold_empty. split; [|done]. intros _ k a. by rewrite lookup_empty.
  - rewrite map_fold_insert_first_key, andb_true_iff, IH by done. split.
    + intros [Hx Hm] k a [[-> ->]|[_ Hk]]%lookup_insert_Some; eauto.
    + intros Hall. split; [apply Hall; by rewrite lookup_insert_eq|].
      intros k a Hk. apply Hall. rewrite lookup_insert_ne by congruence. done.
Qed.

Lemma map_forallb_ext {K : Type} `{Countable K} {A : Type}
    (f g : K -> A -> bool) (m : gmap K A) :
  (forall k a, m !! k = Some a -> f k a = g k a) -> map_forallb f m = map_forallb g m.
Proof.
  intros Hfg. apply eq_true_iff_eq. rewrite !map_forallb_true.
  split; intros Hm k a Hk; specialize (Hm k a Hk); specialize (Hfg k a Hk); congruence.
Qed.

Lemma is_ok_true {E A : Type} (m : result E A) : is_ok m = true <-> exists a, m = Ok a.
Proof. destruct m as [a|e]; cbn; split; try done; [by exists a|by intros [? ?]]. Qed.

Lemma is_ok_mapM {E A B : Type} (f : A -> result E B) (l : list A) :
  is_ok (mapM f l) = forallb (fun x => is_ok (f x)) l.
Proof.
  induction l as [|x l IH]; cbn; [done|]. rewrite <- IH.
  destruct (f x); cbn; [|done]. by destruct (mapM f l).
Qed.

Lemma is_ok_traverse {E K : Type} `{Countable K} {A B : Type}
    (f : K -> A -> result E B) (m : gmap K A) :
  is_ok (map_traverse f m) = map_forallb (fun k a => is_ok (f k a)) m.
Proof.
  apply eq_true_iff_eq. rewrite map_forallb_true, is_ok_true. split.
  - intros [m' Hm'] k a Hk. pose proof (map_traverse_Ok_lookup _ _ _ Hm' k) as Hl.
    rewrite Hk in Hl. destruct Hl as (b & _ & ->). done.
  - intros Hf. apply map_traverse_total. intros k a Hk. by apply is_ok_true, Hf.
Qed.

Lemma forallb_ext_in {A : Type} (f g : A -> bool) (l : list A) :
  (forall x, x ∈ l -> f x = g x) -> forallb f l = forallb g l.
Proof.
  induction l as [|x l IH]; intros Hfg; cbn; [done|].
  rewrite Hfg by (by left). f_equal. apply IH. intros y Hy. apply Hfg. by right.
Qed.

(** The largest measure of an entry, for inductions on nested maps. *)
Definition map_total {K : Type} `{Countable K} {A : Type} (f : A -> nat) (m : gmap K A) : nat :=
  map_fold (fun _ a acc => f a + acc)%nat O m.

Lemma map_total_le {K : Type} `{Countable K} {A : Type} (f : A -> nat) (m : gmap K A) k a :
  m !! k = Some a -> (f a <= map_total f m)%nat.
Proof.
  unfold map_total. revert k a.
  induction m as [|i x m Hi Hfirst IH] using map_first_key_ind; intros k a.
  - by rewrite lookup_empty.
  - rewrite map_fold_insert_first_key by done.
    intros [[-> ->]|[_ Hk]]%lookup_insert_Some; [lia|]. specialize (IH _ _ Hk). lia.
Qed.

(** ** Machine integers: the facts the components share *)

Lemma in_u32_spec n : in_u32 n = true <-> 0 <= n < 2 ^ 32.
Proof. unfold in_u32. lia. Qed.
Lemma in_u64_spec n : in_u64 n = true <-> 0 <= n < 2 ^ 64.
Proof. unfold in_u64. lia. Qed.
Lemma in_i64_spec n : in_i64 n = true <-> - 2 ^ 63 <= n < 2 ^ 63.
Proof. unfold in_i64. lia. Qed.

Lemma wrap_small w n : 0 <= n < 2 ^ w -> wrap w n = n.
Proof. intros. unfold wrap. by apply Z.mod_small. Qed.

Lemma wrap_range w n : 0 <= w -> 0 <= wrap w n < 2 ^ w.
Proof. intros. unfold wrap. apply Z.mod_pos_bound. by apply Z.pow_pos_nonneg. Qed.

Lemma i64_u64 n : in_i64 n = true -> i64 (u64 n) = n.
Proof.
  rewrite in_i64_spec. unfold i64, u64, signed, wrap. intros Hn.
  rewrite Zmod_mod. destruct (Z.ltb_spec (n mod 2 ^ 64) (2 ^ (64 - 1))) as [Hlt|Hge];
    change (2 ^ (64 - 1)) with (2 ^ 63) in *; Z.to_euclidean_division_equations; lia.
Qed.

Lemma i64_range n : in_i64 (i64 n) = true.
Proof.
  rewrite in_i64_spec. unfold i64, signed, wrap.
  change (2 ^ (64 - 1)) with (2 ^ 63).
  pose proof (Z.mod_pos_bound n (2 ^ 64) ltac:(lia)).
  destruct (Z.ltb_spec (n mod 2 ^ 64) (2 ^ 63)); lia.
Qed.

#[export] Hint Resolve i64_range wrap_range : convex.

(** ** Sorting: the order in which a map was iterated does not matter *)

#[export] Instance key_le_total {A : Type} (key : A -> Z) : Total (key_le key).
Proof. intros x y. unfold key_le. lia. Qed.
#[export] Instance key_le_trans {A : Type} (key : A -> Z) : Transitive (key_le key).
Proof. intros x y z. unfold key_le. lia. Qed.

Lemma sort_by_perm {A : Type} (key : A -> Z) (l : list A) : sort_by key l ≡ₚ l.
Proof. apply merge_sort_Permutation. Qed.

Lemma sort_by_elem {A : Type} (key : A -> Z) (l : list A) x : x ∈ sort_by key l <-> x ∈ l.
Proof. by rewrite sort_by_perm. Qed.

Lemma sort_by_sorted {A : Type} (key : A -> Z) (l : list A) :
  StronglySorted (key_le key) (sort_by key l).
Proof. apply (StronglySorted_merge_sort (key_le key)). Qed.

(** Two enumerations of the same elements sort to the same list as soon as the
    key separates the elements. *)
Lemma sort_by_unique {A : Type} (key : A -> Z) (l1 l2 : list A) :
  (forall x y, x ∈ l1 -> y ∈ l1 -> key x = key y -> x = y) ->
  l1 ≡ₚ l2 -> sort_by key l1 = sort_by key l2.
Proof.
  intros Hinj Hp. apply (StronglySorted_unique_strong (key_le key)).
  - intros x y Hx Hy Hxy Hyx. unfold key_le in *. rewrite sort_by_elem in Hx, Hy.
    rewrite <- Hp in Hy. apply Hinj; [done..|lia].
  - apply sort_by_sorted.
  - apply sort_by_sorted.
  - by rewrite !sort_by_perm.
Qed.
