(* ===== verification/GoStrings.v ===== *)
(** * Go strings and slash-separated paths

    The parts of the Go packages [strings] and [path] that the module uses.  A
    Go string is a sequence of bytes; here it is a [string], a sequence of
    [ascii] codes between 0 and 255, so the definitions work byte by byte as
    the Go functions do. *)
From S2P Require Import Prelude.
From Stdlib Require Import Ascii.
Local Open Scope Z_scope.

(** The numeric value of a byte. *)
Definition code (c : ascii) : Z := Z.of_N (N_of_ascii c).
Definition chr (n : Z) : ascii := ascii_of_N (Z.to_N n).
Definition str1 (c : ascii) : string := String c "".
Definition byte_in (lo hi : Z) (c : ascii) : bool := (lo <=? code c) && (code c <=? hi).

(** [strings.HasPrefix], [strings.HasSuffix] and [strings.TrimSuffix]. *)
Fixpoint has_prefix (p s : string) : bool :=
  match p, s with
  | "", _ => true
  | String a p', String b s' => if decide (a = b) then has_prefix p' s' else false
  | String _ _, "" => false
  end.

Fixpoint drop_bytes (n : nat) (s : string) : string :=
  match n, s with
  | O, _ => s
  | S n', String _ s' => drop_bytes n' s'
  | S _, "" => ""
  end.

Fixpoint take_bytes (n : nat) (s : string) : string :=
  match n, s with
  | S n', String c s' => String c (take_bytes n' s')
  | _, _ => ""
  end.

Definition has_suffix (p s : string) : bool :=
  (String.length p <=? String.length s)%nat &&
  bool_decide (drop_bytes (String.length s - String.length p) s = p).

Definition trim_suffix (s p : string) : string :=
  if has_suffix p s then take_bytes (String.length s - String.length p) s else s.

Definition trim_prefix (s p : string) : string :=
  if has_prefix p s then drop_bytes (String.length p) s else s.

(** [strings.Contains]. *)
Fixpoint contains (sub s : string) : bool :=
  has_prefix sub s ||
  match s with "" => false | String _ s' => contains sub s' end.

(** [strings.Split] with a one-byte separator: never the empty list. *)
Fixpoint split_on (sep : ascii) (s : string) : list string :=
  match s with
  | "" => [""]
  | String c r =>
      if decide (c = sep) then "" :: split_on sep r
      else match split_on sep r with
           | h :: t => String c h :: t
           | [] => [str1 c]
           end
  end.

(** [strings.Join] with a one-byte separator. *)
Fixpoint join_with (sep : ascii) (l : list string) : string :=
  match l with
  | [] => ""
  | [x] => x
  | x :: r => x +:+ String sep (join_with sep r)
  end.

(** [strings.Cut]: what is before and after the first separator. *)
Fixpoint cut (sep : ascii) (s : string) : option (string * string) :=
  match s with
  | "" => None
  | String c r =>
      if decide (c = sep) then Some ("", r)
      else match cut sep r with
           | Some (a, b) => Some (String c a, b)
           | None => None
           end
  end.

(** Before and after the last separator, where [strings.LastIndex] finds it. *)
Fixpoint cut_last (sep : ascii) (s : string) : option (string * string) :=
  match s with
  | "" => None
  | String c r =>
      match cut_last sep r with
      | Some (a, b) => Some (String c a, b)
      | None => if decide (c = sep) then Some ("", r) else None
      end
  end.

(** [strings.ReplaceAll] of one byte by another. *)
Fixpoint replace_byte (a b : ascii) (s : string) : string :=
  match s with
  | "" => ""
  | String c r => String (if decide (c = a) then b else c) (replace_byte a b r)
  end.

Fixpoint all_bytes (f : ascii -> bool) (s : string) : bool :=
  match s with "" => true | String c r => f c && all_bytes f r end.

Fixpoint any_byte (f : ascii -> bool) (s : string) : bool :=
  match s with "" => false | String c r => f c || any_byte f r end.

(** [strings.TrimSpace].  White space is Unicode's: the six ASCII blanks and
    the UTF-8 encodings of U+0085, U+00A0, U+1680, U+2000 to U+200A, U+2028,
    U+2029, U+202F, U+205F and U+3000. *)
Definition bytes_str (l : list Z) : string :=
  foldr (fun n s => String (chr n) s) "" l.

Definition space_encodings : list string :=
  map bytes_str
    ([[9]; [10]; [11]; [12]; [13]; [32]; [194; 133]; [194; 160]; [225; 154; 128]]
     ++ map (fun k => [226; 128; 128 + Z.of_nat k]) (seq 0 11)
     ++ [[226; 128; 168]; [226; 128; 169]; [226; 128; 175]; [226; 129; 159]; [227; 128; 128]]).

Fixpoint trim_left_fuel (fuel : nat) (enc : list string) (s : string) : string :=
  match fuel with
  | O => s
  | S fuel' =>
      match List.find (fun e => has_prefix e s) enc with
      | Some e => trim_left_fuel fuel' enc (drop_bytes (String.length e) s)
      | None => s
      end
  end.

(** Each round of [trim_left_fuel] removes at least one byte, so the length of
    the string is fuel enough. *)
Definition trim_left (s : string) : string :=
  trim_left_fuel (String.length s) space_encodings s.
Definition trim_right (s : string) : string :=
  String.rev (trim_left_fuel (String.length s) (map String.rev space_encodings) (String.rev s)).
Definition trim_space (s : string) : string := trim_right (trim_left s).

(** ** Package [path] *)

(** One component of [path.Clean] on a relative path: empty components and
    ["."] vanish, [".."] removes the component before it, or stays when there
    is none to remove.  The stack holds the components, last first. *)
Definition clean_step (stack : list string) (part : string) : list string :=
  if decide (part = "" \/ part = ".") then stack
  else if decide (part = "..") then
    match stack with
    | top :: rest => if decide (top = "..") then part :: stack else rest
    | [] => [part]
    end
  else part :: stack.

Definition clean_parts (parts : list string) : list string :=
  rev (fold_left clean_step parts []).

(** [path.Clean] of a non-empty path: a rooted path keeps its leading slash and
    loses the [".."] components at its root. *)
Definition path_clean (s : string) : string :=
  let parts := clean_parts (split_on "/" s) in
  if has_prefix "/" s then
    String "/" (join_with "/" (filter (fun p => p <> "..") parts))
  else
    match parts with
    | [] => "."
    | _ => join_with "/" parts
    end.

(** [path.IsAbs]. *)
Definition path_is_abs (s : string) : bool := has_prefix "/" s.

(** [path.Ext]: from the last dot of the last component on, or nothing. *)
Definition path_base (s : string) : string :=
  match cut_last "/" s with Some (_, b) => b | None => s end.
Definition path_ext (s : string) : string :=
  match cut_last "." (path_base s) with
  | Some (_, e) => String "." e
  | None => ""
  end.

(** ** Facts *)

Lemma code_range c : 0 <= code c < 256.
Proof. destruct c as [[] [] [] [] [] [] [] []]; vm_compute; split; congruence. Qed.
Lemma code_chr n : 0 <= n < 256 -> code (chr n) = n.
Proof. intros Hn. unfold code, chr. rewrite N_ascii_embedding by lia. lia. Qed.
Lemma chr_code c : chr (code c) = c.
Proof. unfold code, chr. rewrite N2Z.id. apply ascii_N_embedding. Qed.

#[local] Arguments String.append !_ _ /.

Lemma str_app_nil_r s : s +:+ "" = s.
Proof. induction s as [|c s IH]; [done|]. cbn. by f_equal. Qed.

Lemma str_app_assoc a b c : (a +:+ b) +:+ c = a +:+ b +:+ c.
Proof. induction a as [|x a IH]; [done|]. cbn. by f_equal. Qed.

Lemma str_length_app a b : String.length (a +:+ b) = (String.length a + String.length b)%nat.
Proof. induction a as [|x a IH]; [done|]. cbn. by f_equal. Qed.

Lemma drop_bytes_app a b : drop_bytes (String.length a) (a +:+ b) = b.
Proof. by induction a. Qed.

Lemma take_bytes_app a b : take_bytes (String.length a) (a +:+ b) = a.
Proof. induction a as [|x a IH]; [by destruct b|]. cbn. by f_equal. Qed.

Lemma take_drop_bytes n s : take_bytes n s +:+ drop_bytes n s = s.
Proof. revert s. induction n as [|n IH]; intros [|c s]; try done. cbn. f_equal. apply IH. Qed.

Lemma drop_bytes_length n s : String.length (drop_bytes n s) = (String.length s - n)%nat.
Proof. revert s. induction n as [|n IH]; intros [|c s]; try done. apply IH. Qed.
Lemma take_bytes_length n s : String.length (take_bytes n s) = Nat.min n (String.length s).
Proof. revert s. induction n as [|n IH]; intros [|c s]; try done. cbn. by rewrite IH. Qed.

Lemma has_suffix_app a p : has_suffix p (a +:+ p) = true.
Proof.
  unfold has_suffix. rewrite str_length_app.
  replace (String.length a + String.length p - String.length p)%nat
    with (String.length a) by lia.
  rewrite drop_bytes_app, bool_decide_eq_true_2 by done.
  apply andb_true_iff. split; [apply Nat.leb_le; lia|done].
Qed.

Lemma trim_suffix_app a p : trim_suffix (a +:+ p) p = a.
Proof.
  unfold trim_suffix. rewrite has_suffix_app, str_length_app.
  replace (String.length a + String.length p - String.length p)%nat
    with (String.length a) by lia.
  apply take_bytes_app.
Qed.

Lemma has_suffix_split p s : has_suffix p s = true -> exists a, s = a +:+ p.
Proof.
  unfold has_suffix. rewrite andb_true_iff, bool_decide_eq_true.
  intros [_ Hd]. exists (take_bytes (String.length s - String.length p) s).
  rewrite <- Hd at 2. symmetry. apply take_drop_bytes.
Qed.

Lemma any_all_bytes f s : any_byte f s = negb (all_bytes (fun c => negb (f c)) s).
Proof.
  induction s as [|c s IH]; [done|]. cbn. rewrite IH, negb_andb, negb_involutive. done.
Qed.

Lemma all_bytes_app f a b : all_bytes f (a +:+ b) = all_bytes f a && all_bytes f b.
Proof. induction a as [|x a IH]; [done|]. cbn. by rewrite IH, andb_assoc. Qed.

Lemma any_byte_app f a b : any_byte f (a +:+ b) = any_byte f a || any_byte f b.
Proof. induction a as [|x a IH]; [done|]. cbn. by rewrite IH, orb_assoc. Qed.

(** *** Splitting and joining *)

Definition lacks (sep : ascii) (s : string) : bool :=
  all_bytes (fun c => negb (bool_decide (c = sep))) s.

Lemma lacks_cons sep c s : lacks sep (String c s) = true <-> c <> sep /\ lacks sep s = true.
Proof.
  unfold lacks. cbn. rewrite andb_true_iff, negb_true_iff, bool_decide_eq_false. done.
Qed.

Lemma split_on_nonempty sep s : split_on sep s <> [].
Proof. destruct s as [|c s]; cbn; [done|]. case_decide; [done|]. by destruct (split_on sep s). Qed.

Lemma split_on_lacks sep s : Forall (fun p => lacks sep p = true) (split_on sep s).
Proof.
  induction s as [|c s IH]; cbn; [by constructor|]. case_decide as Hc; [by constructor|].
  destruct (split_on sep s) as [|h t]; inversion IH; subst; repeat constructor; try done.
  - by apply lacks_cons.
  - by apply lacks_cons.
Qed.

Lemma join_split sep s : join_with sep (split_on sep s) = s.
Proof.
  induction s as [|c s IH]; cbn; [done|]. case_decide as Hc.
  - subst c. destruct (split_on sep s) as [|h t] eqn:Hs; [by destruct (split_on_nonempty sep s)|].
    by rewrite <- IH.
  - destruct (split_on sep s) as [|h t] eqn:Hs; [by destruct (split_on_nonempty sep s)|].
    rewrite <- IH. by destruct t.
Qed.

Lemma split_lacks sep s : lacks sep s = true -> split_on sep s = [s].
Proof.
  induction s as [|c s IH]; [done|]. rewrite lacks_cons. intros [Hc Hs]. cbn.
  rewrite decide_False by done. by rewrite IH.
Qed.

Lemma split_app_sep sep a b :
  lacks sep a = true -> split_on sep (a +:+ String sep b) = a :: split_on sep b.
Proof.
  induction a as [|c a IH].
  - intros _. cbn. by rewrite decide_True.
  - rewrite lacks_cons. intros [Hc Ha]. cbn. rewrite decide_False by done. by rewrite IH.
Qed.

Lemma split_on_app sep a b :
  split_on sep (a +:+ String sep b) = split_on sep a ++ split_on sep b.
Proof.
  induction a as [|c a IH]; cbn.
  - by rewrite decide_True.
  - case_decide as Hc; cbn.
    + f_equal. apply IH.
    + change (String.append a (String sep b)) with (a +:+ String sep b). rewrite IH.
      by destruct (split_on sep a) as [|h t] eqn:E; [destruct (split_on_nonempty sep a)|].
Qed.

Lemma has_prefix_split p s : has_prefix p s = true -> exists r, s = p +:+ r.
Proof.
  revert s. induction p as [|a p IH]; intros s; cbn; [by eexists|].
  destruct s as [|b s]; [done|]. case_decide; [|done]. subst b.
  intros [r ->]%IH. by exists r.
Qed.

Lemma has_prefix_app p r : has_prefix p (p +:+ r) = true.
Proof. induction p as [|a p IH]; [done|]. cbn. by rewrite decide_True. Qed.

Lemma contains_split sub s : contains sub s = true -> exists a b, s = a +:+ sub +:+ b.
Proof.
  induction s as [|c s IH]; cbn; intros [H|H]%orb_true_iff.
  - apply has_prefix_split in H as [r Hr]. by exists "", r.
  - done.
  - apply has_prefix_split in H as [r Hr]. by exists "", r.
  - apply IH in H as (a & b & ->). by exists (String c a), b.
Qed.

Lemma split_join sep l :
  l <> [] -> Forall (fun p => lacks sep p = true) l -> split_on sep (join_with sep l) = l.
Proof.
  intros Hne Hl. induction Hl as [|x l Hx Hl IH]; [done|].
  destruct l as [|y l]; cbn.
  - by apply split_lacks.
  - rewrite split_app_sep by done. f_equal. by apply IH.
Qed.

#[global] Arguments lacks : simpl never.

Lemma cut_last_lacks sep s : lacks sep s = true -> cut_last sep s = None.
Proof.
  induction s as [|c s IH]; [done|]. rewrite lacks_cons. intros [Hc Hs]. cbn.
  rewrite IH by done. by rewrite decide_False.
Qed.

Lemma cut_last_app sep a b :
  lacks sep b = true -> cut_last sep (a +:+ String sep b) = Some (a, b).
Proof.
  intros Hb. induction a as [|c a IH]; cbn.
  - rewrite cut_last_lacks by done. by rewrite decide_True.
  - change (String.append a (String sep b)) with (a +:+ String sep b). by rewrite IH.
Qed.

Lemma cut_last_Some sep s a b :
  cut_last sep s = Some (a, b) -> s = a +:+ String sep b /\ lacks sep b = true.
Proof.
  revert a. induction s as [|c s IH]; intros a; cbn; [done|].
  destruct (cut_last sep s) as [[a' b']|] eqn:Hs.
  - intros [= <- <-]. destruct (IH a' eq_refl) as [-> ?]. done.
  - case_decide as Hc; [|done]. intros [= <- <-]. subst c. split; [done|].
    clear IH. induction s as [|c s IH]; [done|]. cbn in Hs.
    destruct (cut_last sep s) as [[]|]; [done|]. case_decide; [done|].
    apply lacks_cons. auto.
Qed.

Lemma cut_last_None sep s : cut_last sep s = None -> lacks sep s = true.
Proof.
  induction s as [|c s IH]; [done|]. cbn.
  destruct (cut_last sep s) as [[]|]; [done|]. case_decide; [done|].
  intros _. apply lacks_cons. auto.
Qed.

#[export] Hint Resolve split_on_lacks split_on_nonempty : convex.
