(* ===== verification/GoBytes.v ===== *)
(** * Byte slices, little-endian words and base64

    A Go [[]byte] is a [list byte].  [encoding/binary]'s little-endian 64-bit
    accessors and [encoding/base64]'s standard and URL alphabets are the parts
    of the Go library the wire encodings of [internal/core/value.go] and
    [internal/syncprotocol/sync_protocol.go] rely on. *)
From S2P Require Import Prelude GoStrings.
From Stdlib Require Import Ascii Strings.Byte.
Local Open Scope Z_scope.

#[export] Instance byte_eq_dec : EqDecision byte := Byte.byte_eq_dec.

Definition byteZ (b : byte) : Z := Z.of_N (Byte.to_N b).
Definition Zbyte (n : Z) : byte :=
  match Byte.of_N (Z.to_N (n mod 256)) with Some b => b | None => x00 end.

(** [binary.LittleEndian.PutUint64] and [Uint64], for any number of bytes. *)
Fixpoint le_put (n : nat) (w : Z) : list byte :=
  match n with
  | O => []
  | S n' => Zbyte w :: le_put n' (w / 256)
  end.

Fixpoint le_get (l : list byte) : Z :=
  match l with
  | [] => 0
  | b :: r => byteZ b + 256 * le_get r
  end.

(** ** Base64 *)

(** An alphabet gives the character of each 6-bit value; decoding searches it. *)
Definition alphabet_of (c62 c63 : Z) : list Z :=
  map (fun k => 65 + Z.of_nat k) (seq 0 26) ++ map (fun k => 97 + Z.of_nat k) (seq 0 26)
  ++ map (fun k => 48 + Z.of_nat k) (seq 0 10) ++ [c62; c63].
Definition std_alphabet : list Z := alphabet_of 43 47.
Definition url_alphabet : list Z := alphabet_of 45 95.

Definition sextet_char (alphabet : list Z) (v : Z) : ascii :=
  chr (nth (Z.to_nat v) alphabet 0).

Fixpoint index_from (i : Z) (l : list Z) (x : Z) : option Z :=
  match l with
  | [] => None
  | y :: r => if y =? x then Some i else index_from (i + 1) r x
  end.
Definition char_sextet (alphabet : list Z) (c : ascii) : option Z :=
  index_from 0 alphabet (code c).

Definition pad : ascii := "=".

(** [base64.StdEncoding.EncodeToString]: three bytes give four characters, the
    last group is padded. *)
Fixpoint b64_encode (alphabet : list Z) (l : list byte) : string :=
  match l with
  | [] => ""
  | [a] =>
      let x := byteZ a in
      String (sextet_char alphabet (x / 4))
        (String (sextet_char alphabet (x mod 4 * 16)) (String pad (String pad "")))
  | [a; b] =>
      let x := byteZ a in let y := byteZ b in
      String (sextet_char alphabet (x / 4))
        (String (sextet_char alphabet (x mod 4 * 16 + y / 16))
           (String (sextet_char alphabet (y mod 16 * 4)) (String pad "")))
  | a :: b :: c :: r =>
      let x := byteZ a in let y := byteZ b in let z := byteZ c in
      String (sextet_char alphabet (x / 4))
        (String (sextet_char alphabet (x mod 4 * 16 + y / 16))
           (String (sextet_char alphabet (y mod 16 * 4 + z / 64))
              (String (sextet_char alphabet (z mod 64)) (b64_encode alphabet r))))
  end.

(** [DecodeString] drops carriage returns and line feeds wherever they stand. *)
Fixpoint drop_newlines (s : string) : string :=
  match s with
  | "" => ""
  | String c r => if (code c =? 10) || (code c =? 13) then drop_newlines r
                  else String c (drop_newlines r)
  end.

(** The decoder on four-character groups.  Padding may only close the last
    group, and the unused low bits of that group are ignored, as the default
    (not strict) Go decoder does. *)
Fixpoint b64_groups (alphabet : list Z) (s : string) : option (list byte) :=
  match s with
  | "" => Some []
  | String c1 (String c2 (String c3 (String c4 r))) =>
      v1 ← char_sextet alphabet c1;
      v2 ← char_sextet alphabet c2;
      if decide (c3 = pad) then
        if decide (c4 = pad /\ r = "") then Some [Zbyte (v1 * 4 + v2 / 16)] else None
      else
        v3 ← char_sextet alphabet c3;
        if decide (c4 = pad) then
          if decide (r = "")
          then Some [Zbyte (v1 * 4 + v2 / 16); Zbyte (v2 mod 16 * 16 + v3 / 4)] else None
        else
          v4 ← char_sextet alphabet c4;
          rest ← b64_groups alphabet r;
          Some (Zbyte (v1 * 4 + v2 / 16) :: Zbyte (v2 mod 16 * 16 + v3 / 4)
                :: Zbyte (v3 mod 4 * 64 + v4) :: rest)
  | _ => None
  end.

Definition b64_decode (alphabet : list Z) (s : string) : option (list byte) :=
  b64_groups alphabet (drop_newlines s).

(** ** Facts *)

Lemma byteZ_range b : 0 <= byteZ b < 256.
Proof. unfold byteZ. pose proof (Byte.to_N_bounded b). lia. Qed.

Lemma Zbyte_byteZ b : Zbyte (byteZ b) = b.
Proof.
  unfold Zbyte. rewrite Z.mod_small by apply byteZ_range.
  unfold byteZ. by rewrite N2Z.id, Byte.of_to_N.
Qed.

Lemma Zbyte_eq n b : n mod 256 = byteZ b -> Zbyte n = b.
Proof.
  intros Hn. rewrite <- (Zbyte_byteZ b), <- Hn. unfold Zbyte. by rewrite Zmod_mod.
Qed.

Lemma byteZ_Zbyte n : byteZ (Zbyte n) = n mod 256.
Proof.
  unfold Zbyte, byteZ. pose proof (Z.mod_pos_bound n 256 ltac:(lia)).
  destruct (Byte.of_N (Z.to_N (n mod 256))) as [b|] eqn:Hb.
  - apply Byte.to_of_N in Hb. rewrite Hb. by rewrite Z2N.id by lia.
  - apply Byte.of_N_None_iff in Hb. lia.
Qed.

Lemma le_put_length n w : length (le_put n w) = n.
Proof. revert w. induction n as [|n IH]; intros w; cbn; [done|by rewrite IH]. Qed.

Lemma le_get_range l : 0 <= le_get l < 256 ^ Z.of_nat (length l).
Proof.
  induction l as [|b l IH]; cbn [le_get length]; [lia|].
  rewrite Nat2Z.inj_succ, Z.pow_succ_r by lia.
  pose proof (byteZ_range b). nia.
Qed.

Lemma le_get_put n w : le_get (le_put n w) = w mod 256 ^ Z.of_nat n.
Proof.
  revert w. induction n as [|n IH]; intros w; cbn [le_put le_get].
  - by rewrite Z.mod_1_r.
  - rewrite IH, byteZ_Zbyte, Nat2Z.inj_succ, Z.pow_succ_r by lia.
    rewrite Z.rem_mul_r by lia. lia.
Qed.

Lemma le_put_get l : le_put (length l) (le_get l) = l.
Proof.
  induction l as [|b l IH]; [done|]. cbn [le_get length le_put].
  pose proof (byteZ_range b). f_equal.
  - apply Zbyte_eq. Z.to_euclidean_division_equations; lia.
  - replace ((byteZ b + 256 * le_get l) / 256) with (le_get l); [done|].
    Z.to_euclidean_division_equations; lia.
Qed.

(** *** The alphabets are injective *)

Definition alphabet_ok (alphabet : list Z) : bool :=
  forallb (fun k => let c := sextet_char alphabet (Z.of_nat k) in
    bool_decide (char_sextet alphabet c = Some (Z.of_nat k)) &&
    negb (bool_decide (c = pad)) && negb (code c =? 10) && negb (code c =? 13) &&
    byte_in 0 127 c) (seq 0 64).

Lemma std_alphabet_ok : alphabet_ok std_alphabet = true.
Proof. vm_compute. reflexivity. Qed.
Lemma url_alphabet_ok : alphabet_ok url_alphabet = true.
Proof. vm_compute. reflexivity. Qed.

Section base64.
Context (alphabet : list Z) (Hok : alphabet_ok alphabet = true).

Lemma sextet_facts v : 0 <= v < 64 ->
  char_sextet alphabet (sextet_char alphabet v) = Some v /\
  sextet_char alphabet v <> pad /\
  code (sextet_char alphabet v) <> 10 /\ code (sextet_char alphabet v) <> 13 /\
  byte_in 0 127 (sextet_char alphabet v) = true.
Proof.
  intros Hv. unfold alphabet_ok in Hok. rewrite forallb_forall in Hok.
  specialize (Hok (Z.to_nat v)). rewrite Z2Nat.id in Hok by lia.
  rewrite !andb_true_iff, bool_decide_eq_true, !negb_true_iff, bool_decide_eq_false,
    !Z.eqb_neq in Hok.
  destruct Hok as [[[[? ?] ?] ?] ?]; [apply in_seq; lia|]. done.
Qed.

Lemma char_sextet_char v : 0 <= v < 64 ->
  char_sextet alphabet (sextet_char alphabet v) = Some v.
Proof. intros. by apply sextet_facts. Qed.

Lemma drop_newlines_sextet v s : 0 <= v < 64 ->
  drop_newlines (String (sextet_char alphabet v) s)
  = String (sextet_char alphabet v) (drop_newlines s).
Proof.
  intros Hv. destruct (sextet_facts v Hv) as (_ & _ & H10 & H13 & _). cbn [drop_newlines].
  apply Z.eqb_neq in H10, H13. by rewrite H10, H13.
Qed.

Lemma decide_sextet_pad {A : Type} v (x y : A) : 0 <= v < 64 ->
  (if decide (sextet_char alphabet v = pad) then x else y) = y.
Proof. intros Hv. apply decide_False, sextet_facts, Hv. Qed.

(** Induction on a byte list three bytes at a time, as the encoder goes. *)
Lemma bytes3_ind (P : list byte -> Prop) :
  P [] -> (forall a, P [a]) -> (forall a b, P [a; b]) ->
  (forall a b c l, P l -> P (a :: b :: c :: l)) -> forall l, P l.
Proof.
  intros H0 H1 H2 H3. fix IH 1. intros [|a [|b [|c l]]]; [done..|].
  apply H3, IH.
Qed.

Lemma drop_newlines_encode l : drop_newlines (b64_encode alphabet l) = b64_encode alphabet l.
Proof.
  induction l as [|a|a b|a b c l IH] using bytes3_ind; [done|..]; cbn [b64_encode];
    pose proof (byteZ_range a); try pose proof (byteZ_range b); try pose proof (byteZ_range c);
    rewrite !drop_newlines_sextet by (Z.to_euclidean_division_equations; lia); try done.
  by rewrite IH.
Qed.

Lemma b64_groups_encode l : b64_groups alphabet (b64_encode alphabet l) = Some l.
Proof.
  induction l as [|a|a b|a b c l IH] using bytes3_ind; [done|..];
    cbn [b64_encode b64_groups];
    pose proof (byteZ_range a) as Ha; try pose proof (byteZ_range b) as Hb;
    try pose proof (byteZ_range c) as Hc;
    rewrite !char_sextet_char by (Z.to_euclidean_division_equations; lia); cbn [mbind option_bind].
  - rewrite decide_True by done. rewrite decide_True by done. do 2 f_equal.
    apply Zbyte_eq. Z.to_euclidean_division_equations; lia.
  - rewrite decide_sextet_pad by (Z.to_euclidean_division_equations; lia).
    rewrite !decide_True by done. repeat f_equal.
    + apply Zbyte_eq. Z.to_euclidean_division_equations; lia.
    + apply Zbyte_eq. Z.to_euclidean_division_equations; lia.
  - rewrite !decide_sextet_pad by (Z.to_euclidean_division_equations; lia).
    rewrite IH. cbn. repeat f_equal.
    + apply Zbyte_eq. Z.to_euclidean_division_equations; lia.
    + apply Zbyte_eq. Z.to_euclidean_division_equations; lia.
    + apply Zbyte_eq. Z.to_euclidean_division_equations; lia.
Qed.

Lemma b64_decode_encode l : b64_decode alphabet (b64_encode alphabet l) = Some l.
Proof. unfold b64_decode. by rewrite drop_newlines_encode, b64_groups_encode. Qed.

Lemma sextet_ascii v : 0 <= v < 64 -> byte_in 0 127 (sextet_char alphabet v) = true.
Proof. intros. by apply sextet_facts. Qed.

Lemma b64_encode_ascii l : all_bytes (byte_in 0 127) (b64_encode alphabet l) = true.
Proof.
  induction l as [|a|a b|a b c l IH] using bytes3_ind; [done|..]; cbn [b64_encode all_bytes];
    pose proof (byteZ_range a); try pose proof (byteZ_range b); try pose proof (byteZ_range c);
    rewrite !sextet_ascii by (Z.to_euclidean_division_equations; lia); rewrite ?IH; done.
Qed.
End base64.

Lemma std_round l : b64_decode std_alphabet (b64_encode std_alphabet l) = Some l.
Proof. apply b64_decode_encode, std_alphabet_ok. Qed.

Lemma std_ascii l : all_bytes (byte_in 0 127) (b64_encode std_alphabet l) = true.
Proof. apply b64_encode_ascii, std_alphabet_ok. Qed.

#[export] Hint Resolve std_ascii : convex.
#[export] Hint Rewrite std_round le_get_put le_put_length : convex.
