(* ===== verification/GoFloat.v ===== *)
(** * Binary64 numbers and decimal numerals

    A Go [float64] is its IEEE 754 bit pattern, an integer below 2^64, which is
    what [math.Float64bits] returns.  A JSON number literal is a [numeral]: its
    sign, its digits, its decimal exponent, and whether it is written without
    fraction and exponent.  [strconv.ParseFloat] on a decimal is correctly
    rounded (nearest, ties to even) and [encoding/json] prints the shortest
    decimal that reads back as the same float. *)
From S2P Require Import Prelude.
Local Open Scope Z_scope.

(** ** Fields of a bit pattern *)

Definition f_sign (b : Z) : bool := Z.testbit b 63.
Definition f_exp (b : Z) : Z := (b / 2 ^ 52) mod 2 ^ 11.
Definition f_man (b : Z) : Z := b mod 2 ^ 52.
(** The pattern without its sign. *)
Definition f_abs (b : Z) : Z := b mod 2 ^ 63.

Definition is_nan (b : Z) : bool := (f_exp b =? 2047) && negb (f_man b =? 0).
Definition is_inf (b : Z) : bool := (f_exp b =? 2047) && (f_man b =? 0).
Definition is_finite (b : Z) : bool := negb (f_exp b =? 2047).
Definition is_zero (b : Z) : bool := f_abs b =? 0.

(** A finite pattern denotes [f_sig * 2 ^ f_pow], up to its sign. *)
Definition f_sig (b : Z) : Z := if f_exp b =? 0 then f_man b else f_man b + 2 ^ 52.
Definition f_pow (b : Z) : Z := Z.max (f_exp b) 1 - 1075.

Definition inf_bits : Z := 2047 * 2 ^ 52.
Definition neg_zero : Z := 2 ^ 63.
Definition with_sign (neg : bool) (b : Z) : Z := if neg then 2 ^ 63 + b else b.

(** ** Numerals *)

Record numeral : Type := Numeral {
  num_neg : bool;
  num_coef : Z;
  num_exp : Z;
  num_int : bool
}.

#[export] Instance numeral_eq_dec : EqDecision numeral.
Proof. solve_decision. Defined.

(** The literal of an integer. *)
Definition int_numeral (n : Z) : numeral := Numeral (n <? 0) (Z.abs n) 0 true.
Definition numeral_int (n : numeral) : Z := if num_neg n then - num_coef n else num_coef n.

Definition num_top (c p : Z) : Z := c * 10 ^ Z.max p 0.
Definition num_bot (p : Z) : Z := 10 ^ Z.max (- p) 0.

(** [ge_pow2 n d k]: the ratio n/d is at least 2^k. *)
Definition ge_pow2 (n d k : Z) : bool := d * 2 ^ Z.max k 0 <=? n * 2 ^ Z.max (- k) 0.
Definition flog2 (n d : Z) : Z :=
  let k := Z.log2 n - Z.log2 d in if ge_pow2 n d k then k else k - 1.

(** The pattern nearest to the positive ratio n/d, ties to even.  The result
    may be [inf_bits] or more: the value is out of range. *)
Definition round_ratio (n d : Z) : Z :=
  if n =? 0 then 0
  else
    let e := Z.max (-1074) (flog2 n d - 52) in
    let top := n * 2 ^ Z.max (- e) 0 in
    let bot := d * 2 ^ Z.max e 0 in
    let q := top / bot in
    let r := top mod bot in
    let up := (bot <? 2 * r) || ((2 * r =? bot) && Z.odd q) in
    (e + 1074) * 2 ^ 52 + (if up then q + 1 else q).

Definition round_decimal (c p : Z) : Z := round_ratio (num_top c p) (num_bot p).

(** [strconv.ParseFloat(s, 64)]: [None] is the range error. *)
Definition parse_float (n : numeral) : option Z :=
  let b := round_decimal (num_coef n) (num_exp n) in
  if b <? inf_bits then Some (with_sign (num_neg n) b) else None.

(** [strconv.ParseInt] and [strconv.ParseUint] in base 10. *)
Definition parse_int64 (n : numeral) : option Z :=
  if num_int n && in_i64 (numeral_int n) then Some (numeral_int n) else None.
Definition parse_uint (w : Z) (n : numeral) : option Z :=
  if num_int n && negb (num_neg n) && (num_coef n <? 2 ^ w) then Some (num_coef n) else None.

(** ** Shortest decimal *)

(** floor (log10 (n/d)), from floor (log2 (n/d)). *)
Definition ge_pow10 (n d k : Z) : bool := d * 10 ^ Z.max k 0 <=? n * 10 ^ Z.max (- k) 0.
Definition flog10 (n d : Z) : Z :=
  let k := flog2 n d * 30103 / 100000 in
  if ge_pow10 n d (k + 1) then k + 1 else if ge_pow10 n d k then k else k - 1.

(** The decimal with [digits] digits closest to n/d that reads back as [b]:
    one of the two neighbours of n/d, if there is one. *)
Definition digits_candidate (b n d : Z) (digits : Z) : option (Z * Z) :=
  let p := flog10 n d - (digits - 1) in
  let top := n * 10 ^ Z.max (- p) 0 in
  let bot := d * 10 ^ Z.max p 0 in
  let lo := top / bot in
  let '(hi, hi_p) := if lo + 1 =? 10 ^ digits then (1, p + digits) else (lo + 1, p) in
  let lo_ok := round_decimal lo p =? b in
  let hi_ok := round_decimal hi hi_p =? b in
  let near_lo := 2 * (top mod bot) <=? bot in
  if lo_ok && (near_lo || negb hi_ok) then Some (lo, p)
  else if hi_ok then Some (hi, hi_p)
  else None.

Fixpoint first_some {A B : Type} (f : A -> option B) (l : list A) : option B :=
  match l with
  | [] => None
  | x :: r => match f x with Some y => Some y | None => first_some f r end
  end.

(** Every binary64 is a decimal with finitely many digits; seventeen digits
    always suffice to tell it from its neighbours, so the exact expansion is a
    default the search does not reach. *)
Definition exact_decimal (m e : Z) : Z * Z :=
  if e <? 0 then (m * 5 ^ (- e), e) else (m * 2 ^ e, 0).

Definition shortest_decimal (b : Z) : Z * Z :=
  let n := f_sig b * 2 ^ Z.max (f_pow b) 0 in
  let d := 2 ^ Z.max (- f_pow b) 0 in
  match first_some (digits_candidate b n d) (map Z.of_nat (seq 1 17)) with
  | Some cp => cp
  | None => exact_decimal (f_sig b) (f_pow b)
  end.

(** The number literal [encoding/json] writes for a finite float: positional
    notation between 1e-6 and 1e21, scientific notation outside. *)
Definition format_float (b : Z) : numeral :=
  let a := f_abs b in
  if a =? 0 then Numeral (f_sign b) 0 0 true
  else
    let '(c, p) := shortest_decimal a in
    let positional := (round_ratio 1 (10 ^ 6) <=? a) && (a <? round_ratio (10 ^ 21) 1) in
    if positional && (0 <=? p) then Numeral (f_sign b) (c * 10 ^ p) 0 true
    else Numeral (f_sign b) c p false.

(** ** Rounding is exact on representable values *)

Lemma ge_pow2_shift n d k s : 0 <= s -> 0 <= k + s ->
  ge_pow2 n d k = true <-> d * 2 ^ (k + s) <= n * 2 ^ s.
Proof.
  intros Hs Hks. unfold ge_pow2. rewrite Z.leb_le.
  destruct (Z.le_gt_cases 0 k) as [Hk|Hk].
  - rewrite Z.max_l, (Z.max_r (- k)), Z.pow_add_r by lia.
    pose proof (Z.pow_pos_nonneg 2 s ltac:(lia) Hs). change (2 ^ 0) with 1. nia.
  - rewrite Z.max_r, (Z.max_l (- k)) by lia.
    assert (2 ^ s = 2 ^ (- k) * 2 ^ (k + s)) as ->.
    { rewrite <- Z.pow_add_r by lia. f_equal. lia. }
    pose proof (Z.pow_pos_nonneg 2 (k + s) ltac:(lia) Hks).
    change (2 ^ 0) with 1. nia.
Qed.

Lemma ge_pow2_mono n d k k' : 0 < d -> k' <= k -> ge_pow2 n d k = true -> ge_pow2 n d k' = true.
Proof.
  intros Hd Hk. set (s := Z.max 0 (Z.max (- k) (- k'))).
  rewrite (ge_pow2_shift n d k s), (ge_pow2_shift n d k' s) by lia.
  intros H. etrans; [|exact H]. apply Z.mul_le_mono_nonneg_l; [lia|].
  apply Z.pow_le_mono_r; lia.
Qed.

Lemma flog2_spec n d : 0 < n -> 0 < d ->
  ge_pow2 n d (flog2 n d) = true /\ ge_pow2 n d (flog2 n d + 1) = false.
Proof.
  intros Hn Hd. unfold flog2.
  pose proof (Z.log2_spec n Hn) as [Hn1 Hn2]. pose proof (Z.log2_spec d Hd) as [Hd1 Hd2].
  pose proof (Z.log2_nonneg n) as Ha. pose proof (Z.log2_nonneg d) as Hb.
  set (a := Z.log2 n) in *. set (b := Z.log2 d) in *.
  assert (Hhi : ge_pow2 n d (a - b + 1) = false).
  { apply not_true_iff_false. rewrite (ge_pow2_shift n d _ b) by lia.
    replace (a - b + 1 + b) with (a + 1) by lia. unfold Z.succ in *.
    rewrite Z.pow_add_r in * by lia. change (2 ^ 1) with 2 in *. nia. }
  assert (Hlo : ge_pow2 n d (a - b - 1) = true).
  { apply (ge_pow2_shift n d _ (b + 1)); [lia..|].
    replace (a - b - 1 + (b + 1)) with a by lia. unfold Z.succ in *. nia. }
  destruct (ge_pow2 n d (a - b)) eqn:E; [done|].
  replace (a - b - 1 + 1) with (a - b) by lia. done.
Qed.

Lemma flog2_unique n d k : 0 < n -> 0 < d ->
  ge_pow2 n d k = true -> ge_pow2 n d (k + 1) = false -> flog2 n d = k.
Proof.
  intros Hn Hd H1 H2. destruct (flog2_spec n d Hn Hd) as [H3 H4].
  destruct (Z.lt_trichotomy (flog2 n d) k) as [?|[?|?]]; [|done|].
  - rewrite (ge_pow2_mono n d k (flog2 n d + 1)) in H4 by (done || lia). done.
  - rewrite (ge_pow2_mono n d (flog2 n d) (k + 1)) in H2 by (done || lia). done.
Qed.

(** The ratio n/d equals [m * 2^e], where [m] and [e] are a float's fields. *)
Section exact.
Context (n d m e : Z).
Context (Hn : 0 < n) (Hd : 0 < d) (Hm : 0 < m < 2 ^ 53) (He : -1074 <= e).
Context (Hnorm : 2 ^ 52 <= m \/ e = -1074).
Context (Heq : n * 2 ^ Z.max (- e) 0 = m * (d * 2 ^ Z.max e 0)).

Lemma exact_shift s : 0 <= s -> 0 <= e + s -> n * 2 ^ s = m * (d * 2 ^ (e + s)).
Proof.
  intros Hs Hes. destruct (Z.le_gt_cases 0 e) as [H|H].
  - rewrite Z.max_r, Z.max_l in Heq by lia. rewrite Z.pow_add_r by lia.
    change (2 ^ 0) with 1 in Heq. nia.
  - rewrite (Z.max_l (- e)), Z.max_r in Heq by lia. change (2 ^ 0) with 1 in Heq.
    assert (2 ^ s = 2 ^ (- e) * 2 ^ (e + s)) as ->; [|nia].
    rewrite <- Z.pow_add_r by lia. f_equal. lia.
Qed.

Lemma exact_ge k : 0 <= k -> ge_pow2 n d (e + k) = true <-> 2 ^ k <= m.
Proof.
  intros Hk. set (s := Z.max 0 (- e)).
  rewrite (ge_pow2_shift n d (e + k) s), (exact_shift s) by lia.
  replace (e + k + s) with (k + (e + s)) by lia. rewrite Z.pow_add_r by lia.
  pose proof (Z.pow_pos_nonneg 2 (e + s) ltac:(lia) ltac:(lia)).
  assert (0 < d * 2 ^ (e + s)) by nia. split; nia.
Qed.

Lemma exact_exponent : Z.max (-1074) (flog2 n d - 52) = e.
Proof.
  destruct (Z.le_gt_cases (2 ^ 52) m) as [H|H].
  - rewrite (flog2_unique n d (e + 52)); [lia|done..| |].
    + apply exact_ge; lia.
    + apply not_true_iff_false. replace (e + 52 + 1) with (e + 53) by lia.
      rewrite exact_ge by lia. lia.
  - destruct (flog2_spec n d Hn Hd) as [H1 _].
    destruct (Z.le_gt_cases (e + 52) (flog2 n d)) as [Hle|Hgt]; [|lia].
    apply (ge_pow2_mono n d _ (e + 52)) in H1; [|lia..].
    apply (exact_ge 52) in H1; lia.
Qed.

Lemma round_exact : round_ratio n d = (e + 1074) * 2 ^ 52 + m.
Proof.
  unfold round_ratio. rewrite (proj2 (Z.eqb_neq n 0)), exact_exponent, Heq by lia.
  assert (0 < d * 2 ^ Z.max e 0).
  { apply Z.mul_pos_pos; [done|]. apply Z.pow_pos_nonneg; lia. }
  rewrite Z.div_mul, Z.mod_mul by lia.
  set (bot := d * _) in *. rewrite Z.mul_0_r.
  rewrite (proj2 (Z.ltb_ge bot 0)), (proj2 (Z.eqb_neq 0 bot)) by lia. done.
Qed.
End exact.

(** ** Fields and patterns *)

Lemma f_abs_fields b : f_abs b = f_exp b * 2 ^ 52 + f_man b.
Proof. unfold f_abs, f_exp, f_man. Z.to_euclidean_division_equations; lia. Qed.

Lemma f_exp_range b : 0 <= f_exp b < 2 ^ 11.
Proof. unfold f_exp. apply Z.mod_pos_bound; lia. Qed.
Lemma f_man_range b : 0 <= f_man b < 2 ^ 52.
Proof. unfold f_man. apply Z.mod_pos_bound; lia. Qed.

Lemma f_exp_abs b : f_exp (f_abs b) = f_exp b.
Proof. unfold f_exp, f_abs. Z.to_euclidean_division_equations; lia. Qed.
Lemma f_man_abs b : f_man (f_abs b) = f_man b.
Proof. unfold f_man, f_abs. Z.to_euclidean_division_equations; lia. Qed.

Lemma f_sign_abs b : in_u64 b = true -> b = with_sign (f_sign b) (f_abs b).
Proof.
  rewrite in_u64_spec. intros Hb. unfold f_sign, with_sign, f_abs.
  destruct (Z.testbit b 63) eqn:Hbit.
  - apply Z.testbit_true in Hbit; [|lia]. Z.to_euclidean_division_equations; lia.
  - apply Z.testbit_false in Hbit; [|lia]. Z.to_euclidean_division_equations; lia.
Qed.

Lemma f_abs_sig b : f_abs b = (f_pow b + 1074) * 2 ^ 52 + f_sig b.
Proof.
  rewrite f_abs_fields. unfold f_pow, f_sig. pose proof (f_exp_range b).
  destruct (Z.eqb_spec (f_exp b) 0) as [->|H0]; lia.
Qed.

Lemma f_finite_abs b : is_finite b = true -> f_abs b < inf_bits.
Proof.
  unfold is_finite, inf_bits. rewrite negb_true_iff, Z.eqb_neq, f_abs_fields.
  pose proof (f_exp_range b). pose proof (f_man_range b). lia.
Qed.

(** ** Printing and reading a float *)

Lemma first_some_In {A B : Type} (f : A -> option B) (l : list A) y :
  first_some f l = Some y -> exists x, In x l /\ f x = Some y.
Proof.
  induction l as [|x l IH]; cbn; [done|]. destruct (f x) eqn:Hx.
  - intros [= <-]. eauto.
  - intros H. destruct (IH H) as (x' & ? & ?). eauto.
Qed.

Lemma digits_candidate_ok b n d k c p :
  digits_candidate b n d k = Some (c, p) -> round_decimal c p = b.
Proof.
  unfold digits_candidate. cbv zeta.
  destruct (if _ =? 10 ^ k then _ else _) as [hi hi_p].
  repeat match goal with
  | |- context [if ?t then _ else _] => destruct t eqn:?
  end; intros [= <- <-].
  - match goal with H : _ && _ = true |- _ => apply andb_true_iff in H as [? _] end. lia.
  - lia.
Qed.

Lemma round_exact_decimal b c p : f_abs b <> 0 ->
  exact_decimal (f_sig b) (f_pow b) = (c, p) -> round_decimal c p = f_abs b.
Proof.
  intros Hb Hcp. rewrite f_abs_sig.
  pose proof (f_exp_range b). pose proof (f_man_range b) as Hman.
  assert (Hsig : 0 < f_sig b < 2 ^ 53).
  { rewrite f_abs_fields in Hb. unfold f_sig. destruct (Z.eqb_spec (f_exp b) 0); lia. }
  assert (Hpow : -1074 <= f_pow b) by (unfold f_pow; lia).
  unfold round_decimal, num_top, num_bot. unfold exact_decimal in Hcp.
  apply round_exact; try done.
  - destruct (Z.ltb_spec (f_pow b) 0); injection Hcp as <- <-;
      repeat apply Z.mul_pos_pos; try apply Z.pow_pos_nonneg; lia.
  - apply Z.pow_pos_nonneg; lia.
  - unfold f_sig, f_pow. destruct (Z.eqb_spec (f_exp b) 0) as [->|]; [by right|left; lia].
  - destruct (Z.ltb_spec (f_pow b) 0) as [Hneg|Hpos]; injection Hcp as <- <-.
    + rewrite !(Z.max_r (f_pow b)), !(Z.max_l (- f_pow b)) by lia.
      replace (10 ^ (- f_pow b)) with (5 ^ (- f_pow b) * 2 ^ (- f_pow b))
        by (rewrite <- Z.pow_mul_l; done).
      rewrite !Z.pow_0_r. lia.
    + rewrite (Z.max_r (- f_pow b)), (Z.max_l (f_pow b)) by lia.
      change (Z.max 0 0) with 0. change (Z.max (- 0) 0) with 0. lia.
Qed.

Lemma shortest_decimal_ok b c p : f_abs b = b -> b <> 0 ->
  shortest_decimal b = (c, p) -> round_decimal c p = b.
Proof.
  intros Habs Hb. unfold shortest_decimal.
  destruct (first_some _ _) as [cp|] eqn:Hf.
  - intros ->. apply first_some_In in Hf as (k & _ & Hk). by eapply digits_candidate_ok.
  - intros Hcp. etrans; [|exact Habs]. apply round_exact_decimal; [by rewrite Habs|done].
Qed.

Lemma f_abs_idem b : f_abs (f_abs b) = f_abs b.
Proof. unfold f_abs. apply Zmod_mod. Qed.

(** Reading the literal written for a finite float gives the float back. *)
Lemma parse_format_float b :
  in_u64 b = true -> is_finite b = true -> parse_float (format_float b) = Some b.
Proof.
  intros Hr Hfin. pose proof (f_finite_abs b Hfin) as Habs.
  rewrite (f_sign_abs b Hr) at 2. unfold parse_float, format_float.
  destruct (Z.eqb_spec (f_abs b) 0) as [Hz|Hz].
  - cbn [num_coef num_exp num_neg]. by rewrite Hz.
  - destruct (shortest_decimal (f_abs b)) as [c p] eqn:Hsd.
    apply shortest_decimal_ok in Hsd; [|apply f_abs_idem|done].
    destruct (_ && _) eqn:Hpos; cbn [num_coef num_exp num_neg].
    + apply andb_true_iff in Hpos as [_ Hp]. apply Z.leb_le in Hp.
      replace (round_decimal (c * 10 ^ p) 0) with (round_decimal c p).
      * rewrite Hsd. by rewrite (proj2 (Z.ltb_lt _ _) Habs).
      * unfold round_decimal, num_top, num_bot. rewrite Z.max_l, !Z.max_r by lia.
        by rewrite Z.mul_1_r.
    + rewrite Hsd. by rewrite (proj2 (Z.ltb_lt _ _) Habs).
Qed.

Lemma parse_uint_int w n : 0 <= n < 2 ^ w -> parse_uint w (int_numeral n) = Some n.
Proof.
  intros Hn. unfold parse_uint, int_numeral. cbn.
  rewrite (proj2 (Z.ltb_ge n 0)), Z.abs_eq, (proj2 (Z.ltb_lt n _)) by lia. done.
Qed.

Lemma parse_int64_int n : in_i64 n = true -> parse_int64 (int_numeral n) = Some n.
Proof.
  intros Hn. unfold parse_int64, numeral_int, int_numeral. cbn.
  replace (if n <? 0 then - Z.abs n else Z.abs n) with n; [by rewrite Hn|].
  destruct (Z.ltb_spec n 0); lia.
Qed.

(** Whatever is read is a finite 64-bit pattern. *)
Lemma round_ratio_nonneg n d : 0 <= n -> 0 < d -> 0 <= round_ratio n d.
Proof.
  intros Hn Hd. unfold round_ratio. destruct (n =? 0); [done|].
  set (e := Z.max _ _).
  assert (0 < 2 ^ Z.max e 0) by (apply Z.pow_pos_nonneg; lia).
  assert (0 < 2 ^ Z.max (- e) 0) by (apply Z.pow_pos_nonneg; lia).
  assert (0 <= n * 2 ^ Z.max (- e) 0 / (d * 2 ^ Z.max e 0)) by (apply Z.div_pos; nia).
  destruct (_ || _); lia.
Qed.

Lemma parse_float_range n b : 0 <= num_coef n -> parse_float n = Some b -> in_u64 b = true.
Proof.
  intros Hc. unfold parse_float, round_decimal.
  pose proof (round_ratio_nonneg (num_top (num_coef n) (num_exp n)) (num_bot (num_exp n))) as Hr.
  destruct (Z.ltb_spec (round_ratio (num_top (num_coef n) (num_exp n)) (num_bot (num_exp n)))
    inf_bits) as [Hlt|]; [|done].
  intros [= <-]. apply in_u64_spec. unfold inf_bits in Hlt. unfold with_sign.
  assert (0 < 10 ^ Z.max (num_exp n) 0) by (apply Z.pow_pos_nonneg; lia).
  assert (0 < 10 ^ Z.max (- num_exp n) 0) by (apply Z.pow_pos_nonneg; lia).
  unfold num_top, num_bot in *. specialize (Hr ltac:(nia) ltac:(lia)).
  destruct (num_neg n); lia.
Qed.

#[export] Hint Rewrite parse_uint_int parse_int64_int using (done || lia) : convex.
