(* ===== verification/GoText.v ===== *)
(** * Text and numbers of the commands

    What the maintenance commands use of the Go library besides GoStrings: fields and lines of a
    text, [strconv.ParseFloat] and [strconv.Atoi] on any string, the arithmetic of
    float64, [math.Round] and the verb [%.1f] of fmt. *)
From S2P Require Import Prelude GoStrings GoFloat.
From stdpp Require Import pretty.
From Stdlib Require Import Ascii.
Local Open Scope Z_scope.

(** ** Package strings *)

(** [strings.ReplaceAll(s, "\r\n", "\n")]. *)
Fixpoint lf_lines (s : string) : string :=
  match s with
  | "" => ""
  | String c r =>
      if (code c =? 13) && has_prefix (String (chr 10) "") r then lf_lines r else String c (lf_lines r)
  end.
Definition lines (s : string) : list string := split_on (chr 10) (lf_lines s).

(** The length of the white space at the start of a text. *)
Definition space_at (s : string) : nat :=
  match List.find (fun e => has_prefix e s) space_encodings with
  | Some e => String.length e
  | None => 0
  end.
Definition cons_field (w : string) (l : list string) : list string :=
  if decide (w = "") then l else w :: l.

(** [strings.Fields]: the field at the start, which may be empty, and those after it;
    [skip] bytes of white space are still to be passed over. *)
Fixpoint fields_from (skip : nat) (s : string) : string * list string :=
  match s with
  | "" => ("", [])
  | String c r =>
      match skip with
      | S k => fields_from k r
      | O =>
          match space_at s with
          | O => let '(w, l) := fields_from 0 r in (String c w, l)
          | S k => let '(w, l) := fields_from k r in ("", cons_field w l)
          end
      end
  end.
Definition fields (s : string) : list string := let '(w, l) := fields_from 0 s in cons_field w l.

(** [strings.Join]. *)
Fixpoint join_text (sep : string) (l : list string) : string :=
  match l with
  | [] => ""
  | [x] => x
  | x :: l => x +:+ sep +:+ join_text sep l
  end.

(** [strings.TrimRight] with one byte. *)
Fixpoint trim_right_byte (c : ascii) (s : string) : string :=
  match s with
  | "" => ""
  | String d r =>
      match trim_right_byte c r with
      | "" => if decide (d = c) then "" else String d ""
      | t => String d t
      end
  end.

(** ** Package strconv *)

Definition is_dec (c : ascii) : bool := byte_in 48 57 c.
Definition dec_value (c : ascii) : Z := code c - 48.
(** [lower] of strconv sets bit 5. *)
Definition lower (c : ascii) : Z := Z.lor (code c) 32.
Definition is_hex (c : ascii) : bool := (97 <=? lower c) && (lower c <=? 102).
Definition hex_value (c : ascii) : Z := if is_dec c then dec_value c else lower c - 87.

Definition trim_sign (s : string) : bool * string :=
  match s with
  | String "+" r => (false, r)
  | String "-" r => (true, r)
  | _ => (false, s)
  end.

Inductive num_error : Type := ErrSyntax | ErrRange.

(** [strconv.Atoi] of a 64-bit system. *)
Definition digits_value (s : string) : option Z :=
  (fix go (acc : Z) (s : string) : option Z :=
     match s with
     | "" => Some acc
     | String c r => if is_dec c then go (acc * 10 + dec_value c) r else None
     end) 0 s.
Definition Atoi (s : string) : result num_error Z :=
  let '(neg, digits) := trim_sign s in
  if decide (digits = "") then Err ErrSyntax
  else match digits_value digits with
       | None => Err ErrSyntax
       | Some n => let n := if neg : bool then - n else n in if in_i64 n then Ok n else Err ErrRange
       end.

(** The loop of [readFloat] over the mantissa: the digits so far as an integer, how many of
    them come after the point, and what is left of the text. *)
Record mantissa : Type := mkMantissa {
  mt_value : Z;
  mt_places : Z;
  mt_dot : bool;
  mt_digits : bool;
  mt_underscores : bool;
  mt_rest : string
}.
Fixpoint read_mantissa (hex : bool) (m : mantissa) (s : string) : mantissa :=
  match s with
  | "" => mkMantissa (mt_value m) (mt_places m) (mt_dot m) (mt_digits m) (mt_underscores m) ""
  | String c r =>
      if Ascii.eqb c "_" then
        read_mantissa hex (mkMantissa (mt_value m) (mt_places m) (mt_dot m) (mt_digits m) true "") r
      else if Ascii.eqb c "." && negb (mt_dot m) then
        read_mantissa hex (mkMantissa (mt_value m) (mt_places m) true (mt_digits m) (mt_underscores m) "") r
      else if is_dec c || hex && is_hex c then
        read_mantissa hex
          (mkMantissa (mt_value m * (if hex then 16 else 10) + hex_value c)
             (if mt_dot m then mt_places m + 1 else mt_places m) (mt_dot m) true (mt_underscores m) "") r
      else mkMantissa (mt_value m) (mt_places m) (mt_dot m) (mt_digits m) (mt_underscores m) s
  end.

(** The digits of an exponent; from 10000 on they count no more.  Whether there was an underscore,
    and what is left. *)
Fixpoint read_exponent (e : Z) (underscores : bool) (s : string) : Z * bool * string :=
  match s with
  | String c r =>
      if is_dec c then read_exponent (if e <? 10000 then e * 10 + dec_value c else e) underscores r
      else if Ascii.eqb c "_" then read_exponent e true r
      else (e, underscores, s)
  | "" => (e, underscores, s)
  end.

(** [underscoreOK]: every underscore is between digits, or between the prefix of a base and
    a digit.  What was seen last is [^], [0], [_] or [!] as in the source. *)
Fixpoint underscores_ok (hex : bool) (saw : ascii) (s : string) : bool :=
  match s with
  | "" => negb (Ascii.eqb saw "_")
  | String c r =>
      if is_dec c || hex && is_hex c then underscores_ok hex "0" r
      else if Ascii.eqb c "_" then Ascii.eqb saw "0" && underscores_ok hex "_" r
      else negb (Ascii.eqb saw "_") && underscores_ok hex "!" r
  end.
Definition underscoreOK (s : string) : bool :=
  let s := snd (trim_sign s) in
  match s with
  | String "0" (String b r) =>
      if (lower b =? 98) || (lower b =? 111) || (lower b =? 120)
      then underscores_ok (lower b =? 120) "0" r else underscores_ok false "^" s
  | _ => underscores_ok false "^" s
  end.

(** What a text denotes: [fl_coef * 10 ^ fl_exp], or a power of two in hexadecimal. *)
Record float_literal : Type := mkLiteral { fl_neg : bool; fl_hex : bool; fl_coef : Z; fl_exp : Z }.

Definition hex_prefix (s : string) : option string :=
  match s with
  | String "0" (String x (String d r)) => if lower x =? 120 then Some (String d r) else None
  | _ => None
  end.

Definition readFloat (s : string) : option float_literal :=
  let '(neg, body) := trim_sign s in
  let '(hex, body) := match hex_prefix body with Some r => (true, r) | None => (false, body) end in
  let m := read_mantissa hex (mkMantissa 0 0 false false false "") body in
  if negb (mt_digits m) then None
  else
    let places := if hex : bool then 4 * mt_places m else mt_places m in
    let finish e underscores rest :=
      if decide (rest = "") then
        if (underscores : bool) && negb (underscoreOK s) then None
        else Some (mkLiteral neg hex (mt_value m) (e - places))
      else None in
    match mt_rest m with
    | String c r =>
        if lower c =? (if hex then 112 else 101) then
          let '(eneg, r) := trim_sign r in
          match r with
          | String d _ =>
              if is_dec d then
                let '(e, u, rest) := read_exponent 0 (mt_underscores m) r in
                finish (if eneg : bool then - e else e) u rest
              else None
          | "" => None
          end
        else None
    | "" => if hex then None else finish 0 (mt_underscores m) ""
    end.

Definition nan_bits : Z := 2047 * 2 ^ 52 + 2 ^ 51 + 1.
Fixpoint lower_text (s : string) : string :=
  match s with "" => "" | String c r => String (chr (lower c)) (lower_text r) end.

(** [special]: infinities and NaN, in any case. *)
Definition special (s : string) : option Z :=
  let '(neg, body) := trim_sign s in
  if decide (lower_text body = "inf" \/ lower_text body = "infinity") then Some (with_sign neg inf_bits)
  else if decide (lower_text s = "nan") then Some nan_bits
  else None.

Definition literal_bits (l : float_literal) : Z :=
  if fl_hex l then round_ratio (fl_coef l * 2 ^ Z.max (fl_exp l) 0) (2 ^ Z.max (- fl_exp l) 0)
  else round_decimal (fl_coef l) (fl_exp l).

(** [strconv.ParseFloat(s, 64)]. *)
Definition ParseFloat (s : string) : result num_error Z :=
  match special s with
  | Some b => Ok b
  | None =>
      match readFloat s with
      | None => Err ErrSyntax
      | Some l =>
          let b := literal_bits l in
          if b <? inf_bits then Ok (with_sign (fl_neg l) b) else Err ErrRange
      end
  end.

(** ** Arithmetic of float64 *)

(** A finite float is the ratio of [f_top], without its sign, and [f_bot]. *)
Definition f_top (b : Z) : Z := f_sig b * 2 ^ Z.max (f_pow b) 0.
Definition f_bot (b : Z) : Z := 2 ^ Z.max (- f_pow b) 0.
Definition f_signed (b : Z) : Z := if f_sign b then - f_top b else f_top b.

(** The float nearest to n/d; [neg] is the sign of a zero. *)
Definition round_signed (neg : bool) (n d : Z) : Z :=
  with_sign (if n =? 0 then neg else n <? 0) (Z.min inf_bits (round_ratio (Z.abs n) d)).

Definition f_neg (b : Z) : Z := with_sign (negb (f_sign b)) (f_abs b).
Definition float_of_int (n : Z) : Z := round_signed false n 1.

Definition f_add (a b : Z) : Z :=
  if is_nan a || is_nan b then nan_bits
  else if is_inf a then (if is_inf b && negb (Bool.eqb (f_sign a) (f_sign b)) then nan_bits else a)
  else if is_inf b then b
  else round_signed (f_sign a && f_sign b) (f_signed a * f_bot b + f_signed b * f_bot a) (f_bot a * f_bot b).
Definition f_sub (a b : Z) : Z := f_add a (f_neg b).
Definition f_mul (a b : Z) : Z :=
  let neg := xorb (f_sign a) (f_sign b) in
  if is_nan a || is_nan b then nan_bits
  else if is_inf a || is_inf b then (if is_zero a || is_zero b then nan_bits else with_sign neg inf_bits)
  else round_signed neg (f_signed a * f_signed b) (f_bot a * f_bot b).
Definition f_div (a b : Z) : Z :=
  let neg := xorb (f_sign a) (f_sign b) in
  if is_nan a || is_nan b then nan_bits
  else if is_inf a then (if is_inf b then nan_bits else with_sign neg inf_bits)
  else if is_inf b then with_sign neg 0
  else if is_zero b then (if is_zero a then nan_bits else with_sign neg inf_bits)
  else round_signed neg (if neg then - (f_top a * f_bot b) else f_top a * f_bot b) (f_top b * f_bot a).

(** The order of floats is that of their patterns, the sign apart; no comparison with NaN
    holds. *)
Definition f_key (b : Z) : Z := if f_sign b then - f_abs b else f_abs b.
Definition f_lt (a b : Z) : bool := negb (is_nan a) && negb (is_nan b) && (f_key a <? f_key b).
Definition f_eq (a b : Z) : bool := negb (is_nan a) && negb (is_nan b) && (f_key a =? f_key b).

(** [math.Round]: the nearest integer, halves away from zero. *)
Definition Round (b : Z) : Z :=
  if is_finite b then
    with_sign (f_sign b) (round_ratio ((2 * f_top b + f_bot b) / (2 * f_bot b)) 1)
  else b.

(** ** Package fmt *)

(** The ratio n/d to the nearest integer, ties to even. *)
Definition nearest_even (n d : Z) : Z :=
  let q := n / d in
  let r := n mod d in
  if (d <? 2 * r) || ((2 * r =? d) && Z.odd q) then q + 1 else q.

(** The verb [%.1f], and with [plus] the verb [%+.1f]. *)
Definition format_1f (plus : bool) (b : Z) : string :=
  if is_nan b then (if plus then "+NaN" else "NaN")
  else if is_inf b then (if f_sign b then "-Inf" else "+Inf")
  else
    let tenths := nearest_even (10 * f_top b) (f_bot b) in
    (if f_sign b then "-" else if plus then "+" else "")
    +:+ pretty (tenths / 10) +:+ "." +:+ pretty (tenths mod 10).

(** ** Examples *)

Example fields_example : fields "  a b	c " = ["a"; "b"; "c"].
Proof. vm_compute. reflexivity. Qed.
Example ParseFloat_examples :
  map ParseFloat ["12.5"; "-0"; "0x1p-2"; "1_0.5"; "1__0"; "1e400"; "infinity"; "NaN"; ".5e1"; "e5"; "0x1"] =
  [Ok 0x4029000000000000; Ok 0x8000000000000000; Ok 0x3FD0000000000000; Ok 0x4025000000000000; Err ErrSyntax;
   Err ErrRange; Ok 0x7FF0000000000000; Ok 0x7FF8000000000001; Ok 0x4014000000000000; Err ErrSyntax; Err ErrSyntax].
Proof. vm_compute. reflexivity. Qed.
Example format_examples :
  map (format_1f true) [0x3FD0000000000000; 0xBFE8000000000000; 0x8000000000000000; 0x4059000000000000] =
  ["+0.2"; "-0.8"; "-0.0"; "+100.0"].
Proof. vm_compute. reflexivity. Qed.
(** 1 - 2, 3 / 2, 2.5 rounded, -0.5 rounded *)
Example arithmetic_examples :
  [f_sub 0x3FF0000000000000 0x4000000000000000; f_div 0x4008000000000000 0x4000000000000000;
   Round 0x4004000000000000; Round 0xBFE0000000000000] =
  [0xBFF0000000000000; 0x3FF8000000000000; 0x4008000000000000; 0xBFF0000000000000].
Proof. vm_compute. reflexivity. Qed.
