(* ===== verification/FloatFacts.v ===== *)
(** * Arithmetic of float64 on integers

    The operations of GoText on floats that are integers: sums, differences and products are
    exact, and a quotient compares with an integer as the exact ratio does. *)
From S2P Require Import Prelude GoStrings GoFloat GoText.
Local Open Scope Z_scope.

(** Sums of floats that are integers below 2^53 are exact. *)
Lemma ge_pow2_scale n d k c : 0 < c -> ge_pow2 (n * c) (d * c) k = ge_pow2 n d k.
Proof.
  intros Hc. unfold ge_pow2. apply eq_true_iff_eq. rewrite !Z.leb_le.
  replace (d * c * 2 ^ Z.max k 0) with (d * 2 ^ Z.max k 0 * c) by lia.
  replace (n * c * 2 ^ Z.max (- k) 0) with (n * 2 ^ Z.max (- k) 0 * c) by lia. nia.
Qed.

Lemma round_ratio_scale n d c : 0 <= n -> 0 < d -> 0 < c -> round_ratio (n * c) (d * c) = round_ratio n d.
Proof.
  intros Hn Hd Hc. unfold round_ratio.
  destruct (Z.eqb_spec n 0) as [->|H0]; [done|]. rewrite (proj2 (Z.eqb_neq (n * c) 0)) by nia.
  assert (flog2 (n * c) (d * c) = flog2 n d) as ->.
  { destruct (flog2_spec n d ltac:(lia) Hd) as [H1 H2].
    apply flog2_unique; [nia..| |]; by rewrite ge_pow2_scale. }
  set (e := Z.max (-1074) (flog2 n d - 52)). cbv zeta.
  replace (n * c * 2 ^ Z.max (- e) 0) with (n * 2 ^ Z.max (- e) 0 * c) by lia.
  replace (d * c * 2 ^ Z.max e 0) with (d * 2 ^ Z.max e 0 * c) by lia.
  assert (0 < 2 ^ Z.max e 0) by (apply Z.pow_pos_nonneg; lia).
  set (top := n * _). set (bot := d * _) in *. assert (0 < bot) by nia.
  rewrite Z.div_mul_cancel_r, Z.mul_mod_distr_r by lia.
  replace (bot * c <? 2 * (top mod bot * c)) with (bot <? 2 * (top mod bot)).
  2: { apply eq_true_iff_eq. rewrite !Z.ltb_lt. nia. }
  replace (2 * (top mod bot * c) =? bot * c) with (2 * (top mod bot) =? bot); [done|].
  apply eq_true_iff_eq. rewrite !Z.eqb_eq. nia.
Qed.

(** The float of a positive integer below 2^53: its exponent and its significand. *)
Definition int_power (n : Z) : Z := Z.log2 n - 52.

Lemma float_of_int_bits n : 0 < n < 2 ^ 53 ->
  let m := n * 2 ^ (- int_power n) in
  float_of_int n = (int_power n + 1074) * 2 ^ 52 + m /\ 2 ^ 52 <= m < 2 ^ 53.
Proof.
  intros Hn m. pose proof (Z.log2_spec n ltac:(lia)) as [H1 H2]. pose proof (Z.log2_nonneg n) as H0.
  assert (Hlog : Z.log2 n < 53) by (apply Z.log2_lt_pow2; lia).
  assert (Hm : 2 ^ 52 <= m < 2 ^ 53).
  { unfold m, int_power. rewrite Z.opp_sub_distr. replace (- Z.log2 n + 52) with (52 - Z.log2 n) by lia.
    assert (0 < 2 ^ (52 - Z.log2 n)) by (apply Z.pow_pos_nonneg; lia).
    assert (2 ^ 52 = 2 ^ Z.log2 n * 2 ^ (52 - Z.log2 n)) as -> by (rewrite <- Z.pow_add_r by lia; f_equal; lia).
    assert (2 ^ 53 = 2 ^ Z.succ (Z.log2 n) * 2 ^ (52 - Z.log2 n)) as -> by (rewrite <- Z.pow_add_r by lia; f_equal; lia).
    nia. }
  assert (Hr : round_ratio n 1 = (int_power n + 1074) * 2 ^ 52 + m).
  { apply round_exact; try lia; [unfold int_power; lia|]. unfold m, int_power.
    rewrite (Z.max_l (- _)), (Z.max_r (_ - _)) by lia. rewrite Z.mul_1_l, Z.pow_0_r. lia. }
  split; [|done]. unfold float_of_int, round_signed. rewrite (proj2 (Z.eqb_neq n 0)), (proj2 (Z.ltb_ge n 0)), Z.abs_eq by lia.
  cbn [with_sign]. rewrite Hr. unfold with_sign, inf_bits, int_power in *. lia.
Qed.

Lemma float_of_int_fields n : 0 < n < 2 ^ 53 ->
  f_sign (float_of_int n) = false /\ f_pow (float_of_int n) = int_power n /\
  f_sig (float_of_int n) = n * 2 ^ (- int_power n) /\ is_finite (float_of_int n) = true.
Proof.
  intros Hn. destruct (float_of_int_bits n Hn) as [Hb Hm]. set (m := n * _) in *.
  pose proof (Z.log2_nonneg n). assert (Z.log2 n < 53) by (apply Z.log2_lt_pow2; lia).
  assert (Hexp : f_exp (float_of_int n) = int_power n + 1075).
  { rewrite Hb. unfold f_exp, int_power. replace ((Z.log2 n - 52 + 1074) * 2 ^ 52 + m) with ((Z.log2 n - 52 + 1075) * 2 ^ 52 + (m - 2 ^ 52)) by lia.
    rewrite Z.div_add_l, (Z.div_small (m - 2 ^ 52)), Z.mod_small by lia. lia. }
  assert (Hman : f_man (float_of_int n) = m - 2 ^ 52).
  { rewrite Hb. unfold f_man. replace ((int_power n + 1074) * 2 ^ 52 + m) with ((m - 2 ^ 52) + (int_power n + 1075) * 2 ^ 52) by lia.
    rewrite Z.mod_add, Z.mod_small by lia. done. }
  unfold f_pow, f_sig, is_finite. rewrite Hexp, Hman. unfold int_power in *.
  split_and!.
  - unfold f_sign. rewrite Hb. apply Z.testbit_false; [lia|]. rewrite Z.div_small by lia. done.
  - lia.
  - rewrite (proj2 (Z.eqb_neq _ 0)) by lia. lia.
  - apply negb_true_iff, Z.eqb_neq. lia.
Qed.

(** What an integer's float denotes. *)
Lemma float_of_int_denotes n : 0 <= n < 2 ^ 53 ->
  f_sign (float_of_int n) = false /\ is_finite (float_of_int n) = true /\
  0 < f_bot (float_of_int n) /\ f_top (float_of_int n) = n * f_bot (float_of_int n).
Proof.
  intros Hn. destruct (decide (n = 0)) as [->|H0]; [by vm_compute|].
  destruct (float_of_int_fields n ltac:(lia)) as (Hs & Hp & Hm & Hf).
  pose proof (Z.log2_nonneg n). assert (Z.log2 n < 53) by (apply Z.log2_lt_pow2; lia).
  unfold f_top, f_bot. rewrite Hp, Hm. unfold int_power in *.
  rewrite (Z.max_r (Z.log2 n - 52)), Z.max_l, Z.mul_1_r by lia. split_and!; [done..| |done].
  apply Z.pow_pos_nonneg; lia.
Qed.

Lemma finite_not_special b : is_finite b = true -> is_nan b = false /\ is_inf b = false.
Proof. unfold is_finite, is_nan, is_inf. by intros ->%negb_true_iff. Qed.

Lemma f_add_exact a b : 0 <= a -> 0 <= b -> a + b < 2 ^ 53 ->
  f_add (float_of_int a) (float_of_int b) = float_of_int (a + b).
Proof.
  intros Ha Hb Hab. destruct (float_of_int_denotes a ltac:(lia)) as (Sa & Fa & Ba & Ta).
  destruct (float_of_int_denotes b ltac:(lia)) as (Sb & Fb & Bb & Tb).
  destruct (finite_not_special _ Fa) as [Na Ia], (finite_not_special _ Fb) as [Nb Ib].
  unfold f_add, f_signed. rewrite Na, Nb, Ia, Ib, Sa, Sb, Ta, Tb. cbn [orb andb].
  set (x := f_bot (float_of_int a)) in *. set (y := f_bot (float_of_int b)) in *.
  unfold float_of_int, round_signed. replace (a * x * y + b * y * x) with ((a + b) * (x * y)) by lia.
  assert (0 < x * y) by nia. rewrite (Z.abs_eq ((a + b) * (x * y))), (Z.abs_eq (a + b)) by nia.
  pose proof (round_ratio_scale (a + b) 1 (x * y) ltac:(lia) ltac:(lia) ltac:(lia)) as Hscale.
  rewrite Z.mul_1_l in Hscale. rewrite Hscale. f_equal.
  destruct (Z.eqb_spec (a + b) 0) as [->|H0]; [done|].
  rewrite (proj2 (Z.eqb_neq _ 0)), (proj2 (Z.ltb_ge _ 0)), (proj2 (Z.ltb_ge (a + b) 0)) by nia. done.
Qed.

Lemma float_of_int_zero n : 0 <= n < 2 ^ 53 -> f_eq (float_of_int n) 0 = bool_decide (n = 0).
Proof.
  intros Hn. case_bool_decide as H; [by subst n|].
  destruct (float_of_int_fields n ltac:(lia)) as (Hs & _ & _ & Hf).
  destruct (float_of_int_bits n ltac:(lia)) as [Hb Hm].
  destruct (finite_not_special _ Hf) as [Hnan _]. unfold f_eq. rewrite Hnan. cbn [negb andb].
  unfold f_key. rewrite Hs. change (f_sign 0) with false. change (f_abs 0) with 0. apply Z.eqb_neq.
  pose proof (Z.log2_nonneg n). assert (Z.log2 n < 53) by (apply Z.log2_lt_pow2; lia).
  rewrite Hb in *. unfold f_abs, int_power in *. rewrite Z.mod_small by lia. lia.
Qed.

(** ** Rounding keeps the order *)

Lemma nearest_even_spec t b : 0 < b ->
  let k := nearest_even t b in
  (2 * k - 1) * b <= 2 * t <= (2 * k + 1) * b /\
  ((2 * t = (2 * k - 1) * b \/ 2 * t = (2 * k + 1) * b) -> Z.Even k).
Proof.
  intros Hb. unfold nearest_even. cbv zeta. pose proof (Z.div_mod t b ltac:(lia)) as Ht.
  pose proof (Z.mod_pos_bound t b Hb) as Hr. set (q := t / b) in *. set (r := t mod b) in *.
  destruct (Z.ltb_spec b (2 * r)); cbn [orb].
  - split; [nia|]. intros [?|?]; nia.
  - destruct (Z.eqb_spec (2 * r) b) as [E|E]; cbn [andb].
    + destruct (Z.odd q) eqn:Hq; (split; [nia|]); intros _.
      * apply Zodd_bool_iff, Zodd_equiv in Hq as [j Hj]. exists (j + 1). lia.
      * apply (f_equal negb) in Hq. rewrite Z.negb_odd in Hq. by apply Zeven_bool_iff, Zeven_equiv in Hq.
    + split; [nia|]. intros [?|?]; nia.
Qed.

Lemma nearest_even_mono t b t' b' : 0 < b -> 0 < b' -> t * b' <= t' * b -> nearest_even t b <= nearest_even t' b'.
Proof.
  intros Hb Hb' H. destruct (nearest_even_spec t b Hb) as [Hk He], (nearest_even_spec t' b' Hb') as [Hk' He'].
  set (k := nearest_even t b) in *. set (k' := nearest_even t' b') in *.
  destruct (Z.le_gt_cases k k') as [?|Hlt]; [done|]. exfalso.
  assert ((2 * k - 1) * (b * b') <= (2 * k' + 1) * (b * b')) as Hb2 by nia.
  assert (k = k' + 1) as E by nia.
  assert (2 * t = (2 * k - 1) * b /\ 2 * t' = (2 * k' + 1) * b') as [E1 E2] by (subst k; nia).
  destruct (He ltac:(by left)) as [x Hx], (He' ltac:(by right)) as [y Hy]. lia.
Qed.

Lemma ge_pow2_ratio n d n' d' k : 0 < d -> 0 < d' -> n * d' <= n' * d -> ge_pow2 n d k = true -> ge_pow2 n' d' k = true.
Proof.
  intros Hd Hd' H. set (s := Z.max 0 (- k)). rewrite (ge_pow2_shift n d k s), (ge_pow2_shift n' d' k s) by lia.
  pose proof (Z.pow_pos_nonneg 2 s ltac:(lia) ltac:(lia)). pose proof (Z.pow_pos_nonneg 2 (k + s) ltac:(lia) ltac:(lia)).
  intros Hge. apply (Z.mul_le_mono_pos_l _ _ d); [done|].
  trans (d' * (d * 2 ^ (k + s))); [lia|]. trans (d' * (n * 2 ^ s)); [nia|]. nia.
Qed.

(** The exponent and the significand that [round_ratio] chooses. *)
Definition ratio_exp (n d : Z) : Z := Z.max (-1074) (flog2 n d - 52).
Definition ratio_top (n d : Z) : Z := n * 2 ^ Z.max (- ratio_exp n d) 0.
Definition ratio_bot (n d : Z) : Z := d * 2 ^ Z.max (ratio_exp n d) 0.

Lemma round_ratio_nearest n d : 0 < n ->
  round_ratio n d = (ratio_exp n d + 1074) * 2 ^ 52 + nearest_even (ratio_top n d) (ratio_bot n d).
Proof. intros Hn. unfold round_ratio. by rewrite (proj2 (Z.eqb_neq n 0)) by lia. Qed.

Lemma ratio_bot_pos n d : 0 < d -> 0 < ratio_bot n d.
Proof. intros Hd. unfold ratio_bot. pose proof (Z.pow_pos_nonneg 2 (Z.max (ratio_exp n d) 0) ltac:(lia) ltac:(lia)). nia. Qed.

Lemma ratio_ge n d k : 0 <= k ->
  ge_pow2 n d (ratio_exp n d + k) = true <-> 2 ^ k * ratio_bot n d <= ratio_top n d.
Proof.
  intros Hk. unfold ratio_top, ratio_bot. set (e := ratio_exp n d).
  rewrite (ge_pow2_shift n d (e + k) (Z.max (- e) 0)) by lia.
  replace (e + k + Z.max (- e) 0) with (k + Z.max e 0) by lia. rewrite Z.pow_add_r by lia.
  by replace (d * (2 ^ k * 2 ^ Z.max e 0)) with (2 ^ k * (d * 2 ^ Z.max e 0)) by lia.
Qed.

Lemma nearest_even_le t b k : 0 < b -> t <= k * b -> nearest_even t b <= k.
Proof.
  intros Hb Ht. replace k with (nearest_even k 1) by (unfold nearest_even; by rewrite Z.div_1_r, Z.mod_1_r).
  apply nearest_even_mono; lia.
Qed.
Lemma nearest_even_ge t b k : 0 < b -> k * b <= t -> k <= nearest_even t b.
Proof.
  intros Hb Ht. replace k with (nearest_even k 1) by (unfold nearest_even; by rewrite Z.div_1_r, Z.mod_1_r).
  apply nearest_even_mono; lia.
Qed.

Lemma round_ratio_mono n d n' d' : 0 <= n -> 0 < d -> 0 < d' -> n * d' <= n' * d -> round_ratio n d <= round_ratio n' d'.
Proof.
  intros Hn Hd Hd' H. assert (0 <= n') as Hn' by nia.
  destruct (decide (n = 0)) as [->|H0].
  { change (round_ratio 0 d) with 0. by apply round_ratio_nonneg. }
  assert (0 < n') as H0' by nia. rewrite !round_ratio_nearest by lia.
  destruct (flog2_spec n d ltac:(lia) Hd) as [H1 H2], (flog2_spec n' d' H0' Hd') as [H1' H2'].
  assert (flog2 n d <= flog2 n' d') as Hlog.
  { apply (ge_pow2_ratio n d n' d') in H1; [|done..].
    destruct (Z.le_gt_cases (flog2 n d) (flog2 n' d')) as [?|Hlt]; [done|].
    apply (ge_pow2_mono n' d' _ (flog2 n' d' + 1)) in H1; [congruence|done|lia]. }
  pose proof (ratio_bot_pos n d Hd) as Hb. pose proof (ratio_bot_pos n' d' Hd') as Hb'.
  destruct (decide (ratio_exp n d = ratio_exp n' d')) as [E|E].
  - rewrite E. apply Z.add_le_mono_l, nearest_even_mono; [done..|].
    unfold ratio_top, ratio_bot. rewrite E.
    pose proof (Z.pow_pos_nonneg 2 (Z.max (ratio_exp n' d') 0) ltac:(lia) ltac:(lia)).
    pose proof (Z.pow_pos_nonneg 2 (Z.max (- ratio_exp n' d') 0) ltac:(lia) ltac:(lia)). nia.
  - assert (nearest_even (ratio_top n d) (ratio_bot n d) <= 2 ^ 53).
    { apply nearest_even_le; [done|]. apply Z.lt_le_incl, Z.nle_gt. rewrite <- (ratio_ge n d 53) by lia. intros Hge.
      apply (ge_pow2_mono n d _ (flog2 n d + 1)) in Hge; [congruence|done|]. unfold ratio_exp. lia. }
    assert (2 ^ 52 <= nearest_even (ratio_top n' d') (ratio_bot n' d')).
    { apply nearest_even_ge; [done|]. rewrite <- (ratio_ge n' d' 52) by lia.
      replace (ratio_exp n' d' + 52) with (flog2 n' d'); [done|]. unfold ratio_exp in *. lia. }
    assert (ratio_exp n d + 1 <= ratio_exp n' d') by (unfold ratio_exp in *; lia). lia.
Qed.

(** A ratio above an integer is rounded to a float above it, unless both are large. *)
Lemma round_above L a b : 0 <= L -> 0 < b < 2 ^ 53 -> 0 <= a -> L * b < 2 ^ 52 ->
  (round_ratio L 1 < round_ratio a b <-> L * b < a).
Proof.
  intros HL Hb Ha HLb. split.
  - intros H. apply Z.nle_gt. intros Hle. pose proof (round_ratio_mono a b L 1). lia.
  - intros H. destruct (decide (L = 0)) as [->|H0].
    + change (round_ratio 0 1) with 0. apply (Z.lt_le_trans _ (round_ratio 1 (2 ^ 53))); [by vm_compute|].
      apply round_ratio_mono; lia.
    + assert (L < 2 ^ 52) as HL52 by nia. pose proof (Z.log2_spec L ltac:(lia)) as [H1 H2]. pose proof (Z.log2_nonneg L) as H3.
      assert (Z.log2 L <= 51) by (apply Z.lt_succ_r; change (Z.succ 51) with 52; apply Z.log2_lt_pow2; lia).
      set (p := 52 - Z.log2 L). assert (Hp : 1 <= p) by lia.
      assert (Hpow : 2 ^ 52 = 2 ^ Z.log2 L * 2 ^ p) by (rewrite <- Z.pow_add_r by lia; f_equal; lia).
      assert (Hpow' : 2 ^ 53 = 2 ^ Z.succ (Z.log2 L) * 2 ^ p) by (rewrite <- Z.pow_add_r by lia; f_equal; lia).
      assert (Heven : 2 ^ p = 2 * 2 ^ (p - 1)) by (rewrite <- Z.pow_succ_r by lia; f_equal; lia).
      pose proof (Z.pow_pos_nonneg 2 (p - 1) ltac:(lia) ltac:(lia)).
      set (m := L * 2 ^ p). assert (Hm : 2 ^ 52 <= m < 2 ^ 53) by (unfold m; nia).
      assert (Hm1 : m + 1 < 2 ^ 53).
      { assert (m = 2 * (L * 2 ^ (p - 1))) as E by (unfold m; rewrite Heven; lia).
        assert (2 ^ 53 = 2 * 2 ^ 52) as E2 by done. lia. }
      assert (E : forall k, 0 < k < 2 ^ 53 -> 2 ^ 52 <= k -> round_ratio k (2 ^ p) = (1074 - p) * 2 ^ 52 + k).
      { intros k Hk1 Hk2. rewrite (round_exact k (2 ^ p) k (- p)); try lia.
        rewrite Z.max_l, Z.max_r by lia. rewrite Z.opp_involutive, Z.pow_0_r. lia. }
      apply (Z.lt_le_trans _ (round_ratio (m + 1) (2 ^ p))).
      * rewrite E by lia. replace (round_ratio L 1) with (round_ratio m (2 ^ p)); [rewrite E by lia; lia|].
        unfold m. rewrite <- (round_ratio_scale L 1 (2 ^ p)) by lia. by rewrite Z.mul_1_l.
      * assert (b < 2 ^ p) by nia. apply round_ratio_mono; [lia|lia|lia|].
        unfold m. nia.
Qed.

(** ** Signs *)

Lemma f_key_pos b : 0 <= b < 2 ^ 63 -> f_key b = b.
Proof.
  intros Hb. unfold f_key, f_sign, f_abs. rewrite Z.mod_small by lia.
  replace (Z.testbit b 63) with false; [done|]. symmetry. apply Z.testbit_false; [lia|]. by rewrite Z.div_small by lia.
Qed.
Lemma pos_not_nan b : 0 <= b <= inf_bits -> is_nan b = false.
Proof.
  intros Hb. unfold is_nan, f_exp, f_man, inf_bits in *.
  destruct (Z.eqb_spec ((b / 2 ^ 52) mod 2 ^ 11) 2047) as [E|]; [|done]. cbn [andb]. apply negb_false_iff, Z.eqb_eq.
  assert (b / 2 ^ 52 <= 2047) by (apply Z.div_le_upper_bound; lia).
  assert (0 <= b / 2 ^ 52) by (apply Z.div_pos; lia). rewrite Z.mod_small in E by lia.
  pose proof (Z.div_mod b (2 ^ 52) ltac:(lia)). pose proof (Z.mod_pos_bound b (2 ^ 52) ltac:(lia)). nia.
Qed.

(** The pattern of the negative. *)
Lemma negative_fields b : 0 <= b < 2 ^ 63 ->
  f_sign (with_sign true b) = true /\ f_exp (with_sign true b) = f_exp b /\ f_man (with_sign true b) = f_man b /\
  f_abs (with_sign true b) = b.
Proof.
  intros Hb. unfold f_sign, f_exp, f_man, f_abs, with_sign. repeat split.
  - apply Z.testbit_true; [lia|]. replace (2 ^ 63 + b) with (b + 1 * 2 ^ 63) by lia.
    rewrite Z.div_add by lia. by rewrite Z.div_small by lia.
  - replace (2 ^ 63 + b) with (b + 2 ^ 11 * 2 ^ 52) by lia. rewrite Z.div_add by lia.
    replace (b / 2 ^ 52 + 2 ^ 11) with (b / 2 ^ 52 + 1 * 2 ^ 11) by lia. by rewrite Z.mod_add by lia.
  - replace (2 ^ 63 + b) with (b + 2 ^ 11 * 2 ^ 52) by lia. by rewrite Z.mod_add by lia.
  - replace (2 ^ 63 + b) with (b + 1 * 2 ^ 63) by lia. rewrite Z.mod_add by lia. by apply Z.mod_small.
Qed.

Lemma negative_denotes b : 0 <= b < 2 ^ 63 ->
  f_top (with_sign true b) = f_top b /\ f_bot (with_sign true b) = f_bot b /\
  is_finite (with_sign true b) = is_finite b /\ is_zero (with_sign true b) = (b =? 0).
Proof.
  intros Hb. destruct (negative_fields b Hb) as (_ & He & Hm & Ha).
  unfold f_top, f_bot, f_sig, f_pow, is_finite, is_zero. by rewrite He, Hm, Ha.
Qed.

Lemma float_of_int_range n : 0 <= n < 2 ^ 53 -> 0 <= float_of_int n < inf_bits.
Proof.
  intros Hn. destruct (decide (n = 0)) as [->|H0]; [by vm_compute|].
  destruct (float_of_int_bits n ltac:(lia)) as [Hb Hm]. rewrite Hb. pose proof (Z.log2_nonneg n).
  assert (Z.log2 n < 53) by (apply Z.log2_lt_pow2; lia). unfold int_power, inf_bits in *. lia.
Qed.

Lemma float_of_int_neg n : 0 < n -> float_of_int (- n) = with_sign true (float_of_int n).
Proof.
  intros Hn. unfold float_of_int, round_signed. rewrite Z.abs_opp.
  rewrite (proj2 (Z.eqb_neq (- n) 0)), (proj2 (Z.eqb_neq n 0)), (proj2 (Z.ltb_lt (- n) 0)), (proj2 (Z.ltb_ge n 0)) by lia.
  done.
Qed.

(** What the float of an integer of either sign denotes. *)
Lemma int_denotes n : Z.abs n < 2 ^ 53 ->
  is_finite (float_of_int n) = true /\ f_sign (float_of_int n) = (n <? 0) /\ 0 < f_bot (float_of_int n) /\
  f_top (float_of_int n) = Z.abs n * f_bot (float_of_int n).
Proof.
  intros Hn. destruct (Z.ltb_spec n 0) as [H|H].
  - destruct (float_of_int_denotes (- n) ltac:(lia)) as (Hs & Hf & Hb & Ht).
    pose proof (float_of_int_range (- n) ltac:(lia)) as Hr. unfold inf_bits in Hr.
    replace n with (- - n) by lia. rewrite float_of_int_neg by lia.
    destruct (negative_denotes (float_of_int (- n)) ltac:(lia)) as (-> & -> & -> & _).
    destruct (negative_fields (float_of_int (- n)) ltac:(lia)) as (-> & _).
    rewrite Z.opp_involutive, Z.abs_neq by lia. by rewrite Ht.
  - destruct (float_of_int_denotes n ltac:(lia)) as (Hs & Hf & Hb & Ht). by rewrite Z.abs_eq by lia.
Qed.

(** ** The operations on integers of either sign *)

Lemma round_signed_scale neg k d c : 0 < d -> 0 < c -> round_signed neg (k * c) (d * c) = round_signed neg k d.
Proof.
  intros Hd Hc. unfold round_signed. rewrite Z.abs_mul, (Z.abs_eq c), round_ratio_scale by lia. f_equal.
  destruct (Z.eqb_spec k 0) as [->|H0]; [done|]. rewrite (proj2 (Z.eqb_neq (k * c) 0)) by nia.
  apply eq_true_iff_eq. rewrite !Z.ltb_lt. nia.
Qed.
Lemma round_signed_sign neg neg' k d : (k = 0 -> neg = neg') -> round_signed neg k d = round_signed neg' k d.
Proof. intros H. unfold round_signed. destruct (Z.eqb_spec k 0); [by rewrite H|done]. Qed.

Lemma f_sub_exact a b : 0 <= a < 2 ^ 53 -> 0 <= b < 2 ^ 53 ->
  f_sub (float_of_int a) (float_of_int b) = float_of_int (a - b).
Proof.
  intros Ha Hb. destruct (float_of_int_denotes a Ha) as (Sa & Fa & Ba & Ta).
  destruct (float_of_int_denotes b Hb) as (Sb & Fb & Bb & Tb).
  pose proof (float_of_int_range b Hb) as Hr. unfold inf_bits in Hr.
  assert (f_abs (float_of_int b) = float_of_int b) as Eabs by (unfold f_abs; rewrite Z.mod_small; lia).
  unfold f_sub, f_neg. rewrite Sb, Eabs. cbn [negb].
  destruct (negative_denotes (float_of_int b) ltac:(lia)) as (E1 & E2 & E3 & _).
  destruct (negative_fields (float_of_int b) ltac:(lia)) as (E4 & _).
  rewrite Fb in E3. destruct (finite_not_special _ Fa) as [Na Ia], (finite_not_special _ E3) as [Nb Ib].
  unfold f_add, f_signed. rewrite Na, Nb, Ia, Ib, Sa, E4, E1, E2, Ta, Tb. cbn [orb andb].
  set (x := f_bot (float_of_int a)) in *. set (y := f_bot (float_of_int b)) in *.
  replace (a * x * y + - (b * y) * x) with ((a - b) * (x * y)) by lia.
  replace (x * y) with (1 * (x * y)) at 2 by lia. rewrite round_signed_scale by nia. done.
Qed.

Lemma f_mul_signed a b : Z.abs a < 2 ^ 53 -> 0 < b < 2 ^ 53 ->
  f_mul (float_of_int a) (float_of_int b) = float_of_int (a * b).
Proof.
  intros Ha Hb. destruct (int_denotes a Ha) as (Fa & Sa & Ba & Ta).
  destruct (float_of_int_denotes b ltac:(lia)) as (Sb & Fb & Bb & Tb).
  destruct (finite_not_special _ Fa) as [Na Ia], (finite_not_special _ Fb) as [Nb Ib].
  unfold f_mul, f_signed. rewrite Na, Nb, Ia, Ib, Sa, Sb, Ta, Tb. cbn [orb]. rewrite xorb_false_r.
  set (x := f_bot (float_of_int a)) in *. set (y := f_bot (float_of_int b)) in *.
  replace ((if a <? 0 then - (Z.abs a * x) else Z.abs a * x) * (b * y)) with ((a * b) * (x * y))
    by (destruct (Z.ltb_spec a 0); [rewrite Z.abs_neq by lia|rewrite Z.abs_eq by lia]; lia).
  replace (x * y) with (1 * (x * y)) at 2 by lia. rewrite round_signed_scale by nia.
  apply round_signed_sign. intros H0. apply Z.ltb_ge. nia.
Qed.

Lemma f_div_signed a b : Z.abs a < 2 ^ 53 -> 0 < b < 2 ^ 53 ->
  f_div (float_of_int a) (float_of_int b) = round_signed false a b.
Proof.
  intros Ha Hb. destruct (int_denotes a Ha) as (Fa & Sa & Ba & Ta).
  destruct (float_of_int_denotes b ltac:(lia)) as (Sb & Fb & Bb & Tb).
  destruct (finite_not_special _ Fa) as [Na Ia], (finite_not_special _ Fb) as [Nb Ib].
  assert (Hz : is_zero (float_of_int b) = false).
  { pose proof (float_of_int_range b ltac:(lia)). unfold inf_bits in *. unfold is_zero, f_abs. apply Z.eqb_neq.
    rewrite Z.mod_small by lia. intros E. rewrite E in Tb, Bb. change (f_top 0) with 0 in Tb. nia. }
  unfold f_div. rewrite Na, Nb, Ia, Ib, Sa, Sb, Hz, Ta, Tb. cbn [orb]. rewrite xorb_false_r.
  set (x := f_bot (float_of_int a)) in *. set (y := f_bot (float_of_int b)) in *.
  replace (if a <? 0 then - (Z.abs a * x * y) else Z.abs a * x * y) with (a * (x * y))
    by (destruct (Z.ltb_spec a 0); [rewrite Z.abs_neq by lia|rewrite Z.abs_eq by lia]; lia).
  replace (b * y * x) with (b * (x * y)) by lia. rewrite round_signed_scale by nia.
  apply round_signed_sign. intros ->. done.
Qed.

(** An integer is below the float of a quotient when it is below the quotient. *)
Lemma f_lt_quotient L a b : 0 <= L -> Z.abs a < 2 ^ 53 -> 0 < b < 2 ^ 53 -> L * b < 2 ^ 52 ->
  f_lt (float_of_int L) (f_div (float_of_int a) (float_of_int b)) = (L * b <? a).
Proof.
  intros HL Ha Hb HLb. assert (0 <= L < 2 ^ 53) as HL' by nia.
  pose proof (float_of_int_range L HL') as Hr. rewrite f_div_signed by done. unfold f_lt.
  rewrite (pos_not_nan (float_of_int L)), (f_key_pos (float_of_int L)) by (unfold inf_bits in *; lia). cbn [negb andb].
  destruct (Z.lt_ge_cases a 0) as [H|H].
  - rewrite (proj2 (Z.ltb_ge (L * b) a)) by nia. apply andb_false_iff. right. apply Z.ltb_ge.
    unfold round_signed. rewrite (proj2 (Z.eqb_neq a 0)), (proj2 (Z.ltb_lt a 0)) by lia.
    set (y := Z.min inf_bits _). pose proof (round_ratio_nonneg (Z.abs a) b ltac:(lia) ltac:(lia)).
    assert (0 <= y <= inf_bits) as Hy by (unfold y, inf_bits; lia). unfold inf_bits in Hy.
    destruct (negative_fields y ltac:(lia)) as (E1 & _ & _ & E2). unfold f_key. rewrite E1, E2. lia.
  - assert (Hround : round_signed false a b = Z.min inf_bits (round_ratio a b)).
    { unfold round_signed. rewrite Z.abs_eq by lia.
      destruct (Z.eqb_spec a 0); [done|]. by rewrite (proj2 (Z.ltb_ge a 0)) by lia. }
    pose proof (round_ratio_nonneg a b ltac:(lia) ltac:(lia)) as Hn. rewrite Hround.
    rewrite pos_not_nan, f_key_pos by (unfold inf_bits in *; lia). cbn [negb andb].
    pose proof (round_above L a b HL Hb H HLb) as Hab.
    assert (float_of_int L = round_ratio L 1) as E.
    { unfold float_of_int, round_signed. rewrite Z.abs_eq by lia.
      assert (round_ratio L 1 <= inf_bits) as Hle.
      { etrans; [apply (round_ratio_mono L 1 (2 ^ 53) 1); lia|]. by vm_compute. }
      rewrite Z.min_r by done. destruct (Z.eqb_spec L 0); [done|]. by rewrite (proj2 (Z.ltb_ge L 0)) by lia. }
    apply eq_true_iff_eq. rewrite !Z.ltb_lt, <- Hab, <- E. lia.
Qed.
