(* ===== verification/GoFlag.v ===== *)
(** * Package flag

    [FlagSet.Parse] for flags of strings, booleans and floats, as the commands of the module
    use it: the flags with their defaults are a map, and so are the values that
    parsing leaves.  The usage text, which goes to the standard error, is left out. *)
From S2P Require Import Prelude GoStrings GoFloat GoText.
From Stdlib Require Import Ascii.

Inductive flag_value : Type :=
  | FlagString (s : string)
  | FlagBool (b : bool)
  | FlagFloat (bits : Z).

Inductive flag_error : Type :=
  | HelpRequested
  | BadFlagSyntax (arg : string)
  | FlagNotDefined (name : string)
  | FlagNeedsArgument (name : string)
  | InvalidFlagValue (value name : string).

(** [strconv.ParseBool]. *)
Definition ParseBool (s : string) : option bool :=
  if decide (s ∈ ["1"; "t"; "T"; "TRUE"; "true"; "True"]) then Some true
  else if decide (s ∈ ["0"; "f"; "F"; "FALSE"; "false"; "False"]) then Some false
  else None.

(** [Value.Set]: the kind of the flag is that of its value. *)
Definition set_flag (old : flag_value) (s : string) : option flag_value :=
  match old with
  | FlagString _ => Some (FlagString s)
  | FlagBool _ => FlagBool <$> ParseBool s
  | FlagFloat _ => match ParseFloat s with Ok b => Some (FlagFloat b) | Err _ => None end
  end.
Definition is_bool_flag (v : flag_value) : bool := match v with FlagBool _ => true | _ => false end.

(** What an argument is: no flag, the end of the flags, or a flag with its value, if it has one
    after an equals sign, which cannot come first. *)
Inductive argument : Type :=
  | NoFlag
  | EndOfFlags
  | BadFlag
  | Flag (name : string) (value : option string).
Definition flag_argument (s : string) : argument :=
  match s with
  | String "-" r =>
      let name := match r with String "-" r' => r' | _ => r end in
      if decide (r = "") then NoFlag
      else if decide (r = "-") then EndOfFlags
      else if decide (name = "") then BadFlag
      else if has_prefix "-" name || has_prefix "=" name then BadFlag
      else match name with
           | String c rest =>
               match cut "=" rest with
               | Some (a, v) => Flag (String c a) (Some v)
               | None => Flag name None
               end
           | "" => BadFlag
           end
  | _ => NoFlag
  end.

Section parse.
(** A flag of the set gets a value. *)
Definition assign (fs : gmap string flag_value) (name value : string) (old : flag_value) : result flag_error (gmap string flag_value) :=
  match set_flag old value with
  | Some v => Ok (<[name := v]> fs)
  | None => Err (InvalidFlagValue value name)
  end.

(** [Parse]: the values, and the arguments that are left. *)
Fixpoint parse_flags (fs : gmap string flag_value) (args : list string) : result flag_error (gmap string flag_value * list string) :=
  match args with
  | [] => Ok (fs, [])
  | s :: rest =>
      match flag_argument s with
      | NoFlag => Ok (fs, args)
      | EndOfFlags => Ok (fs, rest)
      | BadFlag => Err (BadFlagSyntax s)
      | Flag name value =>
          match fs !! name with
          | None =>
              Err (if decide (name = "help" \/ name = "h") then HelpRequested else FlagNotDefined name)
          | Some old =>
              if is_bool_flag old then
                fs ← assign fs name (default "true" value) old; parse_flags fs rest
              else
                match value, rest with
                | Some v, _ => fs ← assign fs name v old; parse_flags fs rest
                | None, v :: rest => fs ← assign fs name v old; parse_flags fs rest
                | None, [] => Err (FlagNeedsArgument name)
                end
          end
      end
  end.
End parse.

(** The values of the flags of a set. *)
Definition flag_text (fs : gmap string flag_value) (name : string) : string :=
  match fs !! name with Some (FlagString s) => s | _ => "" end.
Definition flag_set (fs : gmap string flag_value) (name : string) : bool :=
  match fs !! name with Some (FlagBool b) => b | _ => false end.
Definition flag_float (fs : gmap string flag_value) (name : string) : Z :=
  match fs !! name with Some (FlagFloat b) => b | _ => 0%Z end.

(** Parsing keeps the flags and their kinds. *)
Definition same_kind (v w : flag_value) : bool :=
  match v, w with
  | FlagString _, FlagString _ | FlagBool _, FlagBool _ | FlagFloat _, FlagFloat _ => true
  | _, _ => false
  end.

Lemma set_flag_kind old s v : set_flag old s = Some v -> same_kind old v = true.
Proof.
  destruct old as [t|b|f]; cbn; [by intros [= <-]|by intros (b' & _ & ->)%fmap_Some|].
  destruct (ParseFloat s); [by intros [= <-]|done].
Qed.

Definition kinds_kept (fs fs' : gmap string flag_value) : Prop :=
  forall name, match fs !! name, fs' !! name with
               | Some v, Some w => same_kind v w = true
               | None, None => True
               | _, _ => False
               end.

Lemma same_kind_refl v : same_kind v v = true.
Proof. by destruct v. Qed.
Lemma same_kind_trans u v w : same_kind u v = true -> same_kind v w = true -> same_kind u w = true.
Proof. by destruct u, v, w. Qed.

#[export] Instance kinds_kept_preorder : PreOrder kinds_kept.
Proof.
  split.
  - intros fs name. destruct (fs !! name); [apply same_kind_refl|done].
  - intros f1 f2 f3 H1 H2 name. specialize (H1 name). specialize (H2 name).
    destruct (f1 !! name), (f2 !! name), (f3 !! name); try done. by eapply same_kind_trans.
Qed.

Lemma assign_kinds fs name value old fs' :
  fs !! name = Some old -> assign fs name value old = Ok fs' -> kinds_kept fs fs'.
Proof.
  unfold assign. intros Hold. destruct (set_flag old value) as [v|] eqn:Hv; [|done]. intros [= <-] n.
  destruct (decide (name = n)) as [<-|Hne].
  - rewrite lookup_insert_eq, Hold. by eapply set_flag_kind.
  - rewrite lookup_insert_ne by done. destruct (fs !! n); [apply same_kind_refl|done].
Qed.

Lemma parse_flags_kinds n : forall args fs fs' rest, (length args <= n)%nat ->
  parse_flags fs args = Ok (fs', rest) -> kinds_kept fs fs'.
Proof.
  induction n as [|n IH]; intros args fs fs' rest Hn; destruct args as [|s args]; cbn in Hn |- *; try lia;
    try by intros [= <- _].
  destruct (flag_argument s) as [| | |name value]; try done; try by intros [= <- _].
  destruct (fs !! name) as [old|] eqn:Hold; [|done].
  destruct (is_bool_flag old).
  { intros (fs1 & Ha & H)%bind_Ok. trans fs1; [by eapply assign_kinds|]. by eapply IH; [|exact H]; lia. }
  destruct value as [v|]; [|destruct args as [|v args]; [done|]].
  - intros (fs1 & Ha & H)%bind_Ok. trans fs1; [by eapply assign_kinds|]. by eapply IH; [|exact H]; lia.
  - cbn in Hn. intros (fs1 & Ha & H)%bind_Ok. trans fs1; [by eapply assign_kinds|]. by eapply IH; [|exact H]; lia.
Qed.

Example parse_flags_example :
  parse_flags {["repo" := FlagString "."; "force" := FlagBool false; "min" := FlagFloat 0]}
    ["-repo=a=b"; "--force"; "-min"; "1.5"; "x"; "-force=0"] =
  Ok ({["repo" := FlagString "a=b"; "force" := FlagBool true; "min" := FlagFloat 0x3FF8000000000000]}, ["x"; "-force=0"]).
Proof. vm_compute. reflexivity. Qed.
