(* ===== verification/GoFiles.v ===== *)
(** * Files

    Packages os and path/filepath as the maintenance command uses them, on a system with
    slashes and without symbolic links: a tree of files by the components of their absolute
    paths, and the operations with the errors the command tells apart.  Other
    errors (of the disk, of permissions) are a parameter, [system_faults].  Paths are followed
    as they are after cleaning: a way up from a directory that does not exist and a slash
    behind the name of a file, which the system refuses, are outside the model. *)
From S2P Require Import Prelude GoStrings.
From Stdlib Require Import Ascii.
Local Open Scope nat_scope.

(** ** Package filepath *)

Definition components (path : string) : list string := filter (fun p => p <> "") (split_on "/" path).

(** [filepath.Abs] in the directory [cwd], and [filepath.Join] of two paths that are not empty. *)
Definition join_path (a b : string) : string := path_clean (a +:+ "/" +:+ b).
Definition path_Join (a b : string) : string :=
  if decide (a = "") then (if decide (b = "") then "" else path_clean b)
  else if decide (b = "") then path_clean a else join_path a b.
Definition Abs (cwd path : string) : string := if path_is_abs path then path_clean path else join_path cwd path.

Fixpoint drop_common (base target : list string) : list string * list string :=
  match base, target with
  | b :: base', t :: target' => if decide (b = t) then drop_common base' target' else (base, target)
  | _, _ => (base, target)
  end.
(** [filepath.Rel] of two clean absolute paths. *)
Definition Rel (base target : string) : string :=
  let '(up, down) := drop_common (components base) (components target) in
  match up, down with
  | [], [] => "."
  | _, _ => join_with "/" (map (fun _ => "..") up ++ down)
  end.

(** ** The file system *)

Inductive file_node : Type :=
  | FileNode (data : string) (perm : Z)
  | DirNode.

Inductive os_error : Type :=
  | NotExist
  | NotDir
  | IsDir
  | Fault (reason : string).

Inductive sys_call : Type :=
  | SysStat (k : list string)
  | SysReadDir (k : list string)
  | SysRead (k : list string)
  | SysWrite (k : list string)
  | SysMkdir (k : list string)
  | SysRemove (k : list string).

(** What goes wrong; a removal that fails has removed a part. *)
Record system_faults : Type := mkFaults {
  fault : sys_call -> option string;
  survives : list string -> bool
}.

Section system.
Context (faults : system_faults).

Definition guarded {A : Type} (call : sys_call) (r : result os_error A) : result os_error A :=
  match fault faults call with Some e => Err (Fault e) | None => r end.

(** Whether a path goes through a regular file. *)
Definition through_file (fs : gmap (list string) file_node) (k : list string) : bool :=
  existsb (fun n => match fs !! take n k with Some (FileNode _ _) => true | _ => false end) (seq 0 (length k)).
Definition lookup_node (fs : gmap (list string) file_node) (k : list string) : result os_error file_node :=
  match fs !! k with
  | Some n => Ok n
  | None => Err (if through_file fs k then NotDir else NotExist)
  end.

(** [os.Stat]. *)
Definition Stat (fs : gmap (list string) file_node) (k : list string) : result os_error file_node :=
  guarded (SysStat k) (lookup_node fs k).

(** [os.ReadDir]: the names in a directory. *)
Definition child_of (k k' : list string) : bool :=
  bool_decide (take (length k) k' = k) && (length k' =? S (length k)).
Definition ReadDir (fs : gmap (list string) file_node) (k : list string) : result os_error (list (list string)) :=
  guarded (SysReadDir k) (Ok (filter (fun k' => child_of k k' = true) (map fst (map_to_list fs)))).

(** [os.ReadFile]. *)
Definition ReadFile (fs : gmap (list string) file_node) (k : list string) : result os_error string :=
  guarded (SysRead k)
    (n ← lookup_node fs k; match n with FileNode data _ => Ok data | DirNode => Err IsDir end).

(** [os.WriteFile]: a file that exists keeps its permissions.  A write or a [MkdirAll] that fails
    changes nothing here; the system may leave part of the text, or some of the directories. *)
Definition WriteFile (umask : Z) (k : list string) (data : string) (perm : Z) (fs : gmap (list string) file_node)
    : gmap (list string) file_node * result os_error unit :=
  match guarded (SysWrite k)
          match fs !! k with
          | Some DirNode => Err IsDir
          | Some (FileNode _ old) => Ok old
          | None =>
              match lookup_node fs (removelast k) with
              | Ok DirNode => Ok (Z.land perm (Z.lnot umask))
              | Ok (FileNode _ _) => Err NotDir
              | Err e => Err e
              end
          end with
  | Ok perm => (<[k := FileNode data perm]> fs, Ok ())
  | Err e => (fs, Err e)
  end.

(** [os.MkdirAll]. *)
Definition add_dirs (k : list string) (fs : gmap (list string) file_node) : gmap (list string) file_node :=
  fold_left (fun fs n => match fs !! take n k with Some _ => fs | None => <[take n k := DirNode]> fs end)
    (seq 0 (S (length k))) fs.
Definition MkdirAll (k : list string) (fs : gmap (list string) file_node)
    : gmap (list string) file_node * result os_error unit :=
  match guarded (SysMkdir k)
          (if through_file fs k then Err NotDir
           else match fs !! k with Some (FileNode _ _) => Err NotDir | _ => Ok () end) with
  | Ok _ => (add_dirs k fs, Ok ())
  | Err e => (fs, Err e)
  end.

(** [os.RemoveAll]. *)
Definition below (k k' : list string) : bool := bool_decide (take (length k) k' = k).
Definition RemoveAll (k : list string) (fs : gmap (list string) file_node)
    : gmap (list string) file_node * result os_error unit :=
  match fault faults (SysRemove k) with
  | None => (filter (fun kv => below k (fst kv) = false) fs, Ok ())
  | Some e => (filter (fun kv => below k (fst kv) = false \/ survives faults (fst kv) = true) fs, Err (Fault e))
  end.
End system.

(** ** Facts *)

Lemma below_spec k k' : below k k' = true <-> k `prefix_of` k'.
Proof.
  unfold below. rewrite bool_decide_eq_true. split.
  - intros H. exists (drop (length k) k'). rewrite <- H at 1. by rewrite take_drop.
  - intros [r ->]. by rewrite take_app_length.
Qed.

Lemma RemoveAll_elsewhere faults k fs k' : below k k' = false -> fst (RemoveAll faults k fs) !! k' = fs !! k'.
Proof.
  intros Hb. unfold RemoveAll. destruct (fault faults (SysRemove k)); cbn [fst]; apply option_eq; intros n;
    rewrite map_lookup_filter_Some; cbn [fst]; rewrite Hb; naive_solver.
Qed.

Lemma WriteFile_elsewhere faults umask k data perm fs k' :
  k' <> k -> fst (WriteFile faults umask k data perm fs) !! k' = fs !! k'.
Proof.
  intros Hne. unfold WriteFile. destruct (guarded _ _ _); [|done]. cbn [fst]. by rewrite lookup_insert_ne.
Qed.

Lemma WriteFile_written faults umask k data perm fs fs' :
  WriteFile faults umask k data perm fs = (fs', Ok ()) -> exists p, fs' !! k = Some (FileNode data p).
Proof.
  unfold WriteFile. destruct (guarded _ _ _) as [p|e]; [|done]. intros [= <-]. exists p. by rewrite lookup_insert_eq.
Qed.

(** Making directories changes no node there is, and adds directories on the way to [k] alone. *)
Lemma add_dirs_keeps k fs k' n : fs !! k' = Some n -> add_dirs k fs !! k' = Some n.
Proof.
  unfold add_dirs. generalize (seq 0 (S (length k))). intros l. revert fs.
  induction l as [|i l IH]; intros fs H; [done|]. cbn [fold_left]. apply IH.
  destruct (fs !! take i k) eqn:E; [done|]. rewrite lookup_insert_ne; [done|]. intros E'. rewrite E' in E. congruence.
Qed.

Lemma add_dirs_new k fs k' n : add_dirs k fs !! k' = Some n -> fs !! k' = Some n \/ n = DirNode /\ k' `prefix_of` k.
Proof.
  unfold add_dirs. generalize (seq 0 (S (length k))). intros l. revert fs.
  induction l as [|i l IH]; intros fs H; [by left|]. cbn [fold_left] in H. apply IH in H as [H|H]; [|by right].
  destruct (fs !! take i k) eqn:E; [by left|]. apply lookup_insert_Some in H as [[<- <-]|[_ H]]; [|by left].
  right. split; [done|]. exists (drop i k). by rewrite take_drop.
Qed.

Lemma MkdirAll_keeps faults k fs k' n :
  fs !! k' = Some n -> fst (MkdirAll faults k fs) !! k' = Some n.
Proof. intros H. unfold MkdirAll. destruct (guarded _ _ _); [by apply add_dirs_keeps|done]. Qed.

Lemma MkdirAll_new faults k fs k' n :
  fst (MkdirAll faults k fs) !! k' = Some n -> fs !! k' = Some n \/ n = DirNode /\ k' `prefix_of` k.
Proof. unfold MkdirAll. destruct (guarded _ _ _); [apply add_dirs_new|by left]. Qed.

(** *** Paths *)

(** The name of a file, as a component of a path. *)
Definition plain_name (p : string) : bool :=
  negb (bool_decide (p ∈ [""; "."; ".."])) && lacks "/" p.
Definition plain (l : list string) : Prop := Forall (fun p => plain_name p = true) l.
Definition absolute (l : list string) : string := String "/" (join_with "/" l).

Lemma clean_plain l stack : plain l -> fold_left clean_step l stack = rev l ++ stack.
Proof.
  intros Hl. revert stack. induction Hl as [|p l Hp Hl IH]; intros stack; [done|]. cbn [fold_left rev].
  unfold clean_step at 2. apply andb_true_iff in Hp as [Hp _].
  apply negb_true_iff, bool_decide_eq_false in Hp.
  rewrite decide_False by set_solver. rewrite decide_False by set_solver. rewrite IH, <- app_assoc. done.
Qed.

Lemma plain_lacks l : plain l -> Forall (fun p => lacks "/" p = true) l.
Proof. intros Hl. eapply Forall_impl; [exact Hl|]. by intros p [_ H]%andb_true_iff. Qed.

Lemma split_absolute l : plain l -> l <> [] -> split_on "/" (absolute l) = "" :: l.
Proof. intros Hl Hne. unfold absolute. cbn. f_equal. apply split_join; [done|by apply plain_lacks]. Qed.

Lemma filter_plain l : plain l -> filter (fun p => p <> "") l = l.
Proof.
  induction 1 as [|p l Hp Hl IH]; [done|]. rewrite filter_cons_True, IH; [done|].
  intros ->. by vm_compute in Hp.
Qed.

Lemma components_absolute l : plain l -> components (absolute l) = l.
Proof.
  intros Hl. unfold components. destruct l as [|p l]; [done|].
  rewrite split_absolute by done. rewrite filter_cons_False by (intros H; by destruct H).
  by apply filter_plain.
Qed.

(** The components that cleaning a rooted path keeps. *)
Definition no_up (l : list string) : list string := filter (fun p => p <> "..") l.

Lemma no_up_plain l : plain l -> no_up l = l.
Proof.
  induction 1 as [|p l Hp Hl IH]; [done|]. unfold no_up in *. rewrite filter_cons_True, IH; [done|].
  intros ->. by vm_compute in Hp.
Qed.

(** What is on the stack of [clean_step]. *)
Definition clean_name (p : string) : Prop := p <> "" /\ p <> "." /\ lacks "/" p = true.

Lemma clean_step_names stack p : lacks "/" p = true -> Forall clean_name stack -> Forall clean_name (clean_step stack p).
Proof.
  intros Hp Hs. unfold clean_step. case_decide as H1; [done|]. case_decide as H2.
  - subst p. destruct stack as [|top rest]; [by repeat constructor|].
    case_decide; [by constructor|]. by inversion Hs.
  - constructor; [|done]. split_and!; [tauto..|done].
Qed.

Lemma clean_parts_names parts : Forall (fun p => lacks "/" p = true) parts -> Forall clean_name (clean_parts parts).
Proof.
  intros Hp. unfold clean_parts. apply Forall_rev. assert (H : Forall clean_name []) by constructor. revert H.
  generalize ([] : list string). induction Hp as [|p parts Hp _ IH]; intros stack Hs; [done|]. cbn [fold_left].
  by apply IH, clean_step_names.
Qed.

Lemma no_up_names l : Forall clean_name l -> plain (no_up l).
Proof.
  intros Hl. apply Forall_forall. intros p [Hne Hin]%list_elem_of_filter.
  rewrite Forall_forall in Hl. destruct (Hl p Hin) as (H1 & H2 & H3).
  unfold plain_name. rewrite H3, andb_true_r. apply negb_true_iff, bool_decide_eq_false. set_solver.
Qed.

(** A cleaned rooted path is that of a list of names. *)
Lemma clean_absolute s : path_is_abs s = true -> exists l, plain l /\ path_clean s = absolute l.
Proof.
  intros Hs. unfold path_clean. unfold path_is_abs in Hs. rewrite Hs.
  exists (no_up (clean_parts (split_on "/" s))). split; [|done].
  apply no_up_names, clean_parts_names, split_on_lacks.
Qed.

Lemma fold_absolute l : plain l -> fold_left clean_step (split_on "/" (absolute l)) [] = rev l.
Proof.
  intros Hl. destruct l as [|p l]; [done|]. rewrite split_absolute by done.
  change (fold_left clean_step (p :: l) [] = rev (p :: l)). rewrite clean_plain by done. apply app_nil_r.
Qed.

(** A file of a directory: a relative path of names behind a clean one. *)
Lemma join_absolute l r : plain l -> plain r -> r <> [] ->
  join_path (absolute l) (join_with "/" r) = absolute (l ++ r).
Proof.
  intros Hl Hr Hne. unfold join_path, path_clean, clean_parts.
  change (absolute l +:+ "/" +:+ ?x) with (absolute l +:+ String "/" x).
  rewrite split_on_app, fold_left_app, fold_absolute by done.
  rewrite split_join by (done || by apply plain_lacks). rewrite clean_plain by done.
  rewrite <- rev_app_distr, rev_involutive.
  change (has_prefix "/" (absolute l +:+ _)) with true. cbv iota.
  assert (Hlr : plain (l ++ r)) by (by apply Forall_app). pose proof (no_up_plain _ Hlr) as E. unfold no_up in E.
  by rewrite E.
Qed.

Lemma clean_absolute_id l : plain l -> path_clean (absolute l) = absolute l.
Proof.
  intros Hl. unfold path_clean, clean_parts. rewrite fold_absolute, rev_involutive by done.
  change (has_prefix "/" (absolute l)) with true. cbv iota.
  pose proof (no_up_plain _ Hl) as E. unfold no_up in E. by rewrite E.
Qed.

(** [Abs] gives a clean path. *)
Lemma Abs_absolute cwd path : path_is_abs cwd = true -> exists l, plain l /\ Abs cwd path = absolute l.
Proof.
  intros Hc. unfold Abs, join_path. destruct (path_is_abs path) eqn:Hp; [by apply clean_absolute|].
  apply clean_absolute. unfold path_is_abs in *. apply has_prefix_split in Hc as [r ->].
  rewrite !str_app_assoc. apply (has_prefix_app "/").
Qed.

(** *** Relative paths *)

Lemma drop_common_spec base target up down : drop_common base target = (up, down) ->
  exists l, base = l ++ up /\ target = l ++ down.
Proof.
  revert target. induction base as [|b base IH]; intros target; cbn; [intros [= <- <-]; by exists []|].
  destruct target as [|t target]; [intros [= <- <-]; by exists []|].
  case_decide as Hbt; [|intros [= <- <-]; by exists []]. subst t.
  intros (l & -> & ->)%IH. by exists (b :: l).
Qed.

Lemma drop_common_prefix base r : drop_common base (base ++ r) = ([], r).
Proof. induction base as [|b base IH]; [by destruct r|]. cbn. by rewrite decide_True. Qed.

Lemma join_head p l : exists r, join_with "/" (p :: l) = p +:+ r /\ (r = "" \/ exists r', r = String "/" r').
Proof.
  destruct l as [|q l]; cbn; [exists ""; rewrite str_app_nil_r; auto|]. eexists. split; [reflexivity|]. right. by eexists.
Qed.
