(* ===== verification/GoUrl.v ===== *)
(** * Package net/url

    Parsing and printing of URLs as the module uses them: [Parse], [URL.String] and
    [URL.EscapedPath] of Go 1.25.  What a host in brackets (an address of IPv6)
    may hold has changed between releases of Go and is an argument. *)
From S2P Require Import Prelude GoStrings GoText.
From Stdlib Require Import Ascii.
Local Open Scope Z_scope.

(** ** Escaping *)

Inductive encoding : Type := encodePath | encodeHost | encodeUserPassword | encodeFragment.

Definition one_of (chars : string) (c : ascii) : bool := negb (lacks c chars).
Definition is_alnum (c : ascii) : bool := byte_in 97 122 c || byte_in 65 90 c || is_dec c.
Definition host_extra (c : ascii) : bool := one_of "!$&'()*+,;=:[]<>" c || (code c =? 34).

Definition shouldEscape (mode : encoding) (c : ascii) : bool :=
  if is_alnum c then false
  else if (match mode with encodeHost => host_extra c | _ => false end) then false
  else if one_of "-_.~" c then false
  else
    match mode with
    | encodePath => negb (one_of "$&+,/:;=@" c)
    | encodeUserPassword => negb (one_of "$&+,;=" c)
    | encodeFragment => negb (one_of "$&+,/:;=?@!()*" c)
    | encodeHost => true
    end.

Definition hex_char (n : Z) : ascii := chr (if n <? 10 then 48 + n else 55 + n).
Definition is_hex_digit (c : ascii) : bool := is_dec c || is_hex c.

Fixpoint escape (mode : encoding) (s : string) : string :=
  match s with
  | "" => ""
  | String c r =>
      if shouldEscape mode c
      then String "%" (String (hex_char (code c / 16)) (String (hex_char (code c mod 16)) (escape mode r)))
      else String c (escape mode r)
  end.

(** [None] is an error: an escape that is none, or a byte a host cannot have. *)
Fixpoint unescape (mode : encoding) (s : string) : option string :=
  match s with
  | "" => Some ""
  | String "%" r =>
      match r with
      | String a (String b r') =>
          if is_hex_digit a && is_hex_digit b then
            if (match mode with encodeHost => hex_value a <? 8 | _ => false end) && negb (has_prefix "25" r)
            then None
            else String (chr (hex_value a * 16 + hex_value b)) <$> unescape mode r'
          else None
      | _ => None
      end
  | String c r =>
      if (match mode with encodeHost => code c <? 128 | _ => false end) && shouldEscape mode c then None
      else String c <$> unescape mode r
  end.

(** ** URLs *)

Record URL : Type := mkURL {
  Scheme : string;
  Opaque : string;
  User : option (string * option string);
  Host : string;
  Path : string;
  RawPath : string;
  OmitHost : bool;
  ForceQuery : bool;
  RawQuery : string;
  Fragment : string
}.

Inductive url_error : Type :=
  | InvalidControl
  | MissingScheme
  | ColonInSegment
  | InvalidPort (port : string)
  | InvalidUserinfo
  | InvalidEscape (s : string)
  | InvalidIPLiteral (host : string).

Definition control_byte (c : ascii) : bool := (code c <? 32) || (code c =? 127).

(** [getScheme]: the scheme and what follows the colon. *)
Fixpoint scheme_from (first : bool) (s : string) : option (result url_error (string * string)) :=
  match s with
  | "" => None
  | String c r =>
      if byte_in 97 122 c || byte_in 65 90 c || (is_dec c || one_of "+-." c) && negb first then
        match scheme_from false r with
        | Some (Ok (a, b)) => Some (Ok (String c a, b))
        | other => other
        end
      else if Ascii.eqb c ":" then Some (if first then Err MissingScheme else Ok ("", r))
      else None
  end.
Definition getScheme (rawURL : string) : result url_error (string * string) :=
  match scheme_from true rawURL with Some r => r | None => Ok ("", rawURL) end.

(** [strings.ToLower] of a scheme, which is ASCII. *)
Fixpoint to_lower (s : string) : string :=
  match s with
  | "" => ""
  | String c r => String (if byte_in 65 90 c then chr (code c + 32) else c) (to_lower r)
  end.

Definition validOptionalPort (port : string) : bool :=
  match port with "" => true | String c r => Ascii.eqb c ":" && all_bytes is_dec r end.

Definition userinfo_byte (c : ascii) : bool := is_alnum c || one_of "-._:~!$&'()*+,;=%@" c.
Definition userinfo_part (s : string) : result url_error string :=
  match unescape encodeUserPassword s with Some t => Ok t | None => Err (InvalidEscape s) end.
Definition parseUserinfo (userinfo : string) : result url_error (string * option string) :=
  if negb (all_bytes userinfo_byte userinfo) then Err InvalidUserinfo
  else match cut ":" userinfo with
       | None => name ← userinfo_part userinfo; Ok (name, None)
       | Some (name, password) =>
           name ← userinfo_part name;
           password ← userinfo_part password;
           Ok (name, Some password)
       end.

(** [setPath]. *)
Definition parsePath (p : string) : result url_error (string * string) :=
  match unescape encodePath p with
  | None => Err (InvalidEscape p)
  | Some path => Ok (path, if decide (p = escape encodePath path) then "" else p)
  end.

Section url.
(** The host in brackets with what follows it, unescaped. *)
Context (ip_literal : string -> option string).

Definition parseHost (host : string) : result url_error string :=
  if any_byte (fun c => Ascii.eqb c "[") host
  then match ip_literal host with Some h => Ok h | None => Err (InvalidIPLiteral host) end
  else
    let port := match cut_last ":" host with Some (_, p) => String ":" p | None => "" end in
    if negb (validOptionalPort port) then Err (InvalidPort port)
    else match unescape encodeHost host with Some h => Ok h | None => Err (InvalidEscape host) end.

Definition parseAuthority (authority : string)
    : result url_error (option (string * option string) * string) :=
  match cut_last "@" authority with
  | None => host ← parseHost authority; Ok (None, host)
  | Some (userinfo, host) =>
      host ← parseHost host;
      user ← parseUserinfo userinfo;
      Ok (Some user, host)
  end.

(** [strings.HasSuffix(rest, "?") && strings.Count(rest, "?") == 1]. *)
Definition forces_query (rest : string) : bool :=
  match cut "?" rest with Some (_, "") => true | _ => false end.

(** [parse], not for a request. *)
Definition parse (rawURL : string) : result url_error URL :=
  if any_byte control_byte rawURL then Err InvalidControl
  else if decide (rawURL = "*") then Ok (mkURL "" "" None "" "*" "" false false "" "")
  else
    '(scheme, rest) ← getScheme rawURL;
    let scheme := to_lower scheme in
    let force := forces_query rest in
    let '(rest, query) := match cut "?" rest with Some (a, b) => (a, b) | None => (rest, "") end in
    let segment := match cut "/" rest with Some (a, _) => a | None => rest end in
    if negb (has_prefix "/" rest) && negb (String.eqb scheme "") then
      Ok (mkURL scheme rest None "" "" "" false force query "")
    else if negb (has_prefix "/" rest) && one_of segment ":" then Err ColonInSegment
    else
      let authority := (negb (String.eqb scheme "") || negb (has_prefix "///" rest)) && has_prefix "//" rest in
      let '(auth, path) :=
        if authority then
          match cut "/" (drop_bytes 2 rest) with
          | Some (a, p) => (a, String "/" p)
          | None => (drop_bytes 2 rest, "")
          end
        else ("", rest) in
      '(user, host) ← (if authority then parseAuthority auth else Ok (None, ""));
      '(path, raw) ← parsePath path;
      Ok (mkURL scheme "" user host path raw
            (negb authority && negb (String.eqb scheme "") && has_prefix "/" rest) force query "").

Definition put_Fragment (f : string) (u : URL) : URL :=
  mkURL (Scheme u) (Opaque u) (User u) (Host u) (Path u) (RawPath u) (OmitHost u) (ForceQuery u) (RawQuery u) f.

(** [url.Parse]. *)
Definition Parse (rawURL : string) : result url_error URL :=
  let '(u, frag) := match cut "#" rawURL with Some (a, b) => (a, b) | None => (rawURL, "") end in
  url ← parse u;
  match unescape encodeFragment frag with
  | Some f => Ok (put_Fragment f url)
  | None => Err (InvalidEscape frag)
  end.
End url.

(** ** Printing *)

Definition validEncoded (s : string) : bool :=
  all_bytes (fun c => one_of "!$&'()*+,;=:@[]%" c || negb (shouldEscape encodePath c)) s.
Definition EscapedPath (u : URL) : string :=
  if negb (String.eqb (RawPath u) "") && validEncoded (RawPath u)
     && bool_decide (unescape encodePath (RawPath u) = Some (Path u)) then RawPath u
  else if decide (Path u = "*") then "*"
  else escape encodePath (Path u).

Definition print_user (user : option (string * option string)) : string :=
  match user with
  | None => ""
  | Some (name, None) => escape encodeUserPassword name +:+ "@"
  | Some (name, Some password) =>
      escape encodeUserPassword name +:+ ":" +:+ escape encodeUserPassword password +:+ "@"
  end.

(** [URL.String] of a URL that is not opaque and has a scheme, a host and no fragment, as
    all are that the module prints. *)
Definition url_string (u : URL) : string :=
  let path := EscapedPath u in
  Scheme u +:+ "://" +:+ print_user (User u) +:+ escape encodeHost (Host u)
  +:+ (if negb (String.eqb path "") && negb (has_prefix "/" path) then "/" else "") +:+ path
  +:+ (if ForceQuery u || negb (String.eqb (RawQuery u) "") then "?" +:+ RawQuery u else "").
