(* ===== verification/Addresses.v ===== *)
(** * The addresses of a deployment

    [normalizeDeploymentURL] of [client_options.go], which gives the HTTP client its address, and
    [WebSocketURL] of [internal/syncclient/websocket_manager.go], which gives the manager
    the one it dials: what they accept, and that both lead to one host. *)
From S2P Require Import Prelude GoStrings GoText GoUrl.
From Stdlib Require Import Ascii.
Local Open Scope Z_scope.

Inductive address_error : Type :=
  | AddressEmpty
  | AddressInvalid (url : string) (e : url_error)
  | AddressNotHTTP
  | AddressNoHost
  | AddressOfActions (url : string)
  | AddressScheme (scheme : string).

Definition syncWebSocketPath : string := "/api/sync".

(** Assignment to the path, with no query and no fragment. *)
Definition with_path (scheme path : string) (u : URL) : URL :=
  mkURL scheme (Opaque u) (User u) (Host u) path (RawPath u) (OmitHost u) (ForceQuery u) "" "".

Section addresses.
Context (ip_literal : string -> option string).

Definition normalizeDeploymentURL (deploymentURL : string) (skipCheck : bool) : result address_error string :=
  if decide (trim_space deploymentURL = "") then Err AddressEmpty
  else match Parse ip_literal deploymentURL with
  | Err e => Err (AddressInvalid deploymentURL e)
  | Ok parsed =>
      if negb (bool_decide (Scheme parsed = "http")) && negb (bool_decide (Scheme parsed = "https"))
      then Err AddressNotHTTP
      else if decide (Host parsed = "") then Err AddressNoHost
      else if negb skipCheck && has_suffix ".convex.site" (Host parsed) then Err (AddressOfActions deploymentURL)
      else
        let parsed := with_path (Scheme parsed) (trim_right_byte "/" (Path parsed)) parsed in
        Ok (trim_right_byte "/" (url_string parsed))
  end.

Definition websocket_scheme (scheme : string) : result address_error string :=
  if decide (scheme = "http") then Ok "ws"
  else if decide (scheme = "https") then Ok "wss"
  else if decide (scheme = "ws" \/ scheme = "wss") then Ok scheme
  else Err (AddressScheme scheme).

Definition WebSocketURL (deploymentURL : string) : result address_error string :=
  if decide (trim_space deploymentURL = "") then Err AddressEmpty
  else match Parse ip_literal deploymentURL with
  | Err e => Err (AddressInvalid deploymentURL e)
  | Ok parsed =>
      scheme ← websocket_scheme (Scheme parsed);
      if decide (Host parsed = "") then Err AddressNoHost
      else Ok (url_string (with_path scheme syncWebSocketPath parsed))
  end.

End addresses.

(** ** Examples *)

Definition no_literal : string -> option string := fun _ => None.
Example normalize_examples :
  map (fun s => normalizeDeploymentURL no_literal s false)
    ["https://happy-animal-123.convex.cloud/"; "HTTP://User:p%40ss@h:3210/base//"; "https://x.convex.site"; "h:80";
     "https://h/a%2Fb"; "https://h/a%2Fb/"; "https://h/?"; "https://h/?q=1#f"; "https://h:port"] =
  [Ok "https://happy-animal-123.convex.cloud"; Ok "http://User:p%40ss@h:3210/base"; Err (AddressOfActions "https://x.convex.site");
   Err AddressNotHTTP; Ok "https://h/a%2Fb"; Ok "https://h/a/b"; Ok "https://h?"; Ok "https://h";
   Err (AddressInvalid "https://h:port" (InvalidPort ":port"))].
Proof. vm_compute. reflexivity. Qed.
Example websocket_examples :
  map (WebSocketURL no_literal) ["https://happy-animal-123.convex.cloud/"; "http://h:3210/base"; "ws://h"; "ftp://h"; "https://h/?"] =
  [Ok "wss://happy-animal-123.convex.cloud/api/sync"; Ok "ws://h:3210/api/sync"; Ok "ws://h/api/sync";
   Err (AddressScheme "ftp"); Ok "wss://h/api/sync?"].
Proof. vm_compute. reflexivity. Qed.

(** ** The ends of texts *)

#[local] Arguments String.append !_ _ /.

Fixpoint last_byte (s : string) : option ascii :=
  match s with
  | "" => None
  | String c r => match last_byte r with Some d => Some d | None => Some c end
  end.

Lemma last_byte_app a b : last_byte (a +:+ b) = match last_byte b with Some d => Some d | None => last_byte a end.
Proof. induction a as [|c a IH]; cbn; [by destruct (last_byte b)|]. rewrite IH. by destruct (last_byte b). Qed.

Lemma last_byte_None s : last_byte s = None -> s = "".
Proof. destruct s as [|c s]; [done|]. cbn. destruct (last_byte s); intros [=]. Qed.

Lemma trim_right_id c s : last_byte s <> Some c -> trim_right_byte c s = s.
Proof.
  induction s as [|d s IH]; [done|]. cbn. destruct (last_byte s) as [e|] eqn:E.
  - intros H. rewrite IH by done. by destruct s.
  - apply last_byte_None in E as ->. intros H. cbn. rewrite decide_False; [done|]. by intros ->.
Qed.

Lemma last_byte_trim c s : last_byte (trim_right_byte c s) <> Some c.
Proof.
  induction s as [|d s IH]; [done|]. cbn. destruct (trim_right_byte c s) as [|e t].
  - case_decide as Hd; [done|]. cbn. by intros [= ->].
  - cbn [last_byte] in *. destruct (last_byte t); [done|]. exact IH.
Qed.

(** Empty, or rooted: what the path after a host is. *)
Definition rooted (s : string) : Prop := s = "" \/ exists r, s = String "/" r.

Lemma trim_rooted s : rooted s -> rooted (trim_right_byte "/" s).
Proof.
  intros [->|[r ->]]; [by left|]. cbn. destruct (trim_right_byte "/" r); [by left|]. right. eauto.
Qed.

(** ** Escapes and the ends of paths *)

(** A fact about the sixteen digits, one by one. *)
Ltac each_digit n Hn :=
  rewrite <- (Z2Nat.id n) by lia; assert (Hk : (Z.to_nat n < 16)%nat) by lia; revert Hk;
  generalize (Z.to_nat n); clear Hn; intros k Hk; do 16 (destruct k as [|k]; [done|]); lia.

Lemma hex_char_slash n : 0 <= n < 16 -> hex_char n <> "/"%char.
Proof. intros Hn. each_digit n Hn. Qed.

(** The last byte of an escaped text is a slash only if the text ends in one that stays. *)
Lemma escape_last mode s : last_byte (escape mode s) = Some "/"%char ->
  last_byte s = Some "/"%char /\ shouldEscape mode "/" = false.
Proof.
  induction s as [|c s IH]; [done|]. cbn [escape last_byte].
  destruct (shouldEscape mode c) eqn:Hc; cbn [last_byte].
  - destruct (last_byte (escape mode s)) as [d|] eqn:E.
    + intros [= ->]. destruct IH as [-> ?]; done.
    + intros [= H]. exfalso. revert H. apply hex_char_slash. by apply Z.mod_pos_bound.
  - destruct (last_byte (escape mode s)) as [d|] eqn:E.
    + intros [= ->]. destruct IH as [-> ?]; done.
    + intros [= ->]. apply last_byte_None in E. destruct s as [|d s]; [done|]. cbn in E.
      by destruct (shouldEscape mode d).
Qed.

Lemma escape_rooted s : rooted s -> rooted (escape encodePath s).
Proof. intros [->|[r ->]]; [by left|]. right. by eexists. Qed.

Lemma unescape_path_cons c r : c <> "%"%char -> unescape encodePath (String c r) = String c <$> unescape encodePath r.
Proof. intros Hc. destruct c as [[] [] [] [] [] [] [] []]; first [reflexivity|congruence]. Qed.

Lemma unescape_rooted s t : unescape encodePath s = Some t -> rooted s -> rooted t.
Proof.
  intros H [->|[r ->]]; [injection H as <-; by left|]. rewrite unescape_path_cons in H by done.
  apply fmap_Some in H as (t' & _ & ->). right. by eexists.
Qed.

(** A slash at the end of an escaped path is one of the path. *)
Lemma unescape_last n : forall s t, (String.length s <= n)%nat -> unescape encodePath s = Some t ->
  last_byte s = Some "/"%char -> last_byte t = Some "/"%char.
Proof.
  induction n as [|n IH]; intros s t Hn H Hl.
  { destruct s; [done|]. cbn in Hn. lia. }
  destruct s as [|c r]; [done|]. cbn in Hn, Hl. destruct (decide (c = "%"%char)) as [->|Hc].
  - cbn in H. destruct r as [|a [|b r]]; [done..|].
    destruct (is_hex_digit a && is_hex_digit b) eqn:Hh; [|done]. cbn in H.
    apply fmap_Some in H as (t' & H & ->). cbn in Hn, Hl |- *.
    destruct (last_byte r) as [d|] eqn:Hr.
    + injection Hl as ->. rewrite (IH r t'); [done|lia|done|done].
    + injection Hl as ->. by apply andb_true_iff in Hh as [_ Hh].
  - rewrite unescape_path_cons in H by done. apply fmap_Some in H as (t' & H & ->). cbn.
    destruct (last_byte r) as [d|] eqn:Hr.
    + injection Hl as ->. rewrite (IH r t'); [done|lia|done|done].
    + injection Hl as ->. apply last_byte_None in Hr as ->. by injection H as <-.
Qed.

(** The path of an address: rooted, and without a slash at the end. *)
Definition clean_path (p : string) : Prop := rooted p /\ last_byte p <> Some "/"%char.

Lemma EscapedPath_cases u : rooted (Path u) ->
  EscapedPath u = RawPath u /\ unescape encodePath (RawPath u) = Some (Path u) \/
  EscapedPath u = escape encodePath (Path u).
Proof.
  intros Hp. unfold EscapedPath. destruct (_ && _ && _) eqn:Hb.
  - apply andb_true_iff in Hb as [_ Hb%bool_decide_eq_true]. by left.
  - right. clear Hb. rewrite decide_False; [done|].
    intros E. rewrite E in Hp. destruct Hp as [?|[r ?]]; discriminate.
Qed.

Lemma EscapedPath_rooted u : rooted (Path u) -> rooted (RawPath u) -> rooted (EscapedPath u).
Proof. intros Hp Hr. destruct (EscapedPath_cases u Hp) as [[-> _]| ->]; [done|by apply escape_rooted]. Qed.

Lemma EscapedPath_clean u : rooted (Path u) -> rooted (RawPath u) -> last_byte (Path u) <> Some "/"%char ->
  clean_path (EscapedPath u).
Proof.
  intros Hp Hr Hl. split; [by apply EscapedPath_rooted|]. intros H. apply Hl.
  destruct (EscapedPath_cases u Hp) as [[E Hu]|E]; rewrite E in H.
  - by apply (unescape_last (String.length (RawPath u)) (RawPath u)).
  - by apply escape_last in H as [? _].
Qed.

(** An escaped text is read back. *)
Lemma hex_chars_back n : 0 <= n < 16 -> is_hex_digit (hex_char n) = true /\ hex_value (hex_char n) = n.
Proof. intros Hn. each_digit n Hn. Qed.

Lemma code_chr_div c : chr (code c / 16 * 16 + code c mod 16) = c.
Proof.
  replace (code c / 16 * 16 + code c mod 16) with (code c) by (pose proof (Z.div_mod (code c) 16); lia).
  apply chr_code.
Qed.

Lemma unescape_escape s : unescape encodePath (escape encodePath s) = Some s.
Proof.
  induction s as [|c s IH]; [done|]. cbn [escape]. pose proof (code_range c) as Hc.
  destruct (shouldEscape encodePath c) eqn:He.
  - destruct (hex_chars_back (code c / 16)) as [H1 V1]; [split; [apply Z.div_pos|apply Z.div_lt_upper_bound]; lia|].
    destruct (hex_chars_back (code c mod 16)) as [H2 V2]; [apply Z.mod_pos_bound; lia|].
    cbn [unescape]. rewrite H1, H2, V1, V2, code_chr_div. cbn. by rewrite IH.
  - rewrite unescape_path_cons by (intros ->; by vm_compute in He). by rewrite IH.
Qed.

(** ** What is parsed *)

Section facts.
Context (ip_literal : string -> option string).

Lemma parsePath_rooted p path raw : parsePath p = Ok (path, raw) -> rooted p -> rooted path /\ rooted raw.
Proof.
  unfold parsePath. destruct (unescape encodePath p) as [t|] eqn:Ht; [|done]. intros [= -> <-] Hp.
  split; [by eapply unescape_rooted|]. case_decide; [by left|done].
Qed.

(** A URL with a host has a rooted path. *)
Lemma parse_rooted s u : parse ip_literal s = Ok u -> Host u <> "" -> rooted (Path u) /\ rooted (RawPath u).
Proof.
  unfold parse. destruct (any_byte control_byte s); [done|]. case_decide as Hstar; [by intros [= <-]|].
  intros ([scheme rest] & _ & H)%bind_Ok.
  destruct (match cut "?" rest with Some (a, b) => (a, b) | None => (rest, "") end) as [rest' query].
  destruct (negb (has_prefix "/" rest') && _); [by injection H as <-|].
  destruct (negb (has_prefix "/" rest') && _); [done|].
  destruct ((negb (String.eqb _ "") || _) && _) eqn:Ha.
  - assert (Hp : forall a p, match cut "/" (drop_bytes 2 rest') with
        | Some (a, p) => (a, String "/" p) | None => (drop_bytes 2 rest', "") end = (a, p) -> rooted p).
    { intros a p. destruct (cut "/" _) as [[? ?]|]; intros [= _ <-]; [right; by eexists|by left]. }
    destruct (match cut "/" (drop_bytes 2 rest') with Some (a, p) => (a, String "/" p) | None => _ end) as [auth path].
    specialize (Hp _ _ eq_refl). cbn [negb andb] in H.
    apply bind_Ok in H as ([user host] & _ & H). apply bind_Ok in H as ([path' raw] & Hpath & [= <-]).
    intros _. by apply (parsePath_rooted path).
  - apply bind_Ok in H as ([user host] & [= <- <-] & H).
    apply bind_Ok in H as ([path' raw] & _ & [= <-]). by intros [].
Qed.

Lemma Parse_rooted s u : Parse ip_literal s = Ok u -> Host u <> "" -> rooted (Path u) /\ rooted (RawPath u).
Proof.
  unfold Parse. destruct (match cut "#" s with Some (a, b) => (a, b) | None => (s, "") end) as [v frag].
  intros (url & Hu & H)%bind_Ok. destruct (unescape encodeFragment frag); [|done]. injection H as <-.
  exact (parse_rooted v url Hu).
Qed.

(** The part of an address both clients have. *)
Definition authority_of (u : URL) : string := "://" +:+ print_user (User u) +:+ escape encodeHost (Host u).

Lemma authority_last u : Host u <> "" -> exists c, last_byte (authority_of u) = Some c /\ c <> "/"%char.
Proof.
  intros Hh. unfold authority_of. rewrite !last_byte_app.
  destruct (last_byte (escape encodeHost (Host u))) as [c|] eqn:E.
  - exists c. split; [done|]. intros ->. by apply escape_last in E as [_ ?].
  - exfalso. apply last_byte_None in E. destruct (Host u) as [|c h]; [done|]. cbn in E.
    by destruct (shouldEscape encodeHost c).
Qed.

(** What is printed. *)
Lemma url_string_path u p : EscapedPath u = p -> rooted p -> RawQuery u = "" ->
  url_string u = Scheme u +:+ authority_of u +:+ p +:+ (if ForceQuery u then "?" else "").
Proof.
  unfold url_string, authority_of. intros -> Hp ->. rewrite orb_false_r.
  assert ((if negb (String.eqb p "") && negb (has_prefix "/" p) then "/" else "") = "") as ->.
  { destruct Hp as [->|[r ->]]; [done|]. by destruct r. }
  rewrite !str_app_assoc. by destruct (ForceQuery u).
Qed.

Lemma EscapedPath_path u : rooted (Path u) -> unescape encodePath (EscapedPath u) = Some (Path u).
Proof. intros Hp. destruct (EscapedPath_cases u Hp) as [[-> H]| ->]; [done|apply unescape_escape]. Qed.

(** C22. Both clients have one deployment: every URL that [normalizeDeploymentURL] accepts,
    [WebSocketURL] accepts too, and the two addresses differ in the scheme, [ws] for
    [http] and [wss] for [https], and in the path alone, which is that of the
    endpoint.  The address for HTTP requests has no slash at its end, unless the URL
    ends in an empty query, so that the paths of the requests can be appended. *)
Theorem both_clients_one_host s skip a :
  normalizeDeploymentURL ip_literal s skip = Ok a ->
  exists http ws authority p endpoint query,
    (http, ws) ∈ [("http", "ws"); ("https", "wss")] /\
    a = http +:+ authority +:+ p +:+ query /\ clean_path p /\
    WebSocketURL ip_literal s = Ok (ws +:+ authority +:+ endpoint +:+ query) /\
    unescape encodePath endpoint = Some syncWebSocketPath /\
    (query = "" \/ query = "?" /\ exists u, Parse ip_literal s = Ok u /\ ForceQuery u = true).
Proof.
  unfold normalizeDeploymentURL, WebSocketURL. case_decide as Hs; [done|]. clear Hs.
  destruct (Parse ip_literal s) as [u|e] eqn:Hu; [|done].
  destruct (_ && _) eqn:Hsch; [done|]. destruct (decide (Host u = "")) as [|Hh]; [done|]. destruct (negb skip && _); [done|].
  destruct (Parse_rooted s u Hu Hh) as [Hp Hr]. intros [= <-].
  set (v := with_path (Scheme u) (trim_right_byte "/" (Path u)) u).
  assert (Hv : clean_path (EscapedPath v)) by (apply EscapedPath_clean; [by apply trim_rooted|exact Hr|apply last_byte_trim]).
  assert (Hws : exists ws, (Scheme u, ws) ∈ [("http", "ws"); ("https", "wss")] /\ websocket_scheme (Scheme u) = Ok ws).
  { apply andb_false_iff in Hsch. rewrite !negb_false_iff, !bool_decide_eq_true in Hsch.
    destruct Hsch as [->| ->]; eexists; (split; [|reflexivity]); set_solver. }
  destruct Hws as (ws & Hin & ->). set (w := with_path ws syncWebSocketPath u).
  assert (Hpw : rooted (Path w)) by (right; by eexists).
  pose proof (EscapedPath_rooted w Hpw Hr) as Hw.
  exists (Scheme u), ws, (authority_of u), (EscapedPath v), (EscapedPath w), (if ForceQuery u then "?" else "").
  split; [done|]. split; [|split; [done|]; split; [|split; [by apply (EscapedPath_path w)|]]].
  - rewrite (url_string_path v _ eq_refl) by (done || apply Hv). apply trim_right_id.
    cbn [ForceQuery v with_path Scheme]. change (authority_of v) with (authority_of u).
    rewrite !last_byte_app. destruct (ForceQuery u); [done|]. cbn [last_byte].
    destruct (last_byte (EscapedPath v)) eqn:E; [rewrite <- E; apply Hv|].
    destruct (authority_last u Hh) as (c & -> & Hc). congruence.
  - unfold mbind, result_bind. f_equal. exact (url_string_path w _ eq_refl Hw eq_refl).
  - destruct (ForceQuery u) eqn:E; [right; eauto|by left].
Qed.
End facts.

Lemma both_clients_one_host_witness :
  exists http ws authority p endpoint query,
    (http, ws) ∈ [("http", "ws"); ("https", "wss")] /\
    "https://me@h:3210/base" = http +:+ authority +:+ p +:+ query /\ clean_path p /\
    WebSocketURL no_literal "HTTPS://me@h:3210/base/#top" = Ok (ws +:+ authority +:+ endpoint +:+ query) /\
    unescape encodePath endpoint = Some syncWebSocketPath /\
    (query = "" \/ query = "?" /\ exists u, Parse no_literal "HTTPS://me@h:3210/base/#top" = Ok u /\ ForceQuery u = true).
Proof. apply (both_clients_one_host no_literal _ false). vm_compute. reflexivity. Defined.

(** An empty query is kept, and the paths of the requests are appended to it: they go to
    the root of the host, with the path for a query. *)
Lemma empty_query_kept : normalizeDeploymentURL no_literal "https://h/?" false = Ok "https://h?".
Proof. vm_compute. reflexivity. Qed.

(** A slash at the end of the URL decides what becomes of an escaped slash inside. *)
Lemma escaped_slash_lost :
  normalizeDeploymentURL no_literal "https://h/a%2Fb" false = Ok "https://h/a%2Fb" /\
  normalizeDeploymentURL no_literal "https://h/a%2Fb/" false = Ok "https://h/a/b".
Proof. split; vm_compute; reflexivity. Qed.

(** The path of the deployment is kept for HTTP requests and dropped for the WebSocket. *)
Lemma path_dropped_for_sync :
  normalizeDeploymentURL no_literal "https://h/base" false = Ok "https://h/base" /\
  WebSocketURL no_literal "https://h/base" = Ok "wss://h/api/sync".
Proof. split; vm_compute; reflexivity. Qed.
