(* ===== verification/GoRegexp.v ===== *)
(** * Package regexp

    What the code generator uses of Go's package regexp: an expression is matched
    against the bytes of a text, the first alternative that lets the whole
    match succeed wins, and a search returns the leftmost match with the spans of
    its groups.  [Match] says what an expression matches; the matcher finds a
    match exactly when there is one.

    The expressions of the source treat the bytes of a rune outside ASCII alike, so
    that matching bytes and matching runes come to the same. *)
From S2P Require Import Prelude GoStrings.
From Stdlib Require Import Ascii.
Local Open Scope nat_scope.

(** ** Expressions *)

(** [RStar] repeats a set of bytes; [greedy] tells [*] from [*?]. *)
Inductive regexp : Type :=
  | REmpty
  | RSet (f : ascii -> bool)
  | RSeq (r1 r2 : regexp)
  | RAlt (r1 r2 : regexp)
  | RStar (greedy : bool) (f : ascii -> bool)
  | RGroup (n : nat) (r : regexp).

Definition ROpt (r : regexp) : regexp := RAlt r REmpty.
Definition RPlus (f : ascii -> bool) : regexp := RSeq (RSet f) (RStar true f).
Fixpoint RLit (s : string) : regexp :=
  match s with
  | "" => REmpty
  | String c s => RSeq (RSet (Ascii.eqb c)) (RLit s)
  end.
Fixpoint RSeqs (l : list regexp) : regexp :=
  match l with
  | [] => REmpty
  | [r] => r
  | r :: l => RSeq r (RSeqs l)
  end.
Fixpoint RAlts (r : regexp) (l : list regexp) : regexp :=
  match l with
  | [] => r
  | r' :: l => RAlt r (RAlts r' l)
  end.

(** ** The matcher *)

(** Where a group starts and ends. *)
Abbreviation span := (nat * nat)%type.
Abbreviation spans := (list (nat * span)).

Section Matcher.
Context {A : Type}.

(** The bytes a star may take, most first or fewest first; [k] is the rest of the
    match. *)
Fixpoint match_star (greedy : bool) (f : ascii -> bool) (pos : nat) (s : string)
    (k : nat -> string -> option A) : option A :=
  let more :=
    match s with
    | String c s => if f c then match_star greedy f (S pos) s k else None
    | "" => None
    end in
  let stop := k pos s in
  if greedy then (match more with Some a => Some a | None => stop end)
  else (match stop with Some a => Some a | None => more end).

Fixpoint match_at (r : regexp) (pos : nat) (s : string) (caps : spans)
    (k : nat -> string -> spans -> option A) : option A :=
  match r with
  | REmpty => k pos s caps
  | RSet f => match s with
              | String c s => if f c then k (S pos) s caps else None
              | "" => None
              end
  | RSeq r1 r2 => match_at r1 pos s caps (fun pos s caps => match_at r2 pos s caps k)
  | RAlt r1 r2 => match match_at r1 pos s caps k with
                  | Some a => Some a
                  | None => match_at r2 pos s caps k
                  end
  | RStar greedy f => match_star greedy f pos s (fun pos s => k pos s caps)
  | RGroup n r => match_at r pos s caps (fun pos' s caps => k pos' s ((n, (pos, pos')) :: caps))
  end.
End Matcher.

(** A match: where it starts and ends, and its groups, the last one first. *)
Definition re_match : Type := nat * nat * spans.
Definition match_here (r : regexp) (pos : nat) (s : string) : option re_match :=
  match_at r pos s [] (fun pos' _ caps => Some (pos, pos', caps)).

(** The leftmost match. *)
Fixpoint find_from (r : regexp) (pos : nat) (s : string) : option re_match :=
  match match_here r pos s with
  | Some m => Some m
  | None => match s with
            | String _ s => find_from r (S pos) s
            | "" => None
            end
  end.
Definition find_index (r : regexp) (s : string) : option re_match := find_from r 0 s.

(** All matches, each after the end of the one before; after an empty match the
    search goes on a byte later, if there is one.  Every round but the last
    drops a byte, so that the length and one is fuel enough. *)
Fixpoint find_all_fuel (fuel : nat) (r : regexp) (pos : nat) (s : string) : list re_match :=
  match fuel with
  | O => []
  | S fuel =>
      match find_from r pos s with
      | None => []
      | Some (i, j, caps) =>
          let next := Nat.max j (S i) in
          (i, j, caps) ::
            (if next - pos <=? String.length s then find_all_fuel fuel r next (drop_bytes (next - pos) s) else [])
      end
  end.
Definition find_all (r : regexp) (s : string) : list re_match := find_all_fuel (S (String.length s)) r 0 s.

Definition group (n : nat) (m : re_match) : option span := snd <$> List.find (fun g => fst g =? n) (snd m).
Definition text_between (i j : nat) (s : string) : string := take_bytes (j - i) (drop_bytes i s).

(** ** What an expression matches *)

(** [Match r pos s caps pos' s' caps']: from position [pos], where the text left is [s], [r]
    can match up to [pos'], and has then the groups [caps']. *)
Inductive Match : regexp -> nat -> string -> spans -> nat -> string -> spans -> Prop :=
  | MEmpty pos s caps : Match REmpty pos s caps pos s caps
  | MSet f pos c s caps : f c = true -> Match (RSet f) pos (String c s) caps (S pos) s caps
  | MSeq r1 r2 pos s caps pos1 s1 caps1 pos2 s2 caps2 :
      Match r1 pos s caps pos1 s1 caps1 -> Match r2 pos1 s1 caps1 pos2 s2 caps2 ->
      Match (RSeq r1 r2) pos s caps pos2 s2 caps2
  | MLeft r1 r2 pos s caps pos' s' caps' :
      Match r1 pos s caps pos' s' caps' -> Match (RAlt r1 r2) pos s caps pos' s' caps'
  | MRight r1 r2 pos s caps pos' s' caps' :
      Match r2 pos s caps pos' s' caps' -> Match (RAlt r1 r2) pos s caps pos' s' caps'
  | MStop greedy f pos s caps : Match (RStar greedy f) pos s caps pos s caps
  | MMore greedy f pos c s caps pos' s' caps' :
      f c = true -> Match (RStar greedy f) (S pos) s caps pos' s' caps' ->
      Match (RStar greedy f) pos (String c s) caps pos' s' caps'
  | MGroup n r pos s caps pos' s' caps' :
      Match r pos s caps pos' s' caps' -> Match (RGroup n r) pos s caps pos' s' ((n, (pos, pos')) :: caps').

Create HintDb regexp.
#[export] Hint Constructors Match : regexp.

(** ** The matcher finds a match exactly when there is one *)

Section Facts.
Context {A : Type}.

Lemma match_star_sound greedy f s : forall pos (k : nat -> string -> option A) a caps,
  match_star greedy f pos s k = Some a ->
  exists pos' s', Match (RStar greedy f) pos s caps pos' s' caps /\ k pos' s' = Some a.
Proof.
  induction s as [|c s IH]; intros pos k a caps; cbn.
  - intros Hk. exists pos, "". split; [constructor|]. destruct greedy; [done|by destruct (k pos "")].
  - destruct (f c) eqn:Hf; [|intros Hk; exists pos, (String c s); split; [constructor|destruct greedy; [done|by destruct (k pos _)]]].
    intros Hk.
    assert (match_star greedy f (S pos) s k = Some a \/ k pos (String c s) = Some a) as [Hm|Hm].
    { destruct greedy; [destruct (match_star true f (S pos) s k)|destruct (k pos (String c s))]; naive_solver. }
    + destruct (IH _ _ _ caps Hm) as (pos' & s' & HM & Hk'). exists pos', s'. split; [by constructor|done].
    + exists pos, (String c s). split; [constructor|done].
Qed.

Lemma match_star_complete greedy f pos s caps pos' s' caps' (k : nat -> string -> option A) :
  Match (RStar greedy f) pos s caps pos' s' caps' -> is_Some (k pos' s') ->
  caps' = caps /\ is_Some (match_star greedy f pos s k).
Proof.
  intros HM. remember (RStar greedy f) as r eqn:Hr. induction HM; try discriminate.
  - injection Hr as -> ->. intros [a Hk]. split; [done|].
    destruct s as [|c s]; cbn; rewrite Hk; destruct greedy; [by eexists..| |by eexists].
    by case_match; eexists.
  - injection Hr as -> ->. intros Hk. destruct (IHHM eq_refl Hk) as [-> [a Ha]]. split; [done|].
    cbn. rewrite H, Ha. destruct greedy; [by eexists|]. by case_match; eexists.
Qed.

Lemma match_at_sound r : forall pos s caps (k : nat -> string -> spans -> option A) a,
  match_at r pos s caps k = Some a ->
  exists pos' s' caps', Match r pos s caps pos' s' caps' /\ k pos' s' caps' = Some a.
Proof.
  induction r as [|f|r1 IH1 r2 IH2|r1 IH1 r2 IH2|greedy f|n r IH]; intros pos s caps k a; cbn [match_at].
  - eauto 6 with regexp.
  - destruct s as [|c s]; [done|]. destruct (f c) eqn:Hf; [|done]. eauto 6 with regexp.
  - intros (pos1 & s1 & caps1 & H1 & (pos2 & s2 & caps2 & H2 & Hk)%IH2)%IH1. eauto 8 with regexp.
  - destruct (match_at r1 pos s caps k) as [a'|] eqn:E.
    + intros [= ->]. apply IH1 in E as (pos' & s' & caps' & HM & Hk). eauto 8 with regexp.
    + intros (pos' & s' & caps' & HM & Hk)%IH2. eauto 8 with regexp.
  - intros (pos' & s' & HM & Hk)%(match_star_sound _ _ _ _ _ _ caps). eauto 8.
  - intros (pos' & s' & caps' & HM & Hk)%IH. eauto 8 with regexp.
Qed.

Lemma match_at_complete r pos s caps pos' s' caps' :
  Match r pos s caps pos' s' caps' -> forall k : nat -> string -> spans -> option A,
  is_Some (k pos' s' caps') -> is_Some (match_at r pos s caps k).
Proof.
  intros HM. induction HM; intros k Hk; cbn [match_at].
  - done.
  - by rewrite H.
  - apply IHHM1. by apply IHHM2.
  - destruct (IHHM k Hk) as [a ->]. by eexists.
  - case_match; [by eexists|]. by apply IHHM.
  - by eapply match_star_complete; [apply (MStop greedy f pos s caps)|].
  - destruct (match_star_complete greedy f pos (String c s) caps pos' s' caps' (fun pos s => k pos s caps)) as [_ Hs].
    + by constructor.
    + assert (caps' = caps) as <-; [|done].
      clear -HM. remember (RStar greedy f) as r eqn:Hr. induction HM; try discriminate; [done|].
      injection Hr as -> ->. auto.
    + done.
  - by apply IHHM.
Qed.
End Facts.

(** [r] can match from position [pos], where [s] is left. *)
Definition matches (r : regexp) (pos : nat) (s : string) : Prop :=
  exists pos' s' caps, Match r pos s [] pos' s' caps.

Lemma match_here_Some r pos s i j caps :
  match_here r pos s = Some (i, j, caps) -> i = pos /\ exists s', Match r pos s [] j s' caps.
Proof.
  unfold match_here. intros (pos' & s' & caps' & HM & Hk)%match_at_sound. injection Hk as -> -> ->. eauto.
Qed.
Lemma match_here_None r pos s : match_here r pos s = None <-> ~ matches r pos s.
Proof.
  split.
  - intros Hn (pos' & s' & caps & HM). apply eq_None_not_Some in Hn. apply Hn.
    eapply match_at_complete; [exact HM|by eexists].
  - intros Hno. destruct (match_here r pos s) as [[[i j] caps]|] eqn:E; [|done].
    apply match_here_Some in E as (-> & s' & HM). destruct Hno. by exists j, s', caps.
Qed.

Lemma drop_bytes_drop a b s : drop_bytes b (drop_bytes a s) = drop_bytes (b + a) s.
Proof.
  revert s. induction a as [|a IH]; intros s; [rewrite Nat.add_0_r; by destruct s|].
  rewrite Nat.add_succ_r. destruct s as [|c s]; cbn; [by destruct b|apply IH].
Qed.

Lemma Match_rest r pos s caps pos' s' caps' :
  Match r pos s caps pos' s' caps' ->
  pos <= pos' /\ pos' - pos <= String.length s /\ s' = drop_bytes (pos' - pos) s.
Proof.
  induction 1 as [ | | ? ? ? ? ? ? ? ? ? ? ? ? IH1 ? IH2| | | | |]; cbn [String.length]; try done.
  - rewrite Nat.sub_diag. split_and!; [done|lia|done].
  - replace (S pos - pos) with 1 by lia. split_and!; [lia|lia|by destruct s].
  - destruct IH1 as (L1 & M1 & E1), IH2 as (L2 & M2 & E2). subst s1. rewrite drop_bytes_length in M2.
    split_and!; [lia|lia|]. subst.
    rewrite drop_bytes_drop. f_equal. lia.
  - rewrite Nat.sub_diag. split_and!; [done|lia|by destruct s].
  - destruct IHMatch as (L & M & E). split_and!; [lia|lia|].
    by replace (pos' - pos) with (S (pos' - S pos)) by lia.
Qed.

(** ** Searching *)

Lemma find_from_Some r s : forall pos i j caps,
  find_from r pos s = Some (i, j, caps) ->
  pos <= i /\ i - pos <= String.length s /\
  (exists s', Match r i (drop_bytes (i - pos) s) [] j s' caps) /\
  forall k, pos <= k < i -> ~ matches r k (drop_bytes (k - pos) s).
Proof.
  assert (Hhere : forall pos t i j caps, match_here r pos t = Some (i, j, caps) ->
    pos <= i /\ i - pos <= String.length t /\
    (exists s', Match r i (drop_bytes (i - pos) t) [] j s' caps) /\
    forall k, pos <= k < i -> ~ matches r k (drop_bytes (k - pos) t)).
  { intros pos t i j caps (-> & s' & HM)%match_here_Some. rewrite Nat.sub_diag.
    split_and!; [done|lia|exists s'; by destruct t|lia]. }
  induction s as [|c s IH]; intros pos i j caps; cbn [find_from];
    destruct (match_here r pos _) as [m|] eqn:E; try (intros [= ->]; by apply Hhere).
  intros (Hi & Hlen & (s' & HM) & Hbefore)%IH. cbn [String.length].
  replace (i - pos) with (S (i - S pos)) by lia. split_and!; [lia|lia|by exists s'|].
  intros k Hk. destruct (decide (k = pos)) as [->|Hne].
  - rewrite Nat.sub_diag. by apply match_here_None.
  - replace (k - pos) with (S (k - S pos)) by lia. apply Hbefore. lia.
Qed.

Lemma find_from_None r s : forall pos,
  find_from r pos s = None <-> forall i, pos <= i <= pos + String.length s -> ~ matches r i (drop_bytes (i - pos) s).
Proof.
  induction s as [|c s IH]; intros pos; cbn [find_from String.length].
  - destruct (match_here r pos "") as [m|] eqn:E.
    + split; [done|]. intros Hno. exfalso. assert (Hn : match_here r pos "" = None); [|congruence].
      apply match_here_None. specialize (Hno pos ltac:(lia)). by rewrite Nat.sub_diag in Hno.
    + split; [|done]. intros _ i Hi. replace i with pos by lia. rewrite Nat.sub_diag. by apply match_here_None.
  - destruct (match_here r pos (String c s)) as [m|] eqn:E.
    + split; [done|]. intros Hno. exfalso. assert (Hn : match_here r pos (String c s) = None); [|congruence].
      apply match_here_None. specialize (Hno pos ltac:(lia)). by rewrite Nat.sub_diag in Hno.
    + rewrite IH. split; intros Hno i Hi.
      * destruct (decide (i = pos)) as [->|Hne]; [rewrite Nat.sub_diag; by apply match_here_None|].
        replace (i - pos) with (S (i - S pos)) by lia. apply Hno. lia.
      * specialize (Hno i ltac:(lia)). by replace (i - pos) with (S (i - S pos)) in Hno by lia.
Qed.

(** A search finds the leftmost place where the expression matches, if there is
    one. *)
Theorem find_index_spec r s :
  match find_index r s with
  | Some (i, j, caps) =>
      i <= j <= String.length s /\
      Match r i (drop_bytes i s) [] j (drop_bytes j s) caps /\
      forall k, k < i -> ~ matches r k (drop_bytes k s)
  | None => forall k, k <= String.length s -> ~ matches r k (drop_bytes k s)
  end.
Proof.
  unfold find_index. destruct (find_from r 0 s) as [[[i j] caps]|] eqn:E.
  - apply find_from_Some in E as (_ & Hlen & (s' & HM) & Hbefore). rewrite Nat.sub_0_r in *.
    pose proof (Match_rest _ _ _ _ _ _ _ HM) as (L & M & ->). rewrite drop_bytes_length in M.
    split_and!; [lia|lia| |intros k Hk; specialize (Hbefore k ltac:(lia)); by rewrite Nat.sub_0_r in Hbefore].
    replace (drop_bytes (j - i) (drop_bytes i s)) with (drop_bytes j s) in HM; [done|].
    by rewrite drop_bytes_drop, Nat.sub_add.
  - intros k Hk Hm. apply (proj1 (find_from_None r s 0) E k); [lia|]. by rewrite Nat.sub_0_r.
Qed.

(** Where the search goes on. *)
Definition past (m : re_match) : nat := let '(i, j, _) := m in Nat.max j (S i).
Definition start (m : re_match) : nat := fst (fst m).
Definition found (r : regexp) (pos : nat) (s : string) (m : re_match) : Prop :=
  let '(i, j, caps) := m in
  pos <= i /\ i <= j <= pos + String.length s /\
  Match r i (drop_bytes (i - pos) s) [] j (drop_bytes (j - pos) s) caps.

Lemma find_from_found r pos s m : find_from r pos s = Some m -> found r pos s m.
Proof.
  destruct m as [[i j] caps]. intros (Hi & Hlen & (s' & HM) & _)%find_from_Some.
  pose proof (Match_rest _ _ _ _ _ _ _ HM) as (L & M & ->). rewrite drop_bytes_length in M.
  split_and!; [done|lia|lia|]. rewrite drop_bytes_drop in HM.
  by replace (j - i + (i - pos)) with (j - pos) in HM by lia.
Qed.

Lemma find_all_fuel_spec fuel r : forall pos s, String.length s < fuel ->
  let ms := find_all_fuel fuel r pos s in
  Forall (found r pos s) ms /\
  StronglySorted (fun m m' => past m <= start m') ms /\
  forall k, pos <= k <= pos + String.length s -> matches r k (drop_bytes (k - pos) s) ->
    Exists (fun m => start m <= k < past m) ms.
Proof.
  induction fuel as [|fuel IH]; intros pos s Hfuel; [lia|]. cbn [find_all_fuel].
  destruct (find_from r pos s) as [[[i j] caps]|] eqn:E.
  2: { split_and!; [constructor|constructor|]. intros k Hk Hm. by destruct (proj1 (find_from_None r s pos) E k Hk). }
  pose proof (find_from_found _ _ _ _ E) as Hf. pose proof Hf as (Hi & Hj & _).
  apply find_from_Some in E as (_ & _ & _ & Hbefore).
  set (next := Nat.max j (S i)). cbv zeta.
  assert (Hcover : forall k ms, pos <= k < next -> matches r k (drop_bytes (k - pos) s) ->
    Exists (fun m => start m <= k < past m) ((i, j, caps) :: ms)).
  { intros k ms Hk Hm. left. cbn. fold next. split; [|lia].
    destruct (decide (k < i)); [|lia]. exfalso. exact (Hbefore k ltac:(lia) Hm). }
  destruct (next - pos <=? String.length s) eqn:Hn.
  - apply Nat.leb_le in Hn.
    destruct (IH next (drop_bytes (next - pos) s)) as (HF & HS & HC); [rewrite drop_bytes_length; lia|].
    rewrite drop_bytes_length in HC. split_and!.
    + constructor; [done|]. eapply Forall_impl; [exact HF|]. intros [[i' j'] caps'] (Hi' & Hj' & HM).
      rewrite drop_bytes_length in Hj'. rewrite !drop_bytes_drop in HM. split_and!; [lia|lia|lia|].
      replace (i' - next + (next - pos)) with (i' - pos) in HM by lia.
      by replace (j' - next + (next - pos)) with (j' - pos) in HM by lia.
    + constructor; [done|]. eapply Forall_impl; [exact HF|]. by intros [[i' j'] caps'] (Hi' & _).
    + intros k Hk Hm. destruct (decide (k < next)); [apply Hcover; [lia|done]|]. right. apply HC; [lia|].
      rewrite drop_bytes_drop. by replace (k - next + (next - pos)) with (k - pos) by lia.
  - apply Nat.leb_gt in Hn. split_and!; [by constructor; [|constructor]|by constructor; constructor|].
    intros k Hk Hm. apply Hcover; [lia|done].
Qed.

(** All matches: each is one, they follow one another, and no match starts
    outside of them. *)
Theorem find_all_spec r s :
  Forall (found r 0 s) (find_all r s) /\
  StronglySorted (fun m m' => past m <= start m') (find_all r s) /\
  forall k, k <= String.length s -> matches r k (drop_bytes k s) ->
    Exists (fun m => start m <= k < past m) (find_all r s).
Proof.
  destruct (find_all_fuel_spec (S (String.length s)) r 0 s) as (HF & HS & HC); [lia|].
  split_and!; [done|done|]. intros k Hk Hm. apply HC; [lia|]. by rewrite Nat.sub_0_r.
Qed.
