(* ===== verification/GoJson.v ===== *)
(** * JSON documents and Go's dynamic JSON values

    A [json] is a parsed JSON document: what [encoding/json] reads or writes,
    up to white space, escapes and the order of the members of an object.  A
    [wire] is a Go value of static type [any] as the module passes them to
    [json.Marshal] and gets them from a decoder with [UseNumber]. *)
From S2P Require Import Prelude GoStrings GoFloat.
From Stdlib Require Import Ascii.
Local Open Scope Z_scope.

Inductive json : Type :=
  | JNull
  | JBool (b : bool)
  | JNum (n : numeral)
  | JStr (s : string)
  | JArr (l : list json)
  | JObj (m : gmap string json).

(** A [json.Number] is a string.  [NumLit] is a decimal literal; [NumBad] is a
    string that is none, which [strconv] rejects. *)
Inductive gonumber : Type :=
  | NumLit (n : numeral)
  | NumBad (s : string).

(** [WNilObj] is a nil [map[string]any]: not the nil interface, and not an
    empty map either, for it marshals to [null].  [WOther] stands for a value
    of any other dynamic type. *)
Inductive wire : Type :=
  | WNil
  | WBool (b : bool)
  | WStr (s : string)
  | WNumber (n : gonumber)
  | WFloat (bits : Z)
  | WArr (l : list wire)
  | WObj (m : gmap string wire)
  | WNilObj
  | WOther (type : string).

Inductive json_error : Type :=
  | UnsupportedFloat (bits : Z)
  | InvalidNumberLiteral (s : string)
  | UnsupportedJSONType (type : string).

(** ** UTF-8

    [encoding/json] writes every byte that is not part of a valid UTF-8
    sequence as U+FFFD, so this is what the reader of a marshalled string
    sees. *)
Definition cont_byte : ascii -> bool := byte_in 128 191.
Definition replacement : string := bytes_str [239; 191; 189].

Definition second3 (c0 c1 : ascii) : bool :=
  (byte_in 225 236 c0 || byte_in 238 239 c0) && cont_byte c1
  || (code c0 =? 224) && byte_in 160 191 c1
  || (code c0 =? 237) && byte_in 128 159 c1.
Definition second4 (c0 c1 : ascii) : bool :=
  byte_in 241 243 c0 && cont_byte c1
  || (code c0 =? 240) && byte_in 144 191 c1
  || (code c0 =? 244) && byte_in 128 143 c1.

Fixpoint coerce_utf8 (s : string) : string :=
  match s with
  | "" => ""
  | String c0 r0 =>
      if code c0 <? 128 then String c0 (coerce_utf8 r0)
      else match r0 with
      | "" => replacement
      | String c1 r1 =>
          if byte_in 194 223 c0 && cont_byte c1
          then String c0 (String c1 (coerce_utf8 r1))
          else match r1 with
          | "" => replacement +:+ coerce_utf8 r0
          | String c2 r2 =>
              if second3 c0 c1 && cont_byte c2
              then String c0 (String c1 (String c2 (coerce_utf8 r2)))
              else match r2 with
              | "" => replacement +:+ coerce_utf8 r0
              | String c3 r3 =>
                  if second4 c0 c1 && cont_byte c2 && cont_byte c3
                  then String c0 (String c1 (String c2 (String c3 (coerce_utf8 r3))))
                  else replacement +:+ coerce_utf8 r0
              end
          end
      end
  end.

Definition utf8_ok (s : string) : bool := bool_decide (coerce_utf8 s = s).

(** ** Marshal and decode *)

(** [json.Marshal].  Object keys are passed through: the module marshals maps
    whose keys are ASCII field names or the claims of an identity, taken to be
    valid UTF-8. *)
Fixpoint marshal (w : wire) : result json_error json :=
  match w with
  | WNil | WNilObj => mret JNull
  | WBool b => mret (JBool b)
  | WStr s => mret (JStr (coerce_utf8 s))
  | WNumber (NumLit n) => mret (JNum n)
  | WNumber (NumBad s) =>
      if decide (s = "") then mret (JNum (int_numeral 0)) else Err (InvalidNumberLiteral s)
  | WFloat bits =>
      if is_finite bits then mret (JNum (format_float bits)) else Err (UnsupportedFloat bits)
  | WArr l => l' ← mapM marshal l; mret (JArr l')
  | WObj m => m' ← map_traverse (fun _ x => marshal x) m; mret (JObj m')
  | WOther t => Err (UnsupportedJSONType t)
  end.

(** [Decoder.Decode] into an [any], with [UseNumber]. *)
Fixpoint decode_any (j : json) : wire :=
  match j with
  | JNull => WNil
  | JBool b => WBool b
  | JNum n => WNumber (NumLit n)
  | JStr s => WStr s
  | JArr l => WArr (map decode_any l)
  | JObj m => WObj (map_fold (fun k x acc => <[k := decode_any x]> acc) ∅ m)
  end.

(** ** Facts *)

Fixpoint json_size (j : json) : nat :=
  match j with
  | JArr l => S (sum_list (map json_size l))
  | JObj m => S (map_total json_size m)
  | _ => 1
  end.

Fixpoint wire_size (w : wire) : nat :=
  match w with
  | WArr l => S (sum_list (map wire_size l))
  | WObj m => S (map_total wire_size m)
  | _ => 1
  end.

Lemma sum_list_In {A : Type} (f : A -> nat) (l : list A) x :
  x ∈ l -> (f x <= sum_list (map f l))%nat.
Proof. induction 1; cbn; lia. Qed.

(** Structural induction on documents, through arrays and objects. *)
Lemma json_ind' (P : json -> Prop) :
  P JNull -> (forall b, P (JBool b)) -> (forall n, P (JNum n)) -> (forall s, P (JStr s)) ->
  (forall l, (forall x, x ∈ l -> P x) -> P (JArr l)) ->
  (forall m, (forall k x, m !! k = Some x -> P x) -> P (JObj m)) ->
  forall j, P j.
Proof.
  intros Hnull Hbool Hnum Hstr Harr Hobj j.
  induction j as [j IH] using (induction_ltof1 _ json_size). unfold ltof in IH.
  destruct j; auto.
  - apply Harr. intros x Hx. apply IH. cbn. pose proof (sum_list_In json_size _ _ Hx). lia.
  - apply Hobj. intros k x Hx. apply IH. cbn. pose proof (map_total_le json_size _ _ _ Hx). lia.
Qed.

Lemma wire_ind' (P : wire -> Prop) :
  P WNil -> (forall b, P (WBool b)) -> (forall s, P (WStr s)) -> (forall n, P (WNumber n)) ->
  (forall f, P (WFloat f)) -> (forall l, (forall x, x ∈ l -> P x) -> P (WArr l)) ->
  (forall m, (forall k x, m !! k = Some x -> P x) -> P (WObj m)) ->
  P WNilObj -> (forall t, P (WOther t)) ->
  forall w, P w.
Proof.
  intros Hnil Hbool Hstr Hnum Hfloat Harr Hobj Hno Hother w.
  induction w as [w IH] using (induction_ltof1 _ wire_size). unfold ltof in IH.
  destruct w; auto.
  - apply Harr. intros x Hx. apply IH. cbn. pose proof (sum_list_In wire_size _ _ Hx). lia.
  - apply Hobj. intros k x Hx. apply IH. cbn. pose proof (map_total_le wire_size _ _ _ Hx). lia.
Qed.

Lemma map_fold_fmap_eq {K : Type} `{Countable K} {A B : Type} (f : A -> B) (m : gmap K A) :
  map_fold (fun k x acc => <[k := f x]> acc) ∅ m = f <$> m.
Proof.
  induction m as [|i x m Hi Hfirst IH] using map_first_key_ind.
  - rewrite map_fold_empty. by rewrite fmap_empty.
  - rewrite map_fold_insert_first_key, IH by done. by rewrite fmap_insert.
Qed.

Lemma decode_any_obj m : decode_any (JObj m) = WObj (decode_any <$> m).
Proof. cbn. by rewrite map_fold_fmap_eq. Qed.

Lemma utf8_ok_coerce s : utf8_ok s = true <-> coerce_utf8 s = s.
Proof. apply bool_decide_eq_true. Qed.

Lemma coerce_ascii s : all_bytes (byte_in 0 127) s = true -> coerce_utf8 s = s.
Proof.
  induction s as [|c s IH]; [done|]. cbn [all_bytes coerce_utf8].
  rewrite andb_true_iff. intros [Hc Hs]. unfold byte_in in Hc.
  replace (code c <? 128) with true by lia. by rewrite IH.
Qed.

(** The document of an object with one string member. *)
Lemma marshal_entry k s : coerce_utf8 s = s ->
  marshal (WObj {[k := WStr s]}) = Ok (JObj {[k := JStr s]}).
Proof.
  intros Hs. cbn [marshal]. rewrite map_traverse_singleton. cbn [marshal].
  by rewrite Hs.
Qed.

#[export] Hint Resolve coerce_ascii : convex.
