(* ===== verification/Values.v ===== *)
(** * Convex values and their wire encoding

    The first half of [internal/core/value.go]: the [Value] type, its
    constructors and accessors, the encoding of a value to the dynamic JSON
    tree ([ConvexJSON]) and the two decoders of that tree ([valueFromWire]
    into a [Value], [decodeValue] into plain Go values). *)
From S2P Require Import Prelude GoStrings GoBytes GoFloat GoJson.
From Stdlib Require Import Ascii Strings.Byte.
Local Open Scope Z_scope.

(** A [Value] struct is a kind tag with the payload of that kind; the zero
    [Value], whose tag is empty, counts as null. *)
Inductive Value : Type :=
  | VNull
  | VInt64 (n : Z)
  | VFloat64 (bits : Z)
  | VBoolean (b : bool)
  | VString (s : string)
  | VBytes (data : list byte)
  | VArray (values : list Value)
  | VObject (fields : gmap string Value).

Inductive ValueKind : Type :=
  | NullKind | Int64Kind | Float64Kind | BooleanKind | StringKind | BytesKind
  | ArrayKind | ObjectKind.

Inductive value_error : Type :=
  | FieldTooLong (k : string)
  | FieldReserved (k : string)
  | FieldBadChar (k : string) (c : ascii)
  | BadJSONNumber (n : gonumber)
  | MalformedField (key : string)
  | MalformedBase64 (key : string)
  | WrongLength (key : string) (received : Z)
  | FloatNotSpecial (bits : Z)
  | SetUnsupported
  | MapUnsupported
  | UnexpectedType (type : string)
  | UnsupportedValue (type path : string)
  | UnsignedOverflow (path : string)
  | NonStringKeys (path : string)
  | ArgsNotObject
  | JSONFailed (e : json_error).

(** The Go values of static type [any] that the decoders return, and, with the
    last constructors, everything the reflective encoder distinguishes. *)
Record gofield : Type := GoField {
  fld_name : string;
  fld_exported : bool;
  fld_anonymous : bool;
  fld_tag : string
}.

Inductive goval : Type :=
  | GNil
  | GPtr (target : option goval)
  | GValue (v : Value)
  | GNumber (bits : Z)
  | GInt64 (n : Z)
  | GBytes (data : list byte)
  | GJSONNumber (n : gonumber)
  | GBool (b : bool)
  | GString (s : string)
  | GInt (n : Z)
  | GUint (n : Z)
  | GFloat (bits : Z)
  | GSeq (l : list goval)
  | GMap (entries : option (gmap string goval))
  | GKeyedMap (isnil : bool)
  | GStruct (fields : list (gofield * goval))
  | GOther (type : string).

Definition maxIdentifierLen : nat := 1024.
Definition wireIntegerKey : string := "$integer".
Definition wireFloatKey : string := "$float".
Definition wireBytesKey : string := "$bytes".

(** ** Field names *)

Definition bad_field_char (c : ascii) : bool := (code c <? 32) || (127 <=? code c).

Fixpoint first_bad_char (k : string) : option ascii :=
  match k with
  | "" => None
  | String c r => if bad_field_char c then Some c else first_bad_char r
  end.

Definition validateObjectField (k : string) : result value_error unit :=
  if (maxIdentifierLen <? String.length k)%nat then Err (FieldTooLong k)
  else if has_prefix "$" k then Err (FieldReserved k)
  else match first_bad_char k with
  | Some c => Err (FieldBadChar k c)
  | None => mret tt
  end.

(** ** Constructors and accessors *)

Definition NullValue : Value := VNull.
Definition Int64Value (n : Z) : Value := VInt64 n.
Definition Float64Value (f : Z) : Value := VFloat64 f.
Definition BooleanValue (b : bool) : Value := VBoolean b.
Definition StringValue (s : string) : Value := VString s.
Definition BytesValue (b : list byte) : Value := VBytes b.
Definition ArrayValue (values : list Value) : Value := VArray values.
Definition ObjectValue (fields : gmap string Value) : result value_error Value :=
  cp ← map_traverse (fun k v => _ ← validateObjectField k; mret v) fields;
  mret (VObject cp).

Definition Kind (v : Value) : ValueKind :=
  match v with
  | VNull => NullKind
  | VInt64 _ => Int64Kind
  | VFloat64 _ => Float64Kind
  | VBoolean _ => BooleanKind
  | VString _ => StringKind
  | VBytes _ => BytesKind
  | VArray _ => ArrayKind
  | VObject _ => ObjectKind
  end.

Definition Value_Int64 (v : Value) : Z * bool :=
  match v with VInt64 n => (n, true) | _ => (0, false) end.
Definition Value_Float64 (v : Value) : Z * bool :=
  match v with VFloat64 f => (f, true) | _ => (0, false) end.
Definition Value_Bool (v : Value) : bool * bool :=
  match v with VBoolean b => (b, true) | _ => (false, false) end.
Definition Value_String (v : Value) : string * bool :=
  match v with VString s => (s, true) | _ => ("", false) end.
Definition Value_Bytes (v : Value) : list byte * bool :=
  match v with VBytes b => (b, true) | _ => ([], false) end.
Definition Value_Array (v : Value) : list Value * bool :=
  match v with VArray l => (l, true) | _ => ([], false) end.
Definition Value_Object (v : Value) : gmap string Value * bool :=
  match v with VObject m => (m, true) | _ => (∅, false) end.

(** ** Words and floats on the wire *)

Definition isSpecialFloat (f : Z) : bool := is_nan f || is_inf f || (f =? neg_zero).

Definition encodeInt64 (n : Z) : string := b64_encode std_alphabet (le_put 8 (u64 n)).
Definition encodeFloat64 (f : Z) : string := b64_encode std_alphabet (le_put 8 f).

(** The standard alphabet first, the URL alphabet when that fails. *)
Definition decodeBase64Compat (encoded : string) : option (list byte) :=
  match b64_decode std_alphabet encoded with
  | Some data => Some data
  | None => b64_decode url_alphabet encoded
  end.

Definition decodeInt64 (encoded : string) : result value_error Z :=
  match decodeBase64Compat encoded with
  | None => Err (MalformedBase64 wireIntegerKey)
  | Some data =>
      if (length data =? 8)%nat then mret (i64 (le_get data))
      else Err (WrongLength wireIntegerKey (Z.of_nat (length data)))
  end.

Definition decodeFloat64 (encoded : string) : result value_error Z :=
  match decodeBase64Compat encoded with
  | None => Err (MalformedBase64 wireFloatKey)
  | Some data =>
      if (length data =? 8)%nat then mret (le_get data)
      else Err (WrongLength wireFloatKey (Z.of_nat (length data)))
  end.

Definition encodedInt64 (n : Z) : wire := WObj {[wireIntegerKey := WStr (encodeInt64 n)]}.
Definition encodedFloat64 (f : Z) : wire :=
  if isSpecialFloat f then WObj {[wireFloatKey := WStr (encodeFloat64 f)]} else WFloat f.
Definition encodedBytes (data : list byte) : wire :=
  WObj {[wireBytesKey := WStr (b64_encode std_alphabet data)]}.

Definition wireString (raw : wire) (key : string) : result value_error string :=
  match raw with WStr s => mret s | _ => Err (MalformedField key) end.

Definition decodeWireBytes (raw : wire) : result value_error (list byte) :=
  s ← wireString raw wireBytesKey;
  match decodeBase64Compat s with
  | Some data => mret data
  | None => Err (MalformedBase64 wireBytesKey)
  end.
Definition decodeWireInt64 (raw : wire) : result value_error Z :=
  s ← wireString raw wireIntegerKey; decodeInt64 s.
Definition decodeWireFloat64 (raw : wire) : result value_error Z :=
  s ← wireString raw wireFloatKey; decodeFloat64 s.

(** ** Encoding a value *)

Fixpoint ConvexJSON (v : Value) : result value_error wire :=
  match v with
  | VNull => mret WNil
  | VInt64 n => mret (encodedInt64 n)
  | VFloat64 f => mret (encodedFloat64 f)
  | VBoolean b => mret (WBool b)
  | VString s => mret (WStr s)
  | VBytes data => mret (encodedBytes data)
  | VArray values => out ← mapM ConvexJSON values; mret (WArr out)
  | VObject fields =>
      out ← map_traverse (fun key item => _ ← validateObjectField key; ConvexJSON item) fields;
      mret (WObj out)
  end.

(** [Value.MarshalJSON]. *)
Definition MarshalValue (v : Value) : result value_error json :=
  w ← ConvexJSON v; map_err JSONFailed (marshal w).

(** ** Decoding into a value *)

(** The member of an object that has exactly one, as [len(values) == 1] and the
    loop that follows pick it. *)
Definition single_entry {A : Type} (m : gmap string A) : option (string * A) :=
  match map_to_list m with
  | [kv] => Some kv
  | _ => None
  end.

(** [None] is the Go result [ok == false]: the key is not reserved. *)
Definition valueFromWireSingleton (key : string) (raw : wire)
    : option (result value_error Value) :=
  if decide (key = wireBytesKey) then
    Some (data ← decodeWireBytes raw; mret (BytesValue data))
  else if decide (key = wireIntegerKey) then
    Some (n ← decodeWireInt64 raw; mret (Int64Value n))
  else if decide (key = wireFloatKey) then
    Some (f ← decodeWireFloat64 raw;
          _ ← ensure (isSpecialFloat f) (FloatNotSpecial f);
          mret (Float64Value f))
  else if decide (key = "$set") then Some (Err SetUnsupported)
  else if decide (key = "$map") then Some (Err MapUnsupported)
  else None.

Definition number_float (n : gonumber) : option Z :=
  match n with NumLit l => parse_float l | NumBad _ => None end.

Definition valueFromJSONNumber (n : gonumber) : result value_error Value :=
  match number_float n with
  | Some f => mret (Float64Value f)
  | None => Err (BadJSONNumber n)
  end.

Fixpoint valueFromWire (w : wire) : result value_error Value :=
  match w with
  | WNil => mret NullValue
  | WBool b => mret (BooleanValue b)
  | WStr s => mret (StringValue s)
  | WNumber n => valueFromJSONNumber n
  | WFloat f => mret (Float64Value f)
  | WArr values => out ← mapM valueFromWire values; mret (ArrayValue out)
  | WObj values =>
      match single_entry values ≫= uncurry valueFromWireSingleton with
      | Some decoded => decoded
      | None =>
          out ← map_traverse
                  (fun key item => _ ← validateObjectField key; valueFromWire item) values;
          ObjectValue out
      end
  | WNilObj => ObjectValue ∅
  | WOther t => Err (UnexpectedType t)
  end.

(** [ParseValueJSON], on a parsed document. *)
Definition ParseValueJSON (j : json) : result value_error Value := valueFromWire (decode_any j).

(** ** Decoding into Go values *)

Fixpoint GoValue (v : Value) : goval :=
  match v with
  | VNull => GNil
  | VInt64 n => GInt64 n
  | VFloat64 f => GFloat f
  | VBoolean b => GBool b
  | VString s => GString s
  | VBytes data => GBytes data
  | VArray values => GSeq (map GoValue values)
  | VObject fields => GMap (Some (map_fold (fun k x acc => <[k := GoValue x]> acc) ∅ fields))
  end.

Definition decodeWireSingleton (key : string) (raw : wire) : option (result value_error goval) :=
  if decide (key = wireBytesKey) then
    Some (data ← decodeWireBytes raw; mret (GBytes data))
  else if decide (key = wireIntegerKey) then
    Some (n ← decodeWireInt64 raw; mret (GInt64 n))
  else if decide (key = wireFloatKey) then
    Some (f ← decodeWireFloat64 raw; mret (GFloat f))
  else if decide (key = "$set") then Some (Err SetUnsupported)
  else if decide (key = "$map") then Some (Err MapUnsupported)
  else None.

Definition decodeJSONNumber (n : gonumber) : result value_error Z :=
  match number_float n with Some f => mret f | None => Err (BadJSONNumber n) end.

Fixpoint decodeValue (w : wire) : result value_error goval :=
  match w with
  | WNil => mret GNil
  | WBool b => mret (GBool b)
  | WStr s => mret (GString s)
  | WNumber n => f ← decodeJSONNumber n; mret (GFloat f)
  | WFloat f => mret (GFloat f)
  | WArr values => out ← mapM decodeValue values; mret (GSeq out)
  | WObj values =>
      match single_entry values ≫= uncurry decodeWireSingleton with
      | Some decoded => decoded
      | None =>
          out ← map_traverse
                  (fun key item => _ ← validateObjectField key; decodeValue item) values;
          mret (GMap (Some out))
      end
  | WNilObj => mret (GMap (Some ∅))
  | WOther t => Err (UnexpectedType t)
  end.

(** [DecodeValue] and [DecodeJSON], the two entry points. *)
Definition DecodeValue (w : wire) : result value_error goval := decodeValue w.
Definition DecodeJSON (j : json) : result value_error goval :=
  v ← ParseValueJSON j; mret (GoValue v).

(** ** Well-formed values

    What every [Value] built through the exported constructors satisfies: the
    payloads fit their Go types and object fields passed validation. *)
Definition field_ok (k : string) : bool := is_ok (validateObjectField k).

Fixpoint wf_value (v : Value) : bool :=
  match v with
  | VInt64 n => in_i64 n
  | VFloat64 f => in_u64 f
  | VArray values => forallb wf_value values
  | VObject fields => map_forallb (fun k x => field_ok k && wf_value x) fields
  | _ => true
  end.

(** Every string of the value is valid UTF-8, so it survives JSON text. *)
Fixpoint utf8_value (v : Value) : bool :=
  match v with
  | VString s => utf8_ok s
  | VArray values => forallb utf8_value values
  | VObject fields => map_forallb (fun _ x => utf8_value x) fields
  | _ => true
  end.

(** The field names of the value pass validation at every depth. *)
Fixpoint fields_ok (v : Value) : bool :=
  match v with
  | VArray values => forallb fields_ok values
  | VObject fields => map_forallb (fun k x => field_ok k && fields_ok x) fields
  | _ => true
  end.

(** Every float of the tree is a 64-bit pattern, every numeral has a sign and
    a magnitude: what a Go [float64] and a JSON literal always are. *)
Fixpoint wf_wire (w : wire) : bool :=
  match w with
  | WFloat f => in_u64 f
  | WNumber (NumLit n) => 0 <=? num_coef n
  | WArr values => forallb wf_wire values
  | WObj values => map_forallb (fun _ x => wf_wire x) values
  | _ => true
  end.
