(* ===== verification/ValueFacts.v ===== *)
(** * Facts about Convex values

    Induction on values, the round trips of the word, byte and float encodings,
    and the lemmas from which the properties of the value codec follow. *)
From S2P Require Import Prelude GoStrings GoBytes GoFloat GoJson Values.
From Stdlib Require Import Ascii Strings.Byte.
Local Open Scope Z_scope.

Fixpoint value_size (v : Value) : nat :=
  match v with
  | VArray l => S (sum_list (map value_size l))
  | VObject m => S (map_total value_size m)
  | _ => 1
  end.

Lemma value_ind' (P : Value -> Prop) :
  P VNull -> (forall n, P (VInt64 n)) -> (forall f, P (VFloat64 f)) ->
  (forall b, P (VBoolean b)) -> (forall s, P (VString s)) -> (forall d, P (VBytes d)) ->
  (forall l, (forall x, x ∈ l -> P x) -> P (VArray l)) ->
  (forall m, (forall k x, m !! k = Some x -> P x) -> P (VObject m)) ->
  forall v, P v.
Proof.
  intros Hnull Hint Hfloat Hbool Hstr Hbytes Harr Hobj v.
  induction v as [v IH] using (induction_ltof1 _ value_size). unfold ltof in IH.
  destruct v; auto.
  - apply Harr. intros x Hx. apply IH. cbn. pose proof (sum_list_In value_size _ _ Hx). lia.
  - apply Hobj. intros k x Hx. apply IH. cbn. pose proof (map_total_le value_size _ _ _ Hx). lia.
Qed.

Lemma wf_array l : wf_value (VArray l) = true <-> forall x, x ∈ l -> wf_value x = true.
Proof. cbn. rewrite forallb_forall. by setoid_rewrite list_elem_of_In. Qed.

Lemma wf_object m : wf_value (VObject m) = true <->
  forall k x, m !! k = Some x -> field_ok k = true /\ wf_value x = true.
Proof. cbn. rewrite map_forallb_true. by setoid_rewrite andb_true_iff. Qed.

Lemma utf8_array l : utf8_value (VArray l) = true <-> forall x, x ∈ l -> utf8_value x = true.
Proof. cbn. rewrite forallb_forall. by setoid_rewrite list_elem_of_In. Qed.

Lemma utf8_object m : utf8_value (VObject m) = true <->
  forall k x, m !! k = Some x -> utf8_value x = true.
Proof. cbn. by rewrite map_forallb_true. Qed.

(** ** Field names *)

Lemma field_ok_validate k : field_ok k = true <-> validateObjectField k = Ok tt.
Proof. unfold field_ok. destruct (validateObjectField k) as [[]|]; cbn; naive_solver. Qed.

Lemma first_bad_char_None k :
  first_bad_char k = None <-> all_bytes (byte_in 32 126) k = true.
Proof.
  induction k as [|c k IH]; [done|]. cbn [first_bad_char all_bytes].
  rewrite andb_true_iff, <- IH. unfold bad_field_char, byte_in.
  destruct (_ || _) eqn:Hc; split.
  - done.
  - intros [? _]. lia.
  - intros ->. split; [lia|done].
  - by intros [_ ->].
Qed.

(** The names [validateObjectField] accepts. *)
Lemma field_ok_spec k : field_ok k = true <->
  (String.length k <= maxIdentifierLen)%nat /\ has_prefix "$" k = false /\
  all_bytes (byte_in 32 126) k = true.
Proof.
  rewrite field_ok_validate. unfold validateObjectField.
  destruct (Nat.ltb_spec maxIdentifierLen (String.length k)) as [Hl|Hl].
  { split; [done|]. intros [? _]. lia. }
  destruct (has_prefix "$" k) eqn:Hp; [split; [done|by intros (_ & ? & _)]|].
  destruct (first_bad_char k) as [c|] eqn:Hc.
  - split; [done|]. intros (_ & _ & Ha). apply first_bad_char_None in Ha. congruence.
  - apply first_bad_char_None in Hc. split; [done|]. done.
Qed.

Lemma field_ok_not_special k key : field_ok k = true -> has_prefix "$" key = true -> k <> key.
Proof. rewrite field_ok_spec. intros (_ & Hk & _) Hkey ->. congruence. Qed.

Lemma single_entry_singleton {A : Type} k (x : A) : single_entry {[k := x]} = Some (k, x).
Proof. unfold single_entry. by rewrite map_to_list_singleton. Qed.

Lemma single_entry_lookup {A : Type} (m : gmap string A) k x :
  single_entry m = Some (k, x) -> m !! k = Some x.
Proof.
  unfold single_entry. destruct (map_to_list m) as [|kv [|]] eqn:Hm; try done.
  intros [= ->]. apply elem_of_map_to_list. rewrite Hm. by left.
Qed.

Lemma single_entry_ext {A B : Type} (m : gmap string A) (m' : gmap string B) k x :
  dom m = dom m' -> single_entry m = Some (k, x) -> exists y, single_entry m' = Some (k, y).
Proof.
  intros Hdom Hm. pose proof (single_entry_lookup m k x Hm) as Hk.
  assert (Hm' : m = {[k := x]}).
  { unfold single_entry in Hm. destruct (map_to_list m) as [|kv [|]] eqn:Hl; try done.
    injection Hm as ->. apply map_to_list_inj. by rewrite Hl, map_to_list_singleton. }
  subst m. assert (Hin : k ∈ dom m') by (rewrite <- Hdom; set_solver).
  apply elem_of_dom in Hin as [y Hy]. exists y.
  replace m' with ({[k := y]} : gmap string B); [apply single_entry_singleton|].
  apply map_eq. intros i. destruct (decide (i = k)) as [->|Hne].
  - by rewrite lookup_singleton_eq.
  - rewrite lookup_singleton_ne by done. symmetry. apply not_elem_of_dom.
    rewrite <- Hdom. set_solver.
Qed.

(** No accepted field name triggers one of the reserved single-key forms. *)
Lemma singleton_field_ok key raw :
  field_ok key = true ->
  valueFromWireSingleton key raw = None /\ decodeWireSingleton key raw = None.
Proof.
  intros Hk. unfold valueFromWireSingleton, decodeWireSingleton.
  by rewrite !decide_False by (apply field_ok_not_special; done).
Qed.

Lemma object_not_special (m : gmap string wire) :
  (forall k x, m !! k = Some x -> field_ok k = true) ->
  single_entry m ≫= uncurry valueFromWireSingleton = None.
Proof.
  intros Hm. destruct (single_entry m) as [[k x]|] eqn:Hs; [|done].
  apply single_entry_lookup in Hs. cbn. by apply singleton_field_ok, (Hm _ x).
Qed.

(** ** Words, floats and bytes *)

Lemma decodeBase64Compat_std l : decodeBase64Compat (b64_encode std_alphabet l) = Some l.
Proof. unfold decodeBase64Compat. by rewrite std_round. Qed.

Lemma decodeInt64_encode n : in_i64 n = true -> decodeInt64 (encodeInt64 n) = Ok n.
Proof.
  intros Hn. unfold decodeInt64, encodeInt64. rewrite decodeBase64Compat_std.
  rewrite le_put_length, le_get_put. cbn [Nat.eqb].
  replace (u64 n mod 256 ^ Z.of_nat 8) with (u64 n).
  - rewrite i64_u64; done.
  - symmetry. apply Z.mod_small. apply (wrap_range 64). lia.
Qed.

Lemma decodeFloat64_encode f : in_u64 f = true -> decodeFloat64 (encodeFloat64 f) = Ok f.
Proof.
  rewrite in_u64_spec. intros Hf. unfold decodeFloat64, encodeFloat64.
  rewrite decodeBase64Compat_std, le_put_length, le_get_put. cbn [Nat.eqb].
  rewrite Z.mod_small; [done|]. change (256 ^ Z.of_nat 8) with (2 ^ 64). done.
Qed.

Lemma decodeInt64_range s n : decodeInt64 s = Ok n -> in_i64 n = true.
Proof.
  unfold decodeInt64. destruct (decodeBase64Compat s) as [d|]; [|done].
  case_match; [|done]. intros [= <-]. apply i64_range.
Qed.

Lemma decodeFloat64_range s f : decodeFloat64 s = Ok f -> in_u64 f = true.
Proof.
  unfold decodeFloat64. destruct (decodeBase64Compat s) as [d|]; [|done].
  destruct (Nat.eqb_spec (length d) 8) as [Hd|]; [|done]. intros [= <-].
  apply in_u64_spec. pose proof (le_get_range d) as H. by rewrite Hd in H.
Qed.

Lemma special_or_finite f : isSpecialFloat f = false -> is_finite f = true.
Proof.
  unfold isSpecialFloat, is_nan, is_inf, is_finite.
  destruct (f_exp f =? 2047), (f_man f =? 0); cbn; done.
Qed.

Lemma coerce_std l : coerce_utf8 (b64_encode std_alphabet l) = b64_encode std_alphabet l.
Proof. apply coerce_ascii, std_ascii. Qed.

(** ** The three scalar objects *)

Lemma special_entry {A : Type} key (s : string) (f : string -> wire -> option A) :
  single_entry {[key := WStr s]} ≫= uncurry f = f key (WStr s).
Proof. by rewrite single_entry_singleton. Qed.

Lemma wire_int64 n : in_i64 n = true -> valueFromWire (encodedInt64 n) = Ok (VInt64 n).
Proof.
  intros Hn. unfold encodedInt64. cbn [valueFromWire]. rewrite special_entry.
  change (valueFromWireSingleton wireIntegerKey (WStr (encodeInt64 n)))
    with (Some (n' ← decodeInt64 (encodeInt64 n); mret (Int64Value n'))).
  by rewrite decodeInt64_encode.
Qed.

Lemma wire_bytes d : valueFromWire (encodedBytes d) = Ok (VBytes d).
Proof.
  unfold encodedBytes. cbn [valueFromWire]. rewrite special_entry.
  unfold valueFromWireSingleton. rewrite decide_True by done.
  unfold decodeWireBytes. cbn [wireString mbind result_bind mret result_ret].
  by rewrite decodeBase64Compat_std.
Qed.

Lemma wire_special_float f : in_u64 f = true -> isSpecialFloat f = true ->
  valueFromWire (WObj {[wireFloatKey := WStr (encodeFloat64 f)]}) = Ok (VFloat64 f).
Proof.
  intros Hf Hs. cbn [valueFromWire]. rewrite special_entry.
  change (valueFromWireSingleton wireFloatKey (WStr (encodeFloat64 f)))
    with (Some (f' ← decodeFloat64 (encodeFloat64 f);
                _ ← ensure (isSpecialFloat f') (FloatNotSpecial f');
                mret (Float64Value f'))).
  rewrite decodeFloat64_encode by done. cbn. by rewrite Hs.
Qed.

Lemma ObjectValue_ok m : (forall k x, m !! k = Some x -> field_ok k = true) ->
  ObjectValue m = Ok (VObject m).
Proof.
  intros Hm. unfold ObjectValue.
  rewrite (proj2 (map_traverse_Ok _ m m)); [done|].
  intros k. destruct (m !! k) as [x|] eqn:Hk; [|done]. exists x. split; [done|].
  pose proof (Hm k x Hk) as Hf. apply field_ok_validate in Hf. by rewrite Hf.
Qed.

(** Encoding an object entry by entry and decoding it back. *)
Lemma encode_object (m : gmap string Value) (f : Value -> result value_error wire)
    (Q : Value -> wire -> Prop) :
  (forall k x, m !! k = Some x -> field_ok k = true) ->
  (forall k x, m !! k = Some x -> exists w, f x = Ok w /\ Q x w) ->
  exists m', map_traverse (fun k x => _ ← validateObjectField k; f x) m = Ok m' /\
    forall k, match m !! k with
              | Some x => exists w, m' !! k = Some w /\ f x = Ok w /\ Q x w
              | None => m' !! k = None
              end.
Proof.
  intros Hk Hf.
  destruct (map_traverse_total (fun k x => _ ← validateObjectField k; f x) m) as [m' Hm'].
  - intros k x Hx. pose proof (Hk _ _ Hx) as Hv. apply field_ok_validate in Hv.
    destruct (Hf _ _ Hx) as (w & Hw & _). exists w. by rewrite Hv.
  - exists m'. split; [done|]. intros k.
    pose proof (map_traverse_Ok_lookup _ _ _ Hm' k) as Hl.
    destruct (m !! k) as [x|] eqn:Hx; [|done].
    destruct Hl as (w & Hw & Hfx). exists w. split; [done|].
    pose proof (Hk _ _ Hx) as Hv. apply field_ok_validate in Hv. rewrite Hv in Hfx.
    cbn in Hfx. destruct (Hf _ _ Hx) as (w' & Hw' & HQ). split; [done|].
    rewrite Hfx in Hw'. by injection Hw' as ->.
Qed.

Lemma encode_array (l : list Value) (f : Value -> result value_error wire)
    (Q : Value -> wire -> Prop) :
  (forall x, x ∈ l -> exists w, f x = Ok w /\ Q x w) ->
  exists l', mapM f l = Ok l' /\ Forall2 Q l l'.
Proof.
  induction l as [|x l IH]; intros Hl.
  - exists []. by split; [|constructor].
  - destruct (Hl x) as (w & Hw & HQ); [by left|].
    destruct IH as (l' & Hl' & HF); [intros y Hy; apply Hl; by right|].
    exists (w :: l'). split; [|by constructor]. cbn. rewrite Hw. cbn.
    by setoid_rewrite Hl'.
Qed.

Lemma decode_object (m : gmap string Value) (m' : gmap string wire) :
  (forall k x, m !! k = Some x -> field_ok k = true) ->
  (forall k, match m !! k with
             | Some x => exists w, m' !! k = Some w /\ valueFromWire w = Ok x
             | None => m' !! k = None
             end) ->
  valueFromWire (WObj m') = Ok (VObject m).
Proof.
  intros Hk Hm'. cbn [valueFromWire].
  assert (Hf : forall k w, m' !! k = Some w -> field_ok k = true).
  { intros k w Hw. specialize (Hm' k). destruct (m !! k) eqn:Hx; [eauto|congruence]. }
  rewrite object_not_special by done.
  rewrite (proj2 (map_traverse_Ok _ m' m)); [cbn; by apply ObjectValue_ok|].
  intros k. specialize (Hm' k). destruct (m' !! k) as [w|] eqn:Hw.
  - pose proof (Hf _ _ Hw) as Hv. apply field_ok_validate in Hv.
    destruct (m !! k) as [x|] eqn:Hx; [|done].
    destruct Hm' as (w' & [= ->] & Hd). exists x. by rewrite Hv.
  - destruct (m !! k) as [x|]; [by destruct Hm' as (? & ? & _)|done].
Qed.
