(* ===== verification/ValueCodec.v ===== *)
(** * Properties of the value codec

    Round trips between values, the dynamic JSON tree and JSON documents, the
    type invariant of decoded values, and the agreement of the two decoders. *)
From S2P Require Import Prelude GoStrings GoBytes GoFloat GoJson Values ValueFacts.
From Stdlib Require Import Ascii Strings.Byte.
Local Open Scope Z_scope.

(** ** Lemmas *)

Lemma wire_float f : in_u64 f = true -> valueFromWire (encodedFloat64 f) = Ok (VFloat64 f).
Proof.
  intros Hf. unfold encodedFloat64. destruct (isSpecialFloat f) eqn:Hs; [|done].
  by apply wire_special_float.
Qed.

(** Both stages of [MarshalJSON] and both stages of parsing, in one induction. *)
Lemma value_round v : wf_value v = true ->
  exists w, ConvexJSON v = Ok w /\ valueFromWire w = Ok v.
Proof.
  induction v as [|n|f|b|s|d|l IH|m IH] using value_ind'; intros Hv; cbn [ConvexJSON].
  - by exists WNil.
  - eexists. split; [done|]. by apply wire_int64.
  - eexists. split; [done|]. by apply wire_float.
  - by exists (WBool b).
  - by exists (WStr s).
  - eexists. split; [done|]. apply wire_bytes.
  - rewrite wf_array in Hv.
    destruct (encode_array l ConvexJSON (fun x w => valueFromWire w = Ok x)) as (l' & Hl' & HF).
    { intros x Hx. by apply IH, Hv. }
    setoid_rewrite Hl'. eexists. split; [done|]. cbn [valueFromWire].
    assert (mapM valueFromWire l' = Ok l) as Hdec.
    { apply mapM_Ok. clear -HF. induction HF; constructor; done. }
    by setoid_rewrite Hdec.
  - rewrite wf_object in Hv.
    destruct (encode_object m ConvexJSON (fun x w => valueFromWire w = Ok x)) as (m' & Hm' & Hl).
    + intros k x Hx. by apply (Hv k x Hx).
    + intros k x Hx. apply (IH k x Hx), (Hv k x Hx).
    + setoid_rewrite Hm'. eexists. split; [done|]. apply decode_object.
      * intros k x Hx. by apply (Hv k x Hx).
      * intros k. specialize (Hl k). destruct (m !! k); [|done].
        destruct Hl as (w & ? & _ & ?). eauto.
Qed.

Lemma marshal_special_float f : in_u64 f = true ->
  exists j, marshal (encodedFloat64 f) = Ok j /\ valueFromWire (decode_any j) = Ok (VFloat64 f).
Proof.
  intros Hf. unfold encodedFloat64. destruct (isSpecialFloat f) eqn:Hs.
  - exists (JObj {[wireFloatKey := JStr (encodeFloat64 f)]}). split.
    + apply marshal_entry, coerce_std.
    + rewrite decode_any_obj, map_fmap_singleton. by apply wire_special_float.
  - exists (JNum (format_float f)). cbn -[format_float]. pose proof (special_or_finite f Hs) as Hfin.
    rewrite Hfin. split; [done|]. unfold valueFromJSONNumber. cbn [number_float].
    by rewrite parse_format_float.
Qed.

(** The document of an object whose entries are encoded one by one. *)
Lemma marshal_object (m : gmap string Value) :
  (forall k x, m !! k = Some x -> field_ok k = true) ->
  (forall k x, m !! k = Some x -> exists w j,
     ConvexJSON x = Ok w /\ marshal w = Ok j /\ valueFromWire (decode_any j) = Ok x) ->
  exists w j, ConvexJSON (VObject m) = Ok w /\ marshal w = Ok j /\
    valueFromWire (decode_any j) = Ok (VObject m).
Proof.
  intros Hk IH.
  destruct (encode_object m ConvexJSON (fun x w => exists j,
    marshal w = Ok j /\ valueFromWire (decode_any j) = Ok x)) as (m' & Hm' & Hl).
  { done. } { intros k x Hx. destruct (IH k x Hx) as (w & j & ? & ? & ?). eauto. }
  destruct (map_traverse_total (fun _ x => marshal x) m') as [mj Hmj].
  { intros k w Hw. specialize (Hl k). destruct (m !! k); [|congruence].
    destruct Hl as (w' & Hw' & _ & j & Hj & _). exists j. congruence. }
  exists (WObj m'), (JObj mj). split; [cbn; by setoid_rewrite Hm'|].
  split; [cbn; by setoid_rewrite Hmj|]. rewrite decode_any_obj.
  apply decode_object; [done|]. intros k. specialize (Hl k). rewrite lookup_fmap.
  pose proof (map_traverse_Ok_lookup _ _ _ Hmj k) as Hj.
  destruct (m !! k) as [x|].
  - destruct Hl as (w & Hw & _ & j & Hwj & Hdec). rewrite Hw in Hj.
    destruct Hj as (j' & -> & Hj'). assert (j' = j) as -> by congruence. by eexists.
  - rewrite Hl in Hj. by rewrite Hj.
Qed.

Lemma value_round_json v : wf_value v = true -> utf8_value v = true ->
  exists w j, ConvexJSON v = Ok w /\ marshal w = Ok j /\ valueFromWire (decode_any j) = Ok v.
Proof.
  induction v as [|n|f|b|s|d|l IH|m IH] using value_ind'; intros Hv Hu; cbn [ConvexJSON].
  - by exists WNil, JNull.
  - exists (encodedInt64 n), (JObj {[wireIntegerKey := JStr (encodeInt64 n)]}).
    split; [done|]. split.
    + apply marshal_entry, coerce_std.
    + rewrite decode_any_obj, map_fmap_singleton. by apply wire_int64.
  - destruct (marshal_special_float f) as (j & ? & ?); [done|]. by exists (encodedFloat64 f), j.
  - by exists (WBool b), (JBool b).
  - exists (WStr s), (JStr s). cbn in Hu |- *. apply utf8_ok_coerce in Hu. by rewrite Hu.
  - exists (encodedBytes d), (JObj {[wireBytesKey := JStr (b64_encode std_alphabet d)]}).
    split; [done|]. split.
    + apply marshal_entry, coerce_std.
    + rewrite decode_any_obj, map_fmap_singleton. apply wire_bytes.
  - rewrite wf_array in Hv. rewrite utf8_array in Hu.
    destruct (encode_array l ConvexJSON (fun x w => exists j,
      marshal w = Ok j /\ valueFromWire (decode_any j) = Ok x)) as (l' & Hl' & HF).
    { intros x Hx. destruct (IH x Hx) as (w & j & ? & ? & ?); eauto. }
    assert (exists lj, mapM marshal l' = Ok lj /\ mapM valueFromWire (map decode_any lj) = Ok l)
      as (lj & Hlj & Hdec).
    { clear -HF. induction HF as [|x w l l' (j & Hj & Hd) HF (lj & Hlj & Hdec)].
      - by exists [].
      - exists (j :: lj). cbn. rewrite Hj, Hd. cbn. setoid_rewrite Hlj. by setoid_rewrite Hdec. }
    exists (WArr l'), (JArr lj). setoid_rewrite Hl'. split; [done|].
    cbn. setoid_rewrite Hlj. split; [done|]. by setoid_rewrite Hdec.
  - rewrite wf_object in Hv. rewrite utf8_object in Hu. apply marshal_object.
    + intros k x Hx. by apply (Hv k x Hx).
    + intros k x Hx. apply (IH k x Hx); [by apply (Hv k x Hx)|by apply (Hu k x Hx)].
Qed.

Lemma validate_then {A : Type} k (m : result value_error A) :
  is_ok (_ ← validateObjectField k; m) = field_ok k && is_ok m.
Proof. unfold field_ok. by destruct (validateObjectField k) as [[]|]. Qed.

Lemma number_float_range n f : wf_wire (WNumber n) = true -> number_float n = Some f ->
  in_u64 f = true.
Proof. destruct n as [n|s]; cbn; [|done]. intros ?. apply parse_float_range. lia. Qed.

(** What a single reserved key decodes to is in range. *)
Lemma singleton_wf k raw v : valueFromWireSingleton k raw = Some (Ok v) -> wf_value v = true.
Proof.
  unfold valueFromWireSingleton. repeat case_decide; try done; intros [= Hr].
  - inv_ok. done.
  - inv_ok. unfold decodeWireInt64 in Ha. inv_ok. cbn. by eapply decodeInt64_range.
  - inv_ok. unfold decodeWireFloat64 in Ha. inv_ok. cbn. by eapply decodeFloat64_range.
Qed.

Lemma singleton_agree k raw v : valueFromWireSingleton k raw = Some (Ok v) ->
  decodeWireSingleton k raw = Some (Ok (GoValue v)).
Proof.
  unfold valueFromWireSingleton, decodeWireSingleton.
  repeat case_decide; try done; intros [= Hr]; inv_ok; by rewrite Ha.
Qed.

Lemma singleton_none k raw : valueFromWireSingleton k raw = None ->
  decodeWireSingleton k raw = None.
Proof. unfold valueFromWireSingleton, decodeWireSingleton. by repeat case_decide. Qed.

(** An object decodes by its reserved key, or entry by entry. *)
Lemma valueFromWire_object m v : valueFromWire (WObj m) = Ok v ->
  (exists k raw, single_entry m = Some (k, raw) /\ valueFromWireSingleton k raw = Some (Ok v))
  \/ (single_entry m ≫= uncurry valueFromWireSingleton = None /\ exists out, v = VObject out /\
      forall k, match m !! k with
                | Some w => exists x, out !! k = Some x /\ field_ok k = true /\ valueFromWire w = Ok x
                | None => out !! k = None
                end).
Proof.
  cbn [valueFromWire]. destruct (single_entry m ≫= _) as [r|] eqn:Hs.
  - intros ->. left. destruct (single_entry m) as [[k raw]|]; [|done]. by exists k, raw.
  - intros H. right. inv_ok. split; [done|]. unfold ObjectValue in H. inv_ok.
    assert (a0 = a) as ->.
    { apply map_eq. intros k. pose proof (map_traverse_Ok_lookup _ _ _ Ha0 k) as Hk.
      destruct (a !! k); [|done]. destruct Hk as (x & -> & Hx). inv_ok. done. }
    exists a. split; [done|]. intros k.
    pose proof (map_traverse_Ok_lookup _ _ _ Ha k) as Hk. destruct (m !! k); [|done].
    destruct Hk as (x & Hx & Hd). inv_ok. exists x. repeat split; [done| |done].
    by apply field_ok_validate.
Qed.

(** ** Properties *)

(** Decoding the wire encoding of a well-formed value gives the value back,
    whatever it is: 64-bit integers over their whole range, every bit pattern
    of a float with NaN, the infinities and negative zero, bytes, nested arrays
    and objects; in particular the encoding succeeds. *)
Theorem value_wire_roundtrip (v : Value) :
  wf_value v = true ->
  exists w, ConvexJSON v = Ok w /\ valueFromWire w = Ok v.
Proof. apply value_round. Qed.

(** C37. The same through JSON documents: [MarshalJSON] produces a document and
    [UnmarshalJSON] reads the same value from it, when the strings of the value
    are valid UTF-8.  Floats pass through their shortest decimal literal. *)
Theorem value_json_roundtrip (v : Value) :
  wf_value v = true -> utf8_value v = true ->
  exists j, MarshalValue v = Ok j /\ ParseValueJSON j = Ok v.
Proof.
  intros Hv Hu. destruct (value_round_json v Hv Hu) as (w & j & Hw & Hj & Hd).
  exists j. unfold MarshalValue. rewrite Hw. cbn. by rewrite Hj.
Qed.

Definition sample_value : Value :=
  VObject {["n" := VInt64 (- 2 ^ 63);
            "f" := VArray [VFloat64 neg_zero; VFloat64 (2046 * 2 ^ 52 + 1); VFloat64 (2047 * 2 ^ 52 + 7)];
            "b" := VBytes [x00; xff; x10; x41]; "s" := VString "ok"; "z" := VNull]}.

Lemma value_wire_roundtrip_witness :
  exists w, ConvexJSON sample_value = Ok w /\ valueFromWire w = Ok sample_value.
Proof. apply (value_wire_roundtrip sample_value). vm_compute. reflexivity. Defined.

Lemma value_json_roundtrip_witness :
  exists j, MarshalValue sample_value = Ok j /\ ParseValueJSON j = Ok sample_value.
Proof. apply (value_json_roundtrip sample_value); vm_compute; reflexivity. Defined.

(** [ConvexJSON] fails exactly on the values that hold an object, at any
    depth, with a field name [validateObjectField] refuses. *)
Theorem ConvexJSON_ok_iff_fields (v : Value) :
  is_ok (ConvexJSON v) = fields_ok v.
Proof.
  induction v as [|n|f|b|s|d|l IH|m IH] using value_ind'; cbn [ConvexJSON fields_ok]; try done.
  - transitivity (is_ok (mapM ConvexJSON l)); [by destruct (mapM ConvexJSON l)|].
    rewrite is_ok_mapM. by apply forallb_ext_in.
  - transitivity (is_ok (map_traverse (fun k x => _ ← validateObjectField k; ConvexJSON x) m)).
    { by destruct (map_traverse _ m). }
    rewrite is_ok_traverse. apply map_forallb_ext. intros k x Hx.
    by rewrite validate_then, (IH k x Hx).
Qed.

Lemma decoded_wf (w : wire) (v : Value) :
  wf_wire w = true -> valueFromWire w = Ok v -> wf_value v = true.
Proof.
  revert v. induction w as [|b|s|n|f|l IH|m IH| |t] using wire_ind'; intros v Hw Hv.
  - by injection Hv as <-.
  - by injection Hv as <-.
  - by injection Hv as <-.
  - cbn in Hv. unfold valueFromJSONNumber in Hv.
    destruct (number_float n) eqn:Hn; [|done]. injection Hv as <-.
    by eapply number_float_range.
  - by injection Hv as <-.
  - cbn [valueFromWire] in Hv. inv_ok. apply wf_array. apply mapM_Ok in Ha.
    cbn in Hw. rewrite forallb_forall in Hw. intros x Hx.
    apply list_elem_of_lookup in Hx as [i Hi].
    destruct (Forall2_lookup_r _ _ _ _ _ Ha Hi) as (w & Hl & Hwx).
    assert (Hin : w ∈ l) by (by eapply list_elem_of_lookup_2).
    eapply IH; [done| |done]. by apply Hw, list_elem_of_In.
  - apply valueFromWire_object in Hv as [(k & raw & _ & Hs)|(_ & out & -> & Hout)].
    + by eapply singleton_wf.
    + apply wf_object. intros k x Hx. specialize (Hout k).
      cbn in Hw. rewrite map_forallb_true in Hw.
      destruct (m !! k) as [w|] eqn:Hmk; [|congruence].
      destruct Hout as (x' & Hx' & Hf & Hd). split; [done|].
      rewrite Hx in Hx'. injection Hx' as <-. by eapply IH; [|by eapply Hw|].
  - by injection Hv as <-.
  - done.
Qed.

(** The type invariant of decoding: whatever [valueFromWire] returns has
    64-bit integers and floats and only accepted field names. *)
Theorem valueFromWire_wf (w : wire) (v : Value) :
  wf_wire w = true -> valueFromWire w = Ok v -> wf_value v = true.
Proof. apply decoded_wf. Qed.

(** The two decoders agree: when the wire tree decodes to a [Value],
    [DecodeValue] returns that value's Go representation. *)
Theorem decoders_agree (w : wire) (v : Value) :
  valueFromWire w = Ok v -> DecodeValue w = Ok (GoValue v).
Proof.
  unfold DecodeValue.
  revert v. induction w as [|b|s|n|f|l IH|m IH| |t] using wire_ind'; intros v Hv.
  - by injection Hv as <-.
  - by injection Hv as <-.
  - by injection Hv as <-.
  - cbn in *. unfold valueFromJSONNumber in Hv. unfold decodeJSONNumber.
    destruct (number_float n); [|done]. by injection Hv as <-.
  - by injection Hv as <-.
  - cbn [valueFromWire] in Hv. inv_ok. cbn [decodeValue GoValue ArrayValue].
    apply mapM_Ok in Ha.
    assert (mapM decodeValue l = Ok (map GoValue a)) as Hd.
    { apply mapM_Ok. clear -Ha IH. induction Ha as [|w x l a Hwx Ha IHa]; constructor.
      - apply IH; [by left|done].
      - apply IHa. intros y Hy. apply IH. by right. }
    by setoid_rewrite Hd.
  - apply valueFromWire_object in Hv as [(k & raw & Hs & Hk)|(Hs & out & -> & Hout)];
      cbn [decodeValue].
    + rewrite Hs. cbn. by rewrite (singleton_agree _ _ _ Hk).
    + destruct (single_entry m) as [[k raw]|] eqn:He; cbn in Hs |- *;
        rewrite ?(singleton_none _ _ Hs);
      rewrite (proj2 (map_traverse_Ok _ m (GoValue <$> out)));
        try (cbn; by rewrite map_fold_fmap_eq); intros i; specialize (Hout i);
        rewrite lookup_fmap; destruct (m !! i) as [w|] eqn:Hw;
        try (by rewrite Hout); destruct Hout as (x & Hx & Hf & Hd);
        exists (GoValue x); rewrite Hx; (split; [done|]);
        apply field_ok_validate in Hf; rewrite Hf; cbn; by eapply IH.
  - by injection Hv as <-.
  - done.
Qed.

Lemma valueFromWire_wf_witness :
  wf_value (VArray [VFloat64 (1023 * 2 ^ 52)]) = true.
Proof.
  apply (valueFromWire_wf (WArr [WNumber (NumLit (int_numeral 1))])); vm_compute; reflexivity.
Defined.

Lemma decoders_agree_witness :
  DecodeValue (WObj {["k" := encodedInt64 (-5)]}) = Ok (GoValue (VObject {["k" := VInt64 (-5)]})).
Proof. apply (decoders_agree _ _). vm_compute. reflexivity. Defined.
