(* ===== verification/GoEncode.v ===== *)
(** * Encoding Go values

    The second half of [internal/core/value.go]: [EncodeValue], which walks a
    Go value by reflection, and what is built on it ([ValueFromGo],
    [encodeArgs]).  A [goval] is what [reflect] shows of a value: its kind, the
    named types the encoder treats specially, and for a struct the fields with
    their [json] tags. *)
From S2P Require Import Prelude GoStrings GoBytes GoFloat GoJson Values.
From stdpp Require Import pretty.
From Stdlib Require Import Ascii Strings.Byte.
Local Open Scope Z_scope.

(** [strings.ContainsAny(n.String(), ".eE")] asks whether the literal has a
    fraction or an exponent. *)
Definition encodeJSONNumber (n : gonumber) : result value_error wire :=
  match n with
  | NumBad _ => Err (BadJSONNumber n)
  | NumLit l =>
      if negb (num_int l) then
        match parse_float l with
        | Some f => mret (encodedFloat64 f)
        | None => Err (BadJSONNumber n)
        end
      else
        match parse_int64 l with
        | Some i => mret (encodedInt64 i)
        | None =>
            match parse_float l with
            | Some f => mret (WFloat f)
            | None => Err (BadJSONNumber n)
            end
        end
  end.

Definition printablePath (path : string) : string := if decide (path = "") then "<root>" else path.

Definition childPath (path name : string) : string :=
  if decide (path = "") then "." +:+ name else path +:+ "." +:+ name.

Definition indexPath (path : string) (i : nat) : string :=
  path +:+ "[" +:+ pretty i +:+ "]".

Definition encodeUint (value : Z) (path : string) : result value_error wire :=
  if MaxInt64 <? value then Err (UnsignedOverflow (printablePath path))
  else mret (encodedInt64 value).

(** The name, [omitempty] and skip flags of a struct field's [json] tag. *)
Definition jsonField (tag : string) : string * bool * bool :=
  if decide (tag = "-") then ("", false, true)
  else
    match split_on "," tag with
    | [] => ("", false, false)
    | name :: opts =>
        (name, existsb (fun o => bool_decide (o = "omitempty" \/ o = "omitzero")) opts, false)
    end.

Definition float_is_zero (bits : Z) : bool := is_zero bits.

(** A nil interface in a field is [GPtr None], as is a nil pointer: [GNil] is the invalid
    value, which a field cannot have. *)
Definition isEmptyValue (v : goval) : bool :=
  match v with
  | GSeq l => (length l =? 0)%nat
  | GBytes l => (length l =? 0)%nat
  | GMap None => true
  | GMap (Some m) => (size m =? 0)%nat
  | GKeyedMap isnil => isnil
  | GString s => bool_decide (s = "")
  | GJSONNumber (NumBad s) => bool_decide (s = "")
  | GJSONNumber (NumLit _) => false
  | GBool b => negb b
  | GInt n | GInt64 n | GUint n => n =? 0
  | GFloat f | GNumber f => float_is_zero f
  | GPtr None => true
  | GPtr (Some _) => false
  | GNil | GValue _ | GStruct _ | GOther _ => false
  end.

(** The loop over the sorted keys of [encodeMap]: [rs] holds what each entry
    encodes to, and the first error in key order is returned. *)
Definition key_order {A : Type} (x y : string * A) : Prop := String.le (fst x) (fst y).
#[export] Instance key_order_dec {A : Type} : RelDecision (@key_order A).
Proof. intros x y. unfold key_order. apply _. Defined.

Definition sorted_entries {A : Type} (m : gmap string A) : list (string * A) :=
  merge_sort key_order (map_to_list m).

Fixpoint collect_entries {A : Type} (out : gmap string A)
    (l : list (string * result value_error A)) : result value_error (gmap string A) :=
  match l with
  | [] => mret out
  | (k, r) :: rest =>
      _ ← validateObjectField k;
      encoded ← r;
      collect_entries (<[k := encoded]> out) rest
  end.

Definition encodeMapEntries (rs : gmap string (result value_error wire)) : result value_error wire :=
  out ← collect_entries ∅ (sorted_entries rs); mret (WObj out).

(** The struct being encoded: the entries so far. *)
Definition field_wire := gmap string wire.

(** [mergeEmbeddedStructField]: the entries of an embedded field that encodes
    to an object, [None] when it encodes to something else. *)
Definition embedded_entries (w : wire) : option field_wire :=
  match w with
  | WObj m => Some m
  | WNilObj => Some ∅
  | _ => None
  end.

(** [encodeStructField], with [enc] for the encoding of the field's value at a
    path. *)
Definition encodeStructField (out : field_wire) (field : gofield) (value : goval)
    (enc : string -> result value_error wire) (path : string) : result value_error field_wire :=
  if negb (fld_exported field) && negb (fld_anonymous field) then mret out
  else
    let '(name, omitEmpty, skip) := jsonField (fld_tag field) in
    if skip then mret out
    else if omitEmpty && isEmptyValue value then mret out
    else
      merged ← (if fld_anonymous field && bool_decide (name = "") then
                  embedded ← enc path; mret (embedded_entries embedded)
                else mret None);
      match merged with
      | Some entries => mret (entries ∪ out)
      | None =>
          let name := if decide (name = "") then fld_name field else name in
          _ ← validateObjectField name;
          encoded ← enc (childPath path name);
          mret (<[name := encoded]> out)
      end.

(** [encodeValue]. *)
Fixpoint encodeValue (v : goval) (path : string) : result value_error wire :=
  match v with
  | GNil | GPtr None => mret WNil
  | GPtr (Some x) => encodeValue x path
  | GValue x => ConvexJSON x
  | GNumber f => mret (encodedFloat64 f)
  | GInt64 n => mret (encodedInt64 n)
  | GBytes data => mret (encodedBytes data)
  | GJSONNumber n => encodeJSONNumber n
  | GBool b => mret (WBool b)
  | GString s => mret (WStr s)
  | GInt n => mret (encodedInt64 n)
  | GUint n => encodeUint n path
  | GFloat f => mret (encodedFloat64 f)
  | GSeq l =>
      out ← (fix go (i : nat) (l : list goval) : result value_error (list wire) :=
               match l with
               | [] => mret []
               | x :: rest =>
                   encoded ← encodeValue x (indexPath path i);
                   more ← go (S i) rest;
                   mret (encoded :: more)
               end) 0%nat l;
      mret (WArr out)
  | GMap None => mret WNilObj
  | GMap (Some m) =>
      encodeMapEntries
        (map_fold (fun k x acc => <[k := encodeValue x (childPath path k)]> acc) ∅ m)
  | GKeyedMap isnil => if isnil then mret WNilObj else Err (NonStringKeys (printablePath path))
  | GStruct fields =>
      out ← (fix go (out : field_wire) (fields : list (gofield * goval))
               : result value_error field_wire :=
               match fields with
               | [] => mret out
               | (f, x) :: rest =>
                   out' ← encodeStructField out f x (encodeValue x) path;
                   go out' rest
               end) ∅ fields;
      mret (WObj out)
  | GOther t => Err (UnsupportedValue t path)
  end.

Definition EncodeValue (v : goval) : result value_error wire := encodeValue v "".

Definition EncodeJSON (v : goval) : result value_error json :=
  w ← EncodeValue v; map_err JSONFailed (marshal w).

(** [ValueFromGo]: a [Value] is returned as it is. *)
Definition ValueFromGo (v : goval) : result value_error Value :=
  match v with
  | GValue x => mret x
  | _ => w ← EncodeValue v; valueFromWire w
  end.

(** [encodeArgs] of the root package and of [baseclient]: [nil] arguments are
    the empty object, everything else must encode to an object. *)
Definition encodeArgs (args : goval) : result value_error wire :=
  match args with
  | GNil => mret (WObj ∅)
  | _ =>
      encoded ← EncodeValue args;
      match encoded with
      | WObj _ | WNilObj => mret encoded
      | _ => Err ArgsNotObject
      end
  end.
