(* ===== verification/EncodeFacts.v ===== *)
(** * Properties of the reflective encoder

    The map loop of [encodeMap], the agreement of [EncodeValue] with
    [ConvexJSON] on the Go representation of a value, and the bounds of the
    integer encodings. *)
From S2P Require Import Prelude GoStrings GoBytes GoFloat GoJson Values ValueFacts ValueCodec GoEncode.
From stdpp Require Import pretty.
Local Open Scope Z_scope.

(** ** The loop over sorted keys *)

Lemma sorted_entries_perm {A : Type} (m : gmap string A) : sorted_entries m ≡ₚ map_to_list m.
Proof. apply merge_sort_Permutation. Qed.

Lemma sorted_entries_lookup {A : Type} (m : gmap string A) k x :
  (k, x) ∈ sorted_entries m <-> m !! k = Some x.
Proof. by rewrite sorted_entries_perm, elem_of_map_to_list. Qed.

Lemma sorted_entries_NoDup {A : Type} (m : gmap string A) : NoDup ((sorted_entries m).*1).
Proof. rewrite sorted_entries_perm. apply NoDup_fst_map_to_list. Qed.

Lemma collect_entries_Ok {A : Type} (l : list (string * result value_error A)) out out' :
  NoDup (l.*1) -> collect_entries out l = Ok out' ->
  forall k, (exists a, (k, Ok a) ∈ l /\ field_ok k = true /\ out' !! k = Some a)
            \/ (~ (k ∈ l.*1) /\ out' !! k = out !! k).
Proof.
  revert out. induction l as [|[k r] l IH]; intros out Hnd Hc i; cbn in *.
  - injection Hc as <-. right. split; [apply not_elem_of_nil|done].
  - inversion Hnd as [|? ? Hni Hnd']; subst. inv_ok.
    destruct (IH _ Hnd' Hc i) as [(x & Hx & Hf & Ho)|(Hx & Ho)].
    + left. exists x. split; [by right|done].
    + destruct (decide (i = k)) as [->|Hne].
      * left. rewrite lookup_insert_eq in Ho. exists a0. split; [by left|].
        split; [by apply field_ok_validate|done].
      * right. rewrite lookup_insert_ne in Ho by done. split; [|done].
        by rewrite not_elem_of_cons.
Qed.

Lemma collect_entries_intro {A : Type} (l : list (string * result value_error A)) out :
  (forall k r, (k, r) ∈ l -> field_ok k = true /\ is_ok r = true) ->
  exists out', collect_entries out l = Ok out'.
Proof.
  revert out. induction l as [|[k r] l IH]; intros out Hl; cbn; [by exists out|].
  destruct (Hl k r) as [Hk Hr]; [by left|]. apply field_ok_validate in Hk. rewrite Hk. cbn.
  apply is_ok_true in Hr as [a ->]. cbn. apply IH. intros k' r' Hin. apply Hl. by right.
Qed.

(** Encoding the entries of a map: the result, when there is one, is the map of
    the encoded entries. *)
Lemma encodeMapEntries_Ok rs (m : gmap string wire) :
  (forall k, match m !! k with
             | Some w => rs !! k = Some (Ok w) /\ field_ok k = true
             | None => rs !! k = None
             end) ->
  encodeMapEntries rs = Ok (WObj m).
Proof.
  intros Hm. unfold encodeMapEntries.
  destruct (collect_entries_intro (sorted_entries rs) ∅) as [out Hout].
  { intros k r Hr. rewrite sorted_entries_lookup in Hr. specialize (Hm k).
    destruct (m !! k) as [w|]; [|congruence]. destruct Hm as [Hk ?]. split; [done|].
    rewrite Hk in Hr. by injection Hr as <-. }
  rewrite Hout. cbn. do 2 f_equal. apply map_eq. intros k. specialize (Hm k).
  destruct (collect_entries_Ok _ _ _ (sorted_entries_NoDup rs) Hout k)
    as [(w & Hw & _ & ->)|(Hk & ->)].
  - rewrite sorted_entries_lookup in Hw. destruct (m !! k) as [w'|]; [|congruence].
    destruct Hm as [Hm _]. congruence.
  - rewrite lookup_empty. destruct (m !! k) as [w|] eqn:Hmk; [|done].
    destruct Hm as [Hrs _]. exfalso. apply Hk. apply list_elem_of_fmap.
    exists (k, Ok w). split; [done|]. by apply sorted_entries_lookup.
Qed.

(** ** Sequences *)

Lemma encodeSeq_Ok (path : string) (l : list goval) (ws : list wire) i :
  Forall2 (fun g w => forall p, encodeValue g p = Ok w) l ws ->
  (fix go (i : nat) (l : list goval) : result value_error (list wire) :=
     match l with
     | [] => mret []
     | x :: rest =>
         encoded ← encodeValue x (indexPath path i);
         more ← go (S i) rest;
         mret (encoded :: more)
     end) i l = Ok ws.
Proof.
  intros HF. revert i. induction HF as [|g w l ws Hg HF IH]; intros i; [done|].
  rewrite Hg. cbn. by rewrite IH.
Qed.

(** The entries of a map, each encoded at its own path. *)
Lemma encoded_entries_lookup (m : gmap string goval) path k :
  (map_fold (fun k x acc => <[k:=encodeValue x (childPath path k)]> acc) ∅ m : gmap string _) !! k =
    (fun x => encodeValue x (childPath path k)) <$> m !! k.
Proof.
  induction m as [|i x m Hi Hfirst IHm] using map_first_key_ind.
  - rewrite map_fold_empty. by rewrite !lookup_empty.
  - rewrite map_fold_insert_first_key by done. destruct (decide (i = k)) as [->|Hne].
    + by rewrite !lookup_insert_eq.
    + by rewrite !lookup_insert_ne.
Qed.

(** The Go representation of a value encodes exactly as the value does. *)
Lemma encodeValue_GoValue v w path :
  ConvexJSON v = Ok w -> encodeValue (GoValue v) path = Ok w.
Proof.
  revert w path. induction v as [|n|f|b|s|d|l IH|m IH] using value_ind'; intros w path Hw;
    try (by injection Hw as <-).
  - cbn [ConvexJSON] in Hw. inv_ok. apply mapM_Ok in Ha. cbn [GoValue encodeValue].
    rewrite (encodeSeq_Ok path (map GoValue l) a 0); [done|].
    clear -IH Ha. induction Ha as [|x w l a Hx Ha IHa]; constructor.
    + intros p. apply IH; [by left|done].
    + apply IHa. intros y Hy. apply IH. by right.
  - cbn [ConvexJSON] in Hw. inv_ok. cbn [GoValue encodeValue]. apply encodeMapEntries_Ok.
    intros k. rewrite map_fold_fmap_eq.
    rewrite encoded_entries_lookup, lookup_fmap. pose proof (map_traverse_Ok_lookup _ _ _ Ha k) as Hk.
    destruct (m !! k) as [x|] eqn:Hx.
    + destruct Hk as (w & Hw & Henc). rewrite Hw. inv_ok. cbn. split.
      * f_equal. by apply (IH k).
      * by apply field_ok_validate.
    + by rewrite Hk.
Qed.

(** ** Properties *)

(** Converting a value to Go data and back is the identity: the encoder
    that walks Go values by reflection inverts [GoValue]. *)
Theorem ValueFromGo_GoValue (v : Value) :
  wf_value v = true -> ValueFromGo (GoValue v) = Ok v.
Proof.
  intros Hv. destruct (value_round v Hv) as (w & Hw & Hd).
  pose proof (encodeValue_GoValue v w EmptyString Hw) as He.
  unfold ValueFromGo, EncodeValue. destruct (GoValue v) eqn:Hg; rewrite ?He; try done.
  by destruct v.
Qed.

(** Every integer the encoder emits fits a Convex Int64: a Go integer of any
    kind either decodes back to the same number or, when it is an unsigned
    number above 2^63 - 1, is refused with its path. *)
Theorem integers_encode_in_range (n : Z) (path : string) :
  (in_i64 n = true -> exists w, encodeValue (GInt n) path = Ok w /\ valueFromWire w = Ok (VInt64 n))
  /\ (in_u64 n = true ->
      if n <=? MaxInt64
      then exists w, encodeValue (GUint n) path = Ok w /\ valueFromWire w = Ok (VInt64 n)
      else encodeValue (GUint n) path = Err (UnsignedOverflow (printablePath path))).
Proof.
  split.
  - intros Hn. eexists. split; [done|]. by apply wire_int64.
  - rewrite in_u64_spec. intros Hn. cbn. unfold encodeUint.
    destruct (Z.leb_spec n MaxInt64) as [Hle|Hgt].
    + rewrite (proj2 (Z.ltb_ge _ _)) by done. eexists. split; [done|].
      apply wire_int64. apply in_i64_spec. unfold MaxInt64 in Hle. lia.
    + by rewrite (proj2 (Z.ltb_lt _ _)).
Qed.

(** [encodeArgs] lets a nil map through: its result is the nil map, which
    marshals to null, although nil arguments are the empty object and
    [ValueFromGo] also reads a nil map as the empty object. *)
Theorem encodeArgs_nil_map :
  encodeArgs (GMap None) = Ok WNilObj /\ marshal WNilObj = Ok JNull /\
  encodeArgs GNil = Ok (WObj ∅) /\ marshal (WObj ∅) = Ok (JObj ∅) /\
  ValueFromGo (GMap None) = Ok (VObject ∅).
Proof. repeat split. Qed.

Lemma ValueFromGo_GoValue_witness :
  ValueFromGo (GoValue sample_value) = Ok sample_value.
Proof. apply (ValueFromGo_GoValue sample_value). vm_compute. reflexivity. Defined.

Lemma integers_encode_in_range_witness :
  (exists w, encodeValue (GInt (-7)) ".a" = Ok w /\ valueFromWire w = Ok (VInt64 (-7))) /\
  encodeValue (GUint (2 ^ 63)) ".a" = Err (UnsignedOverflow ".a").
Proof.
  split.
  - apply (proj1 (integers_encode_in_range (-7) ".a")). reflexivity.
  - apply (proj2 (integers_encode_in_range (2 ^ 63) ".a")). reflexivity.
Defined.
