(* ===== verification/Paths.v ===== *)
(** * Identifiers, module paths and function paths

    The model of [internal/core/path.go].  An error is the constructor of the
    message the Go code formats, with the same arguments. *)
From S2P Require Import Prelude GoStrings.
From Stdlib Require Import Ascii.
Local Open Scope Z_scope.

Definition maxIdentifierLength : nat := 64.

Inductive path_error :=
  | IdentifierEmpty
  | IdentifierTooLong (s : string)
  | IdentifierFirstChar (c : ascii) (s : string)
  | IdentifierChar (c : ascii) (s : string)
  | IdentifierUnderscores (s : string)
  | ModulePathEmpty
  | ModulePathAbsolute
  | ModulePathInvalid (s : string)
  | ModulePathComponent (part s : string)
  | ModulePathExtension (s ext : string)
  | ComponentTooLong (s : string)
  | ComponentChar (s : string)
  | ComponentNoAlnum (s : string)
  | FunctionTooFewParts (s : string).

Definition isASCIIAlpha (c : ascii) : bool := byte_in 97 122 c || byte_in 65 90 c.
Definition isASCIIDigit (c : ascii) : bool := byte_in 48 57 c.
Definition alnum (c : ascii) : bool := isASCIIAlpha c || isASCIIDigit c.
Definition is_underscore (c : ascii) : bool := bool_decide (c = "_"%char).

(** The loop of [isValidIdentifier], with its flag. *)
Fixpoint identifier_loop (hasNonUnderscore : bool) (s : string) : bool :=
  match s with
  | "" => hasNonUnderscore
  | String c r =>
      if alnum c then identifier_loop true r
      else if negb (is_underscore c) then false
      else identifier_loop hasNonUnderscore r
  end.

Definition isValidIdentifier (s : string) : bool :=
  match s with
  | "" => false
  | String c _ =>
      if (maxIdentifierLength <? String.length s)%nat then false
      else if negb (isASCIIAlpha c) && negb (is_underscore c) then false
      else identifier_loop false s
  end.

(** The loop of [ValidateIdentifier] over the bytes after the first. *)
Fixpoint find_bad_byte (s : string) : option ascii :=
  match s with
  | "" => None
  | String c r =>
      if negb (isASCIIAlpha c) && negb (isASCIIDigit c) && negb (is_underscore c) then Some c
      else find_bad_byte r
  end.

Definition ValidateIdentifier (s : string) : result path_error unit :=
  if isValidIdentifier s then Ok ()
  else match s with
  | "" => Err IdentifierEmpty
  | String first rest =>
      if (maxIdentifierLength <? String.length s)%nat then Err (IdentifierTooLong s)
      else if negb (isASCIIAlpha first) && negb (is_underscore first) then
        Err (IdentifierFirstChar first s)
      else match find_bad_byte rest with
      | Some c => Err (IdentifierChar c s)
      | None => if all_bytes is_underscore s then Err (IdentifierUnderscores s) else Ok ()
      end
  end.

Definition ParseFunctionName (s : string) : result path_error string :=
  _ ← ValidateIdentifier s; Ok s.

(** The loop of [validatePathComponent]. *)
Fixpoint component_loop (s0 : string) (hasAlnum : bool) (s : string) : result path_error unit :=
  match s with
  | "" => if hasAlnum then Ok () else Err (ComponentNoAlnum s0)
  | String c r =>
      if alnum c then component_loop s0 true r
      else if negb (is_underscore c) && negb (bool_decide (c = "."%char)) then
        Err (ComponentChar s0)
      else component_loop s0 hasAlnum r
  end.

Definition validatePathComponent (s : string) : result path_error unit :=
  if (maxIdentifierLength <? String.length s)%nat then Err (ComponentTooLong s)
  else component_loop s false s.

Record ModulePath := mkModulePath { raw : string }.

Fixpoint validate_parts (s : string) (parts : list string) : result path_error unit :=
  match parts with
  | [] => Ok ()
  | part :: rest =>
      if decide (part = "" \/ part = "." \/ part = "..") then Err (ModulePathComponent part s)
      else _ ← validatePathComponent part; validate_parts s rest
  end.

Definition ParseModulePath (s : string) : result path_error ModulePath :=
  if decide (s = "") then Err ModulePathEmpty
  else if has_prefix "/" s || path_is_abs s then Err ModulePathAbsolute
  else
    let cleaned := path_clean (replace_byte "\" "/" s) in
    if bool_decide (cleaned = ".") || has_prefix "../" cleaned
       || bool_decide (cleaned = "..") || contains "/../" cleaned
    then Err (ModulePathInvalid s)
    else
      _ ← validate_parts s (split_on "/" cleaned);
      let ext := path_ext cleaned in
      if bool_decide (ext <> "") && bool_decide (ext <> ".js")
      then Err (ModulePathExtension s ext)
      else Ok (mkModulePath cleaned).

Record CanonicalizedModulePath := mkCanonicalModule { canonical_raw : string }.

Definition ModulePath_Canonicalize (p : ModulePath) : CanonicalizedModulePath :=
  if decide (path_ext (raw p) = "") then mkCanonicalModule (raw p +:+ ".js")
  else mkCanonicalModule (raw p).

Definition IsSystem (p : ModulePath) : bool :=
  has_prefix "_system/" (raw p) || bool_decide (raw p = "_system")
  || bool_decide (raw p = "_system.js").
Definition IsDeps (p : ModulePath) : bool :=
  has_prefix "_deps/" (raw p) || bool_decide (raw p = "_deps")
  || has_prefix "actions/_deps/" (raw p).
Definition IsHTTP (p : ModulePath) : bool :=
  bool_decide (canonical_raw (ModulePath_Canonicalize p) = "http.js").
Definition IsCron (p : ModulePath) : bool :=
  bool_decide (canonical_raw (ModulePath_Canonicalize p) = "crons.js").

Record UDFPath := mkUDFPath { udf_module : ModulePath; udf_function : option string }.

Definition ParseUDFPath (s : string) : result path_error UDFPath :=
  '(modulePart, fn) ←
    match cut_last ":" s with
    | Some (before, after) => parsedFn ← ParseFunctionName after; Ok (before, Some parsedFn)
    | None => Ok (s, None)
    end;
  module ← ParseModulePath modulePart;
  Ok (mkUDFPath module fn).

Definition UDFPath_String (p : UDFPath) : string :=
  match udf_function p with
  | None => raw (udf_module p)
  | Some f => raw (udf_module p) +:+ ":" +:+ f
  end.

Record CanonicalizedUDFPath :=
  mkCanonicalUDF { canonical_module : CanonicalizedModulePath; canonical_function : string }.

Definition UDFPath_Canonicalize (p : UDFPath) : CanonicalizedUDFPath :=
  mkCanonicalUDF (ModulePath_Canonicalize (udf_module p)) (default "default" (udf_function p)).

Definition CanonicalizedUDFPath_String (p : CanonicalizedUDFPath) : string :=
  canonical_raw (canonical_module p) +:+ ":" +:+ canonical_function p.

Definition source_extensions : list string :=
  [".ts"; ".tsx"; ".jsx"; ".mts"; ".mjs"; ".cts"; ".cjs"].

Definition ParseFunctionPath (s : string) : result path_error string :=
  if has_prefix "api." s || has_prefix "internal." s then
    let parts := split_on "." s in
    if (length parts <? 3)%nat then Err (FunctionTooFewParts s)
    else
      let exportName := default "" (last parts) in
      let moduleName := join_with "/" (removelast (tail parts)) in
      let normalized := moduleName +:+ ":" +:+ exportName in
      _ ← ParseUDFPath normalized; Ok normalized
  else
    let '(filePath, exportName) := default (s, "") (cut ":" s) in
    let exportName := trim_space exportName in
    let exportName := if decide (exportName = "") then "default" else exportName in
    let filePath := fold_left trim_suffix source_extensions filePath in
    let normalized := filePath +:+ ":" +:+ exportName in
    _ ← ParseUDFPath normalized; Ok normalized.

(** ** What the validators accept *)

Definition ident_byte (c : ascii) : bool := alnum c || is_underscore c.
Definition module_byte (c : ascii) : bool :=
  alnum c || is_underscore c || bool_decide (c = "."%char).

(** The identifiers of the documentation: at most 64 letters, digits and
    underscores, not starting with a digit and not only underscores. *)
Definition identifier (s : string) : Prop :=
  (String.length s <= 64)%nat /\ all_bytes ident_byte s = true /\
  all_bytes is_underscore s = false /\
  match s with "" => False | String c _ => isASCIIDigit c = false end.

(** A component of a module path. *)
Definition component (s : string) : Prop :=
  (String.length s <= 64)%nat /\ all_bytes module_byte s = true /\ any_byte alnum s = true.

(** A module path as [ParseModulePath] returns it. *)
Definition module_path (m : string) : Prop :=
  Forall component (split_on "/" m) /\ (path_ext m = "" \/ path_ext m = ".js").

(** A canonical path names its extension and its function. *)
Definition canonical_path (c : CanonicalizedUDFPath) : Prop :=
  module_path (canonical_raw (canonical_module c)) /\
  path_ext (canonical_raw (canonical_module c)) = ".js" /\
  identifier (canonical_function c).
