(* ===== verification/PathFacts.v ===== *)
(** * What the path parsers accept and return

    [ParseUDFPath] accepts exactly the documented shape, what it returns prints
    to a string that parses to the same path, and canonical paths print
    injectively.  [ParseFunctionPath] is idempotent. *)
From S2P Require Import Prelude GoStrings Paths.
From Stdlib Require Import Ascii.
Local Open Scope Z_scope.
#[local] Arguments String.append !_ _ /.

(** ** Identifiers *)

Lemma identifier_loop_spec b s :
  identifier_loop b s = all_bytes ident_byte s && (b || any_byte alnum s).
Proof.
  revert b. induction s as [|c s IH]; intros b; cbn; [by rewrite orb_false_r|].
  unfold ident_byte at 1. destruct (alnum c); cbn.
  - by rewrite IH, orb_true_r.
  - destruct (is_underscore c); cbn; [apply IH|done].
Qed.

Lemma ident_byte_alnum c : ident_byte c = true -> alnum c = negb (is_underscore c).
Proof.
  unfold ident_byte, is_underscore. destruct (bool_decide_reflect (c = "_"%char)) as [->|Hc].
  - done.
  - by rewrite orb_false_r.
Qed.

Lemma any_alnum_underscores s :
  all_bytes ident_byte s = true -> any_byte alnum s = negb (all_bytes is_underscore s).
Proof.
  induction s as [|c s IH]; [done|]. cbn. intros [Hc Hs]%andb_true_iff.
  rewrite (ident_byte_alnum c Hc), (IH Hs). by rewrite negb_andb.
Qed.

Lemma alpha_not_digit c : isASCIIAlpha c = true -> isASCIIDigit c = false.
Proof.
  unfold isASCIIAlpha, isASCIIDigit, byte_in. intros H.
  apply andb_false_iff. rewrite !Z.leb_gt.
  apply orb_true_iff in H. rewrite !andb_true_iff, !Z.leb_le in H. lia.
Qed.

Lemma isValidIdentifier_spec s : isValidIdentifier s = true <-> identifier s.
Proof.
  unfold isValidIdentifier, identifier. destruct s as [|c s]; [split; [done|by intros (_ & _ & _ & [])]|].
  set (t := String c s). assert (Ht : all_bytes ident_byte t = true -> ident_byte c = true).
  { cbn. by intros [? _]%andb_true_iff. }
  destruct (Nat.ltb_spec maxIdentifierLength (String.length t)) as [Hl|Hl];
    unfold maxIdentifierLength in Hl; [split; [done|lia]|].
  rewrite identifier_loop_spec, orb_false_l.
  destruct (negb (isASCIIAlpha c) && negb (is_underscore c)) eqn:Hf.
  - split; [done|]. intros (_ & Ha & _ & Hd). specialize (Ht Ha).
    unfold ident_byte, alnum in Ht.
    destruct (isASCIIAlpha c), (is_underscore c), (isASCIIDigit c); done.
  - rewrite andb_true_iff. split.
    + intros [Ha Hn]. rewrite any_alnum_underscores in Hn by done.
      apply negb_true_iff in Hn. repeat split; [lia|done|done|].
      apply andb_false_iff in Hf. rewrite !negb_false_iff in Hf.
      destruct Hf as [Hf|Hf]; [by apply alpha_not_digit|].
      unfold is_underscore in Hf. apply bool_decide_eq_true in Hf. by subst c.
    + intros (_ & Ha & Hn & _). split; [done|].
      by rewrite any_alnum_underscores, Hn.
Qed.

Lemma find_bad_byte_None s : find_bad_byte s = None -> all_bytes ident_byte s = true.
Proof.
  induction s as [|c s IH]; [done|]. cbn. unfold ident_byte at 1, alnum.
  destruct (isASCIIAlpha c), (isASCIIDigit c), (is_underscore c); cbn; auto; done.
Qed.

Lemma ValidateIdentifier_is_ok s : is_ok (ValidateIdentifier s) = isValidIdentifier s.
Proof.
  unfold ValidateIdentifier. destruct (isValidIdentifier s) eqn:Hv; [done|].
  destruct s as [|c s]; [done|].
  case_match eqn:Hl; [done|]. case_match eqn:Hf; [done|].
  case_match eqn:Hb; [done|]. case_match eqn:Hu; [done|]. exfalso.
  apply not_true_iff_false in Hv. apply Hv, isValidIdentifier_spec.
  apply Nat.ltb_ge in Hl. unfold maxIdentifierLength in Hl.
  apply find_bad_byte_None in Hb.
  assert (Hc : ident_byte c = true /\ isASCIIDigit c = false).
  { unfold ident_byte, alnum. apply andb_false_iff in Hf. rewrite !negb_false_iff in Hf.
    destruct Hf as [Hf|Hf]; [by rewrite Hf, alpha_not_digit|].
    split; [by rewrite Hf, orb_true_r|].
    unfold is_underscore in Hf. apply bool_decide_eq_true in Hf. by subst c. }
  repeat split; [lia| |done|apply Hc]. cbn. by rewrite (proj1 Hc), Hb.
Qed.

Lemma ValidateIdentifier_Ok s : ValidateIdentifier s = Ok () <-> identifier s.
Proof.
  rewrite <- isValidIdentifier_spec, <- ValidateIdentifier_is_ok.
  by destruct (ValidateIdentifier s) as [[]|].
Qed.

Lemma ParseFunctionName_Ok s f : ParseFunctionName s = Ok f <-> f = s /\ identifier s.
Proof.
  unfold ParseFunctionName. rewrite bind_Ok, <- ValidateIdentifier_Ok. split.
  - by intros ([] & Hu & [= <-]).
  - intros [-> Hs]. eauto.
Qed.

(** [ValidateIdentifier] accepts exactly the documented identifiers: 1 to 64
    ASCII letters, digits and underscores, not starting with a digit and not
    only underscores.  In particular the second pass, which only looks for the
    message to return, never falls through to its final [return nil]. *)
Theorem ValidateIdentifier_spec s :
  (ValidateIdentifier s = Ok () <-> identifier s) /\
  is_ok (ValidateIdentifier s) = isValidIdentifier s.
Proof. split; [apply ValidateIdentifier_Ok|apply ValidateIdentifier_is_ok]. Qed.

(** ** Module paths *)

Lemma component_loop_Ok s0 b s :
  component_loop s0 b s = Ok () <-> all_bytes module_byte s = true /\ b || any_byte alnum s = true.
Proof.
  revert b. induction s as [|c s IH]; intros b; cbn.
  - rewrite orb_false_r. by destruct b; split; intros; destruct_and?.
  - unfold module_byte at 1, is_underscore.
    destruct (alnum c); cbn; [by rewrite IH, orb_true_r|].
    destruct (bool_decide (c = "_"%char)), (bool_decide (c = "."%char)); cbn; rewrite ?IH;
      try done; by split; intros; destruct_and?.
Qed.

Lemma validatePathComponent_Ok s : validatePathComponent s = Ok () <-> component s.
Proof.
  unfold validatePathComponent, component.
  destruct (Nat.ltb_spec maxIdentifierLength (String.length s)) as [Hl|Hl];
    unfold maxIdentifierLength in Hl.
  - split; [done|lia].
  - rewrite component_loop_Ok. cbn. split; [done|by intros [_ ?]].
Qed.

Lemma component_plain part : component part -> ~ (part = "" \/ part = "." \/ part = "..").
Proof. intros (_ & _ & Ha) [->|[->| ->]]; done. Qed.

Lemma validate_parts_Ok s parts : validate_parts s parts = Ok () <-> Forall component parts.
Proof.
  induction parts as [|p parts IH]; cbn; [by split|].
  rewrite Forall_cons, <- IH. case_decide as Hp.
  - split; [done|]. intros [Hc _]. by destruct (component_plain p Hc).
  - rewrite bind_Ok, <- validatePathComponent_Ok. split.
    + by intros ([] & Hv & Hr).
    + intros []. eauto.
Qed.

(** Bytes a component cannot have. *)
Lemma component_lacks sep part : component part -> module_byte sep = false -> lacks sep part = true.
Proof.
  intros (_ & Hb & _) Hs. induction part as [|c part IH]; [done|]. cbn in Hb.
  apply andb_true_iff in Hb as [Hc Hb]. apply lacks_cons. split; [|auto].
  intros ->. by rewrite Hs in Hc.
Qed.

Lemma clean_fold_components stack parts :
  Forall component parts -> fold_left clean_step parts stack = rev parts ++ stack.
Proof.
  intros Hp. revert stack. induction Hp as [|p parts Hc Hp IH]; intros stack; [done|]. cbn.
  pose proof (component_plain p Hc) as Hpl. unfold clean_step at 2.
  rewrite decide_False, decide_False by tauto. by rewrite IH, <- app_assoc.
Qed.

Lemma clean_parts_components parts : Forall component parts -> clean_parts parts = parts.
Proof.
  intros Hp. unfold clean_parts.
  by rewrite clean_fold_components, app_nil_r, rev_involutive.
Qed.

Lemma join_lacks sep parts :
  Forall component parts -> module_byte sep = false -> sep <> "/"%char ->
  lacks sep (join_with "/" parts) = true.
Proof.
  intros Hp Hs Hsl. induction Hp as [|p parts Hc Hp IH]; [done|]. cbn.
  destruct parts as [|q parts]; [by apply component_lacks|].
  unfold lacks. rewrite all_bytes_app. apply andb_true_iff. split.
  - by apply component_lacks.
  - by apply lacks_cons.
Qed.

Section module_path.
Context (m : string) (Hparts : Forall component (split_on "/" m)).

Lemma module_head : exists c r, m = String c r /\ c <> "/"%char.
Proof using Hparts.
  destruct m as [|c r].
  { inversion Hparts as [|?? Hc]. by destruct (component_plain "" Hc); left. }
  exists c, r. split; [done|]. intros ->. cbn in Hparts. inversion Hparts as [|?? Hc].
  by destruct (component_plain "" Hc); left.
Qed.

Lemma module_not_rooted : has_prefix "/" m = false.
Proof using Hparts. destruct module_head as (c & r & -> & Hc). cbn. by case_decide. Qed.

Lemma module_clean : path_clean m = m.
Proof using Hparts.
  unfold path_clean. rewrite module_not_rooted, clean_parts_components by done.
  pose proof (join_split "/" m) as Hj. pose proof (split_on_nonempty "/" m).
  by destruct (split_on "/" m).
Qed.

Lemma module_lacks sep : module_byte sep = false -> sep <> "/"%char -> lacks sep m = true.
Proof using Hparts.
  intros Hs Hsl. rewrite <- (join_split "/" m). by apply join_lacks.
Qed.

Lemma module_no_dots : has_prefix "../" m = false /\ contains "/../" m = false.
Proof using Hparts.
  split; apply not_true_iff_false; intros H.
  - apply has_prefix_split in H as [r ->].
    change ("../" +:+ r) with (".." +:+ String "/" r) in Hparts.
    rewrite split_on_app in Hparts. apply Forall_app in Hparts as [Hd _].
    apply Forall_cons in Hd as [Hd _]. destruct (component_plain ".." Hd); auto.
  - apply contains_split in H as (a & b & ->).
    change ("/../" +:+ b) with (String "/" (".." +:+ String "/" b)) in Hparts.
    rewrite !split_on_app in Hparts. apply Forall_app in Hparts as [_ Hd].
    apply Forall_app in Hd as [Hd _].
    apply Forall_cons in Hd as [Hd _]. destruct (component_plain ".." Hd); auto.
Qed.
End module_path.

Lemma replace_byte_lacks a b s : lacks a s = true -> replace_byte a b s = s.
Proof.
  induction s as [|c s IH]; [done|]. rewrite lacks_cons. intros [Hc Hs]. cbn.
  rewrite decide_False by done. by rewrite IH.
Qed.

Lemma ParseModulePath_ext s p :
  ParseModulePath s = Ok p -> module_path (raw p).
Proof.
  unfold ParseModulePath. case_decide; [done|]. case_match; [done|]. case_match; [done|].
  rewrite bind_Ok. intros ([] & Hv & He).
  destruct (bool_decide_reflect (path_ext (path_clean (replace_byte "\" "/" s)) <> ""))
    as [Hne|Hne]; cbn in He.
  - destruct (bool_decide_reflect (path_ext (path_clean (replace_byte "\" "/" s)) <> ".js"))
      as [Hjs|Hjs]; [done|]. injection He as <-. split; cbn; [by eapply validate_parts_Ok|].
    right. by apply dec_stable.
  - injection He as <-. split; cbn; [by eapply validate_parts_Ok|].
    left. by apply dec_stable.
Qed.

Lemma ParseModulePath_id m : module_path m -> ParseModulePath m = Ok (mkModulePath m).
Proof.
  intros [Hp He]. unfold ParseModulePath, path_is_abs.
  pose proof (module_head m Hp) as (c & r & Hm & Hc).
  rewrite decide_False by (by rewrite Hm). rewrite module_not_rooted by done. cbn [orb].
  rewrite replace_byte_lacks by (by apply module_lacks). rewrite module_clean by done.
  destruct (module_no_dots m Hp) as [-> ->].
  assert (Hd : m <> "." /\ m <> "..").
  { split; intros ->; apply Forall_cons in Hp as [Hp _]; eapply component_plain; eauto. }
  rewrite !bool_decide_eq_false_2 by tauto. cbn [orb].
  rewrite (proj2 (validate_parts_Ok m _)) by done. cbn.
  by destruct He as [-> | ->].
Qed.

Lemma ParseModulePath_Ok_id s p : ParseModulePath s = Ok p -> ParseModulePath (raw p) = Ok p.
Proof. intros H%ParseModulePath_ext%ParseModulePath_id. by destruct p. Qed.

(** ** Extensions *)

Lemma cut_last_app_lacks sep a t :
  lacks sep t = true ->
  cut_last sep (a +:+ t) = match cut_last sep a with Some (x, b) => Some (x, b +:+ t) | None => None end.
Proof.
  intros Ht. induction a as [|c a IH]; cbn; [by apply cut_last_lacks|].
  change (String.append a t) with (a +:+ t). rewrite IH.
  destruct (cut_last sep a) as [[x b]|]; [done|]. by case_decide.
Qed.

Lemma path_ext_app a : path_ext (a +:+ ".js") = ".js".
Proof.
  assert (H : forall b, cut_last "." (b +:+ ".js") = Some (b, "js")).
  { intros b. by apply (cut_last_app "." b "js"). }
  unfold path_ext, path_base. rewrite cut_last_app_lacks by done.
  destruct (cut_last "/" a) as [[x b]|]; by rewrite H.
Qed.

Lemma path_ext_suffix m e : path_ext m = e -> e <> "" -> exists a, m = a +:+ e.
Proof.
  unfold path_ext, path_base. intros He Hne.
  destruct (cut_last "/" m) as [[x b]|] eqn:Hb.
  - apply cut_last_Some in Hb as [-> _].
    destruct (cut_last "." b) as [[y r]|] eqn:Hd; [|by subst e].
    apply cut_last_Some in Hd as [-> _]. exists (x +:+ String "/" y).
    subst e. by rewrite str_app_assoc.
  - destruct (cut_last "." m) as [[y r]|] eqn:Hd; [|by subst e].
    apply cut_last_Some in Hd as [-> _]. exists y. by subst e.
Qed.

(** The module without its optional extension. *)
Definition module_stem (m : string) : string := trim_suffix m ".js".

Lemma canonical_raw_stem p :
  module_path (raw p) ->
  canonical_raw (ModulePath_Canonicalize p) = module_stem (raw p) +:+ ".js".
Proof.
  intros [_ He]. unfold ModulePath_Canonicalize, module_stem. case_decide as Hn; cbn.
  - unfold trim_suffix. destruct (has_suffix ".js" (raw p)) eqn:Hs; [|done].
    apply has_suffix_split in Hs as [a Ha]. by rewrite Ha, path_ext_app in Hn.
  - destruct He as [?|He]; [done|]. destruct (path_ext_suffix _ _ He) as [a ->]; [done|].
    by rewrite trim_suffix_app.
Qed.

(** ** Function paths *)

Definition udf_ok (p : UDFPath) : Prop :=
  module_path (raw (udf_module p)) /\ from_option identifier True (udf_function p).

Lemma ident_lacks sep s : identifier s -> ident_byte sep = false -> lacks sep s = true.
Proof.
  intros (_ & Hb & _) Hs. induction s as [|c s IH]; [done|]. cbn in Hb.
  apply andb_true_iff in Hb as [Hc Hb]. apply lacks_cons. split; [|auto].
  intros ->. by rewrite Hs in Hc.
Qed.

Lemma module_lacks_colon m : module_path m -> lacks ":" m = true.
Proof. intros [Hp _]. by apply module_lacks. Qed.

Lemma ParseUDFPath_wf s p : ParseUDFPath s = Ok p -> udf_ok p.
Proof.
  unfold ParseUDFPath. rewrite bind_Ok. intros ([m fn] & Hf & Hm).
  apply bind_Ok in Hm as (mp & Hm & [= <-]). split; cbn; [by eapply ParseModulePath_ext|].
  destruct (cut_last ":" s) as [[a b]|]; [|by injection Hf as <- <-].
  apply bind_Ok in Hf as (f & Hf & [= <- <-]).
  by apply ParseFunctionName_Ok in Hf as [-> ?].
Qed.

Lemma ParseUDFPath_print p : udf_ok p -> ParseUDFPath (UDFPath_String p) = Ok p.
Proof.
  destruct p as [[m] [f|]]; intros [Hm Hf]; cbn in *; unfold ParseUDFPath, UDFPath_String; cbn.
  - change (m +:+ String ":" f) with (m +:+ String ":" f).
    rewrite cut_last_app by (by apply ident_lacks).
    rewrite (proj2 (ParseFunctionName_Ok f f)) by done. cbn.
    by rewrite ParseModulePath_id.
  - rewrite cut_last_lacks by (by apply module_lacks_colon). cbn.
    by rewrite ParseModulePath_id.
Qed.

Lemma default_identifier : identifier "default".
Proof. by apply isValidIdentifier_spec. Qed.

Lemma canonical_function_ident p :
  udf_ok p -> identifier (canonical_function (UDFPath_Canonicalize p)).
Proof. intros [_ Hf]. cbn. destruct (udf_function p); [done|apply default_identifier]. Qed.

(** Two paths that name the same exported function of the same module file. *)
Definition same_function (p q : UDFPath) : Prop :=
  module_stem (raw (udf_module p)) = module_stem (raw (udf_module q)) /\
  default "default" (udf_function p) = default "default" (udf_function q).

(** A path [ParseUDFPath] accepts, printed, parses to the same path: the
    cleaning of the module path is done once and for all, and the function name
    after the last colon is found again. *)
Theorem ParseUDFPath_roundtrip s p :
  ParseUDFPath s = Ok p -> ParseUDFPath (UDFPath_String p) = Ok p.
Proof. intros H%ParseUDFPath_wf. by apply ParseUDFPath_print. Qed.

Lemma ParseUDFPath_roundtrip_witness :
  ParseUDFPath "./lib\\chat/../messages.js:list" =
    Ok (mkUDFPath (mkModulePath "lib/messages.js") (Some "list")) /\
  ParseUDFPath "lib/messages.js:list" =
    Ok (mkUDFPath (mkModulePath "lib/messages.js") (Some "list")).
Proof.
  split; [vm_compute; reflexivity|].
  apply (ParseUDFPath_roundtrip "./lib\\chat/../messages.js:list"
           (mkUDFPath (mkModulePath "lib/messages.js") (Some "list"))).
  vm_compute; reflexivity.
Defined.

(** Canonical function paths are one-to-one: the canonical strings of two
    accepted paths are equal exactly when the paths name the same function,
    where [m] and [m.js] are the same module and no function is the function
    [default].  This is what makes the canonical string usable as a key. *)
Theorem Canonicalize_one_to_one s t p q :
  ParseUDFPath s = Ok p -> ParseUDFPath t = Ok q ->
  (CanonicalizedUDFPath_String (UDFPath_Canonicalize p) =
     CanonicalizedUDFPath_String (UDFPath_Canonicalize q) <-> same_function p q).
Proof.
  intros Hp%ParseUDFPath_wf Hq%ParseUDFPath_wf. unfold same_function, CanonicalizedUDFPath_String.
  pose proof (canonical_function_ident p Hp) as Hfp.
  pose proof (canonical_function_ident q Hq) as Hfq.
  destruct Hp as [Hmp _], Hq as [Hmq _]. cbn in *. rewrite !canonical_raw_stem by done.
  split; [|by intros [-> ->]]. intros H. apply (f_equal (cut_last ":")) in H.
  change (":" +:+ ?x) with (String ":" x) in H.
  rewrite !cut_last_app in H by (by apply ident_lacks). injection H as Hm Hf.
  split; [|done]. apply (f_equal (fun s => trim_suffix s ".js")) in Hm.
  by rewrite !trim_suffix_app in Hm.
Qed.

Lemma Canonicalize_one_to_one_witness :
  CanonicalizedUDFPath_String
    (UDFPath_Canonicalize (mkUDFPath (mkModulePath "a/b.js") None)) =
  CanonicalizedUDFPath_String
    (UDFPath_Canonicalize (mkUDFPath (mkModulePath "a/b") (Some "default"))).
Proof.
  apply (Canonicalize_one_to_one "a/b.js" "a//b:default"); by vm_compute.
Defined.

(** ** [ParseFunctionPath] *)

(** Trimming leaves a string that no encoding is a prefix of. *)
Lemma trim_left_fuel_id fuel enc s :
  forallb (fun e => negb (has_prefix e s)) enc = true -> trim_left_fuel fuel enc s = s.
Proof.
  intros H. destruct fuel as [|fuel]; [done|]. cbn.
  destruct (List.find (fun e => has_prefix e s) enc) eqn:E; [|done].
  apply List.find_some in E as [Hin Hp].
  rewrite forallb_forall in H. specialize (H _ Hin). by rewrite Hp in H.
Qed.

Lemma ident_head_no_space c s :
  ident_byte c = true ->
  forallb (fun e => negb (has_prefix e (String c s))) space_encodings = true /\
  forallb (fun e => negb (has_prefix e (String c s))) (map String.rev space_encodings) = true.
Proof. destruct c as [[] [] [] [] [] [] [] []]; intros H; first [by vm_compute in H|by vm_compute]. Qed.

Lemma rev_app_snoc s t : String.rev_app s t = String.rev s +:+ t.
Proof.
  unfold String.rev. revert t. induction s as [|c s IH]; intros t; [done|]. cbn.
  rewrite IH, (IH (String c "")), str_app_assoc. done.
Qed.

Lemma rev_cons c s : String.rev (String c s) = String.rev s +:+ str1 c.
Proof. unfold String.rev at 1. cbn. apply rev_app_snoc. Qed.

Lemma rev_append a b : String.rev (a +:+ b) = String.rev b +:+ String.rev a.
Proof.
  induction a as [|c a IH].
  - cbn. by rewrite str_app_nil_r.
  - change (String c a +:+ b) with (String c (a +:+ b)). rewrite !rev_cons, IH. apply str_app_assoc.
Qed.

Lemma rev_twice s : String.rev (String.rev s) = s.
Proof. induction s as [|c s IH]; [done|]. rewrite rev_cons, rev_append, IH. done. Qed.

Lemma all_bytes_rev f s : all_bytes f (String.rev s) = all_bytes f s.
Proof.
  induction s as [|c s IH]; [done|]. rewrite rev_cons, all_bytes_app, IH. cbn.
  by rewrite andb_true_r, andb_comm.
Qed.

Lemma trim_space_ident s : all_bytes ident_byte s = true -> trim_space s = s.
Proof.
  intros Hs. unfold trim_space, trim_left, trim_right.
  assert (Hl : trim_left_fuel (String.length s) space_encodings s = s).
  { destruct s as [|c s]; [done|]. apply trim_left_fuel_id, ident_head_no_space.
    cbn in Hs. by apply andb_true_iff in Hs as [? _]. }
  rewrite Hl. rewrite <- all_bytes_rev in Hs.
  trans (String.rev (String.rev s)); [f_equal|apply rev_twice].
  destruct (String.rev s) as [|c t] eqn:E.
  - by destruct s as [|d s]; [|rewrite rev_cons in E; destruct (String.rev s)].
  - apply trim_left_fuel_id, ident_head_no_space.
    cbn in Hs. by apply andb_true_iff in Hs as [? _].
Qed.

Lemma cut_first_last sep a b :
  lacks sep a = true -> lacks sep b = true -> cut sep (a +:+ String sep b) = Some (a, b).
Proof.
  intros Ha Hb. induction a as [|c a IH]; cbn.
  - by rewrite decide_True.
  - apply lacks_cons in Ha as [Hc Ha]. rewrite decide_False by done.
    change (String.append a (String sep b)) with (a +:+ String sep b). by rewrite IH.
Qed.

(** The shape of what [ParseFunctionPath] returns. *)
Definition normal_function_path (n : string) : Prop :=
  exists m f, n = m +:+ ":" +:+ f /\ identifier f /\ exists p, ParseModulePath m = Ok p.

Lemma parsed_normal m f p :
  ParseUDFPath (m +:+ ":" +:+ f) = Ok p -> lacks ":" f = true ->
  identifier f /\ exists p', ParseModulePath m = Ok p'.
Proof.
  intros H Hf. unfold ParseUDFPath in H. rewrite bind_Ok in H.
  change (":" +:+ f) with (String ":" f) in H.
  destruct H as ([m' fn] & Hc & H). rewrite cut_last_app in Hc by done.
  apply bind_Ok in Hc as (f' & Hc & [= <- <-]). apply bind_Ok in H as (p' & H & _).
  apply ParseFunctionName_Ok in Hc as [_ ?]. eauto.
Qed.

Lemma parsed_normal_path n p :
  ParseUDFPath n = Ok p -> forall m f, n = m +:+ ":" +:+ f -> normal_function_path n.
Proof.
  intros Hp m f ->. change (":" +:+ f) with (String ":" f) in *.
  destruct (cut_last ":" (m +:+ String ":" f)) as [[a b]|] eqn:Hc.
  - apply cut_last_Some in Hc as [Hc Hb]. exists a, b.
    rewrite Hc in Hp |- *. split; [done|]. by apply (parsed_normal a b p).
  - apply cut_last_None in Hc. unfold lacks in Hc.
    rewrite all_bytes_app in Hc. apply andb_true_iff in Hc as [_ Hc].
    by apply lacks_cons in Hc as [].
Qed.

Lemma ParseFunctionPath_normal s n : ParseFunctionPath s = Ok n -> normal_function_path n.
Proof.
  unfold ParseFunctionPath. case_match.
  - case_match; [done|]. rewrite bind_Ok. intros (p & Hp & [= <-]).
    eapply parsed_normal_path; eauto.
  - destruct (default (s, "") (cut ":" s)) as [fp ex].
    rewrite bind_Ok. intros (p & Hp & [= <-]). eapply parsed_normal_path; eauto.
Qed.

Lemma has_prefix_colon p m f :
  lacks ":" p = true -> has_prefix p (m +:+ String ":" f) = has_prefix p m.
Proof.
  revert m. induction p as [|a p IH]; intros m; [done|]. rewrite lacks_cons. intros [Ha Hp].
  destruct m as [|c m]; cbn.
  - by rewrite decide_False.
  - case_decide; [|done]. by apply IH.
Qed.

Lemma lacks_dot_prefix p m : lacks "." m = true -> has_prefix (p +:+ ".") m = false.
Proof.
  intros Hm. apply not_true_iff_false. intros [r ->]%has_prefix_split.
  unfold lacks in Hm. rewrite !all_bytes_app in Hm. cbn in Hm.
  by rewrite andb_false_r in Hm.
Qed.

Lemma join_lacks_dot parts :
  Forall (fun p => lacks "." p = true) parts -> lacks "." (join_with "/" parts) = true.
Proof.
  intros Hp. induction Hp as [|p parts Hc Hp IH]; [done|]. cbn.
  destruct parts as [|q parts]; [done|].
  unfold lacks. rewrite all_bytes_app. apply andb_true_iff. split; [done|]. by apply lacks_cons.
Qed.

Lemma trim_suffix_prefix s e : exists t, s = trim_suffix s e +:+ t.
Proof.
  unfold trim_suffix. case_match.
  - eexists. symmetry. apply take_drop_bytes.
  - exists "". by rewrite str_app_nil_r.
Qed.

Lemma trim_extensions_prefix exts s : exists t, s = fold_left trim_suffix exts s +:+ t.
Proof.
  revert s. induction exts as [|e exts IH]; intros s; cbn.
  - exists "". by rewrite str_app_nil_r.
  - destruct (trim_suffix_prefix s e) as [t Ht], (IH (trim_suffix s e)) as [t' Ht'].
    exists (t' +:+ t). by rewrite <- str_app_assoc, <- Ht'.
Qed.

Lemma cut_Some sep s a b : cut sep s = Some (a, b) -> s = a +:+ String sep b.
Proof.
  revert a. induction s as [|c s IH]; intros a; cbn; [done|]. case_decide.
  - intros [= <- <-]. by subst c.
  - destruct (cut sep s) as [[a' b']|]; [|done]. intros [= <- <-]. cbn. f_equal. by apply IH.
Qed.

(** The last component survives [path.Clean], with its extension. *)
Definition plain_ext (e : string) : Prop :=
  exists r, e = String "." r /\ lacks "." r = true /\ lacks "/" r = true /\ r <> "" /\
            replace_byte "\" "/" r = r.

Lemma source_extension_plain e : e ∈ source_extensions -> plain_ext e /\ e <> ".js".
Proof.
  unfold source_extensions. rewrite !elem_of_cons, elem_of_nil. unfold plain_ext.
  intros He. repeat destruct He as [->|He]; try done; (split; [eexists; by repeat split|done]).
Qed.

Lemma path_ext_plain a e : plain_ext e -> path_ext (a +:+ e) = e.
Proof.
  intros (r & -> & Hd & Hs & _).
  assert (H : forall b, cut_last "." (b +:+ String "." r) = Some (b, r)).
  { intros b. by apply cut_last_app. }
  unfold path_ext, path_base. rewrite cut_last_app_lacks by (by apply lacks_cons).
  destruct (cut_last "/" a) as [[x b]|]; by rewrite H.
Qed.

Lemma replace_byte_app a b s t : replace_byte a b (s +:+ t) = replace_byte a b s +:+ replace_byte a b t.
Proof. induction s as [|c s IH]; [done|]. cbn. f_equal. apply IH. Qed.

Lemma split_suffix s t : lacks "/" t = true ->
  exists l p, split_on "/" (s +:+ t) = l ++ [p +:+ t].
Proof.
  intros Ht. destruct (cut_last "/" s) as [[a b]|] eqn:Hc.
  - apply cut_last_Some in Hc as [-> Hb]. exists (split_on "/" a), b.
    rewrite str_app_assoc. change (String "/" b +:+ t) with (String "/" (b +:+ t)).
    rewrite split_on_app. f_equal. apply split_lacks.
    unfold lacks in *. by rewrite all_bytes_app, Hb, Ht.
  - apply cut_last_None in Hc. exists [], s. apply split_lacks.
    unfold lacks in *. by rewrite all_bytes_app, Hc, Ht.
Qed.

Lemma join_cons sep x l : l <> [] -> join_with sep (x :: l) = x +:+ String sep (join_with sep l).
Proof. by destruct l. Qed.

Lemma join_snoc l x : exists z, join_with "/" (l ++ [x]) = z +:+ x.
Proof.
  induction l as [|y l [z IH]]; [by exists ""|]. exists (y +:+ String "/" z).
  change ((y :: l) ++ [x]) with (y :: (l ++ [x])). rewrite join_cons by (by destruct l).
  by rewrite IH, str_app_assoc.
Qed.

Lemma path_clean_suffix m e : plain_ext e -> exists z, path_clean (m +:+ e) = z +:+ e.
Proof.
  intros (r & -> & Hd & Hs & Hr & _).
  destruct (split_suffix m (String "." r)) as (l & p & Hsp); [by apply lacks_cons|].
  assert (Hne : forall q, q +:+ String "." r <> "" /\ q +:+ String "." r <> "." /\ q +:+ String "." r <> "..").
  { intros q. destruct q as [|c [|c' [|c'' q]]]; repeat split; cbn; try done;
      intros [=]; subst; by try apply lacks_cons in Hd as []. }
  destruct (Hne p) as (H1 & H2 & H3).
  assert (Hc : clean_parts (split_on "/" (m +:+ String "." r)) =
               rev (fold_left clean_step l []) ++ [p +:+ String "." r]).
  { unfold clean_parts. rewrite Hsp, fold_left_app. cbn [fold_left]. unfold clean_step at 1.
    rewrite decide_False, decide_False by tauto. done. }
  unfold path_clean. rewrite Hc. case_match.
  - rewrite filter_app, filter_cons_True, filter_nil by done.
    destruct (join_snoc (filter (.≠ "..") (rev (fold_left clean_step l []))) (p +:+ String "." r))
      as [z ->].
    exists (String "/" (z +:+ p)). cbn. f_equal.  by rewrite str_app_assoc.
  - destruct (join_snoc (rev (fold_left clean_step l [])) (p +:+ String "." r)) as [z Hz].
    destruct (rev (fold_left clean_step l [])) as [|x l'];
      exists (z +:+ p); cbn [app] in Hz |- *; by rewrite Hz, str_app_assoc.
Qed.

(** A module [ParseModulePath] accepts does not end with a source extension. *)
Lemma parsed_no_extension m p e :
  ParseModulePath m = Ok p -> e ∈ source_extensions -> trim_suffix m e = m.
Proof.
  intros Hp He. destruct (source_extension_plain e He) as [Hpl Hjs].
  unfold trim_suffix. destruct (has_suffix e m) eqn:Hs; [|done]. exfalso.
  apply has_suffix_split in Hs as [a ->].
  destruct (ParseModulePath_ext _ _ Hp) as [_ Hext]. revert Hp Hext. unfold ParseModulePath.
  case_decide; [done|]. case_match; [done|]. case_match; [done|].
  rewrite bind_Ok, replace_byte_app. intros ([] & _ & Hp).
  assert (Hr : replace_byte "\" "/" e = e).
  { destruct Hpl as (r & -> & _ & _ & _ & Hr). cbn. by rewrite Hr. }
  destruct (path_clean_suffix (replace_byte "\" "/" a) e Hpl) as [z Hz].
  rewrite Hr, Hz, path_ext_plain in Hp by done.
  case_match; [done|]. injection Hp as <-. cbn. rewrite path_ext_plain by done.
  destruct Hpl as (r & -> & _). intros [H'|H']; [done|by apply Hjs].
Qed.

Lemma parsed_no_extensions m p exts :
  ParseModulePath m = Ok p -> (forall e, e ∈ exts -> e ∈ source_extensions) ->
  fold_left trim_suffix exts m = m.
Proof.
  intros Hp. induction exts as [|e exts IH]; intros Hin; [done|]. cbn.
  rewrite (parsed_no_extension m p e Hp) by (apply Hin; left).
  apply IH. intros e' He. apply Hin. by right.
Qed.

Definition api_form (s : string) : bool := has_prefix "api." s || has_prefix "internal." s.

Lemma ParseFunctionPath_not_api s n :
  ParseFunctionPath s = Ok n -> api_form n = false.
Proof.
  unfold ParseFunctionPath. fold (api_form s). destruct (api_form s) eqn:Hapi.
  - case_match; [done|]. rewrite bind_Ok. intros (p & Hp & [= <-]).
    set (m := join_with "/" (removelast (tail (split_on "." s)))).
    assert (Hm : lacks "." m = true).
    { apply join_lacks_dot. pose proof (split_on_lacks "." s) as Hl.
      destruct (split_on "." s) as [|h t]; [constructor|]. cbn.
      apply Forall_cons in Hl as [_ Hl]. destruct t as [|x t]; [constructor|].
      rewrite (app_removelast_last x) in Hl by done. by apply Forall_app in Hl as []. }
    unfold api_form. change (":" +:+ ?x) with (String ":" x).
    rewrite !has_prefix_colon by done.
    pose proof (lacks_dot_prefix "api" m Hm) as H1. pose proof (lacks_dot_prefix "internal" m Hm) as H2.
    change ("api" +:+ ".") with "api." in H1. change ("internal" +:+ ".") with "internal." in H2.
    by rewrite H1, H2.
  - assert (Hs : exists t, s = (default (s, "") (cut ":" s)).1 +:+ t).
    { destruct (cut ":" s) as [[a b]|] eqn:Hc; cbn.
      - apply cut_Some in Hc as ->. eauto.
      - exists "". by rewrite str_app_nil_r. }
    destruct (default (s, "") (cut ":" s)) as [fp ex]. destruct Hs as [t Ht].
    rewrite bind_Ok. intros (p & Hp & [= <-]).
    destruct (trim_extensions_prefix source_extensions fp) as [t' Ht'].
    cbn in Ht'. match type of Ht' with _ = ?m' +:+ _ => generalize dependent m' end.
    intros m Ht'.
    cbn in Ht. subst fp.
    unfold api_form in *. change (":" +:+ ?x) with (String ":" x).
    rewrite !has_prefix_colon by done. rewrite Ht, str_app_assoc in Hapi.
    apply orb_false_iff in Hapi as [H1 H2].
    apply orb_false_iff; split; apply not_true_iff_false; intros [r Hr]%has_prefix_split.
    + by rewrite Hr, str_app_assoc, has_prefix_app in H1.
    + by rewrite Hr, str_app_assoc, has_prefix_app in H2.
Qed.

(** What [ParseFunctionPath] returns is already normalised: the generated
    [api.foo.bar] and [internal.foo.bar] names, the file extensions and the
    missing export name are gone, and a second pass returns it unchanged.  The
    side condition sets aside a result with two colons, which is possible only
    when cleaning the module path removes a component with a colon in it. *)
Theorem ParseFunctionPath_idempotent s n :
  ParseFunctionPath s = Ok n -> cut ":" n = cut_last ":" n -> ParseFunctionPath n = Ok n.
Proof.
  intros Hs Hcut. pose proof (ParseFunctionPath_not_api s n Hs) as Hapi.
  destruct (ParseFunctionPath_normal s n Hs) as (m & f & -> & Hf & p & Hm).
  change (":" +:+ f) with (String ":" f) in *.
  assert (Hfc : lacks ":" f = true) by (by apply ident_lacks).
  unfold ParseFunctionPath. fold (api_form (m +:+ String ":" f)). rewrite Hapi, Hcut.
  rewrite cut_last_app by done. cbn [default from_option id]. cbv beta iota zeta.
  rewrite trim_space_ident by apply Hf. rewrite decide_False by (by intros ->; apply Hf).
  rewrite (parsed_no_extensions m p) by done.
  change (":" +:+ f) with (String ":" f). unfold ParseUDFPath.
  rewrite cut_last_app by done. rewrite (proj2 (ParseFunctionName_Ok f f)) by done.
  cbn. by rewrite Hm.
Qed.

Lemma ParseFunctionPath_idempotent_witness :
  ParseFunctionPath "api.chat.messages.list" = Ok "chat/messages:list" /\
  ParseFunctionPath "chat/messages.tsx: list " = Ok "chat/messages:list" /\
  ParseFunctionPath "chat/messages:list" = Ok "chat/messages:list".
Proof.
  split; [vm_compute; reflexivity|]. split; [vm_compute; reflexivity|].
  apply (ParseFunctionPath_idempotent "api.chat.messages.list"); vm_compute; reflexivity.
Defined.
