(* ===== verification/Results.v ===== *)
(** * Function results

    The model of [internal/core/function_result.go]: the outcome of a query,
    mutation or action as the clients and the sync protocol hand it out. *)
From S2P Require Import Prelude GoStrings Values.
Local Open Scope Z_scope.

(** A [FunctionKind] is a string. *)
Definition FunctionKind : Type := string.
Definition QueryKind : FunctionKind := "query".
Definition MutationKind : FunctionKind := "mutation".
Definition ActionKind : FunctionKind := "action".

(** A [ConvexError]: the message and the application data. *)
Record ConvexError : Type := mkConvexError { ce_message : string; ce_data : Value }.

(** The struct as it is: three fields, of which the constructors set one each.
    A nil [*ConvexError] is [None]. *)
Record FunctionResult : Type := mkFunctionResult {
  fr_value : Value;
  fr_errorMessage : string;
  fr_convexError : option ConvexError
}.

(** A [FunctionError], and the one in which only the message is set. *)
Record FunctionError : Type := mkFunctionError {
  fe_Kind : FunctionKind;
  fe_Path : string;
  fe_Message : string;
  fe_Data : goval;
  fe_DataValue : Value;
  fe_Convex : option ConvexError;
  fe_HasData : bool;
  fe_LogLines : list string;
  fe_StatusCode : Z;
  fe_RawResponse : string
}.
Definition message_error (message : string) : FunctionError :=
  mkFunctionError "" "" message GNil VNull None false [] 0 "".

(** [FunctionError.Unwrap]. *)
Definition FunctionError_Unwrap (e : FunctionError) : option ConvexError := fe_Convex e.

(** What [Err] returns when it is not nil. *)
Inductive result_error : Type :=
  | ApplicationError (e : ConvexError)
  | PlainError (e : FunctionError).

Definition ValueResult (value : Value) : FunctionResult := mkFunctionResult value "" None.
Definition ErrorMessageResult (message : string) : FunctionResult :=
  mkFunctionResult VNull message None.
Definition ConvexErrorResult (err : ConvexError) : FunctionResult :=
  mkFunctionResult VNull "" (Some err).

Definition IsValue (r : FunctionResult) : bool :=
  bool_decide (fr_errorMessage r = "") && negb (bool_decide (is_Some (fr_convexError r))).

(** The accessors return the zero value and [false] when the part is absent. *)
Definition FunctionResult_Value (r : FunctionResult) : Value * bool :=
  if negb (IsValue r) then (VNull, false) else (fr_value r, true).
Definition FunctionResult_ErrorMessage (r : FunctionResult) : string * bool :=
  if bool_decide (fr_errorMessage r = "") then ("", false) else (fr_errorMessage r, true).
Definition FunctionResult_ConvexError (r : FunctionResult) : option ConvexError * bool :=
  match fr_convexError r with None => (None, false) | Some e => (Some e, true) end.

Definition FunctionResult_Err (r : FunctionResult) : option result_error :=
  if IsValue r then None
  else match fr_convexError r with
  | Some e => Some (ApplicationError e)
  | None => Some (PlainError (message_error (fr_errorMessage r)))
  end.

(** A failure without a message and without data is reported as the
    successful value null: [ErrorMessageResult("")] is [ValueResult(NullValue())]. *)
Theorem empty_error_is_null_value :
  FunctionResult_Value (ErrorMessageResult "") = (VNull, true) /\
  FunctionResult_Err (ErrorMessageResult "") = None /\
  forall m, IsValue (ErrorMessageResult m) = true <-> m = "".
Proof.
  split; [done|]. split; [done|]. intros m. unfold IsValue. cbn.
  rewrite andb_true_r. apply bool_decide_eq_true.
Qed.

(** ** The texts of errors

    [quote] is the verb [%q] of fmt. *)
Definition ConvexError_Error (e : ConvexError) : string := ce_message e.
Definition FunctionError_Error (quote : string -> string) (e : FunctionError) : string :=
  if decide (fe_Path e = "") then "convex: function failed: " +:+ fe_Message e
  else "convex: " +:+ fe_Kind e +:+ " " +:+ quote (fe_Path e) +:+ " failed: " +:+ fe_Message e.
