(* ===== verification/Protocol.v ===== *)
(** * The sync protocol messages

    The model of [internal/syncprotocol]: the messages of the WebSocket
    protocol, their [MarshalJSON] and [UnmarshalJSON] methods and the
    discriminated decoders.  A message on the wire is a [json] document;
    identifiers, versions and timestamps are the integers they are in Go, with
    the range their type gives them in the well-formedness predicates of
    ProtocolFacts.  When several members of a message fail to encode, which of
    the errors is reported is not part of the model. *)
From S2P Require Import Prelude GoStrings GoBytes GoFloat GoJson Values.
From Stdlib Require Import Strings.Byte.
Local Open Scope Z_scope.

Inductive proto_error : Type :=
  | CannotUnmarshal (type : string)
  | UnexpectedEnd
  | FieldError (field : string) (e : proto_error)
  | TimestampNotString (e : proto_error)
  | TimestampMalformed
  | TimestampLength (n : Z)
  | TimestampTooLarge (t : Z)
  | ValueFailed (e : value_error)
  | EncodingFailed (e : json_error)
  | MissingType
  | UnknownClientMessage (t : string)
  | UnknownServerMessage (t : string)
  | UnknownQuerySetModification (t : string)
  | UnknownStateModification (t : string)
  | BadLastCloseReason (e : proto_error)
  | MissingModifications
  | ModificationError (i : nat) (e : proto_error)
  | MissingJournal
  | InvalidIdentity (e : proto_error)
  | IdentityIncomplete
  | NilMessage.

(** ** [json.Unmarshal] into the Go types the messages use

    The target is always fresh, so [null] leaves its zero value. *)
Definition unmarshal_string (j : json) : result proto_error string :=
  match j with JNull => Ok "" | JStr s => Ok s | _ => Err (CannotUnmarshal "string") end.
Definition unmarshal_bool (j : json) : result proto_error bool :=
  match j with JNull => Ok false | JBool b => Ok b | _ => Err (CannotUnmarshal "bool") end.

Definition number_of {A : Type} (type : string) (o : option A) : result proto_error A :=
  match o with Some a => Ok a | None => Err (CannotUnmarshal type) end.
Definition unmarshal_uint32 (j : json) : result proto_error Z :=
  match j with
  | JNull => Ok 0
  | JNum n => number_of "uint32" (parse_uint 32 n)
  | _ => Err (CannotUnmarshal "uint32")
  end.
Definition unmarshal_int64 (j : json) : result proto_error Z :=
  match j with
  | JNull => Ok 0
  | JNum n => number_of "int64" (parse_int64 n)
  | _ => Err (CannotUnmarshal "int64")
  end.
Definition unmarshal_float64 (j : json) : result proto_error Z :=
  match j with
  | JNull => Ok 0
  | JNum n => number_of "float64" (parse_float n)
  | _ => Err (CannotUnmarshal "float64")
  end.

(** Into a pointer and into a slice: [null] gives nil. *)
Definition unmarshal_pointer {A : Type} (u : json -> result proto_error A) (j : json)
    : result proto_error (option A) :=
  match j with JNull => Ok None | _ => a ← u j; Ok (Some a) end.
Definition unmarshal_slice {A : Type} (u : json -> result proto_error A) (j : json)
    : result proto_error (option (list A)) :=
  match j with
  | JNull => Ok None
  | JArr l => l' ← mapM u l; Ok (Some l')
  | _ => Err (CannotUnmarshal "slice")
  end.
(** A [json.RawMessage] keeps the document. *)
Definition unmarshal_raw (j : json) : result proto_error json := Ok j.
(** [Value.UnmarshalJSON], which also sees [null]. *)
Definition unmarshal_value (j : json) : result proto_error Value :=
  map_err ValueFailed (ParseValueJSON j).

Definition rawIsNull (j : json) : bool := match j with JNull => true | _ => false end.

Definition rawObject (j : json) : result proto_error (gmap string json) :=
  match j with
  | JNull => Ok ∅
  | JObj m => Ok m
  | _ => Err (CannotUnmarshal "map[string]json.RawMessage")
  end.

Definition unmarshalExactField {A : Type} (raw : gmap string json) (field : string)
    (u : json -> result proto_error A) (zero : A) : result proto_error A :=
  match raw !! field with
  | None => Ok zero
  | Some j => map_err (FieldError field) (u j)
  end.

Definition discriminator (j : json) : result proto_error string :=
  raw ← rawObject j;
  messageType ← unmarshalExactField raw "type" unmarshal_string "";
  if decide (messageType = "") then Err MissingType else Ok messageType.

(** ** Members of an encoded message *)
Definition json_int (n : Z) : json := JNum (int_numeral n).
Definition json_string (s : string) : json := JStr (coerce_utf8 s).
Definition json_nullable {A : Type} (f : A -> json) (o : option A) : json :=
  match o with Some a => f a | None => JNull end.
Definition json_strings (l : option (list string)) : json :=
  json_nullable (fun l => JArr (map json_string l)) l.

Definition marshal_value (v : Value) : result proto_error json :=
  map_err ValueFailed (MarshalValue v).
Definition marshal_slice {A : Type} (f : A -> result proto_error json) (l : option (list A))
    : result proto_error json :=
  match l with None => Ok JNull | Some l => l' ← mapM f l; Ok (JArr l') end.
Definition marshal_pointer {A : Type} (f : A -> result proto_error json) (o : option A)
    : result proto_error json :=
  match o with None => Ok JNull | Some a => f a end.
Definition marshal_float (f : Z) : result proto_error json :=
  map_err EncodingFailed (marshal (WFloat f)).

(** A [map[string]any] literal, and the conditional assignment to a key. *)
Definition object (l : list (string * json)) : gmap string json := list_to_map l.
Definition set_if (b : bool) (key : string) (j : json) (out : gmap string json) : gmap string json :=
  if b then <[key := j]> out else out.

(** ** Timestamps *)
Definition SyncTimestamp_MarshalJSON (t : Z) : result proto_error json :=
  if MaxInt64 <? t then Err (TimestampTooLarge t)
  else Ok (json_string (b64_encode std_alphabet (le_put 8 t))).

Definition decodeSyncBase64Compat (encoded : string) : option (list byte) :=
  match b64_decode std_alphabet encoded with
  | Some data => Some data
  | None => b64_decode url_alphabet encoded
  end.

Definition SyncTimestamp_UnmarshalJSON (j : json) : result proto_error Z :=
  encoded ← map_err TimestampNotString (unmarshal_string j);
  match decodeSyncBase64Compat encoded with
  | None => Err TimestampMalformed
  | Some decoded =>
      if negb (length decoded =? 8)%nat then Err (TimestampLength (Z.of_nat (length decoded)))
      else
        let value := le_get decoded in
        if MaxInt64 <? value then Err (TimestampTooLarge value) else Ok value
  end.

(** ** Optional fields *)
Record OptionalString : Type := mkOptionalString { os_present : bool; os_value : option string }.
Record OptionalValue : Type := mkOptionalValue { ov_present : bool; ov_value : Value }.

Definition optionalStringWire (value : OptionalString) : json :=
  json_nullable json_string (os_value value).

Definition optionalStringFromRaw (raw : gmap string json) (field : string)
    : result proto_error OptionalString :=
  match raw !! field with
  | None => Ok (mkOptionalString false None)
  | Some j =>
      if rawIsNull j then Ok (mkOptionalString true None)
      else s ← map_err (FieldError field) (unmarshal_string j);
           Ok (mkOptionalString true (Some s))
  end.

Definition optionalValueFromRaw (raw : gmap string json) (field : string)
    : result proto_error OptionalValue :=
  match raw !! field with
  | None => Ok (mkOptionalValue false VNull)
  | Some j =>
      if rawIsNull j then Ok (mkOptionalValue true NullValue)
      else v ← map_err (FieldError field) (unmarshal_value j); Ok (mkOptionalValue true v)
  end.

(** The pointer and whether the field was there: [optionalTimestampFromRaw],
    [optionalFloat64FromRaw], [optionalInt64FromRaw] and
    [optionalIdentityVersionFromRaw] differ in the type they unmarshal. *)
Definition optionalFromRaw {A : Type} (u : json -> result proto_error A)
    (raw : gmap string json) (field : string) : result proto_error (option A * bool) :=
  match raw !! field with
  | None => Ok (None, false)
  | Some j => if rawIsNull j then Ok (None, true) else a ← u j; Ok (Some a, true)
  end.
Definition optionalTimestampFromRaw := optionalFromRaw SyncTimestamp_UnmarshalJSON.
Definition optionalFloat64FromRaw (raw : gmap string json) (field : string) :=
  optionalFromRaw (fun j => map_err (FieldError field) (unmarshal_float64 j)) raw field.
Definition optionalInt64FromRaw (raw : gmap string json) (field : string) :=
  optionalFromRaw (fun j => map_err (FieldError field) (unmarshal_int64 j)) raw field.
Definition optionalIdentityVersionFromRaw := optionalFromRaw unmarshal_uint32.

(** ** Identity attributes *)
Record SyncUserIdentityAttributes : Type := mkIdentity {
  TokenIdentifier : string;
  Issuer : string;
  Subject : string;
  Claims : option (gmap string wire)
}.

Definition derived_token (issuer subject : string) : string := issuer +:+ "|" +:+ subject.

Definition Identity_MarshalJSON (i : SyncUserIdentityAttributes) : result proto_error json :=
  claims ← map_err EncodingFailed (map_traverse (fun _ w => marshal w) (default ∅ (Claims i)));
  let out := set_if (bool_decide (Issuer i <> "")) "issuer" (json_string (Issuer i)) claims in
  let out := set_if (bool_decide (Subject i <> "")) "subject" (json_string (Subject i)) out in
  let tokenIdentifier :=
    if bool_decide (TokenIdentifier i = "") && bool_decide (Issuer i <> "")
       && bool_decide (Subject i <> "")
    then derived_token (Issuer i) (Subject i) else TokenIdentifier i in
  Ok (JObj (set_if (bool_decide (tokenIdentifier <> "")) "tokenIdentifier"
              (json_string tokenIdentifier) out)).

Definition decodeRawMap (j : json) : result proto_error (option (gmap string wire)) :=
  match j with
  | JNull => Ok None
  | JObj m => Ok (Some (decode_any <$> m))
  | _ => Err (CannotUnmarshal "map[string]interface {}")
  end.

Definition claimString (claims : option (gmap string wire)) (field : string) : string * bool :=
  match default ∅ claims !! field with
  | Some (WStr s) => (s, true)
  | _ => ("", false)
  end.

Definition Identity_UnmarshalJSON (j : json) : result proto_error SyncUserIdentityAttributes :=
  claims ← decodeRawMap j;
  let token := (claimString claims "tokenIdentifier").1 in
  let issuer := (claimString claims "issuer").1 in
  let subject := (claimString claims "subject").1 in
  if decide (token = "") then
    if bool_decide (issuer <> "") && bool_decide (subject <> "") then
      Ok (mkIdentity (derived_token issuer subject) issuer subject claims)
    else Err IdentityIncomplete
  else Ok (mkIdentity token issuer subject claims).
