(* ===== verification/ClientMessages.v ===== *)
(** * Messages from the client to the server

    The second part of the model of [internal/syncprotocol]: the client
    messages, their encoders and decoders. *)
From S2P Require Import Prelude GoStrings GoFloat GoJson Values Protocol.
Local Open Scope Z_scope.

Record ConnectMessage : Type := mkConnect {
  cn_SessionID : string;
  cn_ConnectionCount : Z;
  cn_LastCloseReason : string;
  cn_MaxObservedTimestamp : option Z;
  cn_ClientTS : option Z;
  cn_lastCloseReasonPresent : bool;
  cn_lastCloseReasonNull : bool
}.

Record QuerySetAdd : Type := mkAdd {
  qa_QueryID : Z;
  qa_UDFPath : string;
  qa_Args : option (list Value);
  qa_Journal : OptionalString;
  qa_ComponentPath : string
}.

Inductive QuerySetModification : Type :=
  | ModAdd (a : QuerySetAdd)
  | ModRemove (queryID : Z).

Record ModifyQuerySetMessage : Type := mkModify {
  mq_BaseVersion : Z;
  mq_NewVersion : Z;
  mq_Modifications : option (list QuerySetModification)
}.

(** [MutationMessage] and [ActionMessage] have the same fields. *)
Record RequestMessage : Type := mkRequest {
  rq_RequestID : Z;
  rq_UDFPath : string;
  rq_Args : option (list Value);
  rq_ComponentPath : string
}.

Record AuthenticateMessage : Type := mkAuthenticate {
  au_BaseVersion : Z;
  au_TokenType : string;
  au_Value : string;
  au_ActingAs : option SyncUserIdentityAttributes
}.

(** A nil [RawMessage] is [None]. *)
Record EventMessage : Type := mkEvent { ev_EventType : string; ev_Event : option json }.

Inductive ClientMessage : Type :=
  | CConnect (m : ConnectMessage)
  | CModifyQuerySet (m : ModifyQuerySetMessage)
  | CMutation (m : RequestMessage)
  | CAction (m : RequestMessage)
  | CAuthenticate (m : AuthenticateMessage)
  | CEvent (m : EventMessage).

Definition AuthTokenNone : string := "None".
Definition AuthTokenUser : string := "User".
Definition AuthTokenAdmin : string := "Admin".

(** ** Connect *)
Definition Connect_MarshalJSON (m : ConnectMessage) : result proto_error json :=
  ts ← marshal_pointer SyncTimestamp_MarshalJSON (cn_MaxObservedTimestamp m);
  let out := object [("type", JStr "Connect"); ("sessionId", json_string (cn_SessionID m));
                     ("connectionCount", json_int (cn_ConnectionCount m))] in
  let out := set_if (bool_decide (cn_LastCloseReason m <> "")) "lastCloseReason"
               (json_string (cn_LastCloseReason m)) out in
  let out := set_if (cn_lastCloseReasonPresent m && cn_lastCloseReasonNull m)
               "lastCloseReason" JNull out in
  let out := set_if (bool_decide (is_Some (cn_MaxObservedTimestamp m)))
               "maxObservedTimestamp" ts out in
  let out := set_if (bool_decide (is_Some (cn_ClientTS m))) "clientTs"
               (json_nullable json_int (cn_ClientTS m)) out in
  Ok (JObj out).

Definition Connect_UnmarshalJSON (j : json) : result proto_error ConnectMessage :=
  raw ← rawObject j;
  sessionID ← unmarshalExactField raw "sessionId" unmarshal_string "";
  connectionCount ← unmarshalExactField raw "connectionCount" unmarshal_uint32 0;
  maxObservedTimestamp ← unmarshalExactField raw "maxObservedTimestamp"
                           (unmarshal_pointer SyncTimestamp_UnmarshalJSON) None;
  clientTS ← unmarshalExactField raw "clientTs" (unmarshal_pointer unmarshal_int64) None;
  '(reason, present, isnull) ←
    match raw !! "lastCloseReason" with
    | None => Ok ("", false, false)
    | Some r =>
        if rawIsNull r then Ok ("", true, true)
        else s ← map_err BadLastCloseReason (unmarshal_string r); Ok (s, true, false)
    end;
  let reason := if decide (reason = "") then "unknown" else reason in
  Ok (mkConnect sessionID connectionCount reason maxObservedTimestamp clientTS present isnull).

(** ** Query set edits *)
Definition Add_MarshalJSON (m : QuerySetAdd) : result proto_error json :=
  args ← marshal_slice marshal_value (qa_Args m);
  let out := object [("type", JStr "Add"); ("queryId", json_int (qa_QueryID m));
                     ("udfPath", json_string (qa_UDFPath m)); ("args", args)] in
  let out := set_if (os_present (qa_Journal m)) "journal"
               (optionalStringWire (qa_Journal m)) out in
  let out := set_if (bool_decide (qa_ComponentPath m <> "")) "componentPath"
               (json_string (qa_ComponentPath m)) out in
  Ok (JObj out).

Definition Add_UnmarshalJSON (j : json) : result proto_error QuerySetAdd :=
  raw ← rawObject j;
  queryID ← unmarshalExactField raw "queryId" unmarshal_uint32 0;
  udfPath ← unmarshalExactField raw "udfPath" unmarshal_string "";
  args ← unmarshalExactField raw "args" (unmarshal_slice unmarshal_value) None;
  componentPath ← unmarshalExactField raw "componentPath" unmarshal_string "";
  journal ← optionalStringFromRaw raw "journal";
  Ok (mkAdd queryID udfPath args journal componentPath).

Definition Remove_MarshalJSON (queryID : Z) : result proto_error json :=
  Ok (JObj (object [("type", JStr "Remove"); ("queryId", json_int queryID)])).
Definition Remove_UnmarshalJSON (j : json) : result proto_error Z :=
  raw ← rawObject j; unmarshalExactField raw "queryId" unmarshal_uint32 0.

Definition QuerySetModification_MarshalJSON (m : QuerySetModification)
    : result proto_error json :=
  match m with ModAdd a => Add_MarshalJSON a | ModRemove q => Remove_MarshalJSON q end.

Definition decodeQuerySetModification (j : json) : result proto_error QuerySetModification :=
  modType ← discriminator j;
  if decide (modType = "Add") then m ← Add_UnmarshalJSON j; Ok (ModAdd m)
  else if decide (modType = "Remove") then m ← Remove_UnmarshalJSON j; Ok (ModRemove m)
  else Err (UnknownQuerySetModification modType).

(** The loop over the raw modifications, which names the one that failed. *)
Fixpoint decode_indexed {A : Type} (decode : json -> result proto_error A) (i : nat)
    (l : list json) : result proto_error (list A) :=
  match l with
  | [] => Ok []
  | j :: rest =>
      m ← map_err (ModificationError i) (decode j);
      ms ← decode_indexed decode (S i) rest; Ok (m :: ms)
  end.

Definition ModifyQuerySet_MarshalJSON (m : ModifyQuerySetMessage) : result proto_error json :=
  mods ← marshal_slice QuerySetModification_MarshalJSON (mq_Modifications m);
  Ok (JObj (object [("type", JStr "ModifyQuerySet"); ("baseVersion", json_int (mq_BaseVersion m));
                    ("newVersion", json_int (mq_NewVersion m)); ("modifications", mods)])).

Definition ModifyQuerySet_UnmarshalJSON (j : json) : result proto_error ModifyQuerySetMessage :=
  raw ← rawObject j;
  match raw !! "modifications" with
  | None | Some JNull => Err MissingModifications
  | Some modificationsRaw =>
      baseVersion ← unmarshalExactField raw "baseVersion" unmarshal_uint32 0;
      newVersion ← unmarshalExactField raw "newVersion" unmarshal_uint32 0;
      modifications ← unmarshal_slice unmarshal_raw modificationsRaw;
      mods ← decode_indexed decodeQuerySetModification 0 (default [] modifications);
      Ok (mkModify baseVersion newVersion (Some mods))
  end.

(** ** Mutations and actions *)
Definition Request_MarshalJSON (type : string) (m : RequestMessage) : result proto_error json :=
  args ← marshal_slice marshal_value (rq_Args m);
  let out := object [("type", JStr type); ("requestId", json_int (rq_RequestID m));
                     ("udfPath", json_string (rq_UDFPath m)); ("args", args)] in
  Ok (JObj (set_if (bool_decide (rq_ComponentPath m <> "")) "componentPath"
              (json_string (rq_ComponentPath m)) out)).
Definition Mutation_MarshalJSON := Request_MarshalJSON "Mutation".
Definition Action_MarshalJSON := Request_MarshalJSON "Action".

Definition Request_UnmarshalJSON (j : json) : result proto_error RequestMessage :=
  raw ← rawObject j;
  requestID ← unmarshalExactField raw "requestId" unmarshal_uint32 0;
  udfPath ← unmarshalExactField raw "udfPath" unmarshal_string "";
  args ← unmarshalExactField raw "args" (unmarshal_slice unmarshal_value) None;
  componentPath ← unmarshalExactField raw "componentPath" unmarshal_string "";
  Ok (mkRequest requestID udfPath args componentPath).

Definition Mutation_UnmarshalJSON := Request_UnmarshalJSON.
Definition Action_UnmarshalJSON := Request_UnmarshalJSON.

(** ** Authentication and events *)
Definition Authenticate_MarshalJSON (m : AuthenticateMessage) : result proto_error json :=
  actingAs ← marshal_pointer Identity_MarshalJSON (au_ActingAs m);
  let out := object [("type", JStr "Authenticate"); ("baseVersion", json_int (au_BaseVersion m));
                     ("tokenType", json_string (au_TokenType m))] in
  let out := set_if (bool_decide (au_Value m <> "")) "value" (json_string (au_Value m)) out in
  Ok (JObj (set_if (bool_decide (is_Some (au_ActingAs m))) "impersonating" actingAs out)).

Definition Authenticate_UnmarshalJSON (j : json) : result proto_error AuthenticateMessage :=
  raw ← rawObject j;
  baseVersion ← unmarshalExactField raw "baseVersion" unmarshal_uint32 0;
  tokenType ← unmarshalExactField raw "tokenType" unmarshal_string "";
  value ← unmarshalExactField raw "value" unmarshal_string "";
  let identityRaw :=
    match raw !! "actingAs" with Some r => Some r | None => raw !! "impersonating" end in
  actingAs ←
    match identityRaw with
    | None | Some JNull => Ok None
    | Some r => i ← map_err InvalidIdentity (Identity_UnmarshalJSON r); Ok (Some i)
    end;
  Ok (mkAuthenticate baseVersion tokenType value actingAs).

Definition Event_MarshalJSON (m : EventMessage) : result proto_error json :=
  Ok (JObj (object [("type", JStr "Event"); ("eventType", json_string (ev_EventType m));
                    ("event", default JNull (ev_Event m))])).
Definition Event_UnmarshalJSON (j : json) : result proto_error EventMessage :=
  raw ← rawObject j;
  eventType ← unmarshalExactField raw "eventType" unmarshal_string "";
  Ok (mkEvent eventType (raw !! "event")).

(** ** The entry points; a nil message is [None] *)
Definition ClientMessage_MarshalJSON (m : ClientMessage) : result proto_error json :=
  match m with
  | CConnect m => Connect_MarshalJSON m
  | CModifyQuerySet m => ModifyQuerySet_MarshalJSON m
  | CMutation m => Mutation_MarshalJSON m
  | CAction m => Action_MarshalJSON m
  | CAuthenticate m => Authenticate_MarshalJSON m
  | CEvent m => Event_MarshalJSON m
  end.

Definition EncodeClientMessage (msg : option ClientMessage) : result proto_error json :=
  match msg with None => Err NilMessage | Some m => ClientMessage_MarshalJSON m end.

Definition DecodeClientMessage (j : json) : result proto_error ClientMessage :=
  messageType ← discriminator j;
  if decide (messageType = "Connect") then m ← Connect_UnmarshalJSON j; Ok (CConnect m)
  else if decide (messageType = "ModifyQuerySet") then
    m ← ModifyQuerySet_UnmarshalJSON j; Ok (CModifyQuerySet m)
  else if decide (messageType = "Mutation") then m ← Mutation_UnmarshalJSON j; Ok (CMutation m)
  else if decide (messageType = "Action") then m ← Action_UnmarshalJSON j; Ok (CAction m)
  else if decide (messageType = "Authenticate") then
    m ← Authenticate_UnmarshalJSON j; Ok (CAuthenticate m)
  else if decide (messageType = "Event") then m ← Event_UnmarshalJSON j; Ok (CEvent m)
  else Err (UnknownClientMessage messageType).
