(* ===== verification/ServerMessages.v ===== *)
(** * Messages from the server to the client

    The third part of the model of [internal/syncprotocol]: the server
    messages, their encoders and decoders. *)
From S2P Require Import Prelude GoStrings GoFloat GoJson Values Protocol ClientMessages.
Local Open Scope Z_scope.

Record StateVersion : Type := mkStateVersion { sv_QuerySet : Z; sv_Identity : Z; sv_TS : Z }.

Record QueryUpdated : Type := mkQueryUpdated {
  qu_QueryID : Z;
  qu_Value : Value;
  qu_LogLines : option (list string);
  qu_Journal : OptionalString
}.

Record QueryFailed : Type := mkQueryFailed {
  qf_QueryID : Z;
  qf_ErrorMessage : string;
  qf_LogLines : option (list string);
  qf_Journal : OptionalString;
  qf_ErrorData : OptionalValue
}.

Inductive StateModification : Type :=
  | SMUpdated (m : QueryUpdated)
  | SMFailed (m : QueryFailed)
  | SMRemoved (queryID : Z).

Record TransitionMessage : Type := mkTransition {
  tr_StartVersion : StateVersion;
  tr_EndVersion : StateVersion;
  tr_Modifications : option (list StateModification);
  tr_ClientClockSkew : option Z;
  tr_ServerTS : option Z;
  tr_clientClockSkewPresent : bool;
  tr_serverTSPresent : bool
}.

Record TransitionChunkMessage : Type := mkChunk {
  tc_Chunk : string;
  tc_PartNumber : Z;
  tc_TotalParts : Z;
  tc_TransitionID : string
}.

Record MutationResponseMessage : Type := mkMutationResponse {
  mr_RequestID : Z;
  mr_Success : bool;
  mr_Value : Value;
  mr_ErrorMessage : string;
  mr_TS : option Z;
  mr_LogLines : option (list string);
  mr_ErrorData : OptionalValue;
  mr_tsPresent : bool
}.

Record ActionResponseMessage : Type := mkActionResponse {
  ar_RequestID : Z;
  ar_Success : bool;
  ar_Value : Value;
  ar_ErrorMessage : string;
  ar_LogLines : option (list string);
  ar_ErrorData : OptionalValue
}.

Record AuthErrorMessage : Type := mkAuthError {
  ae_Error : string;
  ae_BaseVersion : option Z;
  ae_AuthUpdateAttempted : option bool;
  ae_baseVersionPresent : bool
}.

Inductive ServerMessage : Type :=
  | STransition (m : TransitionMessage)
  | STransitionChunk (m : TransitionChunkMessage)
  | SMutationResponse (m : MutationResponseMessage)
  | SActionResponse (m : ActionResponseMessage)
  | SAuthError (m : AuthErrorMessage)
  | SFatalError (error : string)
  | SPing.

(** ** Transitions *)
Definition StateVersion_MarshalJSON (v : StateVersion) : result proto_error json :=
  ts ← SyncTimestamp_MarshalJSON (sv_TS v);
  Ok (JObj (object [("querySet", json_int (sv_QuerySet v));
                    ("identity", json_int (sv_Identity v)); ("ts", ts)])).
Definition StateVersion_UnmarshalJSON (j : json) : result proto_error StateVersion :=
  raw ← rawObject j;
  querySet ← unmarshalExactField raw "querySet" unmarshal_uint32 0;
  identity ← unmarshalExactField raw "identity" unmarshal_uint32 0;
  ts ← unmarshalExactField raw "ts" SyncTimestamp_UnmarshalJSON 0;
  Ok (mkStateVersion querySet identity ts).

Definition QueryUpdated_MarshalJSON (m : QueryUpdated) : result proto_error json :=
  value ← marshal_value (qu_Value m);
  Ok (JObj (object [("type", JStr "QueryUpdated"); ("queryId", json_int (qu_QueryID m));
                    ("value", value); ("logLines", json_strings (qu_LogLines m));
                    ("journal", optionalStringWire (qu_Journal m))])).
Definition QueryUpdated_UnmarshalJSON (j : json) : result proto_error QueryUpdated :=
  raw ← rawObject j;
  queryID ← unmarshalExactField raw "queryId" unmarshal_uint32 0;
  value ← unmarshalExactField raw "value" unmarshal_value VNull;
  logLines ← unmarshalExactField raw "logLines" (unmarshal_slice unmarshal_string) None;
  journal ← optionalStringFromRaw raw "journal";
  _ ← ensure (os_present journal) MissingJournal;
  Ok (mkQueryUpdated queryID value logLines journal).

Definition QueryFailed_MarshalJSON (m : QueryFailed) : result proto_error json :=
  errorData ← (if ov_present (qf_ErrorData m) then marshal_value (ov_value (qf_ErrorData m))
               else Ok JNull);
  let out := object [("type", JStr "QueryFailed"); ("queryId", json_int (qf_QueryID m));
                     ("errorMessage", json_string (qf_ErrorMessage m));
                     ("logLines", json_strings (qf_LogLines m));
                     ("journal", optionalStringWire (qf_Journal m))] in
  Ok (JObj (set_if (ov_present (qf_ErrorData m)) "errorData" errorData out)).
Definition QueryFailed_UnmarshalJSON (j : json) : result proto_error QueryFailed :=
  raw ← rawObject j;
  queryID ← unmarshalExactField raw "queryId" unmarshal_uint32 0;
  errorMessage ← unmarshalExactField raw "errorMessage" unmarshal_string "";
  logLines ← unmarshalExactField raw "logLines" (unmarshal_slice unmarshal_string) None;
  journal ← optionalStringFromRaw raw "journal";
  _ ← ensure (os_present journal) MissingJournal;
  errorData ← optionalValueFromRaw raw "errorData";
  Ok (mkQueryFailed queryID errorMessage logLines journal errorData).

Definition QueryRemoved_MarshalJSON (queryID : Z) : result proto_error json :=
  Ok (JObj (object [("type", JStr "QueryRemoved"); ("queryId", json_int queryID)])).
Definition QueryRemoved_UnmarshalJSON (j : json) : result proto_error Z :=
  raw ← rawObject j; unmarshalExactField raw "queryId" unmarshal_uint32 0.

Definition StateModification_MarshalJSON (m : StateModification) : result proto_error json :=
  match m with
  | SMUpdated m => QueryUpdated_MarshalJSON m
  | SMFailed m => QueryFailed_MarshalJSON m
  | SMRemoved q => QueryRemoved_MarshalJSON q
  end.

Definition decodeStateModification (j : json) : result proto_error StateModification :=
  modType ← discriminator j;
  if decide (modType = "QueryUpdated") then m ← QueryUpdated_UnmarshalJSON j; Ok (SMUpdated m)
  else if decide (modType = "QueryFailed") then m ← QueryFailed_UnmarshalJSON j; Ok (SMFailed m)
  else if decide (modType = "QueryRemoved") then m ← QueryRemoved_UnmarshalJSON j; Ok (SMRemoved m)
  else Err (UnknownStateModification modType).

Definition Transition_MarshalJSON (m : TransitionMessage) : result proto_error json :=
  startVersion ← StateVersion_MarshalJSON (tr_StartVersion m);
  endVersion ← StateVersion_MarshalJSON (tr_EndVersion m);
  mods ← marshal_slice StateModification_MarshalJSON (tr_Modifications m);
  skew ← (if tr_clientClockSkewPresent m then marshal_pointer marshal_float (tr_ClientClockSkew m)
          else Ok JNull);
  let out := object [("type", JStr "Transition"); ("startVersion", startVersion);
                     ("endVersion", endVersion); ("modifications", mods)] in
  let out := set_if (tr_clientClockSkewPresent m) "clientClockSkew" skew out in
  Ok (JObj (set_if (tr_serverTSPresent m) "serverTs"
              (json_nullable json_int (tr_ServerTS m)) out)).

Definition zero_version : StateVersion := mkStateVersion 0 0 0.

Definition Transition_UnmarshalJSON (j : json) : result proto_error TransitionMessage :=
  raw ← rawObject j;
  startVersion ← unmarshalExactField raw "startVersion" StateVersion_UnmarshalJSON zero_version;
  endVersion ← unmarshalExactField raw "endVersion" StateVersion_UnmarshalJSON zero_version;
  modificationRaw ← unmarshalExactField raw "modifications" (unmarshal_slice unmarshal_raw) None;
  mods ← decode_indexed decodeStateModification 0 (default [] modificationRaw);
  '(clientClockSkew, skewPresent) ← optionalFloat64FromRaw raw "clientClockSkew";
  '(serverTS, serverTSPresent) ← optionalInt64FromRaw raw "serverTs";
  Ok (mkTransition startVersion endVersion (Some mods) clientClockSkew serverTS
        skewPresent serverTSPresent).

(** ** Responses *)

(** The members both responses share: success decides what [result] holds. *)
Definition response_members (type : string) (requestID : Z) (success : bool) (v : Value)
    (message : string) (logLines : option (list string)) (errorData : OptionalValue)
    : result proto_error (gmap string json) :=
  let out := object [("type", JStr type); ("requestId", json_int requestID);
                     ("success", JBool success); ("logLines", json_strings logLines)] in
  if success then value ← marshal_value v; Ok (<["result" := value]> out)
  else
    data ← (if ov_present errorData then marshal_value (ov_value errorData) else Ok JNull);
    Ok (set_if (ov_present errorData) "errorData" data
          (<["result" := json_string message]> out)).

(** [json.Unmarshal] of the [result] member; no member is no bytes. *)
Definition unmarshal_result {A : Type} (u : json -> result proto_error A) (result : option json) :=
  match result with None => Err UnexpectedEnd | Some j => u j end.

Definition MutationResponse_MarshalJSON (m : MutationResponseMessage) : result proto_error json :=
  out ← response_members "MutationResponse" (mr_RequestID m) (mr_Success m) (mr_Value m)
          (mr_ErrorMessage m) (mr_LogLines m) (mr_ErrorData m);
  ts ← marshal_pointer SyncTimestamp_MarshalJSON (mr_TS m);
  Ok (JObj (set_if (mr_tsPresent m || bool_decide (is_Some (mr_TS m))) "ts" ts out)).

Definition MutationResponse_UnmarshalJSON (j : json)
    : result proto_error MutationResponseMessage :=
  raw ← rawObject j;
  requestID ← unmarshalExactField raw "requestId" unmarshal_uint32 0;
  success ← unmarshalExactField raw "success" unmarshal_bool false;
  logLines ← unmarshalExactField raw "logLines" (unmarshal_slice unmarshal_string) None;
  '(ts, tsPresent) ← optionalTimestampFromRaw raw "ts";
  errorData ← optionalValueFromRaw raw "errorData";
  if (success : bool) then
    v ← unmarshal_result unmarshal_value (raw !! "result");
    Ok (mkMutationResponse requestID success v "" ts logLines errorData tsPresent)
  else
    e ← unmarshal_result unmarshal_string (raw !! "result");
    Ok (mkMutationResponse requestID success VNull e ts logLines errorData tsPresent).

Definition ActionResponse_MarshalJSON (m : ActionResponseMessage) : result proto_error json :=
  out ← response_members "ActionResponse" (ar_RequestID m) (ar_Success m) (ar_Value m)
          (ar_ErrorMessage m) (ar_LogLines m) (ar_ErrorData m);
  Ok (JObj out).

Definition ActionResponse_UnmarshalJSON (j : json) : result proto_error ActionResponseMessage :=
  raw ← rawObject j;
  requestID ← unmarshalExactField raw "requestId" unmarshal_uint32 0;
  success ← unmarshalExactField raw "success" unmarshal_bool false;
  logLines ← unmarshalExactField raw "logLines" (unmarshal_slice unmarshal_string) None;
  errorData ← optionalValueFromRaw raw "errorData";
  if (success : bool) then
    v ← unmarshal_result unmarshal_value (raw !! "result");
    Ok (mkActionResponse requestID success v "" logLines errorData)
  else
    e ← unmarshal_result unmarshal_string (raw !! "result");
    Ok (mkActionResponse requestID success VNull e logLines errorData).

(** ** The other messages *)
Definition AuthError_MarshalJSON (m : AuthErrorMessage) : result proto_error json :=
  let out := object [("type", JStr "AuthError"); ("error", json_string (ae_Error m))] in
  let out := set_if (ae_baseVersionPresent m || bool_decide (is_Some (ae_BaseVersion m)))
               "baseVersion" (json_nullable json_int (ae_BaseVersion m)) out in
  Ok (JObj (set_if (bool_decide (is_Some (ae_AuthUpdateAttempted m))) "authUpdateAttempted"
              (json_nullable JBool (ae_AuthUpdateAttempted m)) out)).
Definition AuthError_UnmarshalJSON (j : json) : result proto_error AuthErrorMessage :=
  raw ← rawObject j;
  message ← unmarshalExactField raw "error" unmarshal_string "";
  authUpdateAttempted ← unmarshalExactField raw "authUpdateAttempted"
                          (unmarshal_pointer unmarshal_bool) None;
  '(baseVersion, present) ← optionalIdentityVersionFromRaw raw "baseVersion";
  Ok (mkAuthError message baseVersion authUpdateAttempted present).

Definition FatalError_MarshalJSON (error : string) : result proto_error json :=
  Ok (JObj (object [("type", JStr "FatalError"); ("error", json_string error)])).
Definition FatalError_UnmarshalJSON (j : json) : result proto_error string :=
  raw ← rawObject j; unmarshalExactField raw "error" unmarshal_string "".

Definition Ping_MarshalJSON : result proto_error json := Ok (JObj (object [("type", JStr "Ping")])).

Definition TransitionChunk_MarshalJSON (m : TransitionChunkMessage) : result proto_error json :=
  Ok (JObj (object [("type", JStr "TransitionChunk"); ("chunk", json_string (tc_Chunk m));
                    ("partNumber", json_int (tc_PartNumber m));
                    ("totalParts", json_int (tc_TotalParts m));
                    ("transitionId", json_string (tc_TransitionID m))])).
Definition TransitionChunk_UnmarshalJSON (j : json) : result proto_error TransitionChunkMessage :=
  raw ← rawObject j;
  chunk ← unmarshalExactField raw "chunk" unmarshal_string "";
  partNumber ← unmarshalExactField raw "partNumber" unmarshal_uint32 0;
  totalParts ← unmarshalExactField raw "totalParts" unmarshal_uint32 0;
  transitionID ← unmarshalExactField raw "transitionId" unmarshal_string "";
  Ok (mkChunk chunk partNumber totalParts transitionID).

(** ** The entry points *)
Definition ServerMessage_MarshalJSON (m : ServerMessage) : result proto_error json :=
  match m with
  | STransition m => Transition_MarshalJSON m
  | STransitionChunk m => TransitionChunk_MarshalJSON m
  | SMutationResponse m => MutationResponse_MarshalJSON m
  | SActionResponse m => ActionResponse_MarshalJSON m
  | SAuthError m => AuthError_MarshalJSON m
  | SFatalError e => FatalError_MarshalJSON e
  | SPing => Ping_MarshalJSON
  end.

Definition EncodeServerMessage (msg : option ServerMessage) : result proto_error json :=
  match msg with None => Err NilMessage | Some m => ServerMessage_MarshalJSON m end.

Definition DecodeServerMessage (j : json) : result proto_error ServerMessage :=
  messageType ← discriminator j;
  if decide (messageType = "Transition") then m ← Transition_UnmarshalJSON j; Ok (STransition m)
  else if decide (messageType = "TransitionChunk") then
    m ← TransitionChunk_UnmarshalJSON j; Ok (STransitionChunk m)
  else if decide (messageType = "MutationResponse") then
    m ← MutationResponse_UnmarshalJSON j; Ok (SMutationResponse m)
  else if decide (messageType = "ActionResponse") then
    m ← ActionResponse_UnmarshalJSON j; Ok (SActionResponse m)
  else if decide (messageType = "AuthError") then m ← AuthError_UnmarshalJSON j; Ok (SAuthError m)
  else if decide (messageType = "FatalError") then m ← FatalError_UnmarshalJSON j; Ok (SFatalError m)
  else if decide (messageType = "Ping") then Ok SPing
  else Err (UnknownServerMessage messageType).
