(* ===== verification/ProtocolFacts.v ===== *)
(** * Encoding and decoding the members of a message

    What both message files of the protocol rest on: each kind of member is read
    back as it was written, the lookups in an encoded message, and the
    timestamp and identity codecs. *)
From S2P Require Import Prelude GoStrings GoBytes GoFloat GoJson Values ValueFacts ValueCodec Protocol.
From Stdlib Require Import Strings.Byte.
Local Open Scope Z_scope.

(** ** Lookups in an encoded message *)

Lemma object_eq k j l : object ((k, j) :: l) !! k = Some j.
Proof. apply lookup_insert_eq. Qed.
Lemma object_ne k k' j l : k <> k' -> object ((k, j) :: l) !! k' = object l !! k'.
Proof. apply lookup_insert_ne. Qed.
Lemma object_nil k : object [] !! k = None.
Proof. done. Qed.
Lemma set_if_eq b k j out : set_if b k j out !! k = if b then Some j else out !! k.
Proof. destruct b; [apply lookup_insert_eq|done]. Qed.
Lemma set_if_ne b k k' j out : k <> k' -> set_if b k j out !! k' = out !! k'.
Proof. destruct b; [apply lookup_insert_ne|done]. Qed.
Lemma insert_eq k (j : json) (out : gmap string json) : <[k := j]> out !! k = Some j.
Proof. apply lookup_insert_eq. Qed.
Lemma insert_ne k k' (j : json) (out : gmap string json) :
  k <> k' -> <[k := j]> out !! k' = out !! k'.
Proof. apply lookup_insert_ne. Qed.

(** Evaluate the lookups of constant keys in the goal. *)
Ltac look :=
  repeat first
    [ rewrite object_eq | rewrite object_ne by done | rewrite object_nil
    | rewrite set_if_eq | rewrite set_if_ne by done
    | rewrite insert_eq | rewrite insert_ne by done ].

Lemma field_present {A : Type} raw k (u : json -> result proto_error A) zero j a :
  raw !! k = Some j -> u j = Ok a -> unmarshalExactField raw k u zero = Ok a.
Proof. unfold unmarshalExactField. by intros -> ->. Qed.
Lemma field_absent {A : Type} raw k (u : json -> result proto_error A) zero :
  raw !! k = None -> unmarshalExactField raw k u zero = Ok zero.
Proof. unfold unmarshalExactField. by intros ->. Qed.

(** ** Members *)

Lemma read_string s : utf8_ok s = true -> unmarshal_string (json_string s) = Ok s.
Proof. intros Hs%utf8_ok_coerce. cbn. by rewrite Hs. Qed.
Lemma read_uint32 n : in_u32 n = true -> unmarshal_uint32 (json_int n) = Ok n.
Proof.
  intros Hn%in_u32_spec. unfold unmarshal_uint32, json_int.
  by rewrite parse_uint_int.
Qed.
Lemma read_int64 n : in_i64 n = true -> unmarshal_int64 (json_int n) = Ok n.
Proof. intros Hn. unfold unmarshal_int64, json_int. by rewrite parse_int64_int. Qed.
Lemma read_bool b : unmarshal_bool (JBool b) = Ok b.
Proof. done. Qed.

Definition value_ok (v : Value) : bool := wf_value v && utf8_value v.
Definition strings_ok (l : option (list string)) : bool := forallb utf8_ok (default [] l).
Definition values_ok (l : option (list Value)) : bool := forallb value_ok (default [] l).

Lemma marshal_value_ok v : value_ok v = true ->
  exists j, marshal_value v = Ok j /\ unmarshal_value j = Ok v.
Proof.
  unfold value_ok. intros [Hv Hu]%andb_true_iff.
  destruct (value_round_json v Hv Hu) as (w & j & Hw & Hj & Hd). exists j.
  unfold marshal_value, unmarshal_value, MarshalValue, ParseValueJSON.
  rewrite Hw. cbn. by rewrite Hj, Hd.
Qed.

(** A document is null only for the value null. *)
Lemma rawIsNull_spec j : rawIsNull j = true <-> j = JNull.
Proof. by destruct j. Qed.

Lemma marshal_slice_ok {A : Type} (f : A -> result proto_error json) u (l : option (list A)) :
  (forall a, a ∈ default [] l -> exists j, f a = Ok j /\ u j = Ok a) ->
  exists j, marshal_slice f l = Ok j /\ unmarshal_slice u j = Ok l.
Proof.
  destruct l as [l|]; [|by exists JNull]. cbn. intros H.
  assert (exists lj, mapM f l = Ok lj /\ mapM u lj = Ok l) as (lj & Hf & Hu).
  { induction l as [|a l IH]; [by exists []|].
    destruct (H a) as (j & Hj & Ha); [by left|].
    destruct IH as (lj & Hl & Hu); [intros b Hb; apply H; by right|].
    exists (j :: lj). cbn. rewrite Hj, Ha. cbn. setoid_rewrite Hl. by setoid_rewrite Hu. }
  exists (JArr lj). setoid_rewrite Hf. split; [done|]. cbn. by setoid_rewrite Hu.
Qed.

Lemma forallb_elem {A : Type} (f : A -> bool) l x : forallb f l = true -> x ∈ l -> f x = true.
Proof. rewrite forallb_forall. intros H Hx. by apply H, list_elem_of_In. Qed.

Lemma marshal_values_ok l : values_ok l = true ->
  exists j, marshal_slice marshal_value l = Ok j /\ unmarshal_slice unmarshal_value j = Ok l.
Proof.
  intros Hl. apply marshal_slice_ok. intros v Hv. apply marshal_value_ok.
  by eapply forallb_elem.
Qed.

Lemma read_strings l : strings_ok l = true ->
  unmarshal_slice unmarshal_string (json_strings l) = Ok l.
Proof.
  intros Hl. destruct (marshal_slice_ok (fun s => Ok (json_string s)) unmarshal_string l)
    as (j & Hj & Hu).
  { intros s Hs. exists (json_string s). split; [done|]. apply read_string. by eapply forallb_elem. }
  replace (json_strings l) with j; [done|]. destruct l as [l|]; cbn in Hj; [|by injection Hj].
  apply bind_Ok in Hj as (lj & Hm & [= <-]). apply mapM_Ok in Hm. cbn. f_equal.
  clear Hu Hl. induction Hm as [|s x l lj [= <-] Hm IH]; [done|]. cbn. by f_equal.
Qed.

(** ** Timestamps *)

Definition timestamp_ok (t : Z) : bool := (0 <=? t) && (t <=? MaxInt64).

Lemma timestamp_round t : timestamp_ok t = true ->
  exists j, SyncTimestamp_MarshalJSON t = Ok j /\ rawIsNull j = false /\
            SyncTimestamp_UnmarshalJSON j = Ok t.
Proof.
  unfold timestamp_ok, SyncTimestamp_MarshalJSON. intros Ht.
  rewrite andb_true_iff, !Z.leb_le in Ht. unfold MaxInt64 in *.
  assert (Hlt : (2 ^ 63 - 1 <? t) = false) by (apply Z.ltb_ge; lia). rewrite Hlt.
  eexists. split; [done|]. split; [done|].
  unfold SyncTimestamp_UnmarshalJSON. rewrite read_string; last first.
  { apply utf8_ok_coerce, coerce_std. }
  cbn [map_err mbind result_bind]. unfold decodeSyncBase64Compat.
  rewrite std_round, le_put_length. cbn [negb Nat.eqb]. rewrite le_get_put.
  change (256 ^ Z.of_nat 8) with (2 ^ 64). rewrite Z.mod_small by lia.
  unfold MaxInt64. by rewrite Hlt.
Qed.

Lemma timestamp_decoded_ok j t : SyncTimestamp_UnmarshalJSON j = Ok t -> timestamp_ok t = true.
Proof.
  unfold SyncTimestamp_UnmarshalJSON. rewrite bind_Ok. intros (s & _ & H).
  destruct (decodeSyncBase64Compat s) as [data|]; [|done]. case_match; [done|].
  case_match eqn:Hle; [done|]. injection H as <-.
  apply Z.ltb_ge in Hle. pose proof (le_get_range data). unfold timestamp_ok.
  apply andb_true_iff. rewrite !Z.leb_le. lia.
Qed.

(** C40. A sync timestamp is encoded exactly when it fits a signed 64-bit
    integer, and is then read back; what the decoder accepts always fits. *)
Theorem SyncTimestamp_codec (t : Z) :
  0 <= t < 2 ^ 64 ->
  (is_ok (SyncTimestamp_MarshalJSON t) = true <-> t <= MaxInt64) /\
  (forall j, SyncTimestamp_MarshalJSON t = Ok j -> SyncTimestamp_UnmarshalJSON j = Ok t) /\
  (forall j u, SyncTimestamp_UnmarshalJSON j = Ok u -> 0 <= u <= MaxInt64).
Proof.
  intros Ht. split; [|split].
  - unfold SyncTimestamp_MarshalJSON. destruct (Z.ltb_spec MaxInt64 t); cbn; split; try done; lia.
  - intros j Hj. destruct (timestamp_round t) as (j' & Hj' & _ & Hu).
    + unfold SyncTimestamp_MarshalJSON in Hj. destruct (Z.ltb_spec MaxInt64 t); [done|].
      unfold timestamp_ok. apply andb_true_iff. rewrite !Z.leb_le. lia.
    + congruence.
  - intros j u Hu%timestamp_decoded_ok. unfold timestamp_ok in Hu.
    rewrite andb_true_iff, !Z.leb_le in Hu. done.
Qed.

Lemma SyncTimestamp_codec_witness :
  SyncTimestamp_UnmarshalJSON (JStr "FQAAAAAAAAA=") = Ok 21.
Proof. apply (SyncTimestamp_codec 21); [lia|vm_compute; reflexivity]. Defined.

(** ** Optional members *)

Definition opt_string_ok (o : OptionalString) : bool :=
  if os_present o then match os_value o with Some s => utf8_ok s | None => true end
  else bool_decide (os_value o = None).

Lemma read_opt_string raw k o :
  opt_string_ok o = true ->
  raw !! k = (if os_present o then Some (optionalStringWire o) else None) ->
  optionalStringFromRaw raw k = Ok o.
Proof.
  unfold opt_string_ok, optionalStringFromRaw. intros Ho ->.
  destruct o as [[|] [s|]]; cbn in *; try done.
  apply utf8_ok_coerce in Ho. cbn. by rewrite Ho.
Qed.

Definition is_null (v : Value) : bool := match v with VNull => true | _ => false end.
Definition opt_value_ok (o : OptionalValue) : bool :=
  if ov_present o then value_ok (ov_value o) else is_null (ov_value o).

Lemma is_null_spec v : is_null v = true -> v = VNull.
Proof. by destruct v. Qed.

(** The encoding of an optional value and what is read back from the member. *)
Lemma marshal_opt_value o : opt_value_ok o = true ->
  exists j, (if ov_present o then marshal_value (ov_value o) else Ok JNull) = Ok j /\
    forall raw k, raw !! k = (if ov_present o then Some j else None) ->
      optionalValueFromRaw raw k = Ok o.
Proof.
  unfold opt_value_ok, optionalValueFromRaw. destruct o as [[|] v]; cbn.
  - intros (j & Hj & Hu)%marshal_value_ok. exists j. split; [done|].
    intros raw k ->. destruct (rawIsNull j) eqn:Hn.
    + apply rawIsNull_spec in Hn as ->. cbn in Hu. by injection Hu as <-.
    + by rewrite Hu.
  - intros ->%is_null_spec. exists JNull. split; [done|]. by intros raw k ->.
Qed.

(** A pointer whose member is there when the pointer is not nil, or when the
    message says it was there. *)
Lemma read_optional {A : Type} (u : json -> result proto_error A) raw k (o : option A) b j :
  (b = false -> o = None) ->
  raw !! k = (if b then Some (match o with Some _ => j | None => JNull end) else None) ->
  (forall a, o = Some a -> rawIsNull j = false /\ u j = Ok a) ->
  optionalFromRaw u raw k = Ok (o, b).
Proof.
  unfold optionalFromRaw. intros Hb -> Ho. destruct b; [|by rewrite Hb].
  destruct o as [a|]; [|done]. destruct (Ho a eq_refl) as [-> Hu]. by rewrite Hu.
Qed.

(** ** Identity attributes *)

(** Every string of the document is valid UTF-8, as in any document the reader
    of JSON text returns. *)
Fixpoint utf8_json (j : json) : bool :=
  match j with
  | JStr s => utf8_ok s
  | JArr l => forallb utf8_json l
  | JObj m => map_forallb (fun _ x => utf8_json x) m
  | _ => true
  end.

Lemma marshal_decode_any j : utf8_json j = true -> marshal (decode_any j) = Ok j.
Proof.
  induction j as [|b|n|s|l IH|m IH] using json_ind'; intros Hj; try done.
  - cbn in Hj |- *. apply utf8_ok_coerce in Hj. by rewrite Hj.
  - cbn [decode_any marshal]. cbn in Hj. replace (mapM marshal (map decode_any l)) with
      (Ok l : result json_error (list json)); [done|].
    symmetry. apply mapM_Ok. clear -IH Hj. induction l as [|x l IHl]; [constructor|].
    cbn in Hj. apply andb_true_iff in Hj as [Hx Hl]. constructor.
    + apply IH; [by left|done].
    + apply IHl; [|done]. intros y Hy. apply IH. by right.
  - rewrite decode_any_obj. cbn [marshal]. cbn in Hj. rewrite map_forallb_true in Hj.
    rewrite (proj2 (map_traverse_Ok _ (decode_any <$> m) m)); [done|].
    intros k. rewrite lookup_fmap. destruct (m !! k) as [x|] eqn:Hx; [|done]. cbn.
    exists x. split; [done|]. apply (IH k x Hx). by apply (Hj k x).
Qed.

(** An identity as the decoder returns it: the claims are the document, and the
    three attributes are read from it. *)
Definition identity_ok (i : SyncUserIdentityAttributes) : Prop :=
  exists docs, Claims i = Some (decode_any <$> docs) /\ utf8_json (JObj docs) = true /\
    Issuer i = (claimString (Claims i) "issuer").1 /\
    Subject i = (claimString (Claims i) "subject").1 /\
    TokenIdentifier i = (claimString (Claims i) "tokenIdentifier").1 /\
    TokenIdentifier i <> "".

Lemma claim_doc docs k s :
  utf8_json (JObj docs) = true -> s <> "" ->
  s = (claimString (Some (decode_any <$> docs)) k).1 ->
  <[k := json_string s]> docs = docs.
Proof.
  intros Hu Hs ->. cbn in Hu. rewrite map_forallb_true in Hu. unfold claimString in *.
  cbn [default from_option id] in *. rewrite lookup_fmap in *.
  destruct (docs !! k) as [[| | |s| |]|] eqn:Hd; cbn in *; try done.
  apply insert_id. rewrite Hd. specialize (Hu k _ Hd). cbn in Hu. apply utf8_ok_coerce in Hu.
  unfold json_string. by rewrite Hu.
Qed.

Lemma set_if_claim docs k s :
  utf8_json (JObj docs) = true -> s = (claimString (Some (decode_any <$> docs)) k).1 ->
  set_if (bool_decide (s <> "")) k (json_string s) docs = docs.
Proof.
  intros Hu Hs. unfold set_if. case_bool_decide as He; [|done]. by apply claim_doc.
Qed.

Lemma identity_round i : identity_ok i ->
  exists j, Identity_MarshalJSON i = Ok j /\ rawIsNull j = false /\
            Identity_UnmarshalJSON j = Ok i.
Proof.
  destruct i as [tok iss sub cl]. intros (docs & Hc & Hu & Hi & Hs & Ht & Hne). cbn in *.
  exists (JObj docs). split; [|split; [done|]].
  - unfold Identity_MarshalJSON. cbn [Claims Issuer Subject TokenIdentifier]. rewrite Hc.
    cbn [default from_option id].
    assert (Hm : map_traverse (fun (_ : string) w => marshal w) (decode_any <$> docs) = Ok docs).
    { pose proof (marshal_decode_any (JObj docs) Hu) as Hm. rewrite decode_any_obj in Hm.
      cbn [marshal] in Hm. apply bind_Ok in Hm as (d & Hd & [= <-]). exact Hd. }
    rewrite Hm. cbn [map_err mbind result_bind].
    rewrite (bool_decide_eq_false_2 (tok = "")) by done. cbn [andb].
    rewrite Hc in Hi, Hs, Ht. rewrite (set_if_claim docs "issuer"), (set_if_claim docs "subject"),
      (set_if_claim docs "tokenIdentifier"); done.
  - unfold Identity_UnmarshalJSON. cbn [decodeRawMap mbind result_bind].
    rewrite <- Hc, <- Ht, <- Hi, <- Hs. by rewrite decide_False.
Qed.
