(* ===== verification/MessageCodec.v ===== *)
(** * Round trips of the sync protocol

    Every well-formed message is encoded, and the discriminated decoder of its
    direction reads back the message the peer receives: the same message, with
    the defaults the decoders fill in. *)
From S2P Require Import Prelude GoStrings GoFloat GoJson Values Protocol ClientMessages ServerMessages ProtocolFacts.
Local Open Scope Z_scope.

(** ** Client messages *)

Definition opt_ok {A : Type} (f : A -> bool) (o : option A) : bool := from_option f true o.

Definition connect_ok (m : ConnectMessage) : bool :=
  utf8_ok (cn_SessionID m) && in_u32 (cn_ConnectionCount m) && utf8_ok (cn_LastCloseReason m)
  && opt_ok timestamp_ok (cn_MaxObservedTimestamp m) && opt_ok in_i64 (cn_ClientTS m).
Definition add_ok (m : QuerySetAdd) : bool :=
  in_u32 (qa_QueryID m) && utf8_ok (qa_UDFPath m) && values_ok (qa_Args m)
  && opt_string_ok (qa_Journal m) && utf8_ok (qa_ComponentPath m).
Definition modification_ok (m : QuerySetModification) : bool :=
  match m with ModAdd a => add_ok a | ModRemove q => in_u32 q end.
Definition modify_ok (m : ModifyQuerySetMessage) : bool :=
  in_u32 (mq_BaseVersion m) && in_u32 (mq_NewVersion m)
  && match mq_Modifications m with Some l => forallb modification_ok l | None => false end.
Definition request_ok (m : RequestMessage) : bool :=
  in_u32 (rq_RequestID m) && utf8_ok (rq_UDFPath m) && values_ok (rq_Args m)
  && utf8_ok (rq_ComponentPath m).
Definition authenticate_ok (m : AuthenticateMessage) : Prop :=
  in_u32 (au_BaseVersion m) && utf8_ok (au_TokenType m) && utf8_ok (au_Value m) = true /\
  from_option identity_ok True (au_ActingAs m).

Definition client_message_ok (m : ClientMessage) : Prop :=
  match m with
  | CConnect m => connect_ok m = true
  | CModifyQuerySet m => modify_ok m = true
  | CMutation m | CAction m => request_ok m = true
  | CAuthenticate m => authenticate_ok m
  | CEvent m => utf8_ok (ev_EventType m) = true
  end.

(** The message as the peer's decoder sees it: a missing close reason reads
    ["unknown"], the presence flags record what was on the wire, and a nil event
    payload was written as [null]. *)
Definition received_connect (m : ConnectMessage) : ConnectMessage :=
  let isnull := cn_lastCloseReasonPresent m && cn_lastCloseReasonNull m in
  let given := bool_decide (cn_LastCloseReason m <> "") in
  mkConnect (cn_SessionID m) (cn_ConnectionCount m)
    (if isnull || negb given then "unknown" else cn_LastCloseReason m)
    (cn_MaxObservedTimestamp m) (cn_ClientTS m) (isnull || given) isnull.
Definition received_client (m : ClientMessage) : ClientMessage :=
  match m with
  | CConnect m => CConnect (received_connect m)
  | CEvent m => CEvent (mkEvent (ev_EventType m) (Some (default JNull (ev_Event m))))
  | _ => m
  end.

Ltac split_ok := repeat match goal with
  | H : _ && _ = true |- _ => apply andb_true_iff in H as [? ?] end.

(** Read one member: found and read back, or absent. *)
Ltac read_field raw k u z :=
  let H := fresh in
  eassert (unmarshalExactField raw k u z = Ok _) as H;
  [ first [ eapply field_present;
            [ look; reflexivity
            | first [ by apply read_string | by apply read_uint32 | by apply read_strings
                    | by apply read_bool | eassumption ] ]
          | apply field_absent; by look ]
  | rewrite H; clear H ].
Ltac read :=
  match goal with
  | |- mbind _ (unmarshalExactField ?raw ?k ?u ?z) = _ => read_field raw k u z
  | |- unmarshalExactField ?raw ?k ?u ?z = _ => read_field raw k u z
  end; cbn [mbind result_bind].

Lemma discriminator_message m ty :
  m !! "type" = Some (JStr ty) -> ty <> "" -> discriminator (JObj m) = Ok ty.
Proof.
  intros Hm Hty. unfold discriminator. cbn [rawObject mbind result_bind].
  rewrite (field_present _ _ _ _ _ ty Hm) by done. cbn. by rewrite decide_False.
Qed.

(** A member that is written when it is not empty, and read as a string. *)
Lemma field_string_if raw k s :
  utf8_ok s = true ->
  raw !! k = (if bool_decide (s <> "") then Some (json_string s) else None) ->
  unmarshalExactField raw k unmarshal_string "" = Ok s.
Proof.
  intros Hs Hr. case_bool_decide as Hn.
  - by eapply field_present, read_string.
  - subst s. by apply field_absent.
Qed.

(** A pointer that is written when it is not nil. *)
Lemma field_pointer_if {A : Type} (u : json -> result proto_error A) raw k o j :
  raw !! k = (if bool_decide (is_Some o) then Some j else None) ->
  (forall a : A, o = Some a -> rawIsNull j = false /\ u j = Ok a) ->
  unmarshalExactField raw k (unmarshal_pointer u) None = Ok o.
Proof.
  intros Hr Ho. destruct o as [a|]; [|by apply field_absent].
  rewrite bool_decide_eq_true_2 in Hr by done. destruct (Ho a eq_refl) as [Hn Hu].
  eapply field_present; [done|]. unfold unmarshal_pointer. by destruct j; rewrite ?Hu.
Qed.

Lemma connect_round m : connect_ok m = true ->
  exists j, Connect_MarshalJSON m = Ok (JObj j) /\ j !! "type" = Some (JStr "Connect") /\
            Connect_UnmarshalJSON (JObj j) = Ok (received_connect m).
Proof.
  destruct m as [sid count reason ts cts present isnull]. unfold connect_ok. cbn. intros Hm. split_ok.
  assert (exists jt, marshal_pointer SyncTimestamp_MarshalJSON ts = Ok jt /\
    forall a, ts = Some a -> rawIsNull jt = false /\ SyncTimestamp_UnmarshalJSON jt = Ok a)
    as (jt & Hjt & Hts).
  { destruct ts as [t|]; [|by exists JNull]. destruct (timestamp_round t) as (jt & ? & ? & ?); [done|].
    exists jt. split; [done|]. by intros ? [= <-]. }
  unfold Connect_MarshalJSON, received_connect. cbn [cn_SessionID cn_ConnectionCount
    cn_LastCloseReason cn_MaxObservedTimestamp cn_ClientTS cn_lastCloseReasonPresent
    cn_lastCloseReasonNull]. rewrite Hjt. cbn [mbind result_bind].
  eexists. split; [done|]. split; [by look|].
  unfold Connect_UnmarshalJSON. cbn [rawObject mbind result_bind]. do 2 read.
  rewrite (field_pointer_if SyncTimestamp_UnmarshalJSON _ _ ts jt) by (by look || done).
  cbn [mbind result_bind].
  rewrite (field_pointer_if unmarshal_int64 _ _ cts (json_nullable json_int cts)); [|by look|].
  2: { intros a ->. split; [done|]. by apply read_int64. }
  cbn [mbind result_bind]. look.
  destruct (present && isnull); [done|]. cbn [orb]. case_bool_decide as Hr; cbn [negb].
  - cbn. rewrite utf8_ok_coerce in *. unfold json_string.
    match goal with H : coerce_utf8 reason = reason |- _ => rewrite H end.
    cbn. by rewrite decide_False.
  - done.
Qed.

Lemma add_round m : add_ok m = true ->
  exists j, Add_MarshalJSON m = Ok (JObj j) /\ j !! "type" = Some (JStr "Add") /\
            Add_UnmarshalJSON (JObj j) = Ok m.
Proof.
  destruct m as [q p args jr cp]. unfold add_ok. cbn. intros Hm. split_ok.
  destruct (marshal_values_ok args) as (ja & Hja & Hua); [done|].
  unfold Add_MarshalJSON. cbn [qa_Args qa_QueryID qa_UDFPath qa_Journal qa_ComponentPath].
  rewrite Hja. cbn [mbind result_bind]. eexists. split; [done|]. split; [by look|].
  unfold Add_UnmarshalJSON. cbn [rawObject mbind result_bind]. do 3 read.
  rewrite (field_string_if _ _ cp) by (by look || done). cbn [mbind result_bind].
  by rewrite (read_opt_string _ _ jr) by (by look || done).
Qed.

Lemma modification_round m : modification_ok m = true ->
  exists j, QuerySetModification_MarshalJSON m = Ok j /\ decodeQuerySetModification j = Ok m.
Proof.
  unfold decodeQuerySetModification. destruct m as [a|q]; cbn.
  - intros (j & Hj & Ht & Hu)%add_round. exists (JObj j). split; [done|].
    rewrite (discriminator_message _ _ Ht) by done. cbn [mbind result_bind].
    rewrite decide_True by done. by rewrite Hu.
  - intros Hq. eexists. split; [done|].
    rewrite (discriminator_message _ "Remove") by (by look || done). cbn [mbind result_bind].
    rewrite decide_False, decide_True by done. unfold Remove_UnmarshalJSON.
    cbn [rawObject mbind result_bind]. by read.
Qed.

Lemma decode_indexed_ok {A : Type} (decode : json -> result proto_error A) i l ms :
  mapM decode l = Ok ms -> decode_indexed decode i l = Ok ms.
Proof.
  intros Hm%mapM_Ok. revert i. induction Hm as [|j m l ms Hj Hm IH]; intros i; [done|].
  cbn. rewrite Hj. cbn. by rewrite IH.
Qed.

(** A list of modifications, encoded and decoded again. *)
Lemma modifications_round {A : Type} (enc : A -> result proto_error json) dec l :
  (forall a, a ∈ l -> exists j, enc a = Ok j /\ dec j = Ok a) ->
  exists lj, marshal_slice enc (Some l) = Ok (JArr lj) /\
             unmarshal_slice unmarshal_raw (JArr lj) = Ok (Some lj) /\
             decode_indexed dec 0 lj = Ok l.
Proof.
  intros H. destruct (marshal_slice_ok enc dec (Some l) H) as (j & Hj & Hu).
  cbn in Hj. apply bind_Ok in Hj as (lj & Hl & [= <-]). exists lj.
  cbn. setoid_rewrite Hl. split; [done|]. cbn in Hu.
  apply bind_Ok in Hu as (l' & Hd & [= ->]). split.
  - assert (mapM unmarshal_raw lj = Ok lj) as Hr.
    { clear. apply mapM_Ok. induction lj; by constructor. }
    setoid_rewrite Hr. done.
  - by apply decode_indexed_ok.
Qed.

Lemma modify_round m : modify_ok m = true ->
  exists j, ModifyQuerySet_MarshalJSON m = Ok (JObj j) /\
            j !! "type" = Some (JStr "ModifyQuerySet") /\
            ModifyQuerySet_UnmarshalJSON (JObj j) = Ok m.
Proof.
  destruct m as [b n [l|]]; unfold modify_ok; cbn [mq_BaseVersion mq_NewVersion mq_Modifications];
    intros Hm; split_ok; [|done].
  destruct (modifications_round QuerySetModification_MarshalJSON decodeQuerySetModification l)
    as (lj & Hl & Hr & Hd).
  { intros a Ha. apply modification_round. by eapply forallb_elem. }
  unfold ModifyQuerySet_MarshalJSON. cbn [mq_BaseVersion mq_NewVersion mq_Modifications].
  rewrite Hl. cbn [mbind result_bind]. eexists. split; [done|]. split; [by look|].
  unfold ModifyQuerySet_UnmarshalJSON. cbn [rawObject mbind result_bind]. look.
  do 2 read. rewrite Hr. cbn [mbind result_bind default from_option id]. by rewrite Hd.
Qed.

Lemma request_round ty m : request_ok m = true ->
  exists j, Request_MarshalJSON ty m = Ok (JObj j) /\ j !! "type" = Some (JStr ty) /\
            Request_UnmarshalJSON (JObj j) = Ok m.
Proof.
  destruct m as [r p args cp]. unfold request_ok. cbn. intros Hm. split_ok.
  destruct (marshal_values_ok args) as (ja & Hja & Hua); [done|].
  unfold Request_MarshalJSON. cbn [rq_Args rq_RequestID rq_UDFPath rq_ComponentPath].
  rewrite Hja. cbn [mbind result_bind]. eexists. split; [done|]. split; [by look|].
  unfold Request_UnmarshalJSON. cbn [rawObject mbind result_bind]. do 3 read.
  by rewrite (field_string_if _ _ cp) by (by look || done).
Qed.

Lemma authenticate_round m : authenticate_ok m ->
  exists j, Authenticate_MarshalJSON m = Ok (JObj j) /\
            j !! "type" = Some (JStr "Authenticate") /\
            Authenticate_UnmarshalJSON (JObj j) = Ok m.
Proof.
  destruct m as [b t v i]. unfold authenticate_ok. cbn. intros [Hm Hi]. split_ok.
  assert (exists ji, marshal_pointer Identity_MarshalJSON i = Ok ji /\
    forall a, i = Some a -> rawIsNull ji = false /\ Identity_UnmarshalJSON ji = Ok a)
    as (ji & Hji & Hui).
  { destruct i as [i|]; [|by exists JNull]. destruct (identity_round i Hi) as (ji & ? & ? & ?).
    exists ji. split; [done|]. by intros ? [= <-]. }
  unfold Authenticate_MarshalJSON. cbn [au_ActingAs au_BaseVersion au_TokenType au_Value].
  rewrite Hji. cbn [mbind result_bind]. eexists. split; [done|]. split; [by look|].
  unfold Authenticate_UnmarshalJSON. cbn [rawObject mbind result_bind]. do 2 read.
  rewrite (field_string_if _ _ v) by (by look || done). cbn [mbind result_bind]. look.
  destruct i as [i|]; [|done]. rewrite bool_decide_eq_true_2 by done.
  destruct (Hui i eq_refl) as [Hn Hu]. by destruct ji; rewrite ?Hu.
Qed.

Lemma event_round m : utf8_ok (ev_EventType m) = true ->
  exists j, Event_MarshalJSON m = Ok (JObj j) /\ j !! "type" = Some (JStr "Event") /\
    Event_UnmarshalJSON (JObj j) = Ok (mkEvent (ev_EventType m) (Some (default JNull (ev_Event m)))).
Proof.
  intros Hm. eexists. split; [done|]. split; [by look|].
  unfold Event_UnmarshalJSON. cbn [rawObject mbind result_bind]. read. by look.
Qed.

Lemma client_message_round (m : ClientMessage) :
  client_message_ok m ->
  exists j, EncodeClientMessage (Some m) = Ok j /\ DecodeClientMessage j = Ok (received_client m).
Proof.
  unfold DecodeClientMessage, Mutation_UnmarshalJSON, Action_UnmarshalJSON.
  assert (Hgo : forall ty j, j !! "type" = Some (JStr ty) -> ty <> "" ->
    discriminator (JObj j) = Ok ty) by (intros; by apply discriminator_message).
  destruct m; cbn; intros Hm;
    [ destruct (connect_round _ Hm) as (j & Hj & Ht & Hu)
    | destruct (modify_round _ Hm) as (j & Hj & Ht & Hu)
    | destruct (request_round "Mutation" _ Hm) as (j & Hj & Ht & Hu)
    | destruct (request_round "Action" _ Hm) as (j & Hj & Ht & Hu)
    | destruct (authenticate_round _ Hm) as (j & Hj & Ht & Hu)
    | destruct (event_round _ Hm) as (j & Hj & Ht & Hu) ];
    exists (JObj j); (split; [done|]); rewrite (Hgo _ _ Ht) by done; cbn [mbind result_bind];
    repeat (rewrite decide_False by done); rewrite decide_True by done; by rewrite Hu.
Qed.

(** C36. The client's half of the protocol round-trips: a well-formed client
    message is always encoded, and [DecodeClientMessage] reads from the document
    the message the server receives, whichever of the six kinds it is. *)
Theorem client_message_roundtrip (m : ClientMessage) :
  client_message_ok m ->
  exists j, EncodeClientMessage (Some m) = Ok j /\ DecodeClientMessage j = Ok (received_client m).
Proof. apply client_message_round. Qed.

Definition sample_modify : ClientMessage :=
  CModifyQuerySet (mkModify 3 4 (Some [ModAdd (mkAdd 7 "messages:list" (Some [VInt64 (-1)])
    (mkOptionalString true (Some "j")) ""); ModRemove 2])).

Lemma client_message_roundtrip_witness :
  exists j, EncodeClientMessage (Some sample_modify) = Ok j /\
            DecodeClientMessage j = Ok sample_modify.
Proof. apply (client_message_roundtrip sample_modify). vm_compute. reflexivity. Defined.

(** ** Server messages *)

Definition version_ok (v : StateVersion) : bool :=
  in_u32 (sv_QuerySet v) && in_u32 (sv_Identity v) && timestamp_ok (sv_TS v).
Definition updated_ok (m : QueryUpdated) : bool :=
  in_u32 (qu_QueryID m) && value_ok (qu_Value m) && strings_ok (qu_LogLines m)
  && os_present (qu_Journal m) && opt_string_ok (qu_Journal m).
Definition failed_ok (m : QueryFailed) : bool :=
  in_u32 (qf_QueryID m) && utf8_ok (qf_ErrorMessage m) && strings_ok (qf_LogLines m)
  && os_present (qf_Journal m) && opt_string_ok (qf_Journal m) && opt_value_ok (qf_ErrorData m).
Definition state_modification_ok (m : StateModification) : bool :=
  match m with SMUpdated m => updated_ok m | SMFailed m => failed_ok m | SMRemoved q => in_u32 q end.
Definition finite_ok (f : Z) : bool := in_u64 f && is_finite f.

(** [present_ok b o]: a pointer that is not nil was on the wire. *)
Definition present_ok {A : Type} (b : bool) (o : option A) : bool :=
  b || match o with None => true | Some _ => false end.
Definition transition_ok (m : TransitionMessage) : bool :=
  version_ok (tr_StartVersion m) && version_ok (tr_EndVersion m)
  && match tr_Modifications m with Some l => forallb state_modification_ok l | None => false end
  && opt_ok finite_ok (tr_ClientClockSkew m) && opt_ok in_i64 (tr_ServerTS m)
  && present_ok (tr_clientClockSkewPresent m) (tr_ClientClockSkew m)
  && present_ok (tr_serverTSPresent m) (tr_ServerTS m).
Definition chunk_ok (m : TransitionChunkMessage) : bool :=
  utf8_ok (tc_Chunk m) && in_u32 (tc_PartNumber m) && in_u32 (tc_TotalParts m)
  && utf8_ok (tc_TransitionID m).

(** A response carries a value or an error, as [success] says. *)
Definition outcome_ok (success : bool) (v : Value) (message : string) (e : OptionalValue) : bool :=
  if success then value_ok v && bool_decide (message = "") && negb (ov_present e) && opt_value_ok e
  else is_null v && utf8_ok message && opt_value_ok e.
Definition mutation_response_ok (m : MutationResponseMessage) : bool :=
  in_u32 (mr_RequestID m) && strings_ok (mr_LogLines m) && opt_ok timestamp_ok (mr_TS m)
  && outcome_ok (mr_Success m) (mr_Value m) (mr_ErrorMessage m) (mr_ErrorData m).
Definition action_response_ok (m : ActionResponseMessage) : bool :=
  in_u32 (ar_RequestID m) && strings_ok (ar_LogLines m)
  && outcome_ok (ar_Success m) (ar_Value m) (ar_ErrorMessage m) (ar_ErrorData m).
Definition auth_error_ok (m : AuthErrorMessage) : bool :=
  utf8_ok (ae_Error m) && opt_ok in_u32 (ae_BaseVersion m).

Definition server_message_ok (m : ServerMessage) : bool :=
  match m with
  | STransition m => transition_ok m
  | STransitionChunk m => chunk_ok m
  | SMutationResponse m => mutation_response_ok m
  | SActionResponse m => action_response_ok m
  | SAuthError m => auth_error_ok m
  | SFatalError e => utf8_ok e
  | SPing => true
  end.

(** The presence flags record what was on the wire. *)
Definition received_server (m : ServerMessage) : ServerMessage :=
  match m with
  | SMutationResponse m =>
      SMutationResponse (mkMutationResponse (mr_RequestID m) (mr_Success m) (mr_Value m)
        (mr_ErrorMessage m) (mr_TS m) (mr_LogLines m) (mr_ErrorData m)
        (mr_tsPresent m || bool_decide (is_Some (mr_TS m))))
  | SAuthError m =>
      SAuthError (mkAuthError (ae_Error m) (ae_BaseVersion m) (ae_AuthUpdateAttempted m)
        (ae_baseVersionPresent m || bool_decide (is_Some (ae_BaseVersion m))))
  | _ => m
  end.

Lemma version_round v : version_ok v = true ->
  exists j, StateVersion_MarshalJSON v = Ok j /\ StateVersion_UnmarshalJSON j = Ok v.
Proof.
  destruct v as [q i t]. unfold version_ok. cbn. intros Hv. split_ok.
  destruct (timestamp_round t) as (jt & Hjt & _ & Hut); [done|].
  unfold StateVersion_MarshalJSON. cbn [sv_TS sv_QuerySet sv_Identity]. rewrite Hjt.
  cbn [mbind result_bind]. eexists. split; [done|].
  unfold StateVersion_UnmarshalJSON. cbn [rawObject mbind result_bind]. by do 3 read.
Qed.

Lemma updated_round m : updated_ok m = true ->
  exists j, QueryUpdated_MarshalJSON m = Ok (JObj j) /\
            j !! "type" = Some (JStr "QueryUpdated") /\
            QueryUpdated_UnmarshalJSON (JObj j) = Ok m.
Proof.
  destruct m as [q v ll [p jr]]. unfold updated_ok. cbn [qu_QueryID qu_Value qu_LogLines qu_Journal
    os_present]. intros Hm. split_ok. destruct p; [|done].
  destruct (marshal_value_ok v) as (jv & Hjv & Huv); [done|].
  unfold QueryUpdated_MarshalJSON. cbn [qu_QueryID qu_Value qu_LogLines qu_Journal]. rewrite Hjv.
  cbn [mbind result_bind]. eexists. split; [done|]. split; [by look|].
  unfold QueryUpdated_UnmarshalJSON. cbn [rawObject mbind result_bind]. do 3 read.
  by rewrite (read_opt_string _ _ (mkOptionalString true jr)) by (by look || done).
Qed.

Lemma failed_round m : failed_ok m = true ->
  exists j, QueryFailed_MarshalJSON m = Ok (JObj j) /\
            j !! "type" = Some (JStr "QueryFailed") /\
            QueryFailed_UnmarshalJSON (JObj j) = Ok m.
Proof.
  destruct m as [q e ll [p jr] d]. unfold failed_ok. cbn [qf_QueryID qf_ErrorMessage qf_LogLines
    qf_Journal qf_ErrorData os_present]. intros Hm. split_ok. destruct p; [|done].
  destruct (marshal_opt_value d) as (jd & Hjd & Hud); [done|].
  unfold QueryFailed_MarshalJSON. cbn [qf_QueryID qf_ErrorMessage qf_LogLines qf_Journal
    qf_ErrorData]. rewrite Hjd. cbn [mbind result_bind]. eexists. split; [done|].
  split; [by look|].
  unfold QueryFailed_UnmarshalJSON. cbn [rawObject mbind result_bind]. do 3 read.
  rewrite (read_opt_string _ _ (mkOptionalString true jr)) by (by look || done).
  cbn [mbind result_bind ensure os_present]. by rewrite Hud by (by look).
Qed.

Lemma state_modification_round m : state_modification_ok m = true ->
  exists j, StateModification_MarshalJSON m = Ok j /\ decodeStateModification j = Ok m.
Proof.
  unfold decodeStateModification. destruct m as [m|m|q]; cbn [state_modification_ok]; intros Hm;
    [ destruct (updated_round m Hm) as (j & Hj & Ht & Hu); exists (JObj j)
    | destruct (failed_round m Hm) as (j & Hj & Ht & Hu); exists (JObj j) | ].
  - split; [done|]. rewrite (discriminator_message _ _ Ht) by done. cbn [mbind result_bind].
    rewrite decide_True by done. by rewrite Hu.
  - split; [done|]. rewrite (discriminator_message _ _ Ht) by done. cbn [mbind result_bind].
    rewrite decide_False, decide_True by done. by rewrite Hu.
  - eexists. split; [done|]. rewrite (discriminator_message _ "QueryRemoved") by (by look || done).
    cbn [mbind result_bind]. rewrite !decide_False, decide_True by done.
    unfold QueryRemoved_UnmarshalJSON. cbn [rawObject mbind result_bind]. by read.
Qed.

Lemma read_float f : finite_ok f = true ->
  exists j, marshal_float f = Ok j /\ rawIsNull j = false /\ unmarshal_float64 j = Ok f.
Proof.
  unfold finite_ok, marshal_float. intros [Hr Hf]%andb_true_iff. cbn [marshal]. rewrite Hf.
  eexists. split; [done|]. split; [done|]. cbn. by rewrite parse_format_float.
Qed.

Lemma transition_round m : transition_ok m = true ->
  exists j, Transition_MarshalJSON m = Ok (JObj j) /\ j !! "type" = Some (JStr "Transition") /\
            Transition_UnmarshalJSON (JObj j) = Ok m.
Proof.
  destruct m as [v1 v2 [l|] sk ts pk pt]; unfold transition_ok; cbn [tr_StartVersion tr_EndVersion
    tr_Modifications tr_ClientClockSkew tr_ServerTS tr_clientClockSkewPresent tr_serverTSPresent];
    intros Hm; split_ok; [|done].
  destruct (version_round v1) as (j1 & Hj1 & Hu1); [done|].
  destruct (version_round v2) as (j2 & Hj2 & Hu2); [done|].
  destruct (modifications_round StateModification_MarshalJSON decodeStateModification l)
    as (lj & Hl & Hr & Hd).
  { intros a Ha. apply state_modification_round. by eapply forallb_elem. }
  assert (exists jk, (if pk then marshal_pointer marshal_float sk else Ok JNull) = Ok jk /\
    (sk = None -> jk = JNull) /\
    forall a, sk = Some a -> rawIsNull jk = false /\ unmarshal_float64 jk = Ok a)
    as (jk & Hjk & Hnk & Huk).
  { destruct pk; cbn in *; [|destruct sk; [done|by exists JNull]].
    destruct sk as [f|]; [|by exists JNull]. destruct (read_float f) as (jk & ? & ? & ?); [done|].
    exists jk. split; [done|]. split; [done|]. by intros ? [= <-]. }
  unfold Transition_MarshalJSON. cbn [tr_StartVersion tr_EndVersion tr_Modifications
    tr_ClientClockSkew tr_ServerTS tr_clientClockSkewPresent tr_serverTSPresent].
  rewrite Hj1. cbn [mbind result_bind]. rewrite Hj2. cbn [mbind result_bind].
  rewrite Hl. cbn [mbind result_bind]. rewrite Hjk. cbn [mbind result_bind].
  eexists. split; [done|]. split; [by look|].
  unfold Transition_UnmarshalJSON. cbn [rawObject mbind result_bind]. do 3 read.
  cbn [default from_option id]. rewrite Hd. cbn [mbind result_bind].
  unfold optionalFloat64FromRaw, optionalInt64FromRaw.
  rewrite (read_optional _ _ "clientClockSkew" sk pk jk); cbn [mbind result_bind].
  - rewrite (read_optional _ _ "serverTs" ts pt (json_nullable json_int ts)); [done| | |].
    + intros ->. by destruct ts.
    + look. by destruct pt, ts.
    + intros a ->. split; [done|]. cbn [json_nullable]. by rewrite read_int64.
  - intros ->. by destruct sk.
  - look. destruct pk, sk; try done. by rewrite Hnk.
  - intros a Ha. destruct (Huk a Ha) as [? ->]. done.
Qed.

Lemma chunk_round m : chunk_ok m = true ->
  exists j, TransitionChunk_MarshalJSON m = Ok (JObj j) /\
            j !! "type" = Some (JStr "TransitionChunk") /\
            TransitionChunk_UnmarshalJSON (JObj j) = Ok m.
Proof.
  destruct m as [c n t i]. unfold chunk_ok. cbn. intros Hm. split_ok.
  eexists. split; [done|]. split; [by look|].
  unfold TransitionChunk_UnmarshalJSON. cbn [rawObject mbind result_bind tc_Chunk tc_PartNumber
    tc_TotalParts tc_TransitionID]. by do 4 read.
Qed.

(** The members the two responses share, as they are found in the message. *)
Lemma outcome_round ty q success v message ll e :
  outcome_ok success v message e = true ->
  exists out data, response_members ty q success v message ll e = Ok out /\
    (forall k, k <> "result" -> k <> "errorData" ->
       out !! k = object [("type", JStr ty); ("requestId", json_int q);
                          ("success", JBool success); ("logLines", json_strings ll)] !! k) /\
    (out !! "errorData" = if ov_present e then Some data else None) /\
    (forall raw, raw !! "errorData" = out !! "errorData" ->
       optionalValueFromRaw raw "errorData" = Ok e) /\
    (if success then unmarshal_result unmarshal_value (out !! "result") = Ok v /\ message = ""
     else unmarshal_result unmarshal_string (out !! "result") = Ok message /\ v = VNull).
Proof.
  unfold outcome_ok, response_members. destruct success; intros H; split_ok.
  - destruct (marshal_value_ok v) as (j & Hj & Hu); [done|]. rewrite Hj. cbn [mbind result_bind].
    destruct (marshal_opt_value e) as (d & Hd & Hr); [done|].
    destruct (ov_present e) eqn:He; [done|].
    eexists. exists d. split; [done|]. split; [by intros; look|]. split; [by look|]. split.
    + intros raw. look. intros Hraw. by apply Hr.
    + look. split; [done|]. by eapply bool_decide_eq_true_1.
  - destruct (marshal_opt_value e) as (d & Hd & Hr); [done|]. rewrite Hd. cbn [mbind result_bind].
    eexists. exists d. split; [done|]. split; [by intros; look|]. split; [by look|]. split.
    + intros raw. look. intros Hraw. by apply Hr.
    + look. split; [by apply read_string|by apply is_null_spec].
Qed.

Lemma response_head raw ty q success ll :
  (forall k, k <> "result" -> k <> "errorData" -> k <> "ts" ->
     raw !! k = object [("type", JStr ty); ("requestId", json_int q);
                        ("success", JBool success); ("logLines", json_strings ll)] !! k) ->
  in_u32 q = true -> strings_ok ll = true ->
  raw !! "type" = Some (JStr ty) /\
  unmarshalExactField raw "requestId" unmarshal_uint32 0 = Ok q /\
  unmarshalExactField raw "success" unmarshal_bool false = Ok success /\
  unmarshalExactField raw "logLines" (unmarshal_slice unmarshal_string) None = Ok ll.
Proof.
  intros Hraw Hq Hll. split; [rewrite Hraw by done; by look|]. split; [|split].
  - eapply field_present; [rewrite Hraw by done; look; reflexivity|]. by apply read_uint32.
  - eapply field_present; [rewrite Hraw by done; look; reflexivity|]. done.
  - eapply field_present; [rewrite Hraw by done; look; reflexivity|]. by apply read_strings.
Qed.

Lemma mutation_response_round m : mutation_response_ok m = true ->
  exists j, MutationResponse_MarshalJSON m = Ok (JObj j) /\
            j !! "type" = Some (JStr "MutationResponse") /\
            MutationResponse_UnmarshalJSON (JObj j) =
              Ok (mkMutationResponse (mr_RequestID m) (mr_Success m) (mr_Value m)
                    (mr_ErrorMessage m) (mr_TS m) (mr_LogLines m) (mr_ErrorData m)
                    (mr_tsPresent m || bool_decide (is_Some (mr_TS m)))).
Proof.
  destruct m as [q su v e ts ll d p]. unfold mutation_response_ok. cbn [mr_RequestID mr_Success
    mr_Value mr_ErrorMessage mr_TS mr_LogLines mr_ErrorData mr_tsPresent]. intros Hm. split_ok.
  destruct (outcome_round "MutationResponse" q su v e ll d) as (out & data & Ho & Hk & _ & Hdat & Hres);
    [done|].
  assert (exists jt, marshal_pointer SyncTimestamp_MarshalJSON ts = Ok jt /\ (ts = None -> jt = JNull) /\
    forall a, ts = Some a -> rawIsNull jt = false /\ SyncTimestamp_UnmarshalJSON jt = Ok a)
    as (jt & Hjt & Hnt & Hts).
  { destruct ts as [t|]; [|by exists JNull]. destruct (timestamp_round t) as (jt & ? & ? & ?); [done|].
    exists jt. split; [done|]. split; [done|]. by intros ? [= <-]. }
  unfold MutationResponse_MarshalJSON. cbn [mr_RequestID mr_Success mr_Value mr_ErrorMessage mr_TS
    mr_LogLines mr_ErrorData mr_tsPresent]. rewrite Ho. cbn [mbind result_bind]. rewrite Hjt.
  cbn [mbind result_bind]. set (b := p || bool_decide (is_Some ts)).
  destruct (response_head (set_if b "ts" jt out) "MutationResponse" q su ll) as (Ht & Hq & Hs & Hl);
    [intros; look; auto|done|done|].
  eexists. split; [done|]. split; [done|].
  unfold MutationResponse_UnmarshalJSON. cbn [rawObject mbind result_bind].
  rewrite Hq. cbn [mbind result_bind]. rewrite Hs. cbn [mbind result_bind]. rewrite Hl.
  cbn [mbind result_bind]. unfold optionalTimestampFromRaw.
  rewrite (read_optional _ _ _ ts b jt); [| | |done].
  - cbn [mbind result_bind]. rewrite Hdat by (by look). cbn [mbind result_bind]. look.
    by destruct su; destruct Hres as [-> ->].
  - unfold b. destruct p, ts; by cbn.
  - look. rewrite Hk by done. look. destruct b, ts; try done. by rewrite Hnt.
Qed.

Lemma action_response_round m : action_response_ok m = true ->
  exists j, ActionResponse_MarshalJSON m = Ok (JObj j) /\
            j !! "type" = Some (JStr "ActionResponse") /\
            ActionResponse_UnmarshalJSON (JObj j) = Ok m.
Proof.
  destruct m as [q su v e ll d]. unfold action_response_ok. cbn [ar_RequestID ar_Success
    ar_Value ar_ErrorMessage ar_LogLines ar_ErrorData]. intros Hm. split_ok.
  destruct (outcome_round "ActionResponse" q su v e ll d) as (out & data & Ho & Hk & _ & Hdat & Hres);
    [done|].
  unfold ActionResponse_MarshalJSON. cbn [ar_RequestID ar_Success ar_Value ar_ErrorMessage
    ar_LogLines ar_ErrorData]. rewrite Ho. cbn [mbind result_bind].
  destruct (response_head out "ActionResponse" q su ll) as (Ht & Hq & Hs & Hl);
    [by intros; auto|done|done|].
  exists out. split; [done|]. split; [done|].
  unfold ActionResponse_UnmarshalJSON. cbn [rawObject mbind result_bind].
  rewrite Hq. cbn [mbind result_bind]. rewrite Hs. cbn [mbind result_bind]. rewrite Hl.
  cbn [mbind result_bind]. rewrite Hdat by done. cbn [mbind result_bind].
  by destruct su; destruct Hres as [-> ->].
Qed.

Lemma auth_error_round m : auth_error_ok m = true ->
  exists j, AuthError_MarshalJSON m = Ok (JObj j) /\ j !! "type" = Some (JStr "AuthError") /\
    AuthError_UnmarshalJSON (JObj j) =
      Ok (mkAuthError (ae_Error m) (ae_BaseVersion m) (ae_AuthUpdateAttempted m)
            (ae_baseVersionPresent m || bool_decide (is_Some (ae_BaseVersion m)))).
Proof.
  destruct m as [e b a p]. unfold auth_error_ok. cbn [ae_Error ae_BaseVersion
    ae_AuthUpdateAttempted ae_baseVersionPresent]. intros Hm. split_ok.
  eexists. split; [done|]. split; [by look|].
  unfold AuthError_UnmarshalJSON. cbn [rawObject mbind result_bind ae_Error ae_BaseVersion
    ae_AuthUpdateAttempted ae_baseVersionPresent]. read.
  rewrite (field_pointer_if unmarshal_bool _ _ a (json_nullable JBool a)); [|by look|].
  2: { by intros x ->. }
  cbn [mbind result_bind]. unfold optionalIdentityVersionFromRaw.
  rewrite (read_optional _ _ _ b (p || bool_decide (is_Some b)) (json_nullable json_int b)); [done| | |].
  - by destruct p, b; cbn.
  - look. by destruct p, b.
  - intros x ->. split; [done|]. by apply read_uint32.
Qed.

Lemma server_message_round (m : ServerMessage) :
  server_message_ok m = true ->
  exists j, EncodeServerMessage (Some m) = Ok j /\ DecodeServerMessage j = Ok (received_server m).
Proof.
  unfold DecodeServerMessage.
  destruct m as [m|m|m|m|m|e|]; cbn [server_message_ok EncodeServerMessage
    ServerMessage_MarshalJSON received_server]; intros Hm;
    [ destruct (transition_round _ Hm) as (j & -> & Ht & Hu)
    | destruct (chunk_round _ Hm) as (j & -> & Ht & Hu)
    | destruct (mutation_response_round _ Hm) as (j & -> & Ht & Hu)
    | destruct (action_response_round _ Hm) as (j & -> & Ht & Hu)
    | destruct (auth_error_round _ Hm) as (j & -> & Ht & Hu)
    | | eexists; split; [reflexivity|reflexivity] ].
  6: { eexists. split; [done|]. rewrite (discriminator_message _ "FatalError") by (by look || done).
       cbn [mbind result_bind]. repeat (rewrite decide_False by done). rewrite decide_True by done.
       unfold FatalError_UnmarshalJSON. cbn [rawObject mbind result_bind]. by read. }
  all: exists (JObj j); (split; [done|]); rewrite (discriminator_message _ _ Ht) by done;
    cbn [mbind result_bind]; repeat (rewrite decide_False by done); rewrite decide_True by done;
    by rewrite Hu.
Qed.

(** C35. The server's half of the protocol round-trips: a well-formed server
    message, transitions with any sequence of state modifications included, is
    always encoded, and [DecodeServerMessage] reads it back. *)
Theorem server_message_roundtrip (m : ServerMessage) :
  server_message_ok m = true ->
  exists j, EncodeServerMessage (Some m) = Ok j /\ DecodeServerMessage j = Ok (received_server m).
Proof. apply server_message_round. Qed.

Definition sample_transition : ServerMessage :=
  STransition (mkTransition (mkStateVersion 0 0 0) (mkStateVersion 1 0 77)
    (Some [SMUpdated (mkQueryUpdated 0 (VArray [VInt64 5]) (Some ["log"]) (mkOptionalString true None));
           SMFailed (mkQueryFailed 1 "boom" None (mkOptionalString true (Some "j"))
                       (mkOptionalValue true (VString "data")));
           SMRemoved 2]) None (Some 9) true true).

Lemma server_message_roundtrip_witness :
  exists j, EncodeServerMessage (Some sample_transition) = Ok j /\
            DecodeServerMessage j = Ok sample_transition.
Proof. apply (server_message_roundtrip sample_transition). vm_compute. reflexivity. Defined.
