(* ===== verification/Canonical.v ===== *)
(** * Canonical queries

    The model of [baseclient/canonical.go]: the canonical path and arguments of
    a query, and the token that identifies it, which is the JSON text of both
    with the keys of every object in order. *)
From S2P Require Import Prelude GoStrings GoFloat GoJson Values GoEncode Paths.
From stdpp Require Import pretty.
From Stdlib Require Import Ascii.
Local Open Scope Z_scope.

(** ** JSON text

    What [json.Marshal] writes for a dynamic value: no white space, the keys of
    an object in byte order, strings with the HTML-safe escapes. *)
Definition hex_digit (n : Z) : ascii := chr (if n <? 10 then 48 + n else 87 + n).

Definition escape_byte (c : ascii) : string :=
  let n := code c in
  if n =? 34 then "\" +:+ str1 c
  else if n =? 92 then "\\"
  else if n =? 8 then "\b"
  else if n =? 12 then "\f"
  else if n =? 10 then "\n"
  else if n =? 13 then "\r"
  else if n =? 9 then "\t"
  else if (n <? 32) || (n =? 38) || (n =? 60) || (n =? 62) then
    "\u00" +:+ String (hex_digit (n / 16)) (str1 (hex_digit (n mod 16)))
  else str1 c.

(** U+2028 and U+2029, three bytes in UTF-8, are escaped too. *)
Fixpoint escape_string (s : string) : string :=
  match s with
  | "" => ""
  | String c r =>
      match r with
      | String c1 (String c2 r2) =>
          if (code c =? 226) && (code c1 =? 128) && byte_in 168 169 c2
          then "\u202" +:+ String (hex_digit (code c2 - 160)) (escape_string r2)
          else escape_byte c +:+ escape_string r
      | _ => escape_byte c +:+ escape_string r
      end
  end.

Definition quote : string := str1 (chr 34).
Definition string_text (s : string) : string := quote +:+ escape_string s +:+ quote.

Fixpoint zeros (n : nat) : string := match n with O => "" | S n' => String "0" (zeros n') end.

(** The literal of a positive decimal c * 10^p in positional and in scientific
    notation. *)
Definition positional_text (c p : Z) : string :=
  let digits := pretty c in
  if 0 <=? p then digits +:+ zeros (Z.to_nat p)
  else
    let n := String.length digits in
    let k := Z.to_nat (- p) in
    if (k <? n)%nat then take_bytes (n - k) digits +:+ "." +:+ drop_bytes (n - k) digits
    else "0." +:+ zeros (k - n) +:+ digits.
Definition scientific_text (c p : Z) : string :=
  let digits := pretty c in
  let e := p + Z.of_nat (String.length digits) - 1 in
  take_bytes 1 digits
  +:+ (if (String.length digits =? 1)%nat then "" else "." +:+ drop_bytes 1 digits)
  +:+ "e" +:+ (if e <? 0 then "-" else "+") +:+ pretty (Z.abs e).

Definition float_text (b : Z) : string :=
  let a := f_abs b in
  (if f_sign b then "-" else "") +:+
  (if a =? 0 then "0"
   else
     let '(c, p) := shortest_decimal a in
     if (round_ratio 1 (10 ^ 6) <=? a) && (a <? round_ratio (10 ^ 21) 1)
     then positional_text c p else scientific_text c p).

(** The members of an object, in the byte order of their keys. *)
Definition comma (first rest : string) : string :=
  if decide (rest = "") then first else first +:+ "," +:+ rest.
Definition members_text (members : gmap string string) : string :=
  foldr (fun '(k, t) rest => comma (string_text k +:+ ":" +:+ t) rest) ""
    (sorted_entries members).

(** [stableJSONValue] rejects numbers in literal form and foreign values, so the
    last case is never reached. *)
Fixpoint json_text (w : wire) : string :=
  match w with
  | WNil | WNilObj => "null"
  | WBool b => if b then "true" else "false"
  | WStr s => string_text (coerce_utf8 s)
  | WFloat b => float_text b
  | WArr l => "[" +:+ foldr (fun x rest => comma (json_text x) rest) "" l +:+ "]"
  | WObj m =>
      "{" +:+ members_text (map_fold (fun k x acc => <[k := json_text x]> acc) ∅ m) +:+ "}"
  | WNumber _ | WOther _ => ""
  end.

(** [stableJSONValue] returns its argument, or an error on the dynamic types no
    canonical value has. *)
Fixpoint stableJSONValue (w : wire) : result value_error wire :=
  match w with
  | WObj m => out ← map_traverse (fun _ x => stableJSONValue x) m; mret (WObj out)
  | WArr l => out ← mapM stableJSONValue l; mret (WArr out)
  | WNil | WBool _ | WStr _ | WFloat _ => mret w
  | WNilObj => mret (WObj ∅)
  | WNumber _ => Err (UnexpectedType "json.Number")
  | WOther t => Err (UnexpectedType t)
  end.

Definition stableJSON (w : wire) : result value_error string :=
  normalized ← stableJSONValue w;
  _ ← map_err JSONFailed (marshal normalized);
  mret (json_text normalized).

(** ** Paths and arguments *)

Inductive canonical_error : Type :=
  | BadPath (e : path_error)
  | BadArgs (e : value_error).

Definition syncWireUDFPath (path : CanonicalizedUDFPath) : string :=
  trim_suffix (canonical_raw (canonical_module path)) ".js" +:+ ":" +:+ canonical_function path.

Definition canonicalQueryPath (path : string) : result canonical_error string :=
  map_err BadPath
    (normalized ← ParseFunctionPath path;
     parsed ← ParseUDFPath normalized;
     mret (syncWireUDFPath (UDFPath_Canonicalize parsed))).

(** [valueFromWire] of the package goes through JSON text. *)
Definition valueFromWireJSON (w : wire) : result value_error Value :=
  data ← map_err JSONFailed (marshal w); ParseValueJSON data.

Definition syncQueryArgValue (args : goval) : result value_error Value :=
  encodedArgs ← encodeArgs args; valueFromWireJSON encodedArgs.

Definition query_token (path : string) (arg : Value) : result value_error string :=
  wire ← ConvexJSON arg;
  stableJSON (WObj {["udfPath" := WStr path; "args" := WArr [wire]]}).

Definition canonicalQuery (path : string) (args : goval)
    : result canonical_error (string * list Value * string) :=
  canonicalPath ← canonicalQueryPath path;
  map_err BadArgs
    (encodedArg ← syncQueryArgValue args;
     token ← query_token canonicalPath encodedArg;
     mret (canonicalPath, [encodedArg], token)).

Definition canonicalRequest (path : string) (args : goval)
    : result canonical_error (string * list Value) :=
  canonicalPath ← canonicalQueryPath path;
  encodedArg ← map_err BadArgs (syncQueryArgValue args);
  mret (canonicalPath, [encodedArg]).
