(* ===== verification/JsonText.v ===== *)
(** * Reading back JSON text

    The text that [stableJSON] writes determines the tree it was written for:
    number literals, string literals, arrays and objects.  The readers of this
    file exist for the proofs; the module itself never reads a token back. *)
From S2P Require Import Prelude GoStrings GoFloat GoJson Values GoEncode Canonical EncodeFacts.
From stdpp Require Import pretty.
From Stdlib Require Import Ascii.
Local Open Scope Z_scope.
#[local] Arguments String.append !_ _ /.

(** ** Decimal digits *)

Definition digit (c : ascii) : bool := byte_in 48 57 c.

Fixpoint dec_value (acc : Z) (s : string) : Z :=
  match s with "" => acc | String c r => dec_value (acc * 10 + (code c - 48)) r end.

Lemma dec_value_app acc s t : dec_value acc (s +:+ t) = dec_value (dec_value acc s) t.
Proof. revert acc. induction s as [|c s IH]; intros acc; [done|]. apply IH. Qed.

Lemma digit_char x : (x < 10)%N ->
  digit (pretty_N_char x) = true /\ code (pretty_N_char x) - 48 = Z.of_N x.
Proof.
  intros Hx.
  assert (x = 0 \/ x = 1 \/ x = 2 \/ x = 3 \/ x = 4 \/ x = 5 \/ x = 6 \/ x = 7 \/ x = 8 \/ x = 9)%N
    as H by lia.
  by repeat destruct H as [->|H]; [..|subst x].
Qed.

Lemma pretty_go_digits x s :
  (all_bytes digit s = true -> all_bytes digit (pretty_N_go x s) = true) /\
  dec_value 0 (pretty_N_go x s) = dec_value (Z.of_N x) s.
Proof.
  revert s. induction (N.lt_wf_0 x) as [x _ IH]; intros s.
  destruct (decide (x = 0)%N) as [->|Hx]; [by rewrite pretty_N_go_0|].
  rewrite pretty_N_go_step by lia.
  destruct (IH (x / 10)%N ltac:(apply N.div_lt; lia) (String (pretty_N_char (x mod 10)) s))
    as [Hd Hv].
  destruct (digit_char (x mod 10) ltac:(by apply N.mod_lt)) as [Hc He]. split.
  - intros Hs. apply Hd. cbn. by rewrite Hc, Hs.
  - rewrite Hv. cbn [dec_value]. rewrite He. f_equal.
    rewrite N2Z.inj_div, N2Z.inj_mod. change (Z.of_N 10) with 10.
    Z.to_euclidean_division_equations; lia.
Qed.

Lemma pretty_digits n : 0 <= n ->
  all_bytes digit (pretty n) = true /\ dec_value 0 (pretty n) = n.
Proof.
  intros Hn. assert (pretty n = pretty (Z.to_N n)) as -> by (by destruct n as [|p|p]; [..|lia]).
  unfold pretty, pretty_N. case_decide as H0.
  - split; [done|]. change (0 = n). lia.
  - destruct (pretty_go_digits (Z.to_N n) "") as [Hd Hv]. split; [by apply Hd|].
    rewrite Hv. cbn [dec_value]. lia.
Qed.

Lemma pretty_nonempty n : 0 < n -> (0 < String.length (pretty n))%nat.
Proof.
  intros Hn. destruct (pretty_digits n ltac:(lia)) as [_ Hv].
  destruct (pretty n); [cbn in Hv|cbn]; lia.
Qed.

Lemma zeros_digits n :
  all_bytes digit (zeros n) = true /\ String.length (zeros n) = n /\
  forall acc, dec_value acc (zeros n) = acc * 10 ^ Z.of_nat n.
Proof.
  induction n as [|n (IHd & IHl & IHv)]; [by repeat split; intros; cbn; lia|].
  split; [done|]. split; [cbn; lia|]. intros acc. cbn [zeros dec_value].
  rewrite IHv. change (code "0" - 48) with 0.
  rewrite Nat2Z.inj_succ, Z.pow_succ_r by lia. lia.
Qed.

(** ** Number literals *)

Definition read_exponent (s : string) : Z :=
  match s with
  | String c t => if decide (c = "-"%char) then - dec_value 0 t else dec_value 0 t
  | "" => 0
  end.

(** The coefficient and the decimal exponent of a literal without sign;
    [frac] counts the digits after the point. *)
Fixpoint scan (coef : Z) (frac : option Z) (s : string) : Z * Z :=
  match s with
  | "" => (coef, - default 0 frac)
  | String c r =>
      if decide (c = "."%char) then scan coef (Some 0) r
      else if decide (c = "e"%char) then (coef, read_exponent r - default 0 frac)
      else scan (coef * 10 + (code c - 48)) (Z.succ <$> frac) r
  end.

Lemma scan_digits coef frac s t : all_bytes digit s = true ->
  scan coef frac (s +:+ t) =
    scan (dec_value coef s) ((fun n => n + Z.of_nat (String.length s)) <$> frac) t.
Proof.
  revert coef frac. induction s as [|c s IH]; intros coef frac.
  - intros _. cbn. destruct frac; cbn; [by rewrite Z.add_0_r|done].
  - cbn [all_bytes]. intros [Hc Hs]%andb_true_iff. cbn.
    rewrite !decide_False by (intros ->; done). rewrite IH by done.
    destruct frac; cbn; [|done]. do 2 f_equal. lia.
Qed.

Lemma scan_all_digits coef frac s : all_bytes digit s = true ->
  scan coef frac s =
    (dec_value coef s, - default 0 ((fun n => n + Z.of_nat (String.length s)) <$> frac)).
Proof. intros Hs. rewrite <- (str_app_nil_r s) at 1. by rewrite scan_digits. Qed.

Definition digit_head (s : string) : bool :=
  match s with String c _ => digit c | "" => false end.

Lemma digit_head_app s t :
  all_bytes digit s = true -> (0 < String.length s)%nat -> digit_head (s +:+ t) = true.
Proof. destruct s as [|c s]; cbn; [lia|]. by intros [? _]%andb_true_iff. Qed.

(** The bytes of a literal. *)
Definition num_byte (c : ascii) : bool :=
  digit c || bool_decide (c = "."%char) || bool_decide (c = "e"%char)
  || bool_decide (c = "+"%char) || bool_decide (c = "-"%char).

Lemma digit_num_bytes s : all_bytes digit s = true -> all_bytes num_byte s = true.
Proof.
  induction s as [|c s IH]; [done|]. cbn. intros [Hc Hs]%andb_true_iff.
  unfold num_byte at 1. by rewrite Hc, IH.
Qed.

Section literals.
(** The literals of a positive decimal. *)
Context (c p : Z) (Hc : 0 < c).

Lemma positional_read :
  scan 0 None (positional_text c p) = if 0 <=? p then (c * 10 ^ p, 0) else (c, p).
Proof.
  destruct (pretty_digits c ltac:(lia)) as [Hd Hv]. unfold positional_text.
  destruct (Z.leb_spec 0 p) as [Hp|Hp].
  - destruct (zeros_digits (Z.to_nat p)) as (Hz & _ & Hzv).
    rewrite scan_all_digits by (by rewrite all_bytes_app, Hd, Hz).
    rewrite dec_value_app, Hv, Hzv. rewrite Z2Nat.id by done. done.
  - pose proof (pretty_nonempty c Hc) as Hn.
    pose proof (take_drop_bytes (String.length (pretty c) - Z.to_nat (- p)) (pretty c)) as Htd.
    destruct (Nat.ltb_spec (Z.to_nat (- p)) (String.length (pretty c))) as [Hk|Hk].
    + set (a := take_bytes _ _) in *. set (b := drop_bytes _ _) in *.
      rewrite <- Htd, all_bytes_app in Hd. apply andb_true_iff in Hd as [Ha Hb].
      rewrite scan_digits by done. cbn. rewrite scan_all_digits by done.
      rewrite <- dec_value_app, Htd, Hv. cbn. f_equal.
      assert (String.length b = Z.to_nat (- p)); [|lia].
      subst b. rewrite drop_bytes_length. lia.
    + destruct (zeros_digits (Z.to_nat (- p) - String.length (pretty c))) as (Hz & Hzl & Hzv).
      change (scan 0 (Some 0) (zeros (Z.to_nat (- p) - String.length (pretty c)) +:+ pretty c) = (c, p)).
      rewrite scan_digits, scan_all_digits, Hzv, Z.mul_0_l, Hv, Hzl by done.
      cbn. f_equal. lia.
Qed.

Lemma scientific_read : scan 0 None (scientific_text c p) = (c, p).
Proof.
  destruct (pretty_digits c ltac:(lia)) as [Hd Hv]. unfold scientific_text. cbv zeta.
  pose proof (pretty_nonempty c Hc) as Hn.
  set (e := p + Z.of_nat (String.length (pretty c)) - 1).
  set (t := "e" +:+ _).
  assert (Ht : forall coef frac, scan coef frac t = (coef, e - default 0 frac)).
  { intros coef frac. destruct (pretty_digits (Z.abs e) ltac:(lia)) as [_ He].
    subst t. destruct (Z.ltb_spec e 0); cbn; rewrite He; f_equal; case_decide; try congruence; lia. }
  clearbody t. pose proof (take_drop_bytes 1 (pretty c)) as Htd.
  pose proof (drop_bytes_length 1 (pretty c)) as Hl.
  set (a := take_bytes _ _) in *. set (b := drop_bytes _ _) in *. clearbody a b.
  rewrite <- Htd, all_bytes_app in Hd. apply andb_true_iff in Hd as [Ha Hb].
  rewrite scan_digits by done.
  destruct (Nat.eqb_spec (String.length (pretty c)) 1) as [H1|H1].
  - assert (b = "") as Hbe by (destruct b; [done|cbn in Hl; lia]).
    rewrite Hbe, str_app_nil_r in Htd. cbn. rewrite Ht, Htd, Hv. f_equal. cbn. lia.
  - cbn. rewrite scan_digits by done. rewrite Ht, <- dec_value_app, Htd, Hv. f_equal. cbn. lia.
Qed.

Lemma positional_head : digit_head (positional_text c p) = true.
Proof.
  destruct (pretty_digits c ltac:(lia)) as [Hd _]. unfold positional_text.
  pose proof (pretty_nonempty c Hc) as Hn. destruct (0 <=? p); [by apply digit_head_app|].
  destruct (Nat.ltb_spec (Z.to_nat (- p)) (String.length (pretty c))) as [Hk|Hk]; [|done].
  rewrite <- (take_drop_bytes (String.length (pretty c) - Z.to_nat (- p)) (pretty c)),
    all_bytes_app in Hd.
  apply andb_true_iff in Hd as [Ha _]. apply digit_head_app; [done|]. rewrite take_bytes_length. lia.
Qed.

Lemma scientific_head : digit_head (scientific_text c p) = true.
Proof.
  destruct (pretty_digits c ltac:(lia)) as [Hd _]. unfold scientific_text. cbv zeta.
  pose proof (pretty_nonempty c Hc) as Hn.
  rewrite <- (take_drop_bytes 1 (pretty c)), all_bytes_app in Hd.
  apply andb_true_iff in Hd as [Ha _]. apply digit_head_app; [done|]. rewrite take_bytes_length. lia.
Qed.

Lemma pretty_split_bytes n :
  all_bytes num_byte (take_bytes n (pretty c)) = true /\
  all_bytes num_byte (drop_bytes n (pretty c)) = true.
Proof.
  destruct (pretty_digits c ltac:(lia)) as [Hd%digit_num_bytes _].
  rewrite <- (take_drop_bytes n (pretty c)), all_bytes_app in Hd.
  by apply andb_true_iff in Hd.
Qed.

Lemma positional_bytes : all_bytes num_byte (positional_text c p) = true.
Proof.
  destruct (pretty_digits c ltac:(lia)) as [Hd%digit_num_bytes _]. unfold positional_text.
  destruct (0 <=? p); [|destruct (_ <? _)%nat]; rewrite !all_bytes_app.
  - rewrite Hd. by apply digit_num_bytes, zeros_digits.
  - by rewrite !(proj1 (pretty_split_bytes _)), !(proj2 (pretty_split_bytes _)).
  - rewrite Hd. by rewrite (digit_num_bytes _ (proj1 (zeros_digits _))).
Qed.

Lemma scientific_bytes : all_bytes num_byte (scientific_text c p) = true.
Proof.
  unfold scientific_text. cbv zeta. set (e := _ - 1).
  destruct (pretty_digits (Z.abs e) ltac:(lia)) as [He%digit_num_bytes _].
  destruct (pretty_split_bytes 1) as [Ht Hd]. rewrite !all_bytes_app, He, Ht.
  generalize dependent (drop_bytes 1 (pretty c)). intros d Hd.
  destruct (_ =? 1)%nat, (e <? 0); cbn; by rewrite ?Hd.
Qed.
End literals.

(** ** Floats *)

Lemma digits_candidate_nonneg b n d k c p : 0 <= n -> 0 < d ->
  digits_candidate b n d k = Some (c, p) -> 0 <= c.
Proof.
  intros Hn Hd. unfold digits_candidate. cbv zeta.
  set (top := n * _). set (bot := d * _).
  assert (0 <= top / bot).
  { apply Z.div_pos; [|apply Z.mul_pos_pos; [done|apply Z.pow_pos_nonneg; lia]].
    apply Z.mul_nonneg_nonneg; [done|apply Z.pow_nonneg; lia]. }
  destruct (if _ =? 10 ^ k then _ else _) as [hi hi_p] eqn:Hhi.
  assert (0 <= hi) by (destruct (_ =? 10 ^ k); injection Hhi as <- <-; lia).
  repeat match goal with
  | |- context [if ?t then _ else _] => destruct t
  end; intros [= <- <-]; lia.
Qed.

Lemma shortest_decimal_pos b c p : f_abs b = b -> b <> 0 ->
  shortest_decimal b = (c, p) -> 0 < c.
Proof.
  intros Habs Hb Hs. pose proof (shortest_decimal_ok b c p Habs Hb Hs) as Hr.
  assert (c <> 0) by (intros ->; by destruct Hb).
  assert (0 <= f_sig b).
  { pose proof (f_exp_range b). pose proof (f_man_range b).
    unfold f_sig. destruct (f_exp b =? 0); lia. }
  unfold shortest_decimal in Hs. destruct (first_some _ _) as [cp|] eqn:Hf.
  - subst cp. apply first_some_In in Hf as (k & _ & Hk).
    apply digits_candidate_nonneg in Hk; [lia|..|apply Z.pow_pos_nonneg; lia].
    apply Z.mul_nonneg_nonneg; [done|apply Z.pow_nonneg; lia].
  - unfold exact_decimal in Hs. destruct (f_pow b <? 0); injection Hs as <- _.
    + assert (0 <= 5 ^ (- f_pow b)) by (apply Z.pow_nonneg; lia). nia.
    + assert (0 <= 2 ^ f_pow b) by (apply Z.pow_nonneg; lia). nia.
Qed.

(** The literal of a magnitude. *)
Definition magnitude_text (a : Z) : string :=
  if a =? 0 then "0"
  else
    let '(c, p) := shortest_decimal a in
    if (round_ratio 1 (10 ^ 6) <=? a) && (a <? round_ratio (10 ^ 21) 1)
    then positional_text c p else scientific_text c p.

Lemma float_text_magnitude b :
  float_text b = (if f_sign b then "-" else "") +:+ magnitude_text (f_abs b).
Proof. done. Qed.

Lemma magnitude_read a : f_abs a = a ->
  uncurry round_decimal (scan 0 None (magnitude_text a)) = a /\
  digit_head (magnitude_text a) = true /\ all_bytes num_byte (magnitude_text a) = true.
Proof.
  intros Ha. unfold magnitude_text. destruct (Z.eqb_spec a 0) as [->|H0]; [done|].
  destruct (shortest_decimal a) as [c p] eqn:Hs.
  pose proof (shortest_decimal_pos a c p Ha H0 Hs) as Hc.
  pose proof (shortest_decimal_ok a c p Ha H0 Hs) as Hr.
  destruct (_ && _).
  - rewrite positional_read, positional_head, positional_bytes by done. split; [|done].
    destruct (Z.leb_spec 0 p) as [Hp|Hp]; [|done]. cbn [uncurry].
    rewrite <- Hr. unfold round_decimal, num_top, num_bot.
    rewrite (Z.max_l p), !Z.max_r by lia. by rewrite Z.mul_1_r.
  - by rewrite scientific_read, scientific_head, scientific_bytes.
Qed.

Definition read_float (s : string) : Z :=
  match s with
  | String c r =>
      if decide (c = "-"%char) then with_sign true (uncurry round_decimal (scan 0 None r))
      else with_sign false (uncurry round_decimal (scan 0 None s))
  | "" => 0
  end.

(** The literal written for a float reads back as the float. *)
Lemma read_float_text b : in_u64 b = true -> read_float (float_text b) = b.
Proof.
  intros Hb. rewrite float_text_magnitude.
  destruct (magnitude_read (f_abs b) (f_abs_idem b)) as (Hr & Hh & _).
  rewrite (f_sign_abs b Hb) at 3. destruct (f_sign b); cbn [String.append read_float].
  - by rewrite decide_True, Hr.
  - destruct (magnitude_text (f_abs b)) as [|c s]; [done|]. cbn [read_float].
    rewrite decide_False; [by rewrite Hr|]. by intros ->.
Qed.

Lemma float_text_bytes b : all_bytes num_byte (float_text b) = true /\ float_text b <> "".
Proof.
  rewrite float_text_magnitude.
  destruct (magnitude_read (f_abs b) (f_abs_idem b)) as (_ & Hh & Hn). split.
  - rewrite all_bytes_app, Hn. by destruct (f_sign b).
  - destruct (f_sign b); [done|]. cbn. by intros He; rewrite He in Hh.
Qed.

(** ** Delimiters *)

(** What may follow a value in a text: nothing, a comma or a closing bracket. *)
Definition delimiter (c : ascii) : bool :=
  bool_decide (c = ","%char) || bool_decide (c = "]"%char) || bool_decide (c = "}"%char).
Definition delimited (s : string) : bool :=
  match s with "" => true | String c _ => delimiter c end.

Lemma num_not_delimiter c : num_byte c = true -> delimiter c = false.
Proof.
  unfold delimiter. rewrite !orb_false_iff, !bool_decide_eq_false.
  intros H. repeat split; intros ->; vm_compute in H; done.
Qed.

(** A literal ends where the delimiter starts. *)
Lemma literal_ends a b r r' :
  all_bytes num_byte a = true -> all_bytes num_byte b = true ->
  delimited r = true -> delimited r' = true -> a +:+ r = b +:+ r' -> a = b /\ r = r'.
Proof.
  revert b. induction a as [|c a IH]; intros [|d b] Ha Hb Hr Hr' He.
  - done.
  - cbn in He. subst r. cbn in Hr, Hb. apply andb_true_iff in Hb as [Hd%num_not_delimiter _].
    congruence.
  - cbn in He. subst r'. cbn in Hr', Ha. apply andb_true_iff in Ha as [Hc%num_not_delimiter _].
    congruence.
  - cbn in *. apply andb_true_iff in Ha as [_ Ha], Hb as [_ Hb]. injection He as -> He.
    by destruct (IH b Ha Hb Hr Hr' He) as [-> ->].
Qed.

(** ** String literals *)

(** One escaped unit at the front of a text, and the bytes it stands for. *)
Definition hex_value (c : ascii) : Z := if digit c then code c - 48 else code c - 87.
Definition read_escape (s : string) : option (string * string) :=
  match s with
  | String c r =>
      if decide (c = "\"%char) then
        match r with
        | String "u" (String "0" (String "0" (String h (String l t)))) =>
            Some (str1 (chr (hex_value h * 16 + hex_value l)), t)
        | String "u" (String "2" (String "0" (String "2" (String l t)))) =>
            Some (bytes_str [226; 128; 160 + hex_value l], t)
        | String "b" t => Some (str1 (chr 8), t)
        | String "f" t => Some (str1 (chr 12), t)
        | String "n" t => Some (str1 (chr 10), t)
        | String "r" t => Some (str1 (chr 13), t)
        | String "t" t => Some (str1 (chr 9), t)
        | String d t => Some (str1 d, t)
        | "" => None
        end
      else if decide (c = chr 34) then None
      else Some (str1 c, r)
  | "" => None
  end.

Lemma read_escape_byte c t : read_escape (escape_byte c +:+ t) = Some (str1 c, t).
Proof. by destruct c as [[] [] [] [] [] [] [] []]. Qed.

Lemma read_escape_line d t : byte_in 168 169 d = true ->
  read_escape (("\u202" +:+ String (hex_digit (code d - 160)) t)) =
    Some (String (chr 226) (String (chr 128) (str1 d)), t).
Proof. by destruct d as [[] [] [] [] [] [] [] []]. Qed.

Lemma read_escape_quote t : read_escape (quote +:+ t) = None.
Proof. done. Qed.

(** A string is empty or starts with a unit that is read back. *)
Lemma escape_unfold s : s <> "" ->
  exists u r, s = u +:+ r /\ u <> "" /\
    forall t, read_escape (escape_string s +:+ t) = Some (u, escape_string r +:+ t).
Proof.
  destruct s as [|c s]; [done|]. intros _.
  assert (Hone : (forall t, escape_string (String c s) +:+ t =
      escape_byte c +:+ (escape_string s +:+ t)) ->
    exists u r, String c s = u +:+ r /\ u <> "" /\
    forall t, read_escape (escape_string (String c s) +:+ t) = Some (u, escape_string r +:+ t)).
  { intros He. exists (str1 c), s. split; [done|]. split; [done|]. intros t.
    by rewrite He, read_escape_byte. }
  destruct s as [|c1 [|c2 s]]; try (apply Hone; intros t; cbn [escape_string]; by rewrite str_app_assoc).
  destruct ((code c =? 226) && (code c1 =? 128) && byte_in 168 169 c2) eqn:Hl.
  - exists (String c (String c1 (str1 c2))), s. split; [done|]. split; [done|]. intros t.
    rewrite !andb_true_iff, !Z.eqb_eq in Hl. destruct Hl as [[H0 H1] H2].
    assert (c = chr 226) as -> by (unfold chr; rewrite <- H0; unfold code; by rewrite N2Z.id, ascii_N_embedding).
    assert (c1 = chr 128) as -> by (unfold chr; rewrite <- H1; unfold code; by rewrite N2Z.id, ascii_N_embedding).
    rewrite <- (read_escape_line c2 (escape_string s +:+ t) H2). f_equal.
    cbn [escape_string]. rewrite H2. done.
  - apply Hone. intros t. cbn [escape_string]. rewrite Hl. by rewrite str_app_assoc.
Qed.

Lemma escape_string_inj s s' r r' :
  escape_string s +:+ quote +:+ r = escape_string s' +:+ quote +:+ r' -> s = s' /\ r = r'.
Proof.
  revert s'. induction s as [s IH] using (induction_ltof1 _ String.length). unfold ltof in IH.
  intros s' He. destruct (decide (s = "")) as [->|Hs], (decide (s' = "")) as [->|Hs'].
  - by injection He.
  - destruct (escape_unfold s' Hs') as (u & t & _ & _ & Hu).
    specialize (Hu (quote +:+ r')). by rewrite <- He in Hu.
  - destruct (escape_unfold s Hs) as (u & t & _ & _ & Hu).
    specialize (Hu (quote +:+ r)). by rewrite He in Hu.
  - destruct (escape_unfold s Hs) as (u & t & -> & Hne & Hu).
    destruct (escape_unfold s' Hs') as (u' & t' & -> & _ & Hu').
    specialize (Hu (quote +:+ r)). rewrite He, Hu' in Hu. injection Hu as -> Ht.
    destruct (IH t) with (s' := t') as [-> ->]; [|done..].
    rewrite str_length_app. destruct u; [done|cbn; lia].
Qed.

Lemma string_text_inj s s' r r' :
  string_text s +:+ r = string_text s' +:+ r' -> s = s' /\ r = r'.
Proof.
  unfold string_text. rewrite !str_app_assoc. intros He. apply (escape_string_inj s s' r r').
  by injection He.
Qed.

(** ** Trees *)

(** What [stableJSONValue] returns for an encoded value: no literal numbers, no
    foreign values, strings in UTF-8. *)
Fixpoint text_ok (w : wire) : bool :=
  match w with
  | WNil | WBool _ => true
  | WStr s => utf8_ok s
  | WFloat b => in_u64 b
  | WArr l => forallb text_ok l
  | WObj m => map_forallb (fun _ x => text_ok x) m
  | WNumber _ | WNilObj | WOther _ => false
  end.

Definition opens (t : string) : bool :=
  match t with String c _ => negb (delimiter c) | "" => false end.

Definition items_text (ts : list string) : string := foldr comma "" ts.
Definition member_text (kt : string * string) : string := string_text (fst kt) +:+ ":" +:+ snd kt.

Lemma json_text_array l : json_text (WArr l) = "[" +:+ items_text (map json_text l) +:+ "]".
Proof.
  cbn [json_text]. do 2 f_equal. unfold items_text.
  induction l as [|x l IH]; [done|]. cbn [map foldr]. by rewrite IH.
Qed.

Lemma json_text_object m :
  json_text (WObj m) =
    "{" +:+ items_text (map member_text (sorted_entries (json_text <$> m))) +:+ "}".
Proof.
  cbn [json_text]. rewrite map_fold_fmap_eq. do 2 f_equal. unfold members_text, items_text.
  induction (sorted_entries (json_text <$> m)) as [|[k t] l IH]; [done|].
  cbn [map foldr]. by rewrite IH.
Qed.

Lemma items_text_cons t ts s :
  items_text (t :: ts) +:+ s =
    t +:+ (if decide (items_text ts = "") then s else String "," (items_text ts +:+ s)).
Proof.
  change (items_text (t :: ts)) with (comma t (items_text ts)). unfold comma.
  case_decide; [done|]. by rewrite !str_app_assoc.
Qed.

(** The items between brackets are told apart when each is where it starts. *)
Lemma items_text_inj (close : ascii) ts ts' r r' :
  delimiter close = true -> close <> ","%char ->
  (forall t t' x x', t ∈ ts -> t' ∈ ts' -> delimited x = true -> delimited x' = true ->
     t +:+ x = t' +:+ x' -> t = t' /\ x = x') ->
  (forall t, t ∈ ts -> opens t = true) -> (forall t, t ∈ ts' -> opens t = true) ->
  items_text ts +:+ String close r = items_text ts' +:+ String close r' -> ts = ts' /\ r = r'.
Proof.
  intros Hc Hcomma.
  assert (Hdel : forall u s, delimited (if decide (u = "") then String close s
      else String "," (u +:+ String close s)) = true)
    by (intros u s; case_decide; [exact Hc|done]).
  revert ts'. induction ts as [|t ts IH]; intros [|t' ts'] Hi Ho Ho' He.
  - by injection He.
  - rewrite items_text_cons in He. specialize (Ho' t' ltac:(by left)).
    destruct t' as [|d t']; [done|]. cbn in He, Ho'. injection He as <- _. by rewrite Hc in Ho'.
  - rewrite items_text_cons in He. specialize (Ho t ltac:(by left)).
    destruct t as [|d t]; [done|]. cbn in He, Ho. injection He as -> _. by rewrite Hc in Ho.
  - rewrite !items_text_cons in He. apply Hi in He as [-> He]; [|by left|by left|apply Hdel..].
    destruct (IH ts') as [-> ->]; [|by intros; apply Ho; right|by intros; apply Ho'; right| |done].
    + intros ? ? ? ? ? ?. by apply Hi; right.
    + repeat case_decide; injection He; congruence.
Qed.

Lemma json_text_opens w : text_ok w = true -> opens (json_text w) = true.
Proof.
  destruct w as [|[]|s|n|b|l|m| |t]; try done. intros _.
  destruct (float_text_bytes b) as [Hb Hne]. cbn [json_text].
  destruct (float_text b) as [|c s]; [done|]. cbn in *. apply andb_true_iff in Hb as [Hc _].
  by rewrite num_not_delimiter.
Qed.

(** A number literal starts with no byte another text starts with. *)
Lemma float_not_other b r c s : float_text b +:+ r = String c s -> num_byte c = true.
Proof.
  destruct (float_text_bytes b) as [Hb Hne]. destruct (float_text b) as [|d t]; [done|].
  cbn in *. intros [= -> _]. by apply andb_true_iff in Hb as [? _].
Qed.

Lemma sorted_member_texts m x :
  x ∈ map member_text (sorted_entries (json_text <$> m)) ->
  exists k w, m !! k = Some w /\ x = member_text (k, json_text w).
Proof.
  rewrite list_elem_of_fmap. intros ([k t] & -> & Hk).
  rewrite sorted_entries_lookup, lookup_fmap in Hk.
  apply fmap_Some in Hk as (w & Hw & ->). eauto.
Qed.

Lemma member_text_inj kt kt' r r' :
  member_text kt +:+ r = member_text kt' +:+ r' ->
  fst kt = fst kt' /\ snd kt +:+ r = snd kt' +:+ r'.
Proof.
  unfold member_text. rewrite !str_app_assoc. intros [-> He]%string_text_inj.
  split; [done|]. by injection He.
Qed.

#[export] Instance member_text_eq : Inj (=) (=) member_text.
Proof.
  intros [k t] [k' t'] He. destruct (member_text_inj (k, t) (k', t') "" "") as [Hk Ht].
  - by rewrite He.
  - cbn in Hk, Ht. rewrite !str_app_nil_r in Ht. congruence.
Qed.

(** A map is known by its sorted members. *)
Lemma sorted_members_inj (m m' : gmap string string) :
  map member_text (sorted_entries m) = map member_text (sorted_entries m') -> m = m'.
Proof.
  intros He%(inj (fmap member_text)). apply map_eq. intros k. apply option_eq. intros t.
  by rewrite <- !sorted_entries_lookup, He.
Qed.

(** The text of a tree is the text of no other tree, whatever follows it. *)
Lemma json_text_prefix w w' r r' :
  text_ok w = true -> text_ok w' = true -> delimited r = true -> delimited r' = true ->
  json_text w +:+ r = json_text w' +:+ r' -> w = w' /\ r = r'.
Proof.
  revert w' r r'. induction w as [|b|s|n|f|l IH|m IH| |t] using wire_ind';
    intros w' r r' Hw Hw' Hr Hr' He; try done;
    destruct w' as [|b'|s'|n'|f'|l'|m'| |t']; try done;
    try (exfalso; repeat match goal with b : bool |- _ => destruct b end;
         first [discriminate He|apply float_not_other in He
               |symmetry in He; apply float_not_other in He]; done).
  - by injection He.
  - destruct b, b'; try discriminate He; by injection He.
  - cbn [json_text text_ok] in *. apply utf8_ok_coerce in Hw, Hw'. rewrite Hw, Hw' in He.
    by apply string_text_inj in He as [-> ->].
  - cbn [json_text text_ok] in *.
    apply literal_ends in He as [He ->]; [|apply float_text_bytes..|done|done].
    split; [|done]. f_equal. rewrite <- (read_float_text f), <- (read_float_text f') by done.
    by rewrite He.
  - cbn [text_ok] in Hw, Hw'. rewrite forallb_forall in Hw, Hw'.
    setoid_rewrite <- list_elem_of_In in Hw. setoid_rewrite <- list_elem_of_In in Hw'.
    rewrite !json_text_array, !str_app_assoc in He. injection He as He.
    apply items_text_inj in He as [He ->]; [|done..| | |].
    + split; [|done]. f_equal. clear Hr Hr'. revert l' Hw' He.
      induction l as [|x l IHl]; intros [|x' l'] Hw' He; try done. injection He as Hx He.
      destruct (IH x) with (w' := x') (r := "") (r' := "") as [-> _];
        [by left|apply Hw; by left|apply Hw'; by left|done|done|by rewrite !str_app_nil_r|].
      f_equal. apply IHl; [intros; apply IH; [by right|done..]|intros; apply Hw; by right| |done].
      intros. apply Hw'. by right.
    + intros t t' x x' (y & -> & Hy)%list_elem_of_fmap (y' & -> & Hy')%list_elem_of_fmap Hx Hx' Ht.
      destruct (IH y Hy y' x x') as [-> ->]; auto.
    + intros t (y & -> & Hy)%list_elem_of_fmap. by apply json_text_opens, Hw.
    + intros t (y & -> & Hy)%list_elem_of_fmap. by apply json_text_opens, Hw'.
  - cbn [text_ok] in Hw, Hw'. rewrite map_forallb_true in Hw, Hw'.
    rewrite !json_text_object, !str_app_assoc in He. injection He as He.
    apply items_text_inj in He as [He ->]; [|done..| | |].
    + split; [|done]. f_equal. apply sorted_members_inj in He. apply map_eq. intros k.
      apply (f_equal (fun m => m !! k)) in He. rewrite !lookup_fmap in He.
      destruct (m !! k) as [x|] eqn:Hx, (m' !! k) as [x'|] eqn:Hx'; try done.
      injection He as He. f_equal.
      destruct (IH k x Hx x' "" "") as [-> _]; eauto. by rewrite !str_app_nil_r.
    + intros t t' x x' (k & y & Hy & ->)%sorted_member_texts
        (k' & y' & Hy' & ->)%sorted_member_texts Hx Hx' Ht.
      apply member_text_inj in Ht as [Hk Ht]. cbn in Hk, Ht. subst k'.
      destruct (IH k y Hy y' x x') as [-> ->]; eauto.
    + intros t (k & y & _ & ->)%sorted_member_texts. done.
    + intros t (k & y & _ & ->)%sorted_member_texts. done.
Qed.

Lemma json_text_inj w w' :
  text_ok w = true -> text_ok w' = true -> json_text w = json_text w' -> w = w'.
Proof.
  intros Hw Hw' He. apply (json_text_prefix w w' "" ""); try done. by rewrite !str_app_nil_r.
Qed.
