(* ===== verification/CanonicalFacts.v ===== *)
(** * The identity of a query

    The arguments of a canonical query are well formed whatever Go value they
    come from, its path is ASCII, and its token determines both: two queries
    share a token when they have the same path and the same arguments, and only
    then. *)
From S2P Require Import Prelude GoStrings GoFloat GoJson Values ValueFacts ValueCodec GoEncode EncodeFacts Paths PathFacts Canonical JsonText.
From stdpp Require Import pretty.
From Stdlib Require Import Ascii.
Local Open Scope Z_scope.
#[local] Arguments String.append !_ _ /.

(** ** Strings of a document *)

Lemma coerce_replacement s : coerce_utf8 (replacement +:+ s) = replacement +:+ coerce_utf8 s.
Proof. done. Qed.

(** What is written is valid UTF-8. *)
Lemma coerce_idem s : coerce_utf8 (coerce_utf8 s) = coerce_utf8 s.
Proof.
  induction s as [s IH] using (induction_ltof1 _ String.length). unfold ltof in IH.
  destruct s as [|c0 r0]; [done|]. cbn [coerce_utf8].
  destruct (code c0 <? 128) eqn:H0.
  { cbn [coerce_utf8]. rewrite H0, IH; [done|cbn; lia]. }
  destruct r0 as [|c1 r1]; [done|].
  destruct (byte_in 194 223 c0 && cont_byte c1) eqn:H1.
  { cbn [coerce_utf8]. rewrite H0, H1, IH; [done|cbn; lia]. }
  destruct r1 as [|c2 r2].
  { rewrite coerce_replacement, IH; [done|cbn; lia]. }
  destruct (second3 c0 c1 && cont_byte c2) eqn:H2.
  { cbn [coerce_utf8]. rewrite H0, H1, H2, IH; [done|cbn; lia]. }
  destruct r2 as [|c3 r3].
  { rewrite coerce_replacement, IH; [done|cbn; lia]. }
  destruct (second4 c0 c1 && cont_byte c2 && cont_byte c3) eqn:H3.
  { cbn [coerce_utf8]. rewrite H0, H1, H2, H3, IH; [done|cbn; lia]. }
  rewrite coerce_replacement, IH; [done|cbn; lia].
Qed.

(** ** What the encoder returns *)

Fixpoint goval_size (v : goval) : nat :=
  match v with
  | GPtr (Some x) => S (goval_size x)
  | GSeq l => S (sum_list (map goval_size l))
  | GMap (Some m) => S (map_total goval_size m)
  | GStruct fields => S (sum_list (map (fun fx => goval_size (snd fx)) fields))
  | _ => 1
  end.

(** No number of the tree is a literal. *)
Fixpoint plain_wire (w : wire) : bool :=
  match w with
  | WNumber _ => false
  | WArr l => forallb plain_wire l
  | WObj m => map_forallb (fun _ x => plain_wire x) m
  | _ => true
  end.

Lemma plain_array l : plain_wire (WArr l) = true <-> forall x, x ∈ l -> plain_wire x = true.
Proof. cbn. rewrite forallb_forall. by setoid_rewrite list_elem_of_In. Qed.
Lemma plain_object m :
  plain_wire (WObj m) = true <-> forall k x, m !! k = Some x -> plain_wire x = true.
Proof. cbn. by rewrite map_forallb_true. Qed.

Lemma plain_singleton k s : plain_wire (WObj {[k := WStr s]}) = true.
Proof. apply plain_object. intros i x [_ <-]%lookup_singleton_Some. done. Qed.

Lemma plain_float f : plain_wire (encodedFloat64 f) = true.
Proof. unfold encodedFloat64. destruct (isSpecialFloat f); [apply plain_singleton|done]. Qed.

Lemma plain_convex v w : ConvexJSON v = Ok w -> plain_wire w = true.
Proof.
  revert w. induction v as [|n|f|b|s|d|l IH|m IH] using value_ind'; intros w Hw;
    cbn [ConvexJSON] in Hw; inv_ok; try done; try apply plain_singleton.
  - apply plain_float.
  - apply plain_array. intros x [i Hi]%list_elem_of_lookup. apply mapM_Ok in Ha.
    destruct (Forall2_lookup_r _ _ _ _ _ Ha Hi) as (y & Hy & Hx).
    eapply IH; [|exact Hx]. by eapply list_elem_of_lookup_2.
  - apply plain_object. intros k x Hx. pose proof (map_traverse_Ok_lookup _ _ _ Ha k) as Hk.
    destruct (m !! k) as [y|] eqn:Hy; [|congruence]. destruct Hk as (x' & Hx' & He).
    inv_ok. eapply IH; [exact Hy|]. congruence.
Qed.

Lemma plain_number n w : encodeJSONNumber n = Ok w -> plain_wire w = true.
Proof.
  destruct n as [l|s]; cbn; [|done].
  repeat case_match; intros; inv_ok; first [done|apply plain_float|apply plain_singleton].
Qed.

Lemma collect_entries_plain (l : list (string * result value_error wire)) out out' :
  (forall k w, (k, Ok w) ∈ l -> plain_wire w = true) -> plain_wire (WObj out) = true ->
  collect_entries out l = Ok out' -> plain_wire (WObj out') = true.
Proof.
  revert out. induction l as [|[k r] l IH]; intros out Hl Ho Hc; cbn in Hc; [by injection Hc as <-|].
  inv_ok. eapply IH; [|..|exact Hc]; [intros i w Hi; eapply Hl; right; exact Hi|].
  apply plain_object. intros i x [[<- <-]|[_ Hx]]%lookup_insert_Some.
  - eapply (Hl k). by left.
  - by eapply (proj1 (plain_object out) Ho).
Qed.

Lemma struct_field_plain out f x enc path out' :
  (forall p w, enc p = Ok w -> plain_wire w = true) -> plain_wire (WObj out) = true ->
  encodeStructField out f x enc path = Ok out' -> plain_wire (WObj out') = true.
Proof.
  intros He Ho. unfold encodeStructField.
  destruct (_ && _); [intros; by inv_ok|]. destruct (jsonField (fld_tag f)) as [[name omit] skip].
  destruct skip; [intros; by inv_ok|]. destruct (_ && _); [intros; by inv_ok|].
  intros H. apply bind_Ok in H as (merged & Hm & H). destruct merged as [entries|]; inv_ok.
  - apply plain_object. intros k y Hy. destruct (fld_anonymous f && _); [|discriminate Hm]. inv_ok.
    apply lookup_union_Some_raw in Hy as [Hy|[_ Hy]]; [|by eapply (proj1 (plain_object out) Ho)].
    apply He in Ha. destruct a; try discriminate Hm; injection Hm as <-.
    + by eapply (proj1 (plain_object m) Ha).
    + done.
  - apply plain_object. intros k y [[_ <-]|[_ Hy]]%lookup_insert_Some; [by eapply He|].
    by eapply (proj1 (plain_object out) Ho).
Qed.

Lemma encodeValue_plain v path w : encodeValue v path = Ok w -> plain_wire w = true.
Proof.
  revert path w. induction v as [v IH] using (induction_ltof1 _ goval_size). unfold ltof in IH.
  intros path w Hw.
  destruct v as [|[x|]|x|f|n|d|n|b|s|n|n|f|l|[m|]|isnil|fields|t]; cbn [encodeValue] in Hw;
    try (inv_ok; first [done|apply plain_float|apply plain_singleton]).
  - eapply IH; [|exact Hw]. cbn. lia.
  - by eapply plain_convex.
  - by eapply plain_number.
  - unfold encodeUint in Hw. destruct (_ <? _); inv_ok. apply plain_singleton.
  - inv_ok. apply plain_array. revert Ha. generalize 0%nat.
    assert (Hl : forall x, x ∈ l -> forall p w, encodeValue x p = Ok w -> plain_wire w = true).
    { intros x Hx p w. apply IH. cbn. pose proof (sum_list_In goval_size _ _ Hx). lia. }
    clear IH. revert a. induction l as [|x l IHl]; intros a i Ha y Hy; inv_ok.
    + by apply not_elem_of_nil in Hy.
    + apply elem_of_cons in Hy as [->|Hy]; [by eapply (Hl x); [left|]|].
      eapply IHl; [|exact Ha1|exact Hy]. intros z Hz. apply Hl. by right.
  - unfold encodeMapEntries in Hw. inv_ok.
    eapply (collect_entries_plain _ ∅); [|done|exact Ha].
    intros k w Hk. apply sorted_entries_lookup in Hk. rewrite encoded_entries_lookup in Hk.
    apply fmap_Some in Hk as (x & Hx & He). symmetry in He. eapply IH; [|exact He].
    cbn. pose proof (map_total_le goval_size _ _ _ Hx). lia.
  - destruct isnil; by inv_ok.
  - inv_ok.
    assert (Hl : forall f x, (f, x) ∈ fields -> forall p w, encodeValue x p = Ok w ->
      plain_wire w = true).
    { intros f x Hx p w. apply IH. cbn.
      pose proof (sum_list_In (fun fx => goval_size (snd fx)) _ _ Hx) as Hs. cbn in Hs. lia. }
    clear IH. match type of Ha with _ ?e fields = _ =>
      assert (Ho : plain_wire (WObj e) = true) by done; revert Ho Ha; generalize e end.
    induction fields as [|[f x] fields IHl]; intros out Ho Ha; inv_ok; [done|].
    eapply IHl; [| |exact Ha].
    + intros g y Hy. apply (Hl g). by right.
    + eapply struct_field_plain; [|exact Ho|exact Ha0]. apply (Hl f). by left.
Qed.

(** ** Through JSON text *)

Lemma format_float_nonneg b : 0 <= num_coef (format_float b).
Proof.
  unfold format_float. destruct (Z.eqb_spec (f_abs b) 0) as [Hz|Hz]; [done|].
  destruct (shortest_decimal (f_abs b)) as [c p] eqn:Hs.
  pose proof (shortest_decimal_pos _ _ _ (f_abs_idem b) Hz Hs).
  destruct (_ && _); cbn; [|lia]. apply Z.mul_nonneg_nonneg; [lia|]. apply Z.pow_nonneg. lia.
Qed.

(** Every string of the tree is valid UTF-8. *)
Fixpoint utf8_wire (w : wire) : bool :=
  match w with
  | WStr s => utf8_ok s
  | WArr l => forallb utf8_wire l
  | WObj m => map_forallb (fun _ x => utf8_wire x) m
  | _ => true
  end.

Lemma marshal_decoded w j : plain_wire w = true -> marshal w = Ok j ->
  wf_wire (decode_any j) = true /\ utf8_wire (decode_any j) = true.
Proof.
  revert j. induction w as [|b|s|n|f|l IH|m IH| |t] using wire_ind'; intros j Hp Hj;
    cbn [marshal] in Hj; try done.
  - by injection Hj as <-.
  - by injection Hj as <-.
  - injection Hj as <-. split; [done|]. apply bool_decide_eq_true, coerce_idem.
  - destruct (is_finite f); [|done]. injection Hj as <-. split; [|done]. cbn.
    apply Z.leb_le, format_float_nonneg.
  - inv_ok. apply mapM_Ok in Ha. cbn [decode_any wf_wire utf8_wire].
    rewrite !forallb_forall. setoid_rewrite <- list_elem_of_In.
    assert (H : forall y, y ∈ map decode_any a -> wf_wire y = true /\ utf8_wire y = true);
      [|split; intros y Hy; by apply H].
    intros y (x & -> & [i Hi]%list_elem_of_lookup)%list_elem_of_fmap.
    destruct (Forall2_lookup_r _ _ _ _ _ Ha Hi) as (w & Hw & Hx).
    apply list_elem_of_lookup_2 in Hw. apply (IH w); [done| |done].
    by apply (proj1 (plain_array l)).
  - inv_ok. rewrite decode_any_obj. cbn [wf_wire utf8_wire]. rewrite !map_forallb_true.
    assert (H : forall k y, (decode_any <$> a) !! k = Some y ->
      wf_wire y = true /\ utf8_wire y = true); [|split; intros k y Hy; by eapply H].
    intros k y. rewrite lookup_fmap. intros (x & Hx & ->)%fmap_Some.
    pose proof (map_traverse_Ok_lookup _ _ _ Ha k) as Hk.
    destruct (m !! k) as [w|] eqn:Hw; [|congruence]. destruct Hk as (x' & Hx' & He).
    rewrite Hx in Hx'. injection Hx' as <-. apply (IH k w); [done| |done].
    by apply (proj1 (plain_object m) Hp k).
  - by injection Hj as <-.
Qed.

Lemma singleton_utf8 k raw v : valueFromWireSingleton k raw = Some (Ok v) -> utf8_value v = true.
Proof. unfold valueFromWireSingleton. repeat case_decide; try done; intros [= Hr]; by inv_ok. Qed.

Lemma decoded_utf8 w v : utf8_wire w = true -> valueFromWire w = Ok v -> utf8_value v = true.
Proof.
  revert v. induction w as [|b|s|n|f|l IH|m IH| |t] using wire_ind'; intros v Hw Hv;
    try (by injection Hv as <-); try done.
  - cbn in Hv. unfold valueFromJSONNumber in Hv. destruct (number_float n); by inv_ok.
  - cbn [valueFromWire] in Hv. inv_ok. apply utf8_array. apply mapM_Ok in Ha.
    cbn in Hw. rewrite forallb_forall in Hw. setoid_rewrite <- list_elem_of_In in Hw.
    intros x [i Hi]%list_elem_of_lookup.
    destruct (Forall2_lookup_r _ _ _ _ _ Ha Hi) as (w & Hl%list_elem_of_lookup_2 & Hx).
    by eapply IH; [|apply Hw|].
  - apply valueFromWire_object in Hv as [(k & raw & _ & Hs)|(_ & out & -> & Hout)].
    + by eapply singleton_utf8.
    + apply utf8_object. intros k x Hx. specialize (Hout k).
      cbn in Hw. rewrite map_forallb_true in Hw.
      destruct (m !! k) as [w|] eqn:Hmk; [|congruence].
      destruct Hout as (x' & Hx' & _ & Hd). rewrite Hx in Hx'. injection Hx' as <-.
      by eapply IH; [|by eapply Hw|].
Qed.

Lemma encodeArgs_plain args w : encodeArgs args = Ok w -> plain_wire w = true.
Proof.
  unfold encodeArgs. intros H.
  destruct args; first [by injection H as <-|apply bind_Ok in H as (e & He & H)];
    apply encodeValue_plain in He; destruct e; by inv_ok.
Qed.

(** The arguments of a canonical query are a well-formed value, whatever Go
    value they are made of. *)
Lemma syncQueryArgValue_wf args v : syncQueryArgValue args = Ok v ->
  wf_value v = true /\ utf8_value v = true.
Proof.
  unfold syncQueryArgValue, valueFromWireJSON. intros Hv. inv_ok.
  pose proof (encodeArgs_plain _ _ Ha) as Hp.
  destruct (marshal_decoded a a0 Hp Ha0) as [Hw Hu]. split.
  - by apply (decoded_wf (decode_any a0)).
  - by apply (decoded_utf8 (decode_any a0)).
Qed.

(** ** Tokens *)

Lemma text_ok_singleton k s : coerce_utf8 s = s -> text_ok (WObj {[k := WStr s]}) = true.
Proof.
  intros Hs. cbn [text_ok]. apply map_forallb_true. intros i x [_ <-]%lookup_singleton_Some.
  by apply utf8_ok_coerce.
Qed.

Lemma convex_text_ok v w : wf_value v = true -> utf8_value v = true ->
  ConvexJSON v = Ok w -> text_ok w = true.
Proof.
  revert w. induction v as [|n|f|b|s|d|l IH|m IH] using value_ind'; intros w Hv Hu Hw;
    cbn [ConvexJSON] in Hw; inv_ok; try done;
    try (apply text_ok_singleton, coerce_std).
  - unfold encodedFloat64. destruct (isSpecialFloat f); [|done].
    apply text_ok_singleton, coerce_std.
  - cbn [text_ok]. rewrite forallb_forall. setoid_rewrite <- list_elem_of_In.
    intros x [i Hi]%list_elem_of_lookup. apply mapM_Ok in Ha.
    destruct (Forall2_lookup_r _ _ _ _ _ Ha Hi) as (y & Hy%list_elem_of_lookup_2 & Hx).
    rewrite wf_array in Hv. rewrite utf8_array in Hu. eapply IH; eauto.
  - cbn [text_ok]. apply map_forallb_true. intros k x Hx.
    pose proof (map_traverse_Ok_lookup _ _ _ Ha k) as Hk.
    destruct (m !! k) as [y|] eqn:Hy; [|congruence]. destruct Hk as (x' & Hx' & He). inv_ok.
    rewrite wf_object in Hv. rewrite utf8_object in Hu. destruct (Hv k y Hy) as [_ Hwy].
    rewrite Hx in Hx'. injection Hx' as <-. eapply IH; eauto.
Qed.

Lemma stable_same w w' : text_ok w = true -> stableJSONValue w = Ok w' -> w' = w.
Proof.
  revert w'. induction w as [|b|s|n|f|l IH|m IH| |t] using wire_ind'; intros w' Hw Hs;
    cbn [stableJSONValue] in Hs; inv_ok; try done.
  - f_equal. cbn [text_ok] in Hw. rewrite forallb_forall in Hw.
    setoid_rewrite <- list_elem_of_In in Hw. apply mapM_Ok in Ha.
    induction Ha as [|x y l a Hx Ha IHa]; [done|]. f_equal.
    + apply IH; [by left|apply Hw; by left|done].
    + apply IHa; [intros; apply IH; [by right|done..]|intros; apply Hw; by right].
  - f_equal. cbn [text_ok] in Hw. rewrite map_forallb_true in Hw. apply map_eq. intros k.
    pose proof (map_traverse_Ok_lookup _ _ _ Ha k) as Hk.
    destruct (m !! k) as [x|] eqn:Hx; [|done]. destruct Hk as (y & -> & Hy). f_equal.
    by apply (IH k); [|eapply Hw|].
Qed.

(** The token of a path and a well-formed argument is the text of both. *)
Lemma query_token_text path v tok :
  utf8_ok path = true -> wf_value v = true -> utf8_value v = true ->
  query_token path v = Ok tok ->
  exists w, ConvexJSON v = Ok w /\
    let tree := WObj {["udfPath" := WStr path; "args" := WArr [w]]} in
    text_ok tree = true /\ tok = json_text tree.
Proof.
  unfold query_token, stableJSON. intros Hp Hv Hu H. inv_ok. exists a. split; [done|].
  assert (Hok : text_ok (WObj {["udfPath" := WStr path; "args" := WArr [a]]}) = true).
  { pose proof (convex_text_ok _ _ Hv Hu Ha) as Hw. cbn [text_ok]. apply map_forallb_true.
    intros k y [[_ <-]|[_ [_ <-]%lookup_singleton_Some]]%lookup_insert_Some; [done|].
    cbn. by rewrite Hw. }
  split; [exact Hok|]. f_equal. exact (stable_same _ _ Hok Ha0).
Qed.

Lemma tree_inj p p' w w' :
  WObj {["udfPath" := WStr p; "args" := WArr [w]]} =
    WObj {["udfPath" := WStr p'; "args" := WArr [w']]} -> p = p' /\ w = w'.
Proof.
  intros Hm. assert (Hm' : ({["udfPath" := WStr p; "args" := WArr [w]]} : gmap string wire) =
    {["udfPath" := WStr p'; "args" := WArr [w']]}) by congruence. clear Hm.
  pose proof (f_equal (lookup "udfPath") Hm') as Hp.
  pose proof (f_equal (lookup "args") Hm') as Ha.
  rewrite !lookup_insert_eq in Hp. rewrite !lookup_insert_ne, !lookup_singleton_eq in Ha by done.
  split; congruence.
Qed.

Lemma query_token_inj path path' v v' tok :
  utf8_ok path = true -> utf8_ok path' = true ->
  wf_value v = true -> utf8_value v = true -> wf_value v' = true -> utf8_value v' = true ->
  query_token path v = Ok tok -> query_token path' v' = Ok tok -> path = path' /\ v = v'.
Proof.
  intros Hp Hp' Hv Hu Hv' Hu' H H'.
  destruct (query_token_text _ _ _ Hp Hv Hu H) as (w & Hw & Hok & Ht).
  destruct (query_token_text _ _ _ Hp' Hv' Hu' H') as (w' & Hw' & Hok' & Ht').
  rewrite Ht in Ht'. apply (json_text_inj _ _ Hok Hok'), tree_inj in Ht' as [-> ->].
  split; [done|].
  destruct (value_round v Hv) as (x & Hx & Hd), (value_round v' Hv') as (x' & Hx' & Hd').
  congruence.
Qed.

(** ** Paths *)

Definition ascii_bytes (s : string) : bool := all_bytes (byte_in 0 127) s.

Lemma all_bytes_imp (f g : ascii -> bool) s :
  (forall c, f c = true -> g c = true) -> all_bytes f s = true -> all_bytes g s = true.
Proof.
  intros Hfg. induction s as [|c s IH]; [done|]. cbn.
  intros [Hc Hs]%andb_true_iff. by rewrite Hfg, IH.
Qed.

Lemma module_byte_ascii c : module_byte c = true -> byte_in 0 127 c = true.
Proof. by destruct c as [[] [] [] [] [] [] [] []]; vm_compute. Qed.
Lemma ident_byte_ascii c : ident_byte c = true -> byte_in 0 127 c = true.
Proof. by destruct c as [[] [] [] [] [] [] [] []]; vm_compute. Qed.

Lemma ident_ascii s : identifier s -> ascii_bytes s = true.
Proof. intros (_ & Hb & _). by apply (all_bytes_imp ident_byte), Hb; apply ident_byte_ascii. Qed.

Lemma module_ascii m : module_path m -> ascii_bytes m = true.
Proof.
  intros [Hp _]. rewrite <- (join_split "/" m).
  induction Hp as [|p parts (_ & Hb & _) Hp IH]; [done|].
  assert (Hpa : ascii_bytes p = true) by (by apply (all_bytes_imp module_byte), Hb; apply module_byte_ascii).
  cbn [join_with]. destruct parts; [done|]. unfold ascii_bytes in *.
  rewrite all_bytes_app, Hpa. cbn [all_bytes]. by rewrite IH.
Qed.

Lemma trim_suffix_ascii s p : ascii_bytes s = true -> ascii_bytes (trim_suffix s p) = true.
Proof.
  intros Hs. unfold trim_suffix. destruct (has_suffix p s) eqn:Hp; [|done].
  unfold ascii_bytes in *.
  rewrite <- (take_drop_bytes (String.length s - String.length p) s), all_bytes_app in Hs.
  by apply andb_true_iff in Hs as [? _].
Qed.

Lemma canonicalQueryPath_utf8 path p : canonicalQueryPath path = Ok p -> utf8_ok p = true.
Proof.
  unfold canonicalQueryPath. intros H. inv_ok. apply utf8_ok_coerce, coerce_ascii.
  pose proof (ParseUDFPath_wf _ _ Ha0) as Hw. destruct Hw as [Hm Hf].
  unfold syncWireUDFPath. rewrite !all_bytes_app, !andb_true_iff. split; [|split; [done|]].
  - apply trim_suffix_ascii. cbn. rewrite canonical_raw_stem by done.
    unfold ascii_bytes. rewrite all_bytes_app, andb_true_iff. split; [|done].
    by apply trim_suffix_ascii, module_ascii.
  - by apply ident_ascii, canonical_function_ident.
Qed.

(** ** Queries *)

Lemma canonicalQuery_parts path args p l tok : canonicalQuery path args = Ok (p, l, tok) ->
  utf8_ok p = true /\ exists v, l = [v] /\ wf_value v = true /\ utf8_value v = true /\
    query_token p v = Ok tok.
Proof.
  unfold canonicalQuery. intros H. apply bind_Ok in H as (q & Hq & H).
  apply map_err_Ok in H. apply bind_Ok in H as (v & Hv & H). apply bind_Ok in H as (t & Ht & H).
  injection H as -> <- ->. split; [by eapply canonicalQueryPath_utf8|].
  exists v. split; [done|]. by destruct (syncQueryArgValue_wf _ _ Hv).
Qed.

Lemma canonicalRequest_parts path args p l : canonicalRequest path args = Ok (p, l) ->
  utf8_ok p = true /\ exists v, l = [v] /\ wf_value v = true /\ utf8_value v = true.
Proof.
  unfold canonicalRequest. intros H. apply bind_Ok in H as (q & Hq & H).
  apply bind_Ok in H as (v & Hv%map_err_Ok & H). injection H as -> <-.
  split; [by eapply canonicalQueryPath_utf8|]. exists v. split; [done|].
  by apply (syncQueryArgValue_wf args).
Qed.

Lemma canonicalQuery_token path args p l tok path' args' p' l' tok' :
  canonicalQuery path args = Ok (p, l, tok) -> canonicalQuery path' args' = Ok (p', l', tok') ->
  tok = tok' <-> p = p' /\ l = l'.
Proof.
  intros (Hp & v & -> & Hv & Hu & Ht)%canonicalQuery_parts
    (Hp' & v' & -> & Hv' & Hu' & Ht')%canonicalQuery_parts. split.
  - intros <-. destruct (query_token_inj p p' v v' tok) as [-> ->]; done.
  - intros [-> [= ->]]. congruence.
Qed.

(** A canonical query has well-formed arguments, one value whatever Go value
    they come from, and its token stands for its path and arguments: two
    queries, however their paths are spelled and their arguments are built, get
    the same token exactly when they have the same canonical path and the same
    arguments. *)
Theorem query_token_identity path args p l tok path' args' p' l' tok' :
  canonicalQuery path args = Ok (p, l, tok) -> canonicalQuery path' args' = Ok (p', l', tok') ->
  (tok = tok' <-> p = p' /\ l = l') /\ exists v, l = [v] /\ wf_value v = true.
Proof.
  intros H H'. split; [by eapply canonicalQuery_token|].
  destruct (canonicalQuery_parts _ _ _ _ _ H) as (_ & v & -> & Hv & _). eauto.
Qed.

Definition sample_args (n : Z) : goval := GMap (Some {["n" := GInt n; "s" := GString "a<b"]}).
Definition sample_query (path : string) (n : Z) : string * list Value * string :=
  match canonicalQuery path (sample_args n) with Ok q => q | Err _ => ("", [], "") end.

Lemma query_token_identity_witness :
  snd (sample_query "api.messages.list" 1) = snd (sample_query "messages.js:list" 1) /\
  snd (sample_query "messages:list" 1) <> snd (sample_query "messages:list" 2).
Proof.
  set (parts := fun q : string * list Value * string => (fst (fst q), snd (fst q), snd q)).
  assert (Hq : forall path n, In (path, n) [("api.messages.list", 1); ("messages.js:list", 1);
      ("messages:list", 1); ("messages:list", 2)] ->
    canonicalQuery path (sample_args n) = Ok (parts (sample_query path n))).
  { intros path n Hin. repeat destruct Hin as [[= <- <-]|Hin]; [vm_compute; reflexivity..|done]. }
  split.
  - apply (query_token_identity _ _ _ _ _ _ _ _ _ _
      (Hq "api.messages.list" 1 ltac:(cbn; tauto)) (Hq "messages.js:list" 1 ltac:(cbn; tauto))).
    vm_compute. split; reflexivity.
  - rewrite (proj1 (query_token_identity _ _ _ _ _ _ _ _ _ _
      (Hq "messages:list" 1 ltac:(cbn; tauto)) (Hq "messages:list" 2 ltac:(cbn; tauto)))).
    intros [_ H]. vm_compute in H. discriminate H.
Defined.
