(* ===== verification/MessageDecode.v ===== *)
(** * What the decoders of the protocol accept

    The converse of the round trips of MessageCodec: a message that one of the
    two discriminated decoders returns is well formed, whatever the document, so
    it is encoded, and reads back as itself.  A document is what the reader of
    JSON text returns: its strings are valid UTF-8 and its numerals have a
    magnitude. *)
From S2P Require Import Prelude GoStrings GoFloat GoJson Values ValueFacts ValueCodec Protocol ClientMessages ServerMessages CanonicalFacts ProtocolFacts MessageCodec.
Local Open Scope Z_scope.

(** ** Documents *)

Fixpoint document_ok (j : json) : bool :=
  match j with
  | JStr s => utf8_ok s
  | JNum n => 0 <=? num_coef n
  | JArr l => forallb document_ok l
  | JObj m => map_forallb (fun _ x => document_ok x) m
  | _ => true
  end.

Lemma document_utf8 j : document_ok j = true -> utf8_json j = true.
Proof.
  induction j as [|b|n|s|l IH|m IH] using json_ind'; cbn; try done.
  - rewrite !forallb_forall. intros H x Hx. apply IH; [by apply list_elem_of_In|by apply H].
  - rewrite !map_forallb_true. intros H k x Hx. by eapply IH, H.
Qed.

Lemma document_wire j : document_ok j = true ->
  wf_wire (decode_any j) = true /\ utf8_wire (decode_any j) = true.
Proof.
  induction j as [|b|n|s|l IH|m IH] using json_ind'; intros Hj; try done.
  - cbn [decode_any wf_wire utf8_wire]. cbn in Hj. rewrite !forallb_forall in *.
    split; intros w (x & <- & Hx)%in_map_iff; (apply IH; [by apply list_elem_of_In|by apply Hj]).
  - rewrite decode_any_obj. cbn [wf_wire utf8_wire]. cbn in Hj. rewrite !map_forallb_true in *.
    split; intros k w; rewrite lookup_fmap; intros (x & Hx & ->)%fmap_Some; by eapply IH, Hj.
Qed.

(** ** Members

    [Yields u P]: what [u] returns on a document satisfies [P]. *)
Class Yields {A : Type} (u : json -> result proto_error A) (P : A -> bool) : Prop :=
  yields j a : document_ok j = true -> u j = Ok a -> P a = true.

#[export] Instance string_yields : Yields unmarshal_string utf8_ok.
Proof. intros [] a Hj; cbn; try discriminate; by intros [= <-]. Qed.

#[export] Instance uint32_yields : Yields unmarshal_uint32 in_u32.
Proof.
  intros [] a Hj; cbn; try discriminate; [by intros [= <-]|].
  unfold parse_uint. destruct (num_int n && negb (num_neg n)); cbn [andb]; [|discriminate].
  destruct (Z.ltb_spec (num_coef n) (2 ^ 32)); [|discriminate]. intros [= <-]. cbn in Hj.
  apply in_u32_spec. lia.
Qed.

#[export] Instance int64_yields : Yields unmarshal_int64 in_i64.
Proof.
  intros [] a Hj; cbn; try discriminate; [by intros [= <-]|].
  unfold parse_int64. destruct (num_int n); cbn [andb]; [|discriminate].
  destruct (in_i64 (numeral_int n)) eqn:H; [|discriminate]. by intros [= <-].
Qed.

Lemma parse_float_finite n b : 0 <= num_coef n -> parse_float n = Some b -> is_finite b = true.
Proof.
  intros Hc. unfold parse_float, round_decimal.
  pose proof (round_ratio_nonneg (num_top (num_coef n) (num_exp n)) (num_bot (num_exp n))) as Hr.
  assert (0 < 10 ^ Z.max (num_exp n) 0) by (apply Z.pow_pos_nonneg; lia).
  assert (0 < 10 ^ Z.max (- num_exp n) 0) by (apply Z.pow_pos_nonneg; lia).
  unfold num_top, num_bot in *. specialize (Hr ltac:(nia) ltac:(lia)).
  set (r := round_ratio _ _) in *. destruct (Z.ltb_spec r inf_bits) as [Hlt|]; [|discriminate].
  intros [= <-]. unfold is_finite, inf_bits, with_sign, f_exp in *.
  apply negb_true_iff, Z.eqb_neq. destruct (num_neg n); Z.to_euclidean_division_equations; lia.
Qed.

#[export] Instance float64_yields : Yields unmarshal_float64 finite_ok.
Proof.
  intros [] a Hj; cbn -[parse_float]; try discriminate; [by intros [= <-]|].
  destruct (parse_float n) as [b|] eqn:Hp; [|discriminate]. intros [= <-]. cbn in Hj.
  unfold finite_ok. rewrite (parse_float_range n b), (parse_float_finite n b); [done|lia|done|lia|done].
Qed.

#[export] Instance timestamp_yields : Yields SyncTimestamp_UnmarshalJSON timestamp_ok.
Proof. intros j a _. apply timestamp_decoded_ok. Qed.

#[export] Instance value_yields : Yields unmarshal_value value_ok.
Proof.
  intros j v [Hw Hu]%document_wire Hv%map_err_Ok. unfold value_ok.
  by rewrite (decoded_wf (decode_any j) v), (decoded_utf8 (decode_any j) v).
Qed.

#[export] Instance pointer_yields {A : Type} (u : json -> result proto_error A) P :
  Yields u P -> Yields (unmarshal_pointer u) (opt_ok P).
Proof.
  intros H j o Hj. unfold unmarshal_pointer.
  destruct j; [by intros [= <-]|..]; intros (a & Ha & [= <-])%bind_Ok; by eapply H.
Qed.

#[export] Instance slice_yields {A : Type} (u : json -> result proto_error A) P :
  Yields u P -> Yields (unmarshal_slice u) (fun l => forallb P (default [] l)).
Proof.
  intros H [] o Hj; try discriminate; [by intros [= <-]|]. intros (l' & Hl & [= <-])%bind_Ok.
  apply mapM_Ok in Hl. cbn in Hj |- *. revert Hj.
  induction Hl as [|j a l l' Ha Hl IH]; [done|]. cbn. intros [Hj Hr]%andb_true_iff.
  rewrite IH by done. by rewrite (H j a Hj Ha).
Qed.

Lemma indexed_yields {A : Type} (u : json -> result proto_error A) P i l ms :
  Yields u P -> forallb document_ok l = true -> decode_indexed u i l = Ok ms -> forallb P ms = true.
Proof.
  intros H. revert i ms. induction l as [|j l IH]; intros i ms; [by intros _ [= <-]|].
  cbn. intros [Hj Hl]%andb_true_iff (a & Ha%map_err_Ok & (ms' & Hms & [= <-])%bind_Ok)%bind_Ok.
  cbn. rewrite (IH _ _ Hl Hms). by rewrite (H j a Hj Ha).
Qed.

Lemma raw_list l l' : mapM unmarshal_raw l = Ok l' -> l' = l.
Proof. intros H%mapM_Ok. induction H as [|x y l l' [= <-] _ IH]; [done|]. by f_equal. Qed.

(** The members of an object, and the ways they are read. *)
Definition members_ok (raw : gmap string json) : Prop :=
  forall k j, raw !! k = Some j -> document_ok j = true.

Lemma rawObject_ok j raw : document_ok j = true -> rawObject j = Ok raw -> members_ok raw.
Proof.
  intros Hj. destruct j; cbn; try discriminate; intros [= <-]; intros k j Hk; [by rewrite lookup_empty in Hk|].
  cbn in Hj. rewrite map_forallb_true in Hj. by eapply Hj.
Qed.

Section members.
Context {raw : gmap string json} (Hraw : members_ok raw).

Lemma field_yields {A : Type} (P : A -> bool) k u `{!Yields u P} zero a :
  P zero = true -> unmarshalExactField raw k u zero = Ok a -> P a = true.
Proof.
  intros Hz. unfold unmarshalExactField. destruct (raw !! k) as [j|] eqn:Hk; [|by intros [= <-]].
  intros Hu%map_err_Ok. apply (yields j); [by apply (Hraw k)|done].
Qed.

Lemma opt_string_yields k o : optionalStringFromRaw raw k = Ok o -> opt_string_ok o = true.
Proof.
  unfold optionalStringFromRaw. destruct (raw !! k) as [j|] eqn:Hk; [|by intros [= <-]].
  destruct (rawIsNull j); [by intros [= <-]|]. intros (s & Hs%map_err_Ok & [= <-])%bind_Ok.
  apply (string_yields j); [by apply (Hraw k)|done].
Qed.

Lemma opt_value_yields k o : optionalValueFromRaw raw k = Ok o -> opt_value_ok o = true.
Proof.
  unfold optionalValueFromRaw. destruct (raw !! k) as [j|] eqn:Hk; [|by intros [= <-]].
  destruct (rawIsNull j); [by intros [= <-]|]. intros (s & Hs%map_err_Ok & [= <-])%bind_Ok.
  apply (value_yields j); [by apply (Hraw k)|done].
Qed.

Lemma optional_yields {A : Type} (P : A -> bool) k u `{!Yields u P} o b :
  optionalFromRaw u raw k = Ok (o, b) -> opt_ok P o = true /\ present_ok b o = true.
Proof.
  unfold optionalFromRaw. destruct (raw !! k) as [j|] eqn:Hk; [|by intros [= <- <-]].
  destruct (rawIsNull j); [by intros [= <- <-]|]. intros (a & Ha & [= <- <-])%bind_Ok.
  split; [|done]. change (P a = true). apply (yields j); [by apply (Hraw k)|done].
Qed.

Lemma result_yields {A : Type} (P : A -> bool) k u `{!Yields u P} a :
  unmarshal_result u (raw !! k) = Ok a -> P a = true.
Proof. destruct (raw !! k) as [j|] eqn:Hk; [|discriminate]. intros Hu. apply (yields j); [by apply (Hraw k)|done]. Qed.
End members.

#[export] Instance map_err_yields {A : Type} (u : json -> result proto_error A) f P :
  Yields u P -> Yields (fun j => map_err f (u j)) P.
Proof. intros H j a Hj Ha%map_err_Ok. by eapply H. Qed.

(** What every member of a message that has been read satisfies. *)
Ltac members Hraw :=
  repeat match goal with
  | H : unmarshalExactField _ _ ?u ?z = Ok ?a |- _ =>
      let Y := fresh "Y" in
      eassert (Y : Yields u _) by apply _;
      apply (field_yields Hraw _ _ u z a eq_refl) in H; clear Y
  | H : optionalStringFromRaw _ _ = Ok _ |- _ => apply (opt_string_yields Hraw) in H
  | H : optionalValueFromRaw _ _ = Ok _ |- _ => apply (opt_value_yields Hraw) in H
  end.

(** ** Messages of the client *)

#[export] Instance add_yields : Yields Add_UnmarshalJSON add_ok.
Proof.
  intros j m Hj H. unfold Add_UnmarshalJSON in H. inv_ok. pose proof (rawObject_ok _ _ Hj Ha) as Hraw.
  members Hraw. unfold add_ok. cbn. unfold values_ok. by rewrite Ha0, Ha1, Ha2, Ha3, Ha4.
Qed.

#[export] Instance remove_yields : Yields Remove_UnmarshalJSON in_u32.
Proof.
  intros j m Hj H. unfold Remove_UnmarshalJSON in H. inv_ok. pose proof (rawObject_ok _ _ Hj Ha) as Hraw.
  by members Hraw.
Qed.

#[export] Instance query_set_modification_yields : Yields decodeQuerySetModification modification_ok.
Proof.
  intros j m Hj H. unfold decodeQuerySetModification in H. inv_ok. repeat case_decide; inv_ok.
  - by apply (add_yields j).
  - by apply (remove_yields j).
Qed.

#[export] Instance modify_yields : Yields ModifyQuerySet_UnmarshalJSON modify_ok.
Proof.
  intros j m Hj H. unfold ModifyQuerySet_UnmarshalJSON in H. inv_ok.
  pose proof (rawObject_ok _ _ Hj Ha) as Hraw. destruct (a !! "modifications") as [mods|] eqn:Hm; [|done].
  destruct mods as [| | | |l|]; inv_ok; try discriminate. members Hraw.
  unfold modify_ok. cbn. rewrite Ha0, Ha1. apply Hraw in Hm. cbn in Ha2. inv_ok.
  rewrite (raw_list _ _ Ha4) in Ha3. by apply (indexed_yields _ modification_ok _ _ _ _ Hm Ha3).
Qed.

#[export] Instance request_yields : Yields Request_UnmarshalJSON request_ok.
Proof.
  intros j m Hj H. unfold Request_UnmarshalJSON in H. inv_ok. pose proof (rawObject_ok _ _ Hj Ha) as Hraw.
  members Hraw. unfold request_ok. cbn. unfold values_ok. by rewrite Ha0, Ha1, Ha2, Ha3.
Qed.

(** A reason that is missing or empty is read as ["unknown"]. *)
Lemma connect_yields j m : document_ok j = true -> Connect_UnmarshalJSON j = Ok m ->
  connect_ok m = true /\ cn_LastCloseReason m <> "".
Proof.
  intros Hj H. unfold Connect_UnmarshalJSON in H. inv_ok. pose proof (rawObject_ok _ _ Hj Ha) as Hraw.
  members Hraw. destruct a4 as [[reason present] isnull]. inv_ok.
  assert (Hr : utf8_ok reason = true).
  { destruct (a !! "lastCloseReason") as [r|] eqn:Hr; [|by inv_ok].
    destruct (rawIsNull r); inv_ok; [done|]. apply (string_yields r); [by apply (Hraw "lastCloseReason")|done]. }
  unfold connect_ok. cbn. unfold opt_ok in *. rewrite Ha0, Ha1, Ha2, Ha3.
  case_decide; [done|]. by rewrite Hr.
Qed.

(** An identity that is read has its claims; a token made of issuer and subject
    is a claim only once it has been written. *)
Definition reread_identity (i : SyncUserIdentityAttributes) : SyncUserIdentityAttributes :=
  mkIdentity (TokenIdentifier i) (Issuer i) (Subject i)
    (insert "tokenIdentifier" (WStr (TokenIdentifier i)) <$> Claims i).

Lemma claim_utf8 docs k : utf8_json (JObj docs) = true ->
  utf8_ok (claimString (Some (decode_any <$> docs)) k).1 = true.
Proof.
  intros Hu. unfold claimString. cbn. rewrite lookup_fmap. destruct (docs !! k) as [d|] eqn:Hd; [|done].
  cbn in Hu. rewrite map_forallb_true in Hu. specialize (Hu k d Hd). by destruct d.
Qed.

#[local] Arguments String.append !_ _ /.
Lemma utf8_ok_app s t : utf8_ok s = true -> utf8_ok t = true -> utf8_ok (s +:+ t) = true.
Proof.
  rewrite !utf8_ok_coerce. intros Hs Ht. rewrite <- Ht at 2. clear Ht. revert Hs.
  induction s as [s IH] using (induction_ltof1 _ String.length). unfold ltof in IH.
  destruct s as [|c0 r0]; [done|]. cbn [coerce_utf8 String.append].
  destruct (code c0 <? 128) eqn:H0.
  { intros [= Hr]. rewrite IH; [done|cbn; lia|done]. }
  destruct r0 as [|c1 r1]; [done|]. cbn [String.append].
  destruct (byte_in 194 223 c0 && cont_byte c1) eqn:H1.
  { intros [= Hr]. rewrite IH; [done|cbn; lia|done]. }
  destruct r1 as [|c2 r2]; [intros [=]|]. cbn [String.append].
  destruct (second3 c0 c1 && cont_byte c2) eqn:H2.
  { intros [= Hr]. rewrite IH; [done|cbn; lia|done]. }
  destruct r2 as [|c3 r3].
  { intros [= <- <- <-]. discriminate H2. }
  cbn [String.append]. destruct (second4 c0 c1 && cont_byte c2 && cont_byte c3) eqn:H3.
  { intros [= Hr]. rewrite IH; [done|cbn; lia|done]. }
  intros [= <- <- <-]. discriminate H2.
Qed.

Lemma marshal_claims docs : utf8_json (JObj docs) = true ->
  map_traverse (fun (_ : string) w => marshal w) (decode_any <$> docs) = Ok docs.
Proof.
  intros Hu. pose proof (marshal_decode_any (JObj docs) Hu) as Hm. rewrite decode_any_obj in Hm.
  cbn [marshal] in Hm. by apply bind_Ok in Hm as (d & Hd & [= <-]).
Qed.

(** What is written of an identity whose attributes are claims, but for the token. *)
Lemma identity_written docs tok iss sub :
  utf8_json (JObj docs) = true -> tok <> "" ->
  iss = (claimString (Some (decode_any <$> docs)) "issuer").1 ->
  sub = (claimString (Some (decode_any <$> docs)) "subject").1 ->
  Identity_MarshalJSON (mkIdentity tok iss sub (Some (decode_any <$> docs)))
  = Ok (JObj (<["tokenIdentifier" := json_string tok]> docs)).
Proof.
  intros Hu Hne Hi Hs. unfold Identity_MarshalJSON. cbn [Claims Issuer Subject TokenIdentifier default from_option id].
  rewrite marshal_claims by done. cbn [map_err mbind result_bind].
  rewrite (bool_decide_eq_false_2 (tok = "")) by done. cbn [andb].
  rewrite (set_if_claim docs "issuer"), (set_if_claim docs "subject") by done.
  by rewrite bool_decide_eq_true_2.
Qed.

Lemma identity_decoded j i : document_ok j = true -> Identity_UnmarshalJSON j = Ok i ->
  identity_ok (reread_identity i) /\ Identity_MarshalJSON (reread_identity i) = Identity_MarshalJSON i.
Proof.
  intros Hj%document_utf8 H. unfold Identity_UnmarshalJSON in H. inv_ok.
  destruct j as [| | | | |docs]; cbn [decodeRawMap] in Ha; try discriminate Ha; [by injection Ha as <-|].
  injection Ha as <-. set (claims := Some (decode_any <$> docs)) in *.
  set (iss := (claimString claims "issuer").1) in *. set (sub := (claimString claims "subject").1) in *.
  assert (exists tok, i = mkIdentity tok iss sub claims /\ tok <> "" /\ utf8_ok tok = true)
    as (tok & -> & Hne & Hu).
  { pose proof (claim_utf8 docs "tokenIdentifier" Hj). case_decide as Ht; [|inv_ok; eauto].
    pose proof (claim_utf8 docs "issuer" Hj). pose proof (claim_utf8 docs "subject" Hj).
    destruct (_ && _); inv_ok. eexists. split; [done|]. unfold derived_token. split.
    - by destruct iss.
    - by repeat apply utf8_ok_app. }
  unfold reread_identity, claims. cbn [TokenIdentifier Issuer Subject Claims fmap option_fmap option_map].
  change (WStr tok) with (decode_any (JStr tok)). rewrite <- fmap_insert.
  set (docs' := <["tokenIdentifier" := JStr tok]> docs).
  assert (Hj' : utf8_json (JObj docs') = true).
  { cbn in Hj |- *. rewrite map_forallb_true in *. intros k x [[<- <-]|[_ Hx]]%lookup_insert_Some; [done|by eapply Hj]. }
  assert (Hc : forall k, k <> "tokenIdentifier" ->
    claimString (Some (decode_any <$> docs')) k = claimString claims k).
  { intros k Hk. unfold claimString, docs'. cbn. by rewrite fmap_insert, lookup_insert_ne. }
  split.
  - exists docs'. cbn [Claims Issuer Subject TokenIdentifier]. rewrite !Hc by done.
    split; [done|]. split; [done|]. split; [done|]. split; [done|]. split; [|done].
    unfold claimString, docs'. cbn. by rewrite fmap_insert, lookup_insert_eq.
  - rewrite (identity_written docs' tok iss sub), (identity_written docs tok iss sub) by (done || by rewrite Hc).
    unfold docs', json_string. apply utf8_ok_coerce in Hu. by rewrite Hu, insert_insert_eq.
Qed.

Lemma authenticate_decoded j m : document_ok j = true -> Authenticate_UnmarshalJSON j = Ok m ->
  authenticate_ok (mkAuthenticate (au_BaseVersion m) (au_TokenType m) (au_Value m) (reread_identity <$> au_ActingAs m)) /\
  forall i, au_ActingAs m = Some i -> Identity_MarshalJSON (reread_identity i) = Identity_MarshalJSON i.
Proof.
  intros Hj H. unfold Authenticate_UnmarshalJSON in H. inv_ok. pose proof (rawObject_ok _ _ Hj Ha) as Hraw.
  members Hraw. unfold authenticate_ok. cbn. rewrite Ha0, Ha1, Ha2. cbn.
  set (r := match a !! "actingAs" with Some r => Some r | None => a !! "impersonating" end) in *.
  assert (Hr : forall d, r = Some d -> document_ok d = true).
  { intros d. unfold r. destruct (a !! "actingAs") eqn:E; [intros [= <-]; by eapply Hraw|intros Hd; by eapply Hraw]. }
  destruct a3 as [i|]; [|done].
  assert (exists d, r = Some d /\ Identity_UnmarshalJSON d = Ok i) as (d & Hd & Hi).
  { destruct r as [d|]; [|by inv_ok]. exists d. split; [done|]. destruct d; by inv_ok. }
  destruct (identity_decoded d i (Hr d Hd) Hi) as [H1 H2]. split; [done|]. by intros ? [= <-].
Qed.

Lemma event_decoded j m : document_ok j = true -> Event_UnmarshalJSON j = Ok m -> utf8_ok (ev_EventType m) = true.
Proof.
  intros Hj H. unfold Event_UnmarshalJSON in H. inv_ok. pose proof (rawObject_ok _ _ Hj Ha) as Hraw.
  by members Hraw.
Qed.

(** A message as it is when it has been written and read once more. *)
Definition reread_client (m : ClientMessage) : ClientMessage :=
  match m with
  | CAuthenticate m =>
      CAuthenticate (mkAuthenticate (au_BaseVersion m) (au_TokenType m) (au_Value m) (reread_identity <$> au_ActingAs m))
  | m => received_client m
  end.

Lemma client_decoded j m : document_ok j = true -> DecodeClientMessage j = Ok m ->
  exists m', client_message_ok m' /\ received_client m' = reread_client m /\
    EncodeClientMessage (Some m') = EncodeClientMessage (Some m) /\
    EncodeClientMessage (Some (reread_client m)) = EncodeClientMessage (Some m).
Proof.
  intros Hj H. unfold DecodeClientMessage in H. inv_ok. repeat case_decide; inv_ok; cbn [client_message_ok].
  - destruct (connect_yields _ _ Hj Ha0) as [Hok Hr]. exists (CConnect a0). split; [done|].
    split; [done|]. split; [done|]. cbn. unfold Connect_MarshalJSON, received_connect. cbn.
    destruct a0 as [sid n reason ts cts p z]. cbn in *. rewrite (bool_decide_eq_true_2 (reason <> "")) by done.
    destruct (p && z); cbn; [done|by rewrite (bool_decide_eq_true_2 (reason <> "")) by done].
  - exists (CModifyQuerySet a0). repeat split; by apply (modify_yields j).
  - exists (CMutation a0). repeat split; by apply (request_yields j).
  - exists (CAction a0). repeat split; by apply (request_yields j).
  - destruct (authenticate_decoded _ _ Hj Ha0) as [Hok Hi]. exists (reread_client (CAuthenticate a0)).
    split; [done|]. split; [done|]. assert (E : EncodeClientMessage (Some (reread_client (CAuthenticate a0)))
      = EncodeClientMessage (Some (CAuthenticate a0))); [|by split].
    cbn. unfold Authenticate_MarshalJSON. cbn. destruct a0 as [b t v [i|]]; cbn in *; [|done]. by rewrite Hi.
  - exists (CEvent a0). split; [by apply (event_decoded j)|]. done.
Qed.

(** ** Messages of the server *)

#[export] Instance version_yields : Yields StateVersion_UnmarshalJSON version_ok.
Proof.
  intros j m Hj H. unfold StateVersion_UnmarshalJSON in H. inv_ok. pose proof (rawObject_ok _ _ Hj Ha) as Hraw.
  members Hraw. unfold version_ok. cbn. by rewrite Ha0, Ha1, Ha2.
Qed.

#[export] Instance updated_yields : Yields QueryUpdated_UnmarshalJSON updated_ok.
Proof.
  intros j m Hj H. unfold QueryUpdated_UnmarshalJSON in H. inv_ok. pose proof (rawObject_ok _ _ Hj Ha) as Hraw.
  members Hraw. unfold updated_ok. cbn. unfold strings_ok. by rewrite Ha0, Ha1, Ha2, Ha3, Ha4.
Qed.

#[export] Instance failed_yields : Yields QueryFailed_UnmarshalJSON failed_ok.
Proof.
  intros j m Hj H. unfold QueryFailed_UnmarshalJSON in H. inv_ok. pose proof (rawObject_ok _ _ Hj Ha) as Hraw.
  members Hraw. unfold failed_ok. cbn. unfold strings_ok. by rewrite Ha0, Ha1, Ha2, Ha3, Ha4, Ha5.
Qed.

#[export] Instance state_modification_yields : Yields decodeStateModification state_modification_ok.
Proof.
  intros j m Hj H. unfold decodeStateModification in H. inv_ok. repeat case_decide; inv_ok.
  - by apply (updated_yields j).
  - by apply (failed_yields j).
  - cbn. unfold QueryRemoved_UnmarshalJSON in Ha0. inv_ok. pose proof (rawObject_ok _ _ Hj Ha1) as Hraw.
    by members Hraw.
Qed.

#[export] Instance raw_yields : Yields unmarshal_raw document_ok.
Proof. by intros j a Hj [= <-]. Qed.

#[export] Instance transition_yields : Yields Transition_UnmarshalJSON transition_ok.
Proof.
  intros j m Hj H. unfold Transition_UnmarshalJSON in H. inv_ok. pose proof (rawObject_ok _ _ Hj Ha) as Hraw.
  members Hraw. destruct a4 as [skew sp]. inv_ok. destruct a4 as [ts tp]. inv_ok.
  unfold optionalFloat64FromRaw in Ha4. apply (optional_yields Hraw finite_ok) in Ha4 as [H1 H2]; [|apply _].
  unfold optionalInt64FromRaw in Ha5. apply (optional_yields Hraw in_i64) in Ha5 as [H3 H4]; [|apply _].
  apply (indexed_yields _ state_modification_ok) in Ha3; [|apply _|done].
  unfold transition_ok. cbn -[opt_ok present_ok]. by rewrite Ha0, Ha1, Ha3, H1, H2, H3, H4.
Qed.

#[export] Instance chunk_yields : Yields TransitionChunk_UnmarshalJSON chunk_ok.
Proof.
  intros j m Hj H. unfold TransitionChunk_UnmarshalJSON in H. inv_ok. pose proof (rawObject_ok _ _ Hj Ha) as Hraw.
  members Hraw. unfold chunk_ok. cbn. by rewrite Ha0, Ha1, Ha2, Ha3.
Qed.

(** An answer that is a success has no use for the data of an error; it is read,
    and not written again. *)
Definition no_error_data (success : bool) (e : OptionalValue) : OptionalValue :=
  if success then mkOptionalValue false VNull else e.
Definition reread_server (m : ServerMessage) : ServerMessage :=
  match m with
  | SMutationResponse m =>
      SMutationResponse (mkMutationResponse (mr_RequestID m) (mr_Success m) (mr_Value m) (mr_ErrorMessage m)
        (mr_TS m) (mr_LogLines m) (no_error_data (mr_Success m) (mr_ErrorData m)) (mr_tsPresent m))
  | SActionResponse m =>
      SActionResponse (mkActionResponse (ar_RequestID m) (ar_Success m) (ar_Value m) (ar_ErrorMessage m)
        (ar_LogLines m) (no_error_data (ar_Success m) (ar_ErrorData m)))
  | m => m
  end.

Lemma mutation_response_decoded j m : document_ok j = true -> MutationResponse_UnmarshalJSON j = Ok m ->
  present_ok (mr_tsPresent m) (mr_TS m) = true /\
  exists m', reread_server (SMutationResponse m) = SMutationResponse m' /\ mutation_response_ok m' = true.
Proof.
  intros Hj H. unfold MutationResponse_UnmarshalJSON in H. inv_ok. pose proof (rawObject_ok _ _ Hj Ha) as Hraw.
  destruct a3 as [ts tp]. inv_ok. members Hraw. apply (optional_yields Hraw timestamp_ok) in Ha3 as [H1 H2]; [|apply _].
  destruct a1; inv_ok; (split; [done|]); (eexists; split; [done|]); unfold mutation_response_ok, outcome_ok; cbn -[opt_ok];
    unfold strings_ok; rewrite Ha0, Ha2, H1; cbn.
  - by rewrite (result_yields Hraw value_ok "result" unmarshal_value a1).
  - by rewrite (result_yields Hraw utf8_ok "result" unmarshal_string a1), Ha4.
Qed.

Lemma action_response_decoded j m : document_ok j = true -> ActionResponse_UnmarshalJSON j = Ok m ->
  exists m', reread_server (SActionResponse m) = SActionResponse m' /\ action_response_ok m' = true.
Proof.
  intros Hj H. unfold ActionResponse_UnmarshalJSON in H. inv_ok. pose proof (rawObject_ok _ _ Hj Ha) as Hraw.
  members Hraw.
  destruct a1; inv_ok; (eexists; split; [done|]); unfold action_response_ok, outcome_ok; cbn;
    unfold strings_ok; rewrite Ha0, Ha2; cbn.
  - by rewrite (result_yields Hraw value_ok "result" unmarshal_value a1).
  - by rewrite (result_yields Hraw utf8_ok "result" unmarshal_string a1), Ha3.
Qed.

Lemma auth_error_decoded j m : document_ok j = true -> AuthError_UnmarshalJSON j = Ok m ->
  auth_error_ok m = true /\ present_ok (ae_baseVersionPresent m) (ae_BaseVersion m) = true.
Proof.
  intros Hj H. unfold AuthError_UnmarshalJSON in H. inv_ok. pose proof (rawObject_ok _ _ Hj Ha) as Hraw.
  destruct a2 as [v p]. inv_ok. apply (optional_yields Hraw in_u32) in Ha2 as [H1 H2]; [|apply _]. clear Ha1.
  members Hraw. split; [|done]. unfold auth_error_ok. cbn -[opt_ok]. by rewrite Ha0, H1.
Qed.

Lemma present_again {A : Type} b (o : option A) : present_ok b o = true -> b || bool_decide (is_Some o) = b.
Proof. by destruct b, o. Qed.

Lemma server_decoded j m : document_ok j = true -> DecodeServerMessage j = Ok m ->
  server_message_ok (reread_server m) = true /\ received_server (reread_server m) = reread_server m /\
  EncodeServerMessage (Some (reread_server m)) = EncodeServerMessage (Some m).
Proof.
  intros Hj H. unfold DecodeServerMessage in H. inv_ok. repeat case_decide; inv_ok; cbn [server_message_ok].
  - split; [by apply (transition_yields j)|done].
  - split; [by apply (chunk_yields j)|done].
  - destruct (mutation_response_decoded _ _ Hj Ha0) as (Hp & m' & Hm & Hok). split; [by rewrite Hm|]. split.
    + cbn. by rewrite present_again.
    + destruct a0 as [q [] v e ts ll d p]; done.
  - destruct (action_response_decoded _ _ Hj Ha0) as (m' & Hm & Hok). split; [by rewrite Hm|]. split; [done|].
    destruct a0 as [q [] v e ll d]; done.
  - destruct (auth_error_decoded _ _ Hj Ha0) as [Hok Hp]. split; [done|]. split; [|done].
    cbn. rewrite present_again by done. by destruct a0.
  - split; [|done]. cbn. unfold FatalError_UnmarshalJSON in Ha0. inv_ok. pose proof (rawObject_ok _ _ Hj Ha1) as Hraw.
    by members Hraw.
  - done.
Qed.

(** ** Both directions *)

(** C34. Whatever document a decoder of the protocol accepts, the message it
    returns can be encoded, reads back as the same message in its normal form,
    and is then written as the same document again.  The normal form spells out
    the defaults of the decoder, has the token of an identity among the claims,
    and leaves out the error data of a successful answer. *)
Theorem decoded_messages_normalise j : document_ok j = true ->
  (forall m, DecodeClientMessage j = Ok m ->
     exists j', EncodeClientMessage (Some m) = Ok j' /\ DecodeClientMessage j' = Ok (reread_client m) /\
       EncodeClientMessage (Some (reread_client m)) = Ok j') /\
  (forall m, DecodeServerMessage j = Ok m ->
     exists j', EncodeServerMessage (Some m) = Ok j' /\ DecodeServerMessage j' = Ok (reread_server m) /\
       EncodeServerMessage (Some (reread_server m)) = Ok j').
Proof.
  intros Hj. split; intros m Hm.
  - destruct (client_decoded j m Hj Hm) as (m' & Hok & Hr & He & He').
    destruct (client_message_round m' Hok) as (j' & Hj' & Hd). exists j'. rewrite He', <- He, <- Hr. done.
  - destruct (server_decoded j m Hj Hm) as (Hok & Hr & He).
    destruct (server_message_round _ Hok) as (j' & Hj' & Hd). exists j'. rewrite <- He.
    split; [done|]. split; [|done]. by rewrite Hd, Hr.
Qed.

(** An answer with a timestamp in the URL alphabet, data it has no use for and a
    member nobody reads. *)
Definition sample_document : json :=
  JObj (object [("type", JStr "MutationResponse"); ("requestId", JNum (int_numeral 3)); ("success", JBool true);
    ("result", JNum (Numeral false 15 (-1) false)); ("ts", JStr "_QAAAAAAAAA="); ("errorData", JStr "unused");
    ("extra", JArr [JNull])]).

Lemma decoded_messages_normalise_witness :
  exists j', EncodeServerMessage (Some (SMutationResponse (mkMutationResponse 3 true
      (VFloat64 4609434218613702656) "" (Some 253) None (mkOptionalValue true (VString "unused")) true))) = Ok j' /\
    DecodeServerMessage j' = Ok (SMutationResponse (mkMutationResponse 3 true
      (VFloat64 4609434218613702656) "" (Some 253) None (mkOptionalValue false VNull) true)).
Proof.
  destruct (proj2 (decoded_messages_normalise sample_document ltac:(vm_compute; reflexivity)) _
    ltac:(vm_compute; reflexivity)) as (j' & H1 & H2 & _).
  exists j'. split; [exact H1|exact H2].
Defined.
