(* ===== verification/ClientState.v ===== *)
(** * The state of the base client

    The data of [baseclient/client_state.go], [optimistic_updates.go] and
    [protocol_exports.go]: the query set, the requests in flight, the results
    and what is still to be sent.  The pointers to queries and requests that the
    Go maps hold are reached through those maps only, so a record in the map is
    updated in place. *)
From S2P Require Import Prelude GoStrings GoJson Values Results GoEncode Paths Protocol ClientMessages ServerMessages Canonical.
Local Open Scope Z_scope.

(** ** Errors *)
Inductive client_error : Type :=
  | CanonicalError (e : canonical_error)
  | UnknownSubscriber (queryID index : Z)
  | UnknownQueryID (queryID : Z)
  | QueryTokenMissing (queryID : Z)
  | NoAuthCallback
  | AuthCallbackFailed (message : string)
  | TransitionMismatch (got want : StateVersion)
  | InvalidMutationRequest (id : Z)
  | MismatchedMutationResponse (id : Z)
  | MissingTimestamp
  | InvalidActionRequest (id : Z)
  | MismatchedActionResponse (id : Z)
  | SyncAuthError (message : string) (baseVersion : option Z) (authUpdateAttempted : option bool)
  | FatalError (message : string)
  | UnexpectedChunk
  | UnsupportedMessage
  | OptimisticUpdateFailed (id : Z) (e : client_error)
  | OptimisticValueFailed (e : value_error)
  | CallbackError (message : string).

(** ** Queries and optimistic updates *)
Record localBaseQuery : Type := mkQuery {
  q_id : Z;
  q_canonicalPath : string;
  q_args : list Value;
  q_numSubscribers : Z;
  q_nextSubscriberIdx : Z
}.

(** [SubscriberID]: the query id and the index of the subscriber. *)
Definition SubscriberID : Type := Z * Z.

Record OptimisticQueryResult : Type := mkOptimisticQueryResult {
  oq_Path : string;
  oq_Args : Value;
  oq_Value : Value;
  oq_HasValue : bool
}.

(** An optimistic update is a callback that may call the four methods of the
    store, in any order and depending on what they return, and then returns an
    error or none: a tree of calls with the callback's continuations. *)
Inductive OptimisticUpdate : Type :=
  | UReturn (err : option string)
  | UGetQuery (path : string) (args : goval)
      (k : result client_error (Value * bool) -> OptimisticUpdate)
  | UGetAllQueries (path : string)
      (k : result client_error (list OptimisticQueryResult) -> OptimisticUpdate)
  | USetQuery (path : string) (args value : goval)
      (k : result client_error unit -> OptimisticUpdate)
  | USetQueryLoading (path : string) (args : goval)
      (k : result client_error unit -> OptimisticUpdate).

(** ** Requests *)
Inductive syncRequestKind : Type := syncRequestMutation | syncRequestAction.
#[export] Instance syncRequestKind_eq_dec : EqDecision syncRequestKind.
Proof. solve_decision. Defined.

Definition actionReconnectErrorMessage : string := "Connection lost while action was in flight".
Definition completedRequestRetentionLimit : Z := 1024.

Record trackedSyncRequest : Type := mkTracked {
  r_id : Z;
  r_kind : syncRequestKind;
  r_message : ClientMessage;
  r_optimisticUpdate : option OptimisticUpdate;
  r_result : FunctionResult;
  r_hasResult : bool;
  r_ts : option Z
}.

(** ** Authentication *)
Record AuthToken : Type := mkAuthToken {
  at_TokenType : string;
  at_Value : string;
  at_ActingAs : option SyncUserIdentityAttributes
}.

(** The fetchers [SetAuth] and [SetAdminAuth] store return a fixed token; the
    others are the caller's, told apart by a name.  What a callback returns when
    it is called is an argument of the operations that call one. *)
Inductive AuthTokenFetcher : Type :=
  | FixedToken (token : AuthToken)
  | Callback (name : nat).
Definition auth_environment : Type := nat -> bool -> result client_error AuthToken.
Definition call_fetcher (env : auth_environment) (f : AuthTokenFetcher) (forceRefresh : bool)
    : result client_error AuthToken :=
  match f with FixedToken t => Ok t | Callback n => env n forceRefresh end.

(** ** The client *)
Record Client : Type := mkClient {
  nextQueryID : Z;
  querySetVersion : Z;
  queries : gmap string localBaseQuery;
  queryIDToToken : gmap Z string;
  subscribers : gset SubscriberID;
  serverResults : gmap Z FunctionResult;
  results : gmap Z FunctionResult;
  remoteVersion : StateVersion;
  identityVersion : Z;
  authFetcher : option AuthTokenFetcher;
  outgoing : list ClientMessage;
  maxObservedTimestamp : option Z;
  nextRequestID : Z;
  requests : gmap Z trackedSyncRequest;
  completedMutations : gset Z;
  completedMutationOrder : list Z;
  mutationResults : gmap Z FunctionResult;
  actionResults : gmap Z FunctionResult;
  actionResultOrder : list Z
}.

(** Assignment to one field. *)
Definition set_nextQueryID (v : Z) (c : Client) : Client :=
  mkClient v (querySetVersion c) (queries c) (queryIDToToken c) (subscribers c)
    (serverResults c) (results c) (remoteVersion c) (identityVersion c) (authFetcher c)
    (outgoing c) (maxObservedTimestamp c) (nextRequestID c) (requests c) (completedMutations c)
    (completedMutationOrder c) (mutationResults c) (actionResults c) (actionResultOrder c).
Definition set_querySetVersion (v : Z) (c : Client) : Client :=
  mkClient (nextQueryID c) v (queries c) (queryIDToToken c) (subscribers c) (serverResults c)
    (results c) (remoteVersion c) (identityVersion c) (authFetcher c) (outgoing c)
    (maxObservedTimestamp c) (nextRequestID c) (requests c) (completedMutations c)
    (completedMutationOrder c) (mutationResults c) (actionResults c) (actionResultOrder c).
Definition set_queries (v : gmap string localBaseQuery) (c : Client) : Client :=
  mkClient (nextQueryID c) (querySetVersion c) v (queryIDToToken c) (subscribers c)
    (serverResults c) (results c) (remoteVersion c) (identityVersion c) (authFetcher c)
    (outgoing c) (maxObservedTimestamp c) (nextRequestID c) (requests c) (completedMutations c)
    (completedMutationOrder c) (mutationResults c) (actionResults c) (actionResultOrder c).
Definition set_queryIDToToken (v : gmap Z string) (c : Client) : Client :=
  mkClient (nextQueryID c) (querySetVersion c) (queries c) v (subscribers c) (serverResults c)
    (results c) (remoteVersion c) (identityVersion c) (authFetcher c) (outgoing c)
    (maxObservedTimestamp c) (nextRequestID c) (requests c) (completedMutations c)
    (completedMutationOrder c) (mutationResults c) (actionResults c) (actionResultOrder c).
Definition set_subscribers (v : gset SubscriberID) (c : Client) : Client :=
  mkClient (nextQueryID c) (querySetVersion c) (queries c) (queryIDToToken c) v
    (serverResults c) (results c) (remoteVersion c) (identityVersion c) (authFetcher c)
    (outgoing c) (maxObservedTimestamp c) (nextRequestID c) (requests c) (completedMutations c)
    (completedMutationOrder c) (mutationResults c) (actionResults c) (actionResultOrder c).
Definition set_serverResults (v : gmap Z FunctionResult) (c : Client) : Client :=
  mkClient (nextQueryID c) (querySetVersion c) (queries c) (queryIDToToken c) (subscribers c) v
    (results c) (remoteVersion c) (identityVersion c) (authFetcher c) (outgoing c)
    (maxObservedTimestamp c) (nextRequestID c) (requests c) (completedMutations c)
    (completedMutationOrder c) (mutationResults c) (actionResults c) (actionResultOrder c).
Definition set_results (v : gmap Z FunctionResult) (c : Client) : Client :=
  mkClient (nextQueryID c) (querySetVersion c) (queries c) (queryIDToToken c) (subscribers c)
    (serverResults c) v (remoteVersion c) (identityVersion c) (authFetcher c) (outgoing c)
    (maxObservedTimestamp c) (nextRequestID c) (requests c) (completedMutations c)
    (completedMutationOrder c) (mutationResults c) (actionResults c) (actionResultOrder c).
Definition set_remoteVersion (v : StateVersion) (c : Client) : Client :=
  mkClient (nextQueryID c) (querySetVersion c) (queries c) (queryIDToToken c) (subscribers c)
    (serverResults c) (results c) v (identityVersion c) (authFetcher c) (outgoing c)
    (maxObservedTimestamp c) (nextRequestID c) (requests c) (completedMutations c)
    (completedMutationOrder c) (mutationResults c) (actionResults c) (actionResultOrder c).
Definition set_identityVersion (v : Z) (c : Client) : Client :=
  mkClient (nextQueryID c) (querySetVersion c) (queries c) (queryIDToToken c) (subscribers c)
    (serverResults c) (results c) (remoteVersion c) v (authFetcher c) (outgoing c)
    (maxObservedTimestamp c) (nextRequestID c) (requests c) (completedMutations c)
    (completedMutationOrder c) (mutationResults c) (actionResults c) (actionResultOrder c).
Definition set_authFetcher (v : option AuthTokenFetcher) (c : Client) : Client :=
  mkClient (nextQueryID c) (querySetVersion c) (queries c) (queryIDToToken c) (subscribers c)
    (serverResults c) (results c) (remoteVersion c) (identityVersion c) v (outgoing c)
    (maxObservedTimestamp c) (nextRequestID c) (requests c) (completedMutations c)
    (completedMutationOrder c) (mutationResults c) (actionResults c) (actionResultOrder c).
Definition set_outgoing (v : list ClientMessage) (c : Client) : Client :=
  mkClient (nextQueryID c) (querySetVersion c) (queries c) (queryIDToToken c) (subscribers c)
    (serverResults c) (results c) (remoteVersion c) (identityVersion c) (authFetcher c) v
    (maxObservedTimestamp c) (nextRequestID c) (requests c) (completedMutations c)
    (completedMutationOrder c) (mutationResults c) (actionResults c) (actionResultOrder c).
Definition set_maxObservedTimestamp (v : option Z) (c : Client) : Client :=
  mkClient (nextQueryID c) (querySetVersion c) (queries c) (queryIDToToken c) (subscribers c)
    (serverResults c) (results c) (remoteVersion c) (identityVersion c) (authFetcher c)
    (outgoing c) v (nextRequestID c) (requests c) (completedMutations c)
    (completedMutationOrder c) (mutationResults c) (actionResults c) (actionResultOrder c).
Definition set_nextRequestID (v : Z) (c : Client) : Client :=
  mkClient (nextQueryID c) (querySetVersion c) (queries c) (queryIDToToken c) (subscribers c)
    (serverResults c) (results c) (remoteVersion c) (identityVersion c) (authFetcher c)
    (outgoing c) (maxObservedTimestamp c) v (requests c) (completedMutations c)
    (completedMutationOrder c) (mutationResults c) (actionResults c) (actionResultOrder c).
Definition set_requests (v : gmap Z trackedSyncRequest) (c : Client) : Client :=
  mkClient (nextQueryID c) (querySetVersion c) (queries c) (queryIDToToken c) (subscribers c)
    (serverResults c) (results c) (remoteVersion c) (identityVersion c) (authFetcher c)
    (outgoing c) (maxObservedTimestamp c) (nextRequestID c) v (completedMutations c)
    (completedMutationOrder c) (mutationResults c) (actionResults c) (actionResultOrder c).
Definition set_completedMutations (v : gset Z) (c : Client) : Client :=
  mkClient (nextQueryID c) (querySetVersion c) (queries c) (queryIDToToken c) (subscribers c)
    (serverResults c) (results c) (remoteVersion c) (identityVersion c) (authFetcher c)
    (outgoing c) (maxObservedTimestamp c) (nextRequestID c) (requests c) v
    (completedMutationOrder c) (mutationResults c) (actionResults c) (actionResultOrder c).
Definition set_completedMutationOrder (v : list Z) (c : Client) : Client :=
  mkClient (nextQueryID c) (querySetVersion c) (queries c) (queryIDToToken c) (subscribers c)
    (serverResults c) (results c) (remoteVersion c) (identityVersion c) (authFetcher c)
    (outgoing c) (maxObservedTimestamp c) (nextRequestID c) (requests c) (completedMutations c)
    v (mutationResults c) (actionResults c) (actionResultOrder c).
Definition set_mutationResults (v : gmap Z FunctionResult) (c : Client) : Client :=
  mkClient (nextQueryID c) (querySetVersion c) (queries c) (queryIDToToken c) (subscribers c)
    (serverResults c) (results c) (remoteVersion c) (identityVersion c) (authFetcher c)
    (outgoing c) (maxObservedTimestamp c) (nextRequestID c) (requests c) (completedMutations c)
    (completedMutationOrder c) v (actionResults c) (actionResultOrder c).
Definition set_actionResults (v : gmap Z FunctionResult) (c : Client) : Client :=
  mkClient (nextQueryID c) (querySetVersion c) (queries c) (queryIDToToken c) (subscribers c)
    (serverResults c) (results c) (remoteVersion c) (identityVersion c) (authFetcher c)
    (outgoing c) (maxObservedTimestamp c) (nextRequestID c) (requests c) (completedMutations c)
    (completedMutationOrder c) (mutationResults c) v (actionResultOrder c).
Definition set_actionResultOrder (v : list Z) (c : Client) : Client :=
  mkClient (nextQueryID c) (querySetVersion c) (queries c) (queryIDToToken c) (subscribers c)
    (serverResults c) (results c) (remoteVersion c) (identityVersion c) (authFetcher c)
    (outgoing c) (maxObservedTimestamp c) (nextRequestID c) (requests c) (completedMutations c)
    (completedMutationOrder c) (mutationResults c) (actionResults c) v.

Definition zero_result : FunctionResult := mkFunctionResult VNull "" None.

(** [New]. *)
Definition New : Client :=
  mkClient 0 0 ∅ ∅ ∅ ∅ ∅ zero_version 0 None [] None 0 ∅ ∅ [] ∅ ∅ [].

(** What [LatestResults] and the transitions return. *)
Record QueryResults : Type := mkQueryResults {
  qr_subscribers : gset SubscriberID;
  qr_results : gmap Z FunctionResult
}.
Record QueryResultEntry : Type := mkEntry {
  en_SubscriberID : SubscriberID;
  en_Result : FunctionResult;
  en_HasResult : bool
}.
