(* ===== verification/BaseClient.v ===== *)
(** * The operations of the base client

    The model of [baseclient/client_state.go], [client_receive.go],
    [optimistic_updates.go] and the result snapshots of [protocol_exports.go].
    An operation takes the client and returns the client after the call with
    what the Go method returns; the state is kept when an error is returned,
    with the changes made before it.  A Go map is iterated in no fixed order;
    every loop of the source over a map sorts what it collects, and so does the
    model. *)
From S2P Require Import Prelude GoStrings GoJson Values Results GoEncode Paths Protocol ClientMessages ServerMessages Canonical ClientState.
Local Open Scope Z_scope.

(** ** The optimistic store *)

Definition sortedBaseQueries (queries : gmap string localBaseQuery) : list localBaseQuery :=
  sort_by q_id (map snd (map_to_list queries)).

Definition optimisticResultValue (r : FunctionResult) : Value * bool :=
  if negb (IsValue r) then (VNull, false) else FunctionResult_Value r.

Section store.
(** The queries of the store do not change while a callback runs; its results
    do, and are passed along. *)
Context (queries : gmap string localBaseQuery).

Definition Store_GetQuery (results : gmap Z FunctionResult) (path : string) (args : goval)
    : result client_error (Value * bool) :=
  '(_, _, token) ← map_err CanonicalError (canonicalQuery path args);
  match queries !! token with
  | None => Ok (VNull, false)
  | Some query =>
      match results !! q_id query with
      | None => Ok (VNull, false)
      | Some r => Ok (optimisticResultValue r)
      end
  end.

Definition query_entry (results : gmap Z FunctionResult) (query : localBaseQuery)
    : OptimisticQueryResult :=
  let value :=
    match results !! q_id query with
    | Some r => optimisticResultValue r
    | None => (VNull, false)
    end in
  mkOptimisticQueryResult (q_canonicalPath query)
    (match q_args query with a :: _ => a | [] => VNull end)
    (if snd value then fst value else VNull) (snd value).

Definition Store_GetAllQueries (results : gmap Z FunctionResult) (path : string)
    : result client_error (list OptimisticQueryResult) :=
  canonicalPath ← map_err CanonicalError (canonicalQueryPath path);
  Ok (map (query_entry results)
        (filter (fun q => q_canonicalPath q = canonicalPath) (sortedBaseQueries queries))).

Definition Store_SetQuery (results : gmap Z FunctionResult) (path : string) (args value : goval)
    : gmap Z FunctionResult * result client_error unit :=
  match canonicalQuery path args with
  | Err e => (results, Err (CanonicalError e))
  | Ok (_, _, token) =>
      match queries !! token with
      | None => (results, Ok ())
      | Some query =>
          match ValueFromGo value with
          | Err e => (results, Err (OptimisticValueFailed e))
          | Ok convexValue => (<[q_id query := ValueResult convexValue]> results, Ok ())
          end
      end
  end.

Definition Store_SetQueryLoading (results : gmap Z FunctionResult) (path : string) (args : goval)
    : gmap Z FunctionResult * result client_error unit :=
  match canonicalQuery path args with
  | Err e => (results, Err (CanonicalError e))
  | Ok (_, _, token) =>
      match queries !! token with
      | None => (results, Ok ())
      | Some query => (delete (q_id query) results, Ok ())
      end
  end.

(** Run a callback against the store. *)
Fixpoint run_update (u : OptimisticUpdate) (results : gmap Z FunctionResult)
    : result client_error (gmap Z FunctionResult) :=
  match u with
  | UReturn None => Ok results
  | UReturn (Some message) => Err (CallbackError message)
  | UGetQuery path args k => run_update (k (Store_GetQuery results path args)) results
  | UGetAllQueries path k => run_update (k (Store_GetAllQueries results path)) results
  | USetQuery path args value k =>
      let '(results', r) := Store_SetQuery results path args value in run_update (k r) results'
  | USetQueryLoading path args k =>
      let '(results', r) := Store_SetQueryLoading results path args in run_update (k r) results'
  end.
End store.

(** ** Optimistic results *)

Definition is_optimistic (r : trackedSyncRequest) : Prop :=
  r_kind r = syncRequestMutation /\ is_Some (r_optimisticUpdate r).
#[export] Instance is_optimistic_dec r : Decision (is_optimistic r).
Proof. unfold is_optimistic. apply _. Defined.

Definition tracked_requests (c : Client) : list trackedSyncRequest :=
  map snd (map_to_list (requests c)).

Definition optimisticRequests (c : Client) (candidate : option trackedSyncRequest)
    : list trackedSyncRequest :=
  sort_by r_id
    (filter is_optimistic (tracked_requests c) ++
     filter is_optimistic (match candidate with Some r => [r] | None => [] end)).

Definition copyFunctionResults (results : gmap Z FunctionResult) : gmap Z FunctionResult := results.

(** One round of the loop over the requests: the request's callback, with its
    error wrapped. *)
Fixpoint apply_updates (queries : gmap string localBaseQuery) (rs : list trackedSyncRequest)
    (results : gmap Z FunctionResult) : result client_error (gmap Z FunctionResult) :=
  match rs with
  | [] => Ok results
  | r :: rest =>
      results' ← match r_optimisticUpdate r with
                 | Some u => map_err (OptimisticUpdateFailed (r_id r)) (run_update queries u results)
                 | None => Ok results
                 end;
      apply_updates queries rest results'
  end.

Definition optimisticResultsWith (c : Client) (candidate : option trackedSyncRequest)
    : result client_error (gmap Z FunctionResult) :=
  apply_updates (queries c) (optimisticRequests c candidate)
    (copyFunctionResults (serverResults c)).

Definition recomputeOptimisticResults (c : Client) : Client * result client_error unit :=
  match optimisticResultsWith c None with
  | Err e => (c, Err e)
  | Ok results => (set_results results c, Ok ())
  end.

Definition queryResultsSnapshot (c : Client) : QueryResults :=
  mkQueryResults (subscribers c) (results c).
Definition LatestResults (c : Client) : QueryResults := queryResultsSnapshot c.

(** ** Subscriptions *)

Definition enqueue (m : ClientMessage) (c : Client) : Client :=
  set_outgoing (outgoing c ++ [m]) c.

(** An edit of the query set: the versions advance and the edit is queued. *)
Definition queue_modifications (mods : list QuerySetModification) (c : Client) : Client :=
  let baseVersion := querySetVersion c in
  let c := set_querySetVersion (u32 (baseVersion + 1)) c in
  enqueue (CModifyQuerySet (mkModify baseVersion (querySetVersion c) (Some mods))) c.

Definition Subscribe (path : string) (args : goval) (c : Client)
    : Client * result client_error SubscriberID :=
  match canonicalQuery path args with
  | Err e => (c, Err (CanonicalError e))
  | Ok (canonicalPath, encodedArgs, token) =>
      match queries c !! token with
      | Some query =>
          let idx := u64 (q_nextSubscriberIdx query + 1) in
          let query := mkQuery (q_id query) (q_canonicalPath query) (q_args query)
                         (q_numSubscribers query + 1) idx in
          let id := (q_id query, idx) in
          (set_subscribers ({[id]} ∪ subscribers c) (set_queries (<[token := query]> (queries c)) c),
           Ok id)
      | None =>
          let queryID := nextQueryID c in
          let c := set_nextQueryID (u32 (queryID + 1)) c in
          let query := mkQuery queryID canonicalPath encodedArgs 1 1 in
          let c := set_queries (<[token := query]> (queries c)) c in
          let c := set_queryIDToToken (<[queryID := token]> (queryIDToToken c)) c in
          let id := (queryID, 1) in
          let c := set_subscribers ({[id]} ∪ subscribers c) c in
          (queue_modifications
             [ModAdd (mkAdd queryID canonicalPath (Some encodedArgs) (mkOptionalString false None) "")] c,
           Ok id)
      end
  end.

Definition Unsubscribe (id : SubscriberID) (c : Client) : Client * result client_error unit :=
  if decide (id ∈ subscribers c) then
    let c := set_subscribers (subscribers c ∖ {[id]}) c in
    match queryIDToToken c !! fst id with
    | None => (c, Err (UnknownQueryID (fst id)))
    | Some token =>
        match queries c !! token with
        | None => (c, Err (QueryTokenMissing (fst id)))
        | Some query =>
            if 1 <? q_numSubscribers query then
              let query := mkQuery (q_id query) (q_canonicalPath query) (q_args query)
                             (q_numSubscribers query - 1) (q_nextSubscriberIdx query) in
              (set_queries (<[token := query]> (queries c)) c, Ok ())
            else
              let c := set_queries (delete token (queries c)) c in
              let c := set_queryIDToToken (delete (fst id) (queryIDToToken c)) c in
              let c := set_serverResults (delete (fst id) (serverResults c)) c in
              let c := set_results (delete (fst id) (results c)) c in
              (queue_modifications [ModRemove (fst id)] c, Ok ())
        end
    end
  else (c, Err (UnknownSubscriber (fst id) (snd id))).

Definition PopNextMessage (c : Client) : Client * option ClientMessage :=
  match outgoing c with
  | [] => (c, None)
  | msg :: rest => (set_outgoing rest c, Some msg)
  end.

Definition MaxObservedTimestamp (c : Client) : Z * bool :=
  match maxObservedTimestamp c with None => (0, false) | Some ts => (ts, true) end.
Definition lookup_result (m : gmap Z FunctionResult) (id : Z) : FunctionResult * bool :=
  match m !! id with Some r => (r, true) | None => (zero_result, false) end.
Definition MutationResult (id : Z) (c : Client) : FunctionResult * bool :=
  lookup_result (mutationResults c) id.
Definition ActionResult (id : Z) (c : Client) : FunctionResult * bool :=
  lookup_result (actionResults c) id.

Definition isActiveQuery (id : Z) (c : Client) : bool :=
  bool_decide (is_Some (queryIDToToken c !! id)).
Definition GetQuery (id : Z) (c : Client) : FunctionResult * bool :=
  if isActiveQuery id c then lookup_result (results c) id else (zero_result, false).

(** ** Authentication *)

Definition with_derived_token (i : SyncUserIdentityAttributes) : SyncUserIdentityAttributes :=
  if bool_decide (TokenIdentifier i = "") && bool_decide (Issuer i <> "")
     && bool_decide (Subject i <> "")
  then mkIdentity (derived_token (Issuer i) (Subject i)) (Issuer i) (Subject i) (Claims i)
  else i.

Definition UserAuthToken (token : string) : AuthToken := mkAuthToken AuthTokenUser token None.
Definition AdminAuthToken (token : string) (actingAs : list SyncUserIdentityAttributes) : AuthToken :=
  mkAuthToken AuthTokenAdmin token (with_derived_token <$> head actingAs).
Definition NoAuthToken : AuthToken := mkAuthToken AuthTokenNone "" None.

Definition queueAuth (token : AuthToken) (c : Client) : Client * result client_error unit :=
  let tokenType := if decide (at_TokenType token = "") then AuthTokenNone else at_TokenType token in
  let actingAs :=
    if bool_decide (tokenType = AuthTokenAdmin)
    then with_derived_token <$> at_ActingAs token else at_ActingAs token in
  let baseVersion := identityVersion c in
  let c := set_identityVersion (u32 (baseVersion + 1)) c in
  (enqueue (CAuthenticate (mkAuthenticate baseVersion tokenType (at_Value token) actingAs)) c, Ok ()).

Definition SetAuth (token : string) (c : Client) : Client * result client_error unit :=
  let auth := UserAuthToken token in
  queueAuth auth (set_authFetcher (Some (FixedToken auth)) c).
Definition SetAdminAuth (token : string) (actingAs : list SyncUserIdentityAttributes) (c : Client)
    : Client * result client_error unit :=
  let auth := AdminAuthToken token actingAs in
  queueAuth auth (set_authFetcher (Some (FixedToken auth)) c).
Definition ClearAuth (c : Client) : Client * result client_error unit :=
  queueAuth NoAuthToken (set_authFetcher None c).

Definition SetAuthCallback (env : auth_environment) (fetcher : option AuthTokenFetcher) (c : Client)
    : Client * result client_error unit :=
  match fetcher with
  | None => queueAuth NoAuthToken (set_authFetcher None c)
  | Some f =>
      match call_fetcher env f false with
      | Err e => (c, Err e)
      | Ok token => queueAuth token (set_authFetcher (Some f) c)
      end
  end.

Definition RefreshAuthForReconnect (env : auth_environment) (c : Client)
    : Client * result client_error unit :=
  match authFetcher c with
  | None => (c, Err NoAuthCallback)
  | Some f =>
      match call_fetcher env f true with
      | Err e => (c, Err e)
      | Ok token => queueAuth token c
      end
  end.

(** ** Mutations and actions *)

(** An option is nil or the function that [WithOptimisticUpdate] returns, which
    sets the field; the update may be nil. *)
Definition SyncMutationOption : Type := option (option OptimisticUpdate).
Definition WithOptimisticUpdate (update : option OptimisticUpdate) : SyncMutationOption := Some update.
Definition syncMutationOptionsFrom (opts : list SyncMutationOption) : option OptimisticUpdate :=
  fold_left (fun out opt => match opt with Some update => update | None => out end) opts None.

Definition mutation (path : string) (args : goval) (opts : list SyncMutationOption) (c : Client)
    : Client * result client_error (Z * option QueryResults) :=
  match canonicalRequest path args with
  | Err e => (c, Err (CanonicalError e))
  | Ok (canonicalPath, encodedArgs) =>
      let update := syncMutationOptionsFrom opts in
      let requestID := nextRequestID c in
      let message := CMutation (mkRequest requestID canonicalPath (Some encodedArgs) "") in
      let request := mkTracked requestID syncRequestMutation message update zero_result false None in
      let send (c : Client) :=
        let c := set_nextRequestID (u32 (requestID + 1)) c in
        let c := set_requests (<[requestID := request]> (requests c)) c in
        enqueue message c in
      match update with
      | None => (send c, Ok (requestID, None))
      | Some _ =>
          match optimisticResultsWith c (Some request) with
          | Err e => (c, Err e)
          | Ok results =>
              let c := set_results results c in
              (send c, Ok (requestID, Some (queryResultsSnapshot c)))
          end
      end
  end.

Definition Mutation (path : string) (args : goval) (opts : list SyncMutationOption) (c : Client)
    : Client * result client_error Z :=
  let '(c, r) := mutation path args opts c in (c, fst <$> r).

Definition Action (path : string) (args : goval) (c : Client) : Client * result client_error Z :=
  match canonicalRequest path args with
  | Err e => (c, Err (CanonicalError e))
  | Ok (canonicalPath, encodedArgs) =>
      let requestID := nextRequestID c in
      let c := set_nextRequestID (u32 (requestID + 1)) c in
      let message := CAction (mkRequest requestID canonicalPath (Some encodedArgs) "") in
      let request := mkTracked requestID syncRequestAction message None zero_result false None in
      let c := set_requests (<[requestID := request]> (requests c)) c in
      (enqueue message c, Ok requestID)
  end.

(** ** Completed requests *)

Definition normalizedCompletedRequestRetentionLimit : nat :=
  if completedRequestRetentionLimit <? 1 then 1 else Z.to_nat completedRequestRetentionLimit.

(** The loop that drops the oldest ids while there are more than [limit]: what
    it keeps, and what it evicts. *)
Fixpoint drop_oldest (limit : nat) (order : list Z) : list Z * list Z :=
  match order with
  | [] => ([], [])
  | evict :: rest =>
      if (limit <? length order)%nat then
        let '(kept, evicted) := drop_oldest limit rest in (kept, evict :: evicted)
      else (order, [])
  end.

Definition delete_all {A : Type} (ids : list Z) (m : gmap Z A) : gmap Z A :=
  fold_left (fun m id => delete id m) ids m.

Definition rememberMutationResult (id : Z) (r : FunctionResult) (c : Client) : Client :=
  let c := set_mutationResults (<[id := r]> (mutationResults c)) c in
  let c := set_completedMutations ({[id]} ∪ completedMutations c) c in
  let '(kept, evicted) :=
    drop_oldest normalizedCompletedRequestRetentionLimit (completedMutationOrder c ++ [id]) in
  let c := set_completedMutationOrder kept c in
  let c := set_mutationResults (delete_all evicted (mutationResults c)) c in
  set_completedMutations (completedMutations c ∖ list_to_set evicted) c.

Definition rememberActionResult (id : Z) (r : FunctionResult) (c : Client) : Client :=
  let c := set_actionResults (<[id := r]> (actionResults c)) c in
  let '(kept, evicted) :=
    drop_oldest normalizedCompletedRequestRetentionLimit (actionResultOrder c ++ [id]) in
  let c := set_actionResultOrder kept c in
  set_actionResults (delete_all evicted (actionResults c)) c.

Definition completeMutationRequest (id : Z) (c : Client) : Client * bool :=
  match requests c !! id with
  | Some request =>
      if r_hasResult request then
        let c := rememberMutationResult id (r_result request) c in
        let c := set_requests (delete id (requests c)) c in
        (c, bool_decide (is_Some (r_optimisticUpdate request)))
      else (c, false)
  | None => (c, false)
  end.

(** The ids of the requests a condition selects, in increasing order. *)
Definition sorted_ids (P : trackedSyncRequest -> Prop) `{!forall r, Decision (P r)} (c : Client)
    : list Z :=
  sort_by (fun id => id) (map fst (map_to_list (filter (fun kv => P (snd kv)) (requests c)))).

Definition completes_through (ts : Z) (r : trackedSyncRequest) : Prop :=
  r_kind r = syncRequestMutation /\ r_hasResult r = true /\
  match r_ts r with Some t => t <= ts | None => False end.
#[export] Instance completes_through_dec ts r : Decision (completes_through ts r).
Proof. unfold completes_through. destruct (r_ts r); apply _. Defined.

Definition completeMutationsThrough (ts : Z) (c : Client) : Client :=
  fold_left (fun c id => fst (completeMutationRequest id c)) (sorted_ids (completes_through ts) c) c.

Definition observeTimestamp (ts : Z) (c : Client) : Client :=
  match maxObservedTimestamp c with
  | Some m => if m <? ts then set_maxObservedTimestamp (Some ts) c else c
  | None => set_maxObservedTimestamp (Some ts) c
  end.

Definition functionResultFromResponse (success : bool) (value : Value) (message : string)
    (data : OptionalValue) : FunctionResult :=
  if success then ValueResult value
  else if ov_present data then ConvexErrorResult (mkConvexError message (ov_value data))
  else ErrorMessageResult message.

(** ** Messages from the server *)

Definition queryFailedResult (m : QueryFailed) : FunctionResult :=
  if ov_present (qf_ErrorData m)
  then ConvexErrorResult (mkConvexError (qf_ErrorMessage m) (ov_value (qf_ErrorData m)))
  else ErrorMessageResult (qf_ErrorMessage m).

Definition set_server_result (id : Z) (r : FunctionResult) (c : Client) : Client :=
  if isActiveQuery id c then set_serverResults (<[id := r]> (serverResults c)) c else c.

(** The interface of modifications has the three types the decoder returns, so the
    error for any other is not reached. *)
Definition applyStateModification (m : StateModification) (c : Client) : Client :=
  match m with
  | SMUpdated u => set_server_result (qu_QueryID u) (ValueResult (qu_Value u)) c
  | SMFailed f => set_server_result (qf_QueryID f) (queryFailedResult f) c
  | SMRemoved id => set_results (delete id (results c)) (set_serverResults (delete id (serverResults c)) c)
  end.

#[export] Instance StateVersion_eq_dec : EqDecision StateVersion.
Proof. solve_decision. Defined.

Definition receiveTransition (message : TransitionMessage) (c : Client)
    : Client * result client_error QueryResults :=
  if decide (tr_StartVersion message = remoteVersion c) then
    let c := fold_left (fun c m => applyStateModification m c)
               (default [] (tr_Modifications message)) c in
    let c := set_remoteVersion (tr_EndVersion message) c in
    let c := observeTimestamp (sv_TS (tr_EndVersion message)) c in
    let c := completeMutationsThrough (sv_TS (tr_EndVersion message)) c in
    match recomputeOptimisticResults c with
    | (c, Err e) => (c, Err e)
    | (c, Ok _) => (c, Ok (queryResultsSnapshot c))
    end
  else (c, Err (TransitionMismatch (tr_StartVersion message) (remoteVersion c))).

Definition updateRequestFromMutationResponse (message : MutationResponseMessage) (c : Client)
    : Client * result client_error unit :=
  let id := mr_RequestID message in
  match requests c !! id with
  | None =>
      if decide (id ∈ completedMutations c) then (c, Ok ()) else (c, Err (InvalidMutationRequest id))
  | Some request =>
      if decide (r_kind request = syncRequestMutation) then
        let r := functionResultFromResponse (mr_Success message) (mr_Value message)
                   (mr_ErrorMessage message) (mr_ErrorData message) in
        let request := mkTracked (r_id request) (r_kind request) (r_message request)
                         (r_optimisticUpdate request) r true (mr_TS message) in
        let c := set_requests (<[id := request]> (requests c)) c in
        if negb (mr_Success message) then
          let '(c, hadOptimistic) := completeMutationRequest id c in
          if (hadOptimistic : bool) then recomputeOptimisticResults c else (c, Ok ())
        else match mr_TS message with
        | None => (c, Err MissingTimestamp)
        | Some _ => (c, Ok ())
        end
      else (c, Err (MismatchedMutationResponse id))
  end.

Definition receiveMutationResponse (message : MutationResponseMessage) (c : Client)
    : Client * result client_error (option QueryResults) :=
  let hadOptimistic :=
    match requests c !! mr_RequestID message with
    | Some request => bool_decide (is_Some (r_optimisticUpdate request))
    | None => false
    end in
  match updateRequestFromMutationResponse message c with
  | (c, Err e) => (c, Err e)
  | (c, Ok _) =>
      let c := match mr_TS message with Some ts => observeTimestamp ts c | None => c end in
      (c, Ok (if negb (mr_Success message) && hadOptimistic
              then Some (queryResultsSnapshot c) else None))
  end.

Definition updateRequestFromActionResponse (message : ActionResponseMessage) (c : Client)
    : Client * result client_error unit :=
  let id := ar_RequestID message in
  match requests c !! id with
  | None => (c, Err (InvalidActionRequest id))
  | Some request =>
      if decide (r_kind request = syncRequestAction) then
        let c := rememberActionResult id
                   (functionResultFromResponse (ar_Success message) (ar_Value message)
                      (ar_ErrorMessage message) (ar_ErrorData message)) c in
        (set_requests (delete id (requests c)) c, Ok ())
      else (c, Err (MismatchedActionResponse id))
  end.

Definition syncAuthErrorFromMessage (m : AuthErrorMessage) : client_error :=
  SyncAuthError (ae_Error m) (ae_BaseVersion m) (ae_AuthUpdateAttempted m).

(** A nil message is [None]. *)
Definition ReceiveMessage (msg : option ServerMessage) (c : Client)
    : Client * result client_error (option QueryResults) :=
  match msg with
  | Some (STransition m) => let '(c, r) := receiveTransition m c in (c, Some <$> r)
  | Some (SMutationResponse m) => receiveMutationResponse m c
  | Some (SActionResponse m) =>
      let '(c, r) := updateRequestFromActionResponse m c in (c, (fun _ => None) <$> r)
  | Some (SAuthError m) => (c, Err (syncAuthErrorFromMessage m))
  | Some (SFatalError e) => (c, Err (FatalError e))
  | Some SPing => (c, Ok None)
  | Some (STransitionChunk _) => (c, Err UnexpectedChunk)
  | None => (c, Err UnsupportedMessage)
  end.

(** ** Reconnection *)

(** The order in which mutations are sent again: the ones the server has
    answered first, the latest timestamp first, then by id. *)
Definition replay_less (left right : trackedSyncRequest) : bool :=
  match r_ts left, r_ts right with
  | Some a, Some b => if negb (a =? b) then b <? a else r_id left <? r_id right
  | Some _, None => true
  | None, Some _ => false
  | None, None => r_id left <? r_id right
  end.
Definition replay_order (left right : trackedSyncRequest) : Prop := replay_less right left = false.
#[export] Instance replay_order_dec : RelDecision replay_order.
Proof. intros x y. unfold replay_order. apply _. Defined.

Definition replayed_requests (c : Client) : list trackedSyncRequest :=
  merge_sort replay_order
    (filter (fun r => r_kind r = syncRequestMutation) (tracked_requests c)).
Definition ReplayOngoingRequests (c : Client) : list ClientMessage :=
  map r_message (replayed_requests c).

Definition replay_add (q : localBaseQuery) : QuerySetModification :=
  ModAdd (mkAdd (q_id q) (q_canonicalPath q)
            (match q_args q with [] => None | l => Some l end) (mkOptionalString false None) "").
Definition replayQueryAdds (c : Client) : list QuerySetModification :=
  map replay_add (sortedBaseQueries (queries c)).

Definition is_action (r : trackedSyncRequest) : Prop := r_kind r = syncRequestAction.
#[export] Instance is_action_dec r : Decision (is_action r).
Proof. unfold is_action. apply _. Defined.

Definition cancelPendingActionsForReconnect (c : Client) : Client :=
  fold_left
    (fun c id =>
       let c := rememberActionResult id (ErrorMessageResult actionReconnectErrorMessage) c in
       set_requests (delete id (requests c)) c)
    (sorted_ids is_action c) c.

Definition RestartForReconnect (env : auth_environment) (c : Client)
    : Client * result client_error unit :=
  let c := set_outgoing [] c in
  let c := set_identityVersion 0 c in
  let c := set_querySetVersion 0 c in
  let c := set_remoteVersion zero_version c in
  let c := cancelPendingActionsForReconnect c in
  let '(c, refreshed) :=
    match authFetcher c with
    | Some _ => RefreshAuthForReconnect env c
    | None => (c, Ok ())
    end in
  match refreshed with
  | Err e => (c, Err e)
  | Ok _ =>
      let adds := replayQueryAdds c in
      let c := if (0 <? length adds)%nat then queue_modifications adds c else c in
      (set_outgoing (outgoing c ++ ReplayOngoingRequests c) c, Ok ())
  end.

(** ** Snapshots *)

Definition QueryResults_Get (r : QueryResults) (id : SubscriberID) : FunctionResult * bool :=
  if decide (id ∈ qr_subscribers r) then lookup_result (qr_results r) (fst id)
  else (zero_result, false).
Definition QueryResults_Len (r : QueryResults) : nat := size (qr_subscribers r).
Definition QueryResults_IsEmpty (r : QueryResults) : bool := (size (qr_subscribers r) =? 0)%nat.

Definition subscriber_order (x y : SubscriberID) : Prop :=
  fst x < fst y \/ fst x = fst y /\ snd x <= snd y.
#[export] Instance subscriber_order_dec : RelDecision subscriber_order.
Proof. intros x y. unfold subscriber_order. apply _. Defined.

Definition QueryResults_Iter (r : QueryResults) : list QueryResultEntry :=
  map (fun id => let '(x, ok) := lookup_result (qr_results r) (fst id) in mkEntry id x ok)
    (merge_sort subscriber_order (elements (qr_subscribers r))).
