(* ===== verification/ClientQueries.v ===== *)
(** * The query set of the base client

    The invariant that ties the four maps of the query set together, and that
    subscribing and unsubscribing preserve it.  The bound [n] counts the
    operations so far: the counters of the client are 32 and 64 bits wide and
    do not wrap in fewer than 2^32 operations. *)
From S2P Require Import Prelude GoStrings GoJson Values Results GoEncode Paths Protocol ClientMessages ServerMessages ProtocolFacts Canonical CanonicalFacts ClientState BaseClient.
Local Open Scope Z_scope.

(** The subscribers of a query. *)
Definition subscribers_of (id : Z) (c : Client) : gset SubscriberID :=
  filter (fun s => fst s = id) (subscribers c).

Record queries_inv (n : Z) (c : Client) : Prop := {
  qi_next : 0 <= nextQueryID c <= n;
  qi_token : forall tok q, queries c !! tok = Some q -> queryIDToToken c !! q_id q = Some tok;
  qi_id : forall id tok, queryIDToToken c !! id = Some tok ->
    exists q, queries c !! tok = Some q /\ q_id q = id;
  qi_range : forall tok q, queries c !! tok = Some q -> 0 <= q_id q < nextQueryID c;
  qi_idx : forall tok q, queries c !! tok = Some q -> 1 <= q_nextSubscriberIdx q <= n;
  qi_count : forall tok q, queries c !! tok = Some q ->
    q_numSubscribers q = Z.of_nat (size (subscribers_of (q_id q) c)) /\ 1 <= q_numSubscribers q;
  qi_subs : forall s, s ∈ subscribers c ->
    exists tok q, queries c !! tok = Some q /\ q_id q = fst s /\ 1 <= snd s <= q_nextSubscriberIdx q;
  qi_args : forall tok q, queries c !! tok = Some q ->
    utf8_ok (q_canonicalPath q) = true /\
    exists arg, q_args q = [arg] /\ query_token (q_canonicalPath q) arg = Ok tok /\ value_ok arg = true
}.

(** The results are of active queries. *)
Record results_inv (c : Client) : Prop := {
  ri_server : dom (serverResults c) ⊆ dom (queryIDToToken c);
  ri_results : dom (results c) ⊆ dom (queryIDToToken c)
}.

(** The fields the invariant is about. *)
Definition query_part (c : Client) :=
  (nextQueryID c, queries c, queryIDToToken c, subscribers c).

Lemma queries_inv_frame n n' c c' :
  query_part c' = query_part c -> n <= n' -> queries_inv n c -> queries_inv n' c'.
Proof.
  unfold query_part. intros [= Hn Hq Ht Hs] Hle [H1 H2 H3 H4 H5 H6 H7 H8].
  constructor; unfold subscribers_of in *; rewrite ?Hn, ?Hq, ?Ht, ?Hs; auto.
  - lia.
  - intros tok q Hl. specialize (H5 tok q Hl). lia.
Qed.

Lemma queries_inv_mono n n' c : n <= n' -> queries_inv n c -> queries_inv n' c.
Proof. by apply queries_inv_frame. Qed.

Lemma New_queries_inv : queries_inv 0 New.
Proof.
  constructor; cbn; try (intros ??; rewrite lookup_empty; done); [lia|set_solver].
Qed.

(** Two queries of the client with the same id are the same. *)
Lemma query_id_inj n c tok tok' q q' :
  queries_inv n c -> queries c !! tok = Some q -> queries c !! tok' = Some q' ->
  q_id q = q_id q' -> tok = tok' /\ q = q'.
Proof.
  intros Hi Hq Hq' He. pose proof (qi_token _ _ Hi _ _ Hq) as Ht.
  pose proof (qi_token _ _ Hi _ _ Hq') as Ht'. rewrite He in Ht.
  assert (tok = tok') as -> by congruence. split; congruence.
Qed.

(** An active query has a token, and the other way around. *)
Lemma active_query n c id : queries_inv n c ->
  is_Some (queryIDToToken c !! id) <-> exists tok q, queries c !! tok = Some q /\ q_id q = id.
Proof.
  intros Hi. split.
  - intros [tok Ht]. destruct (qi_id _ _ Hi _ _ Ht) as (q & ? & ?). eauto.
  - intros (tok & q & Hq & <-). exists tok. by apply (qi_token _ _ Hi).
Qed.

Lemma canonicalQuery_Ok path args p l tok :
  canonicalQuery path args = Ok (p, l, tok) ->
  utf8_ok p = true /\
  exists arg, l = [arg] /\ query_token p arg = Ok tok /\ value_ok arg = true.
Proof.
  intros (Hp & v & -> & Hw & Hu & Ht)%canonicalQuery_parts. split; [done|].
  exists v. unfold value_ok. by rewrite Hw, Hu.
Qed.

Lemma u32_small n : 0 <= n < 2 ^ 32 -> u32 n = n.
Proof. apply wrap_small. Qed.
Lemma u64_small n : 0 <= n < 2 ^ 64 -> u64 n = n.
Proof. apply wrap_small. Qed.

(** ** Subscribing to a query that is active *)

Section resubscribe.
Context (n : Z) (c : Client) (tok : string) (q : localBaseQuery).
Context (Hi : queries_inv n c) (Hn : n < 2 ^ 32) (Hq : queries c !! tok = Some q).

Let idx := u64 (q_nextSubscriberIdx q + 1).
Let id : SubscriberID := (q_id q, idx).
Let q' := mkQuery (q_id q) (q_canonicalPath q) (q_args q) (q_numSubscribers q + 1) idx.
Let c' := set_subscribers ({[id]} ∪ subscribers c) (set_queries (<[tok := q']> (queries c)) c).

Lemma resubscribe_idx : idx = q_nextSubscriberIdx q + 1.
Proof.
  pose proof (qi_idx _ _ Hi _ _ Hq). apply u64_small. lia.
Qed.

Lemma resubscribe_fresh : id ∉ subscribers c.
Proof.
  intros Hin. destruct (qi_subs _ _ Hi _ Hin) as (tok' & q2 & Hq2 & He & Hr). cbn in He, Hr.
  destruct (query_id_inj _ _ _ _ _ _ Hi Hq2 Hq He) as [-> ->].
  rewrite resubscribe_idx in Hr. lia.
Qed.

Lemma resubscribe_lookup tok' q2 : queries c' !! tok' = Some q2 ->
  (tok' = tok /\ q2 = q') \/ (tok' <> tok /\ queries c !! tok' = Some q2 /\ q_id q2 <> q_id q).
Proof.
  cbn. destruct (decide (tok = tok')) as [<-|Hne].
  - rewrite lookup_insert_eq. intros [= <-]. by left.
  - rewrite lookup_insert_ne by done. intros H2. right. split; [done|]. split; [done|].
    intros He. by destruct (query_id_inj _ _ _ _ _ _ Hi H2 Hq He).
Qed.

Lemma resubscribe_count_same id' : id' <> q_id q ->
  subscribers_of id' c' = subscribers_of id' c.
Proof. intros Hne. unfold subscribers_of. cbn. set_solver. Qed.

Lemma resubscribe_count :
  Z.of_nat (size (subscribers_of (q_id q) c')) = Z.of_nat (size (subscribers_of (q_id q) c)) + 1.
Proof.
  assert (subscribers_of (q_id q) c' = {[id]} ∪ subscribers_of (q_id q) c) as ->.
  { unfold subscribers_of. cbn. set_solver. }
  rewrite size_union, size_singleton; [lia|].
  apply disjoint_singleton_l. unfold subscribers_of. intros [_ H]%elem_of_filter.
  exact (resubscribe_fresh H).
Qed.

Lemma resubscribe_inv : queries_inv (n + 1) c'.
Proof.
  pose proof resubscribe_idx as Hidx. pose proof (qi_idx _ _ Hi _ _ Hq) as Hqi.
  constructor.
  - cbn. pose proof (qi_next _ _ Hi). lia.
  - intros tok' q2 [[-> ->]|(_ & H2 & _)]%resubscribe_lookup;
      [exact (qi_token _ _ Hi _ _ Hq)|exact (qi_token _ _ Hi _ _ H2)].
  - intros id' tok' Ht. destruct (qi_id _ _ Hi _ _ Ht) as (q2 & H2 & He). cbn.
    destruct (decide (tok = tok')) as [<-|Hne].
    + rewrite lookup_insert_eq. exists q'. split; [done|]. cbn. congruence.
    + rewrite lookup_insert_ne by done. eauto.
  - intros tok' q2 [[-> ->]|(_ & H2 & _)]%resubscribe_lookup;
      [exact (qi_range _ _ Hi _ _ Hq)|exact (qi_range _ _ Hi _ _ H2)].
  - intros tok' q2 [[-> ->]|(_ & H2 & _)]%resubscribe_lookup.
    + cbn. lia.
    + pose proof (qi_idx _ _ Hi _ _ H2). lia.
  - intros tok' q2 [[-> ->]|(_ & H2 & Hne)]%resubscribe_lookup.
    + cbn [q_id q_numSubscribers q']. rewrite resubscribe_count.
      destruct (qi_count _ _ Hi _ _ Hq). lia.
    + rewrite resubscribe_count_same by done. by apply (qi_count _ _ Hi _ _ H2).
  - intros s. cbn [subscribers c' set_subscribers].
    rewrite elem_of_union, elem_of_singleton. intros [->|Hs].
    + exists tok, q'. cbn. rewrite lookup_insert_eq. split; [done|]. split; [done|]. lia.
    + destruct (qi_subs _ _ Hi _ Hs) as (tok' & q2 & H2 & He & Hr). cbn.
      destruct (decide (tok = tok')) as [<-|Hne].
      * exists tok, q'. rewrite lookup_insert_eq. split; [done|].
        assert (q2 = q) as -> by congruence. cbn. split; [done|lia].
      * exists tok', q2. by rewrite lookup_insert_ne.
  - intros tok' q2 [[-> ->]|(_ & H2 & _)]%resubscribe_lookup;
      [exact (qi_args _ _ Hi _ _ Hq)|exact (qi_args _ _ Hi _ _ H2)].
Qed.
End resubscribe.

(** ** Subscribing to a new query *)

Section subscribe_new.
Context (n : Z) (c : Client) (tok : string) (path : string) (args : list Value).
Context (Hi : queries_inv n c) (Hn : n + 1 < 2 ^ 32) (Hq : queries c !! tok = None).
Context (Harg : utf8_ok path = true /\ exists arg, args = [arg] /\ query_token path arg = Ok tok /\ value_ok arg = true).

Let qid := nextQueryID c.
Let q' := mkQuery qid path args 1 1.
Let c' := set_subscribers ({[(qid, 1)]} ∪ subscribers c)
  (set_queryIDToToken (<[qid := tok]> (queryIDToToken c))
    (set_queries (<[tok := q']> (queries c)) (set_nextQueryID (u32 (qid + 1)) c))).

Lemma new_next : u32 (qid + 1) = qid + 1.
Proof. pose proof (qi_next _ _ Hi). apply u32_small. unfold qid. lia. Qed.

Lemma new_lookup tok' q2 : queries c' !! tok' = Some q2 ->
  (tok' = tok /\ q2 = q') \/ (tok' <> tok /\ queries c !! tok' = Some q2 /\ 0 <= q_id q2 < qid).
Proof.
  cbn. destruct (decide (tok = tok')) as [<-|Hne].
  - rewrite lookup_insert_eq. intros [= <-]. by left.
  - rewrite lookup_insert_ne by done. intros H2. right. split; [done|]. split; [done|].
    by apply (qi_range _ _ Hi _ _ H2).
Qed.

Lemma new_no_subscribers s : s ∈ subscribers c -> fst s <> qid.
Proof.
  intros Hs He. destruct (qi_subs _ _ Hi _ Hs) as (tok' & q2 & H2 & He2 & _).
  pose proof (qi_range _ _ Hi _ _ H2). unfold qid in *. lia.
Qed.

Lemma new_count_same id : id <> qid -> subscribers_of id c' = subscribers_of id c.
Proof. intros Hne. unfold subscribers_of. cbn. set_solver. Qed.

Lemma new_count : size (subscribers_of qid c') = 1%nat.
Proof.
  assert (subscribers_of qid c' = {[(qid, 1)]}) as ->; [|apply size_singleton].
  apply set_eq. intros s. unfold subscribers_of. rewrite elem_of_filter, elem_of_singleton. cbn.
  rewrite elem_of_union, elem_of_singleton. split.
  - intros [He [->|Hs]]; [done|]. by destruct (new_no_subscribers s Hs).
  - intros ->. auto.
Qed.

Lemma subscribe_new_inv : queries_inv (n + 1) c'.
Proof.
  pose proof new_next as Hnext. pose proof (qi_next _ _ Hi) as Hr.
  constructor.
  - cbn. rewrite Hnext. unfold qid. lia.
  - intros tok' q2 [[-> ->]|(_ & H2 & Hlt)]%new_lookup; cbn.
    + by rewrite lookup_insert_eq.
    + rewrite lookup_insert_ne by lia. by apply (qi_token _ _ Hi).
  - intros id tok'. cbn. destruct (decide (qid = id)) as [<-|Hne].
    + rewrite lookup_insert_eq. intros [= <-]. exists q'. by rewrite lookup_insert_eq.
    + rewrite lookup_insert_ne by done. intros Ht.
      destruct (qi_id _ _ Hi _ _ Ht) as (q2 & H2 & He). exists q2.
      rewrite lookup_insert_ne by congruence. done.
  - intros tok' q2 [[-> ->]|(_ & H2 & Hlt)]%new_lookup; cbn; rewrite Hnext; unfold qid in *; lia.
  - intros tok' q2 [[-> ->]|(_ & H2 & Hlt)]%new_lookup; cbn; [lia|].
    pose proof (qi_idx _ _ Hi _ _ H2). lia.
  - intros tok' q2 [[-> ->]|(_ & H2 & Hlt)]%new_lookup.
    + cbn [q_id q_numSubscribers q']. rewrite new_count. lia.
    + rewrite new_count_same by lia. by apply (qi_count _ _ Hi _ _ H2).
  - intros s. cbn [subscribers c' set_subscribers].
    rewrite elem_of_union, elem_of_singleton. intros [->|Hs].
    + exists tok, q'. cbn. rewrite lookup_insert_eq. split; [done|]. split; [done|]. lia.
    + destruct (qi_subs _ _ Hi _ Hs) as (tok' & q2 & H2 & He & Hb). exists tok', q2. cbn.
      rewrite lookup_insert_ne by congruence. done.
  - intros tok' q2 [[-> ->]|(_ & H2 & _)]%new_lookup; [exact Harg|by eapply (qi_args _ _ Hi)].
Qed.
End subscribe_new.

(** ** Unsubscribing *)

Section unsubscribe.
Context (n : Z) (c : Client) (tok : string) (q : localBaseQuery) (id : SubscriberID).
Context (Hi : queries_inv n c) (Hs : id ∈ subscribers c).
Context (Hq : queries c !! tok = Some q) (Hid : q_id q = fst id).

Lemma unsubscribe_count c' : subscribers c' = subscribers c ∖ {[id]} ->
  Z.of_nat (size (subscribers_of (q_id q) c')) =
  Z.of_nat (size (subscribers_of (q_id q) c)) - 1.
Proof.
  intros Hc'. assert (Hin : id ∈ subscribers_of (q_id q) c).
  { unfold subscribers_of. by apply elem_of_filter. }
  assert (subscribers_of (q_id q) c' = subscribers_of (q_id q) c ∖ {[id]}) as ->.
  { unfold subscribers_of. rewrite Hc'. set_solver. }
  rewrite size_difference by set_solver. rewrite size_singleton.
  assert (size (subscribers_of (q_id q) c) <> 0%nat); [|lia].
  intros H%size_empty_inv. set_solver.
Qed.

Lemma unsubscribe_count_same c' id' : subscribers c' = subscribers c ∖ {[id]} ->
  id' <> q_id q -> subscribers_of id' c' = subscribers_of id' c.
Proof. intros Hc' Hne. unfold subscribers_of. rewrite Hc'. set_solver. Qed.

Let q1 := mkQuery (q_id q) (q_canonicalPath q) (q_args q) (q_numSubscribers q - 1)
            (q_nextSubscriberIdx q).
Let c1 := set_queries (<[tok := q1]> (queries c)) (set_subscribers (subscribers c ∖ {[id]}) c).

(** One subscriber less of a query that keeps others. *)
Lemma unsubscribe_one_inv : 1 < q_numSubscribers q -> queries_inv n c1.
Proof.
  intros Hmany.
  assert (Hl : forall tok' q2, queries c1 !! tok' = Some q2 ->
    (tok' = tok /\ q2 = q1) \/ (tok' <> tok /\ queries c !! tok' = Some q2 /\ q_id q2 <> q_id q)).
  { intros tok' q2. cbn. destruct (decide (tok = tok')) as [<-|Hne].
    - rewrite lookup_insert_eq. intros [= <-]. by left.
    - rewrite lookup_insert_ne by done. intros H2. right. split; [done|]. split; [done|].
      intros He. by destruct (query_id_inj _ _ _ _ _ _ Hi H2 Hq He). }
  constructor.
  - apply (qi_next _ _ Hi).
  - intros tok' q2 [[-> ->]|(_ & H2 & _)]%Hl;
      [exact (qi_token _ _ Hi _ _ Hq)|exact (qi_token _ _ Hi _ _ H2)].
  - intros id' tok' Ht. destruct (qi_id _ _ Hi _ _ Ht) as (q2 & H2 & He). cbn.
    destruct (decide (tok = tok')) as [<-|Hne].
    + rewrite lookup_insert_eq. exists q1. split; [done|]. cbn. congruence.
    + rewrite lookup_insert_ne by done. eauto.
  - intros tok' q2 [[-> ->]|(_ & H2 & _)]%Hl;
      [exact (qi_range _ _ Hi _ _ Hq)|exact (qi_range _ _ Hi _ _ H2)].
  - intros tok' q2 [[-> ->]|(_ & H2 & _)]%Hl; [exact (qi_idx _ _ Hi _ _ Hq)|
      exact (qi_idx _ _ Hi _ _ H2)].
  - intros tok' q2 [[-> ->]|(_ & H2 & Hne)]%Hl.
    + cbn [q_id q_numSubscribers q1]. rewrite (unsubscribe_count c1) by done.
      destruct (qi_count _ _ Hi _ _ Hq). lia.
    + rewrite (unsubscribe_count_same c1) by done. by apply (qi_count _ _ Hi _ _ H2).
  - intros s. cbn [subscribers c1 set_queries set_subscribers].
    rewrite elem_of_difference. intros [Hin _].
    destruct (qi_subs _ _ Hi _ Hin) as (tok' & q2 & H2 & He & Hr). cbn.
    destruct (decide (tok = tok')) as [<-|Hne].
    + exists tok, q1. rewrite lookup_insert_eq. split; [done|].
      assert (q2 = q) as -> by congruence. done.
    + exists tok', q2. by rewrite lookup_insert_ne.
  - intros tok' q2 [[-> ->]|(_ & H2 & _)]%Hl;
      [exact (qi_args _ _ Hi _ _ Hq)|exact (qi_args _ _ Hi _ _ H2)].
Qed.

Let c2 := set_results (delete (fst id) (results c))
  (set_serverResults (delete (fst id) (serverResults c))
    (set_queryIDToToken (delete (fst id) (queryIDToToken c))
      (set_queries (delete tok (queries c)) (set_subscribers (subscribers c ∖ {[id]}) c)))).

(** The last subscriber takes the query with it. *)
Lemma unsubscribe_last_inv : q_numSubscribers q <= 1 -> queries_inv n c2.
Proof.
  intros Hlast.
  assert (Hl : forall tok' q2, queries c2 !! tok' = Some q2 ->
    tok' <> tok /\ queries c !! tok' = Some q2 /\ q_id q2 <> q_id q).
  { intros tok' q2. cbn. rewrite lookup_delete_Some. intros [Hne H2]. split; [done|].
    split; [done|]. intros He. by destruct (query_id_inj _ _ _ _ _ _ Hi H2 Hq He). }
  assert (Hgone : forall s, s ∈ subscribers c2 -> s ∈ subscribers c /\ fst s <> q_id q).
  { intros s Hin. cbn in Hin. split; [set_solver|]. intros He.
    assert (Hin2 : s ∈ subscribers_of (q_id q) c2).
    { unfold subscribers_of. by apply elem_of_filter. }
    pose proof (unsubscribe_count c2 eq_refl) as Hc. destruct (qi_count _ _ Hi _ _ Hq).
    assert (size (subscribers_of (q_id q) c2) = 0%nat) as Hz by lia.
    apply size_empty_inv in Hz. set_solver. }
  constructor.
  - apply (qi_next _ _ Hi).
  - intros tok' q2 (_ & H2 & Hne)%Hl. cbn. rewrite lookup_delete_ne by congruence.
    by apply (qi_token _ _ Hi).
  - intros id' tok'. cbn. rewrite lookup_delete_Some. intros [Hne Ht].
    destruct (qi_id _ _ Hi _ _ Ht) as (q2 & H2 & He). exists q2. split; [|done].
    rewrite lookup_delete_ne; [done|]. intros ->. congruence.
  - intros tok' q2 (_ & H2 & _)%Hl. by apply (qi_range _ _ Hi _ _ H2).
  - intros tok' q2 (_ & H2 & _)%Hl. by apply (qi_idx _ _ Hi _ _ H2).
  - intros tok' q2 (_ & H2 & Hne)%Hl. rewrite (unsubscribe_count_same c2) by done.
    by apply (qi_count _ _ Hi _ _ H2).
  - intros s [Hin Hne]%Hgone. destruct (qi_subs _ _ Hi _ Hin) as (tok' & q2 & H2 & He & Hr).
    exists tok', q2. cbn. rewrite lookup_delete_ne; [done|]. intros ->. congruence.
  - intros tok' q2 (_ & H2 & _)%Hl. by eapply (qi_args _ _ Hi).
Qed.
End unsubscribe.
