(* ===== verification/ClientRequests.v ===== *)
(** * The requests of the base client

    The invariant of the requests in flight and of the logs of completed ones,
    and the operations that complete requests.  A log keeps the most recent
    results, in the order of completion. *)
From S2P Require Import Prelude GoStrings GoJson Values Results GoEncode Paths Protocol ClientMessages ServerMessages ProtocolFacts Canonical CanonicalFacts ClientState BaseClient.
Local Open Scope Z_scope.

Abbreviation limit := normalizedCompletedRequestRetentionLimit.

(** ** Logs of completed requests *)

Lemma drop_oldest_spec n order kept evicted :
  drop_oldest n order = (kept, evicted) ->
  order = evicted ++ kept /\ length kept = Nat.min n (length order).
Proof.
  revert kept evicted. induction order as [|id rest IH]; intros kept evicted; cbn [drop_oldest].
  - intros [= <- <-]. cbn. split; [done|lia].
  - destruct (Nat.ltb_spec n (length (id :: rest))) as [Hlt|Hlt]; cbn [length] in Hlt.
    + destruct (drop_oldest n rest) as [k e] eqn:Hd. intros [= <- <-].
      destruct (IH k e eq_refl) as [-> Hl]. split; [done|].
      rewrite Hl. cbn. rewrite length_app in *. lia.
    + intros [= <- <-]. cbn. split; [done|lia].
Qed.

Lemma delete_all_lookup {A : Type} ids (m : gmap Z A) id :
  delete_all ids m !! id = if decide (id ∈ ids) then None else m !! id.
Proof.
  unfold delete_all. revert m. induction ids as [|i ids IH]; intros m; cbn.
  - by rewrite decide_False by (by intros ?%not_elem_of_nil).
  - rewrite IH. destruct (decide (id ∈ ids)) as [Hin|Hin].
    + by rewrite decide_True by (by right).
    + destruct (decide (i = id)) as [<-|Hne].
      * rewrite lookup_delete_eq, decide_True by (by left). done.
      * rewrite lookup_delete_ne by done. rewrite decide_False; [done|].
        intros [?|?]%elem_of_cons; congruence.
Qed.

(** A log: the ids in order, without repetition and within the limit, and the
    results of exactly those ids. *)
Record log_ok (order : list Z) (results : gmap Z FunctionResult) : Prop := {
  log_nodup : NoDup order;
  log_dom : forall id, is_Some (results !! id) <-> id ∈ order;
  log_limit : (length order <= limit)%nat
}.

Lemma log_empty : log_ok [] ∅.
Proof.
  split; [constructor| |cbn; lia]. intros id. rewrite lookup_empty, elem_of_nil.
  split; [by intros []|done].
Qed.

Lemma log_append order results id r kept evicted :
  log_ok order results -> id ∉ order ->
  drop_oldest limit (order ++ [id]) = (kept, evicted) ->
  log_ok kept (delete_all evicted (<[id := r]> results)).
Proof.
  intros [Hnd Hdom _] Hid Hd. apply drop_oldest_spec in Hd as [Ho Hl].
  assert (Hnd' : NoDup (evicted ++ kept)).
  { rewrite <- Ho. apply NoDup_app. split; [done|]. split; [|apply NoDup_singleton].
    intros x Hx ->%list_elem_of_singleton. done. }
  apply NoDup_app in Hnd' as (_ & Hdisj & Hk). split; [done| |rewrite Hl; lia].
  intros x. rewrite delete_all_lookup.
  assert (Hx : is_Some (<[id:=r]> results !! x) <-> x ∈ evicted ++ kept).
  { rewrite <- Ho, elem_of_app, list_elem_of_singleton.
    destruct (decide (id = x)) as [<-|Hne].
    - rewrite lookup_insert_eq. split; eauto.
    - rewrite lookup_insert_ne, Hdom by done. naive_solver. }
  rewrite elem_of_app in Hx. destruct (decide (x ∈ evicted)) as [He|He].
  - split; [by intros []|]. intros Hxk. by destruct (Hdisj x).
  - rewrite Hx. naive_solver.
Qed.

Lemma log_append_lookup order results id r kept evicted x :
  log_ok order results -> id ∉ order ->
  drop_oldest limit (order ++ [id]) = (kept, evicted) -> x ∈ kept ->
  delete_all evicted (<[id := r]> results) !! x = <[id := r]> results !! x.
Proof.
  intros [Hnd _ _] Hid Hd Hx. apply drop_oldest_spec in Hd as [Ho _].
  rewrite delete_all_lookup, decide_False; [done|]. intros He.
  assert (Hnd' : NoDup (evicted ++ kept)).
  { rewrite <- Ho. apply NoDup_app. split; [done|]. split; [|apply NoDup_singleton].
    intros y Hy ->%list_elem_of_singleton. done. }
  apply NoDup_app in Hnd' as (_ & Hdisj & _). by destruct (Hdisj x).
Qed.

(** ** The invariant *)

(** The message of a request, with well-formed arguments. *)
Definition request_message (r : trackedSyncRequest) : Prop :=
  exists path args, utf8_ok path = true /\ values_ok (Some args) = true /\
    r_message r =
      match r_kind r with
      | syncRequestMutation => CMutation (mkRequest (r_id r) path (Some args) "")
      | syncRequestAction => CAction (mkRequest (r_id r) path (Some args) "")
      end.

Lemma canonical_message (r : trackedSyncRequest) path args p l :
  canonicalRequest path args = Ok (p, l) ->
  r_message r =
    match r_kind r with
    | syncRequestMutation => CMutation (mkRequest (r_id r) p (Some l) "")
    | syncRequestAction => CAction (mkRequest (r_id r) p (Some l) "")
    end -> request_message r.
Proof.
  intros (Hp & v & -> & Hw & Hu)%canonicalRequest_parts Hm. exists p, [v].
  unfold values_ok, value_ok. cbn. by rewrite Hw, Hu.
Qed.

Record requests_inv (n : Z) (c : Client) : Prop := {
  qr_next : 0 <= nextRequestID c <= n;
  qr_id : forall id r, requests c !! id = Some r -> r_id r = id /\ 0 <= id < nextRequestID c;
  qr_message : forall id r, requests c !! id = Some r -> request_message r;
  qr_action : forall id r, requests c !! id = Some r -> r_kind r = syncRequestAction ->
    r_optimisticUpdate r = None /\ r_hasResult r = false;
  qr_mutations : log_ok (completedMutationOrder c) (mutationResults c);
  qr_completed : forall id, id ∈ completedMutations c <-> id ∈ completedMutationOrder c;
  qr_actions : log_ok (actionResultOrder c) (actionResults c);
  qr_past : forall id, id ∈ completedMutationOrder c \/ id ∈ actionResultOrder c ->
    requests c !! id = None /\ 0 <= id < nextRequestID c
}.

Definition request_part (c : Client) :=
  (nextRequestID c, requests c, (completedMutations c, completedMutationOrder c, mutationResults c),
   (actionResults c, actionResultOrder c)).

Lemma requests_inv_frame n n' c c' :
  request_part c' = request_part c -> n <= n' -> requests_inv n c -> requests_inv n' c'.
Proof.
  unfold request_part. intros [= H1 H2 H3 H4 H5 H6 H7] Hle [I1 I2 I3 I4 I5 I6 I7 I8].
  constructor; rewrite ?H1, ?H2, ?H3, ?H4, ?H5, ?H6, ?H7; auto. lia.
Qed.

Lemma New_requests_inv : requests_inv 0 New.
Proof.
  constructor; cbn; try (intros ??; rewrite lookup_empty; done); try apply log_empty.
  - lia.
  - intros id. by rewrite elem_of_empty, elem_of_nil.
  - intros id. rewrite !elem_of_nil. tauto.
Qed.

(** A request that is added, or replaced by one of the same id. *)
Lemma requests_inv_insert n c next r :
  requests_inv n c -> nextRequestID c <= next <= n -> 0 <= r_id r < next ->
  request_message r ->
  (r_kind r = syncRequestAction -> r_optimisticUpdate r = None /\ r_hasResult r = false) ->
  ~ (r_id r ∈ completedMutationOrder c \/ r_id r ∈ actionResultOrder c) ->
  requests_inv n (set_requests (<[r_id r := r]> (requests c)) (set_nextRequestID next c)).
Proof.
  intros Hi Hn Hid Hm Ha Hp. pose proof (qr_next _ _ Hi) as H0.
  assert (Hl : forall id r', <[r_id r := r]> (requests c) !! id = Some r' ->
    (id = r_id r /\ r' = r) \/ requests c !! id = Some r').
  { intros id r'. rewrite lookup_insert_Some. naive_solver. }
  constructor; cbn [nextRequestID requests completedMutations completedMutationOrder mutationResults
    actionResults actionResultOrder set_requests set_nextRequestID].
  - lia.
  - intros id r' [[-> ->]|Hr]%Hl; [done|]. pose proof (qr_id _ _ Hi _ _ Hr). naive_solver lia.
  - intros id r' [[-> ->]|Hr]%Hl; [done|by apply (qr_message _ _ Hi _ _ Hr)].
  - intros id r' [[-> ->]|Hr]%Hl; [done|by apply (qr_action _ _ Hi _ _ Hr)].
  - apply (qr_mutations _ _ Hi).
  - apply (qr_completed _ _ Hi).
  - apply (qr_actions _ _ Hi).
  - intros id Hid'. destruct (qr_past _ _ Hi id Hid') as [Hnone Hb]. split; [|lia].
    rewrite lookup_insert_ne; [done|]. intros <-. done.
Qed.

(** ** Completing a request *)

Lemma rememberMutationResult_eq id r c :
  exists kept evicted,
    drop_oldest limit (completedMutationOrder c ++ [id]) = (kept, evicted) /\
    rememberMutationResult id r c =
      set_completedMutations (({[id]} ∪ completedMutations c) ∖ list_to_set evicted)
        (set_mutationResults (delete_all evicted (<[id := r]> (mutationResults c)))
          (set_completedMutationOrder kept c)).
Proof.
  unfold rememberMutationResult. cbn [completedMutationOrder set_completedMutations set_mutationResults].
  destruct (drop_oldest limit (completedMutationOrder c ++ [id])) as [k e] eqn:Hd.
  exists k, e. split; [done|]. done.
Qed.

Lemma rememberActionResult_eq id r c :
  exists kept evicted,
    drop_oldest limit (actionResultOrder c ++ [id]) = (kept, evicted) /\
    rememberActionResult id r c =
      set_actionResults (delete_all evicted (<[id := r]> (actionResults c)))
        (set_actionResultOrder kept c).
Proof.
  unfold rememberActionResult. cbn [actionResultOrder set_actionResults].
  destruct (drop_oldest limit (actionResultOrder c ++ [id])) as [k e] eqn:Hd.
  exists k, e. split; [done|]. done.
Qed.

Section complete.
Context (n : Z) (c : Client) (id : Z) (request : trackedSyncRequest) (r : FunctionResult).
Context (Hi : requests_inv n c) (Hr : requests c !! id = Some request).

Lemma not_logged : ~ (id ∈ completedMutationOrder c \/ id ∈ actionResultOrder c).
Proof. intros H. destruct (qr_past _ _ Hi id H). congruence. Qed.

Lemma deleted_lookup id' r' :
  delete id (requests c) !! id' = Some r' -> id' <> id /\ requests c !! id' = Some r'.
Proof. rewrite lookup_delete_Some. naive_solver. Qed.

Lemma remember_mutation_inv :
  requests_inv n (set_requests (delete id (requests c)) (rememberMutationResult id r c)).
Proof.
  destruct (rememberMutationResult_eq id r c) as (kept & evicted & Hd & ->).
  pose proof not_logged as Hnl.
  assert (Hlog := log_append _ _ id r _ _ (qr_mutations _ _ Hi)
                    (fun H => Hnl (or_introl H)) Hd).
  destruct (drop_oldest_spec _ _ _ _ Hd) as [Ho _].
  constructor; cbn [nextRequestID requests completedMutations completedMutationOrder mutationResults
    actionResults actionResultOrder set_requests set_nextRequestID set_completedMutations
    set_mutationResults set_completedMutationOrder].
  - apply (qr_next _ _ Hi).
  - intros id' r' [_ H]%deleted_lookup. by apply (qr_id _ _ Hi).
  - intros id' r' [_ H]%deleted_lookup. by apply (qr_message _ _ Hi _ _ H).
  - intros id' r' [_ H]%deleted_lookup. by apply (qr_action _ _ Hi _ _ H).
  - exact Hlog.
  - intros x. rewrite elem_of_difference, elem_of_union, elem_of_singleton, elem_of_list_to_set.
    rewrite (qr_completed _ _ Hi). pose proof (log_nodup _ _ (qr_mutations _ _ Hi)) as Hnd.
    assert (Hx : x ∈ evicted ++ kept <-> x = id \/ x ∈ completedMutationOrder c).
    { rewrite <- Ho, elem_of_app, list_elem_of_singleton. tauto. }
    assert (Hnd' : NoDup (evicted ++ kept)).
    { rewrite <- Ho. apply NoDup_app. split; [done|]. split; [|apply NoDup_singleton].
      intros y Hy ->%list_elem_of_singleton. tauto. }
    apply NoDup_app in Hnd' as (_ & Hdisj & _). rewrite elem_of_app in Hx.
    specialize (Hdisj x). tauto.
  - apply (qr_actions _ _ Hi).
  - intros x Hx. assert (Hx' : x = id \/ x ∈ completedMutationOrder c \/ x ∈ actionResultOrder c).
    { destruct Hx as [Hx|Hx]; [|tauto].
      assert (x ∈ completedMutationOrder c ++ [id]) as H by (rewrite Ho; apply elem_of_app; tauto).
      rewrite elem_of_app, list_elem_of_singleton in H. tauto. }
    destruct Hx' as [->|Hx'].
    + rewrite lookup_delete_eq. split; [done|]. by apply (qr_id _ _ Hi _ _ Hr).
    + destruct (qr_past _ _ Hi x Hx'). rewrite lookup_delete_None. tauto.
Qed.

Lemma remember_action_inv :
  requests_inv n (set_requests (delete id (requests c)) (rememberActionResult id r c)).
Proof.
  destruct (rememberActionResult_eq id r c) as (kept & evicted & Hd & ->).
  pose proof not_logged as Hnl.
  assert (Hlog := log_append _ _ id r _ _ (qr_actions _ _ Hi)
                    (fun H => Hnl (or_intror H)) Hd).
  destruct (drop_oldest_spec _ _ _ _ Hd) as [Ho _].
  constructor; cbn [nextRequestID requests completedMutations completedMutationOrder mutationResults
    actionResults actionResultOrder set_requests set_nextRequestID set_actionResults
    set_actionResultOrder].
  - apply (qr_next _ _ Hi).
  - intros id' r' [_ H]%deleted_lookup. by apply (qr_id _ _ Hi).
  - intros id' r' [_ H]%deleted_lookup. by apply (qr_message _ _ Hi _ _ H).
  - intros id' r' [_ H]%deleted_lookup. by apply (qr_action _ _ Hi _ _ H).
  - apply (qr_mutations _ _ Hi).
  - apply (qr_completed _ _ Hi).
  - exact Hlog.
  - intros x Hx. assert (Hx' : x = id \/ x ∈ completedMutationOrder c \/ x ∈ actionResultOrder c).
    { destruct Hx as [Hx|Hx]; [tauto|].
      assert (x ∈ actionResultOrder c ++ [id]) as H by (rewrite Ho; apply elem_of_app; tauto).
      rewrite elem_of_app, list_elem_of_singleton in H. tauto. }
    destruct Hx' as [->|Hx'].
    + rewrite lookup_delete_eq. split; [done|]. by apply (qr_id _ _ Hi _ _ Hr).
    + destruct (qr_past _ _ Hi x Hx'). rewrite lookup_delete_None. tauto.
Qed.
End complete.

Lemma completeMutationRequest_inv n c id :
  requests_inv n c -> requests_inv n (fst (completeMutationRequest id c)).
Proof.
  intros Hi. unfold completeMutationRequest.
  destruct (requests c !! id) as [request|] eqn:Hr; [|done].
  destruct (r_hasResult request); [|done]. cbn.
  replace (requests (rememberMutationResult id (r_result request) c)) with (requests c).
  - by eapply remember_mutation_inv.
  - destruct (rememberMutationResult_eq id (r_result request) c) as (? & ? & _ & ->). done.
Qed.

Lemma completeMutationsThrough_inv n c ts :
  requests_inv n c -> requests_inv n (completeMutationsThrough ts c).
Proof.
  unfold completeMutationsThrough. generalize (sorted_ids (completes_through ts) c). intros ids.
  revert c. induction ids as [|id ids IH]; intros c Hi; [done|]. cbn.
  by apply IH, completeMutationRequest_inv.
Qed.

Lemma cancel_ids_inv n c ids :
  requests_inv n c -> NoDup ids -> (forall id, id ∈ ids -> is_Some (requests c !! id)) ->
  requests_inv n
    (fold_left
      (fun c id =>
         let c := rememberActionResult id (ErrorMessageResult actionReconnectErrorMessage) c in
         set_requests (delete id (requests c)) c) ids c).
Proof.
  revert c. induction ids as [|id ids IH]; intros c Hi Hnd Hin; [done|]. cbn [fold_left].
  apply NoDup_cons in Hnd as [Hnotin Hnd]. destruct (Hin id) as [request Hr]; [by left|].
  set (e := ErrorMessageResult actionReconnectErrorMessage).
  assert (Hreq : requests (rememberActionResult id e c) = requests c).
  { destruct (rememberActionResult_eq id e c) as (? & ? & _ & ->). done. }
  apply IH; [|done|].
  - cbv zeta. rewrite Hreq. by eapply remember_action_inv.
  - intros id' Hid'. cbn. rewrite Hreq. rewrite lookup_delete_ne by (by intros ->).
    apply Hin. by right.
Qed.

(** The ids the code collects and sorts. *)
Lemma sorted_ids_elem (P : trackedSyncRequest -> Prop) `{!forall r, Decision (P r)} c id :
  id ∈ sorted_ids P c <-> exists r, requests c !! id = Some r /\ P r.
Proof.
  unfold sorted_ids. rewrite sort_by_elem, list_elem_of_fmap. split.
  - intros ([i r] & -> & Hin). apply elem_of_map_to_list, map_lookup_filter_Some in Hin. eauto.
  - intros (r & Hr & HP). exists (id, r). split; [done|].
    by apply elem_of_map_to_list, map_lookup_filter_Some.
Qed.

Lemma sorted_ids_NoDup (P : trackedSyncRequest -> Prop) `{!forall r, Decision (P r)} c :
  NoDup (sorted_ids P c).
Proof.
  unfold sorted_ids. rewrite sort_by_perm. apply NoDup_fst_map_to_list.
Qed.

Lemma cancelPendingActions_inv n c :
  requests_inv n c -> requests_inv n (cancelPendingActionsForReconnect c).
Proof.
  intros Hi. unfold cancelPendingActionsForReconnect. apply cancel_ids_inv; [done| |].
  - apply sorted_ids_NoDup.
  - intros id (r & Hr & _)%sorted_ids_elem. eauto.
Qed.

(** ** Completing several requests *)

Lemma complete_eq id c r : requests c !! id = Some r -> r_hasResult r = true ->
  exists kept evicted,
    drop_oldest limit (completedMutationOrder c ++ [id]) = (kept, evicted) /\
    let c' := fst (completeMutationRequest id c) in
    requests c' = delete id (requests c) /\ completedMutationOrder c' = kept /\
    mutationResults c' = delete_all evicted (<[id := r_result r]> (mutationResults c)).
Proof.
  intros Hr Hh. unfold completeMutationRequest. rewrite Hr, Hh. cbn [fst].
  destruct (rememberMutationResult_eq id (r_result r) c) as (kept & evicted & Hd & ->).
  by exists kept, evicted.
Qed.

Definition complete_ids (ids : list Z) (c : Client) : Client :=
  fold_left (fun c id => fst (completeMutationRequest id c)) ids c.

(** The ids are of requests with a result, each once. *)
Definition completable (ids : list Z) (c : Client) : Prop :=
  NoDup ids /\ forall id, id ∈ ids -> exists r, requests c !! id = Some r /\ r_hasResult r = true.

Lemma completable_cons id ids c : completable (id :: ids) c ->
  completable ids (fst (completeMutationRequest id c)) /\
  (id ∉ ids) /\ exists r, requests c !! id = Some r /\ r_hasResult r = true.
Proof.
  intros [Hnd Hc]. apply NoDup_cons in Hnd as [Hid Hnd].
  destruct (Hc id) as (r & Hr & Hh); [by left|].
  destruct (complete_eq id c r Hr Hh) as (k & e & _ & Hreq & _). split; [|eauto].
  split; [done|]. intros id' Hin. rewrite Hreq, lookup_delete_ne by (by intros ->).
  apply Hc. by right.
Qed.

Lemma complete_ids_requests ids c id : completable ids c ->
  requests (complete_ids ids c) !! id = if decide (id ∈ ids) then None else requests c !! id.
Proof.
  unfold complete_ids. revert c. induction ids as [|i ids IH]; intros c Hc; cbn [fold_left].
  - by rewrite decide_False by (by intros ?%not_elem_of_nil).
  - apply completable_cons in Hc as (Hc & Hi & r & Hr & Hh). rewrite IH by done.
    destruct (complete_eq i c r Hr Hh) as (k & e & _ & -> & _).
    destruct (decide (id ∈ ids)) as [Hin|Hin].
    + by rewrite decide_True by (by right).
    + destruct (decide (i = id)) as [<-|Hne].
      * by rewrite lookup_delete_eq, decide_True by (by left).
      * rewrite lookup_delete_ne by done. rewrite decide_False; [done|].
        intros [?|?]%elem_of_cons; congruence.
Qed.

Lemma complete_ids_order ids c : completable ids c ->
  (length (completedMutationOrder c) <= limit)%nat ->
  exists dropped,
    completedMutationOrder c ++ ids = dropped ++ completedMutationOrder (complete_ids ids c) /\
    length (completedMutationOrder (complete_ids ids c)) =
      Nat.min limit (length (completedMutationOrder c) + length ids).
Proof.
  unfold complete_ids. revert c. induction ids as [|i ids IH]; intros c Hc Hl; cbn [fold_left].
  - exists []. rewrite app_nil_r. split; [done|]. cbn [length]. lia.
  - apply completable_cons in Hc as (Hc & _ & r & Hr & Hh).
    destruct (complete_eq i c r Hr Hh) as (k & e & Hd & _ & Ho & _).
    apply drop_oldest_spec in Hd as [He Hk]. rewrite length_app in Hk. cbn [length] in Hk.
    destruct (IH (fst (completeMutationRequest i c)) Hc) as (d & Hd & Hlen); [rewrite Ho, Hk; lia|].
    rewrite Ho in Hd, Hlen. exists (e ++ d). split; [|rewrite Hlen, Hk; cbn [length]; lia].
    replace (i :: ids) with ([i] ++ ids) by done. by rewrite app_assoc, He, <- !app_assoc, Hd.
Qed.

Lemma complete_ids_inv n ids c : requests_inv n c -> requests_inv n (complete_ids ids c).
Proof.
  unfold complete_ids. revert c. induction ids as [|i ids IH]; intros c Hc; [done|].
  by apply IH, completeMutationRequest_inv.
Qed.

(** What a log still lists keeps its result. *)
Lemma complete_ids_keep n ids c id : requests_inv n c -> completable ids c -> id ∉ ids ->
  id ∈ completedMutationOrder (complete_ids ids c) ->
  mutationResults (complete_ids ids c) !! id = mutationResults c !! id.
Proof.
  unfold complete_ids. revert c. induction ids as [|i ids IH]; intros c Hi Hc Hid Hin; [done|].
  cbn [fold_left] in *. apply not_elem_of_cons in Hid as [Hne Hid].
  pose proof (completable_cons _ _ _ Hc) as (Hc' & _ & r & Hr & Hh).
  rewrite IH; [|by apply completeMutationRequest_inv|done|done|done].
  destruct (complete_eq i c r Hr Hh) as (k & e & Hd & _ & Ho & ->).
  assert (Hk : id ∈ k).
  { destruct (complete_ids_order ids _ Hc') as (d & Hd' & _).
    { rewrite Ho. apply drop_oldest_spec in Hd as [_ Hk]. rewrite Hk. lia. }
    rewrite Ho in Hd'. assert (id ∈ k ++ ids) as Hx by (rewrite Hd'; apply elem_of_app; by right).
    apply elem_of_app in Hx as [|]; done. }
  rewrite (log_append_lookup _ _ i (r_result r) k e id (qr_mutations _ _ Hi)); try done.
  - by rewrite lookup_insert_ne.
  - intros Hlog. destruct (qr_past _ _ Hi i (or_introl Hlog)). congruence.
Qed.

Lemma complete_ids_result n ids c id r : requests_inv n c -> completable ids c -> id ∈ ids ->
  requests c !! id = Some r -> id ∈ completedMutationOrder (complete_ids ids c) ->
  mutationResults (complete_ids ids c) !! id = Some (r_result r).
Proof.
  unfold complete_ids. revert c. induction ids as [|i ids IH]; intros c Hi Hc Hid Hr Hin.
  { by apply not_elem_of_nil in Hid. }
  cbn [fold_left] in *. pose proof (completable_cons _ _ _ Hc) as (Hc' & Hni & ri & Hri & Hh).
  destruct (complete_eq i c ri Hri Hh) as (k & e & Hd & Hreq & Ho & Hres).
  destruct (decide (id = i)) as [->|Hne].
  - assert (ri = r) as -> by congruence.
    pose proof (completeMutationRequest_inv n c i Hi) as Hi'.
    pose proof (complete_ids_keep n ids _ i Hi' Hc' Hni Hin) as Hkeep.
    unfold complete_ids in Hkeep. rewrite Hkeep.
    assert (Hk : i ∈ k).
    { destruct (complete_ids_order ids _ Hc') as (d & Hd' & _).
      { rewrite Ho. apply drop_oldest_spec in Hd as [_ Hk]. rewrite Hk. lia. }
      rewrite Ho in Hd'. assert (i ∈ k ++ ids) as Hx by (rewrite Hd'; apply elem_of_app; by right).
      apply elem_of_app in Hx as [|]; done. }
    rewrite Hres, (log_append_lookup _ _ i (r_result r) k e i (qr_mutations _ _ Hi)); try done.
    + by rewrite lookup_insert_eq.
    + intros Hlog. destruct (qr_past _ _ Hi i (or_introl Hlog)). congruence.
  - apply IH; [by apply completeMutationRequest_inv|done| | |done].
    + by apply elem_of_cons in Hid as [|].
    + by rewrite Hreq, lookup_delete_ne.
Qed.

Lemma completes_completable ts c : completable (sorted_ids (completes_through ts) c) c.
Proof.
  split; [apply sorted_ids_NoDup|].
  intros id (r & Hr & _ & Hh & _)%sorted_ids_elem. eauto.
Qed.
