(* ===== verification/ClientInvariant.v ===== *)
(** * The invariant of the base client

    The operations as steps of a transition system, and the invariant of its
    reachable states by induction over the history. *)
From S2P Require Import Prelude GoStrings GoJson Values Results GoEncode Paths Protocol ClientMessages ServerMessages Canonical ClientState BaseClient ClientQueries ClientRequests.
Local Open Scope Z_scope.

(** ** Frames: what an operation leaves alone *)

Definition result_part (c : Client) := (serverResults c, results c).

Lemma remember_action_frame id r c :
  query_part (rememberActionResult id r c) = query_part c /\
  result_part (rememberActionResult id r c) = result_part c /\
  requests (rememberActionResult id r c) = requests c.
Proof. destruct (rememberActionResult_eq id r c) as (? & ? & _ & ->). done. Qed.

Lemma remember_mutation_frame id r c :
  query_part (rememberMutationResult id r c) = query_part c /\
  result_part (rememberMutationResult id r c) = result_part c /\
  requests (rememberMutationResult id r c) = requests c.
Proof. destruct (rememberMutationResult_eq id r c) as (? & ? & _ & ->). done. Qed.

Lemma complete_frame id c :
  query_part (fst (completeMutationRequest id c)) = query_part c /\
  result_part (fst (completeMutationRequest id c)) = result_part c.
Proof.
  unfold completeMutationRequest. destruct (requests c !! id) as [r|]; [|done].
  destruct (r_hasResult r); [|done]. cbn [fst].
  destruct (remember_mutation_frame id (r_result r) c) as (Hq & Hr & _). done.
Qed.

Lemma completeThrough_frame ts c :
  query_part (completeMutationsThrough ts c) = query_part c /\
  result_part (completeMutationsThrough ts c) = result_part c.
Proof.
  unfold completeMutationsThrough. generalize (sorted_ids (completes_through ts) c). intros ids.
  revert c. induction ids as [|id ids IH]; intros c; [done|]. cbn [fold_left].
  destruct (IH (fst (completeMutationRequest id c))) as [-> ->]. apply complete_frame.
Qed.

Lemma cancel_frame c :
  query_part (cancelPendingActionsForReconnect c) = query_part c /\
  result_part (cancelPendingActionsForReconnect c) = result_part c.
Proof.
  unfold cancelPendingActionsForReconnect. generalize (sorted_ids is_action c). intros ids.
  revert c. induction ids as [|id ids IH]; intros c; [done|]. cbn [fold_left].
  edestruct IH as [-> ->].
  destruct (remember_action_frame id (ErrorMessageResult actionReconnectErrorMessage) c)
    as (Hq & Hr & _). done.
Qed.

Lemma observe_frame ts c :
  query_part (observeTimestamp ts c) = query_part c /\
  result_part (observeTimestamp ts c) = result_part c /\
  request_part (observeTimestamp ts c) = request_part c.
Proof. unfold observeTimestamp. destruct (maxObservedTimestamp c); [case_match|]; done. Qed.

Lemma queueAuth_frame t c :
  query_part (fst (queueAuth t c)) = query_part c /\
  result_part (fst (queueAuth t c)) = result_part c /\
  request_part (fst (queueAuth t c)) = request_part c.
Proof. done. Qed.

Lemma refresh_frame env c :
  query_part (fst (RefreshAuthForReconnect env c)) = query_part c /\
  result_part (fst (RefreshAuthForReconnect env c)) = result_part c /\
  request_part (fst (RefreshAuthForReconnect env c)) = request_part c.
Proof.
  unfold RefreshAuthForReconnect. destruct (authFetcher c); [|done].
  by destruct (call_fetcher env a true).
Qed.

Lemma applyStateModification_frame m c :
  query_part (applyStateModification m c) = query_part c /\
  request_part (applyStateModification m c) = request_part c.
Proof. destruct m; cbn; unfold set_server_result; try case_match; done. Qed.

Lemma modifications_frame ms c :
  query_part (fold_left (fun c m => applyStateModification m c) ms c) = query_part c /\
  request_part (fold_left (fun c m => applyStateModification m c) ms c) = request_part c.
Proof.
  revert c. induction ms as [|m ms IH]; intros c; [done|]. cbn.
  destruct (IH (applyStateModification m c)) as [-> ->]. apply applyStateModification_frame.
Qed.

(** ** Results are of active queries *)

Definition active_ids (queries : gmap string localBaseQuery) (ids : gset Z) : Prop :=
  forall tok q, queries !! tok = Some q -> q_id q ∈ ids.

Lemma Store_SetQuery_dom queries ids rs path args value :
  active_ids queries ids -> dom rs ⊆ ids ->
  dom (fst (Store_SetQuery queries rs path args value)) ⊆ ids.
Proof.
  intros Ha Hd. unfold Store_SetQuery. destruct (canonicalQuery path args) as [[[p l] tok]|]; [|done].
  destruct (queries !! tok) as [q|] eqn:Hq; [|done].
  destruct (ValueFromGo value); [|done]. cbn. specialize (Ha _ _ Hq). set_solver.
Qed.

Lemma Store_SetQueryLoading_dom queries ids rs path args :
  dom rs ⊆ ids -> dom (fst (Store_SetQueryLoading queries rs path args)) ⊆ ids.
Proof.
  intros Hd. unfold Store_SetQueryLoading.
  destruct (canonicalQuery path args) as [[[p l] tok]|]; [|done].
  destruct (queries !! tok) as [q|]; [|done]. cbn. set_solver.
Qed.

Lemma run_update_dom queries ids u rs rs' :
  active_ids queries ids -> dom rs ⊆ ids -> run_update queries u rs = Ok rs' -> dom rs' ⊆ ids.
Proof.
  intros Ha. revert rs. induction u as [[m|]|p a k IH|p k IH|p a v k IH|p a k IH]; intros rs Hd;
    cbn [run_update].
  - done.
  - by intros [= <-].
  - apply IH, Hd.
  - apply IH, Hd.
  - pose proof (Store_SetQuery_dom queries ids rs p a v Ha Hd) as H.
    destruct (Store_SetQuery queries rs p a v) as [rs1 r]. apply IH, H.
  - pose proof (Store_SetQueryLoading_dom queries ids rs p a Hd) as H.
    destruct (Store_SetQueryLoading queries rs p a) as [rs1 r]. apply IH, H.
Qed.

Lemma apply_updates_dom queries ids rqs rs rs' :
  active_ids queries ids -> dom rs ⊆ ids -> apply_updates queries rqs rs = Ok rs' -> dom rs' ⊆ ids.
Proof.
  intros Ha. revert rs. induction rqs as [|r rqs IH]; intros rs Hd; cbn; [by intros [= <-]|].
  rewrite bind_Ok. intros (rs1 & H1 & H2). apply (IH rs1); [|done].
  destruct (r_optimisticUpdate r) as [u|]; [|by injection H1 as <-].
  apply map_err_Ok in H1. by eapply run_update_dom.
Qed.

Lemma queries_active n c : queries_inv n c -> active_ids (queries c) (dom (queryIDToToken c)).
Proof. intros Hi tok q Hq. apply elem_of_dom. exists tok. by apply (qi_token _ _ Hi). Qed.

Lemma optimisticResultsWith_dom n c candidate rs :
  queries_inv n c -> dom (serverResults c) ⊆ dom (queryIDToToken c) ->
  optimisticResultsWith c candidate = Ok rs -> dom rs ⊆ dom (queryIDToToken c).
Proof.
  intros Hi Hs Ho. eapply apply_updates_dom; [by eapply queries_active|exact Hs|exact Ho].
Qed.

Lemma results_inv_frame c c' :
  result_part c' = result_part c -> queryIDToToken c' = queryIDToToken c ->
  results_inv c -> results_inv c'.
Proof. intros [= H1 H2] H3 [H4 H5]. split; by rewrite ?H1, ?H2, H3. Qed.

Lemma recompute_results_inv n c :
  queries_inv n c -> results_inv c -> results_inv (fst (recomputeOptimisticResults c)).
Proof.
  intros Hi Hr. unfold recomputeOptimisticResults.
  destruct (optimisticResultsWith c None) eqn:Ho; [|done]. split; cbn; [apply Hr|].
  by eapply optimisticResultsWith_dom; [|apply Hr|].
Qed.

Lemma recompute_frame c :
  query_part (fst (recomputeOptimisticResults c)) = query_part c /\
  request_part (fst (recomputeOptimisticResults c)) = request_part c.
Proof. unfold recomputeOptimisticResults. by destruct (optimisticResultsWith c None). Qed.

Lemma isActiveQuery_dom id c : isActiveQuery id c = true <-> id ∈ dom (queryIDToToken c).
Proof. unfold isActiveQuery. by rewrite bool_decide_eq_true, elem_of_dom. Qed.

Lemma applyStateModification_results m c : results_inv c -> results_inv (applyStateModification m c).
Proof.
  intros [Hs Hr]. destruct m as [u|f|id]; cbn.
  - unfold set_server_result. destruct (isActiveQuery (qu_QueryID u) c) eqn:Ha; [|done].
    apply isActiveQuery_dom in Ha. split; cbn; [set_solver|done].
  - unfold set_server_result. destruct (isActiveQuery (qf_QueryID f) c) eqn:Ha; [|done].
    apply isActiveQuery_dom in Ha. split; cbn; [set_solver|done].
  - split; cbn; set_solver.
Qed.

Lemma modifications_results ms c :
  results_inv c -> results_inv (fold_left (fun c m => applyStateModification m c) ms c).
Proof.
  revert c. induction ms as [|m ms IH]; intros c Hc; [done|].
  by apply IH, applyStateModification_results.
Qed.

(** ** Steps *)

(** The operations a program can perform on the client. *)
Inductive operation : Type :=
  | OSubscribe (path : string) (args : goval)
  | OUnsubscribe (id : SubscriberID)
  | OPopNextMessage
  | OSetAuth (token : string)
  | OSetAdminAuth (token : string) (actingAs : list SyncUserIdentityAttributes)
  | OClearAuth
  | OSetAuthCallback (env : auth_environment) (fetcher : option AuthTokenFetcher)
  | ORefreshAuth (env : auth_environment)
  | OMutation (path : string) (args : goval) (opts : list SyncMutationOption)
  | OAction (path : string) (args : goval)
  | ORestart (env : auth_environment)
  | OReceive (msg : option ServerMessage).

Definition perform (op : operation) (c : Client) : Client :=
  match op with
  | OSubscribe path args => fst (Subscribe path args c)
  | OUnsubscribe id => fst (Unsubscribe id c)
  | OPopNextMessage => fst (PopNextMessage c)
  | OSetAuth token => fst (SetAuth token c)
  | OSetAdminAuth token actingAs => fst (SetAdminAuth token actingAs c)
  | OClearAuth => fst (ClearAuth c)
  | OSetAuthCallback env f => fst (SetAuthCallback env f c)
  | ORefreshAuth env => fst (RefreshAuthForReconnect env c)
  | OMutation path args opts => fst (Mutation path args opts c)
  | OAction path args => fst (Action path args c)
  | ORestart env => fst (RestartForReconnect env c)
  | OReceive msg => fst (ReceiveMessage msg c)
  end.

(** [reachable n c]: [n] operations lead from a new client to [c], whatever they
    return. *)
Inductive reachable : Z -> Client -> Prop :=
  | reach_new : reachable 0 New
  | reach_step n c op : reachable n c -> reachable (n + 1) (perform op c).

(** ** Preservation *)

Record client_inv (n : Z) (c : Client) : Prop := {
  ci_queries : queries_inv n c;
  ci_results : results_inv c;
  ci_requests : requests_inv n c
}.

(** An operation that leaves the three parts alone. *)
Lemma client_inv_frame n c c' :
  query_part c' = query_part c -> result_part c' = result_part c ->
  request_part c' = request_part c -> client_inv n c -> client_inv (n + 1) c'.
Proof.
  intros Hq Hr Hm [H1 H2 H3]. split.
  - eapply (queries_inv_frame n _ c); [done|lia|done].
  - apply (results_inv_frame c); [done| |done]. by injection Hq.
  - eapply (requests_inv_frame n _ c); [done|lia|done].
Qed.

Lemma Subscribe_inv n c path args :
  client_inv n c -> n + 1 < 2 ^ 32 -> client_inv (n + 1) (fst (Subscribe path args c)).
Proof.
  intros [Hq Hr Hm] Hn. unfold Subscribe.
  assert (Hsame : client_inv (n + 1) c) by (by apply (client_inv_frame n c)).
  destruct (canonicalQuery path args) as [[[p l] tok]|e] eqn:Hc; [|done].
  destruct (queries c !! tok) as [q|] eqn:Hl; cbn [fst].
  - split.
    + apply (resubscribe_inv n c tok q); [done|lia|done].
    + by apply (results_inv_frame c).
    + eapply (requests_inv_frame n _ c); [done|lia|exact Hm].
  - apply canonicalQuery_Ok in Hc. split.
    + eapply queries_inv_frame; [|reflexivity|exact (subscribe_new_inv n c tok p l Hq Hn Hl Hc)]. done.
    + split; cbn; rewrite dom_insert; [pose proof (ri_server _ Hr)|pose proof (ri_results _ Hr)];
        set_solver.
    + eapply (requests_inv_frame n _ c); [done|lia|exact Hm].
Qed.

Lemma Unsubscribe_inv n c id :
  client_inv n c -> client_inv (n + 1) (fst (Unsubscribe id c)).
Proof.
  intros Hc. pose proof (client_inv_frame n c c eq_refl eq_refl eq_refl Hc) as Hsame.
  destruct Hc as [Hq Hr Hm]. unfold Unsubscribe.
  destruct (decide (id ∈ subscribers c)) as [Hin|]; [|done].
  cbn [queryIDToToken set_subscribers queries].
  destruct (qi_subs _ _ Hq _ Hin) as (tok & q & Hl & He & _).
  rewrite <- He. rewrite (qi_token _ _ Hq _ _ Hl), Hl.
  destruct (Z.ltb_spec 1 (q_numSubscribers q)) as [Hmany|Hlast]; cbn [fst].
  - split.
    + apply (queries_inv_mono n); [lia|by apply (unsubscribe_one_inv n c tok q id)].
    + by apply (results_inv_frame c).
    + eapply (requests_inv_frame n _ c); [done|lia|exact Hm].
  - split.
    + eapply (queries_inv_frame n); [|lia|exact (unsubscribe_last_inv n c tok q id Hq Hin Hl He Hlast)].
      rewrite He. done.
    + destruct Hr as [Hs Hr]. split; cbn; rewrite !dom_delete_L; set_solver.
    + eapply (requests_inv_frame n _ c); [done|lia|exact Hm].
Qed.

Lemma enqueue_request_inv n c r m :
  client_inv n c -> n + 1 < 2 ^ 32 -> r_id r = nextRequestID c -> request_message r ->
  (r_kind r = syncRequestAction -> r_optimisticUpdate r = None /\ r_hasResult r = false) ->
  client_inv (n + 1)
    (enqueue m (set_requests (<[r_id r := r]> (requests c))
                  (set_nextRequestID (u32 (r_id r + 1)) c))).
Proof.
  intros [Hq Hr Hm] Hn Hid Hmsg Ha. pose proof (qr_next _ _ Hm) as Hb.
  rewrite u32_small by lia. split.
  - eapply (queries_inv_frame n _ c); [done|lia|exact Hq].
  - by apply (results_inv_frame c).
  - apply (requests_inv_frame (n + 1) _ (set_requests (<[r_id r := r]> (requests c))
      (set_nextRequestID (r_id r + 1) c))); [done|done|].
    apply requests_inv_insert; try done.
    + eapply (requests_inv_frame n _ c); [reflexivity|lia|exact Hm].
    + lia.
    + lia.
    + intros H. destruct (qr_past _ _ Hm _ H). lia.
Qed.

Lemma set_results_inv n c rs :
  client_inv n c -> dom rs ⊆ dom (queryIDToToken c) -> client_inv n (set_results rs c).
Proof.
  intros [Hq Hr Hm] Hd. split.
  - by apply (queries_inv_frame n _ c).
  - split; [apply Hr|done].
  - by apply (requests_inv_frame n _ c).
Qed.

Lemma Mutation_inv n c path args opts :
  client_inv n c -> n + 1 < 2 ^ 32 -> client_inv (n + 1) (fst (Mutation path args opts c)).
Proof.
  intros Hc Hn. pose proof (client_inv_frame n c c eq_refl eq_refl eq_refl Hc) as Hsame.
  unfold Mutation, mutation. destruct (canonicalRequest path args) as [[p l]|e] eqn:Hcan; [|done].
  set (r := mkTracked _ _ _ _ _ _ _).
  assert (Hmsg : request_message r) by (by apply (canonical_message r path args p l)).
  destruct (syncMutationOptionsFrom opts) as [u|]; cbn [fst].
  - destruct (optimisticResultsWith c (Some r)) as [rs|] eqn:Ho; [|done].
    apply (enqueue_request_inv n (set_results rs c) r); try done. apply set_results_inv; [done|].
    destruct Hc as [Hq Hr _]. by eapply optimisticResultsWith_dom; [|apply Hr|].
  - by apply (enqueue_request_inv n c r).
Qed.

Lemma Action_inv n c path args :
  client_inv n c -> n + 1 < 2 ^ 32 -> client_inv (n + 1) (fst (Action path args c)).
Proof.
  intros Hc Hn. pose proof (client_inv_frame n c c eq_refl eq_refl eq_refl Hc) as Hsame.
  unfold Action. destruct (canonicalRequest path args) as [[p l]|e] eqn:Hcan; [|done]. cbn [fst].
  set (r := mkTracked _ _ _ _ _ _ _).
  apply (enqueue_request_inv n c r); try done. by apply (canonical_message r path args p l).
Qed.

Lemma queueAuth_inv n c c' t :
  query_part c' = query_part c -> result_part c' = result_part c ->
  request_part c' = request_part c -> client_inv n c -> client_inv (n + 1) (fst (queueAuth t c')).
Proof. intros Hq Hr Hm. by apply client_inv_frame. Qed.

Lemma Pop_inv n c : client_inv n c -> client_inv (n + 1) (fst (PopNextMessage c)).
Proof. intros Hc. unfold PopNextMessage. destruct (outgoing c); by apply (client_inv_frame n c). Qed.

Lemma auth_inv n c op : client_inv n c ->
  match op with OSetAuth _ | OSetAdminAuth _ _ | OClearAuth | OSetAuthCallback _ _ | ORefreshAuth _ => True
  | _ => False end -> client_inv (n + 1) (perform op c).
Proof.
  intros Hc Hop. destruct op as [| | |t|t i| |env f|env| | | |]; try done; cbn [perform].
  - by apply (queueAuth_inv n c).
  - by apply (queueAuth_inv n c).
  - by apply (queueAuth_inv n c).
  - unfold SetAuthCallback. destruct f as [f|]; [|by apply (queueAuth_inv n c)].
    destruct (call_fetcher env f false); [by apply (queueAuth_inv n c)|].
    by apply (client_inv_frame n c).
  - destruct (refresh_frame env c) as (Hq & Hr & Hm). by apply (client_inv_frame n c).
Qed.

(** The parts of the invariant after an operation, from those before it. *)
Lemma client_inv_parts n c c' :
  query_part c' = query_part c -> results_inv c' -> requests_inv (n + 1) c' ->
  client_inv n c -> client_inv (n + 1) c'.
Proof.
  intros Hq Hr Hm [H1 _ _]. split; [|done|done]. apply (queries_inv_frame n _ c); [done|lia|done].
Qed.

Lemma id_token_part c c' : query_part c' = query_part c -> queryIDToToken c' = queryIDToToken c.
Proof. by intros [= _ _ ? _]. Qed.

Lemma receiveTransition_inv n c m :
  client_inv n c -> client_inv (n + 1) (fst (receiveTransition m c)).
Proof.
  intros Hc. unfold receiveTransition.
  destruct (decide (tr_StartVersion m = remoteVersion c)) as [_|_];
    [|by apply (client_inv_frame n c)].
  set (c1 := fold_left _ _ c). set (c2 := observeTimestamp _ _).
  set (c3 := completeMutationsThrough _ c2). destruct Hc as [Hq Hr Hm].
  destruct (modifications_frame (default [] (tr_Modifications m)) c) as [Hq1 Hm1].
  pose proof (modifications_results (default [] (tr_Modifications m)) c Hr) as Hr1.
  fold c1 in Hq1, Hm1, Hr1.
  destruct (observe_frame (sv_TS (tr_EndVersion m)) (set_remoteVersion (tr_EndVersion m) c1))
    as (Hq2 & Hr2 & Hm2). fold c2 in Hq2, Hr2, Hm2.
  destruct (completeThrough_frame (sv_TS (tr_EndVersion m)) c2) as [Hq3 Hr3]. fold c3 in Hq3, Hr3.
  assert (Hq' : query_part c3 = query_part c) by (rewrite Hq3, Hq2; exact Hq1).
  assert (Hri : results_inv c3).
  { apply (results_inv_frame c1); [rewrite Hr3, Hr2; done| |done].
    rewrite (id_token_part _ _ Hq'). symmetry. by apply id_token_part. }
  assert (Hqi : queries_inv n c3) by (by apply (queries_inv_frame n _ c)).
  assert (Hmi : requests_inv (n + 1) c3).
  { apply completeMutationsThrough_inv. apply (requests_inv_frame n _ c); [|lia|done].
    rewrite Hm2. exact Hm1. }
  destruct (recompute_frame c3) as [Hq4 Hm4].
  pose proof (recompute_results_inv n c3 Hqi Hri) as Hr4.
  replace (fst _) with (fst (recomputeOptimisticResults c3)); [|
    by destruct (recomputeOptimisticResults c3) as [? [|]]].
  split.
  - apply (queries_inv_frame n _ c3); [done|lia|done].
  - done.
  - by apply (requests_inv_frame (n + 1) _ c3).
Qed.

Lemma recompute_inv n c : client_inv n c -> client_inv n (fst (recomputeOptimisticResults c)).
Proof.
  intros [Hq Hr Hm]. destruct (recompute_frame c) as [Hq' Hm']. split.
  - by apply (queries_inv_frame n _ c).
  - by apply (recompute_results_inv n).
  - by apply (requests_inv_frame n _ c).
Qed.

Lemma complete_inv n c id : client_inv n c -> client_inv n (fst (completeMutationRequest id c)).
Proof.
  intros [Hq Hr Hm]. destruct (complete_frame id c) as [Hq' Hr']. split.
  - by apply (queries_inv_frame n _ c).
  - apply (results_inv_frame c); [done|by apply id_token_part|done].
  - by apply completeMutationRequest_inv.
Qed.

Lemma updateMutation_inv n c m :
  client_inv n c -> client_inv n (fst (updateRequestFromMutationResponse m c)).
Proof.
  intros Hc. unfold updateRequestFromMutationResponse.
  destruct (requests c !! mr_RequestID m) as [r|] eqn:Hr; [|by case_decide].
  destruct (decide (r_kind r = syncRequestMutation)) as [Hk|]; [|done].
  set (r' := mkTracked _ _ _ _ _ _ _). set (c1 := set_requests _ c).
  assert (Hc1 : client_inv n c1).
  { destruct Hc as [Hq Hri Hm]. destruct (qr_id _ _ Hm _ _ Hr) as [Hid Hrange].
    pose proof (qr_next _ _ Hm) as Hn. split.
    - by apply (queries_inv_frame n _ c).
    - by apply (results_inv_frame c).
    - apply (requests_inv_frame n _ (set_requests (<[r_id r' := r']> (requests c))
        (set_nextRequestID (nextRequestID c) c))); [|lia|].
      { unfold c1. cbn [r_id r']. by rewrite Hid. }
      apply requests_inv_insert; cbn [r_id r' r_kind]; try done.
      + lia.
      + rewrite Hid. lia.
      + destruct (qr_message _ _ Hm _ _ Hr) as (p & l & Hmsg). by exists p, l.
      + congruence.
      + intros Hp. rewrite Hid in Hp. destruct (qr_past _ _ Hm _ Hp). congruence. }
  destruct (negb (mr_Success m)); [|by destruct (mr_TS m)].
  pose proof (complete_inv n c1 (mr_RequestID m) Hc1) as Hc2.
  destruct (completeMutationRequest (mr_RequestID m) c1) as [c2 []]; [|done].
  by apply recompute_inv.
Qed.

Lemma observe_inv n c ts : client_inv n c -> client_inv n (observeTimestamp ts c).
Proof.
  intros [Hq Hr Hm]. destruct (observe_frame ts c) as (Hq' & Hr' & Hm'). split.
  - by apply (queries_inv_frame n _ c).
  - apply (results_inv_frame c); [done|by apply id_token_part|done].
  - by apply (requests_inv_frame n _ c).
Qed.

Lemma client_inv_next n c : client_inv n c -> client_inv (n + 1) c.
Proof. by apply client_inv_frame. Qed.

Lemma ReceiveMessage_inv n c msg :
  client_inv n c -> client_inv (n + 1) (fst (ReceiveMessage msg c)).
Proof.
  intros Hc. destruct msg as [[m|m|m|m|m|e|]|]; cbn [ReceiveMessage]; try by apply client_inv_next.
  - pose proof (receiveTransition_inv n c m Hc). by destruct (receiveTransition m c).
  - unfold receiveMutationResponse. pose proof (updateMutation_inv n c m Hc) as H.
    destruct (updateRequestFromMutationResponse m c) as [c' [u|e]]; cbn [fst] in *;
      apply client_inv_next; [|done].
    destruct (mr_TS m); [by apply observe_inv|done].
  - unfold updateRequestFromActionResponse.
    destruct (requests c !! ar_RequestID m) as [r|] eqn:Hr; [|by apply client_inv_next].
    destruct (decide (r_kind r = syncRequestAction)); [|by apply client_inv_next]. cbn [fst].
    set (x := functionResultFromResponse _ _ _ _).
    destruct (remember_action_frame (ar_RequestID m) x c) as (Hq' & Hr' & Hm').
    apply (client_inv_parts n c); [done| | |done].
    + apply (results_inv_frame c); [done|by apply id_token_part|by apply Hc].
    + rewrite Hm'. destruct Hc as [_ _ Hm]. apply (requests_inv_frame n _
        (set_requests (delete (ar_RequestID m) (requests c))
           (rememberActionResult (ar_RequestID m) x c))); [done|lia|].
      by eapply remember_action_inv.
Qed.

Lemma Restart_inv n c env : client_inv n c -> client_inv (n + 1) (fst (RestartForReconnect env c)).
Proof.
  intros Hc. unfold RestartForReconnect.
  set (c1 := cancelPendingActionsForReconnect _).
  assert (Hc1 : client_inv n c1).
  { set (c0 := set_remoteVersion _ _) in c1. destruct Hc as [Hq Hr Hm].
    destruct (cancel_frame c0) as [Hq' Hr']. fold c1 in Hq', Hr'. split.
    - by apply (queries_inv_frame n _ c).
    - apply (results_inv_frame c); [done|by apply id_token_part|done].
    - apply cancelPendingActions_inv. by apply (requests_inv_frame n _ c). }
  assert (Hc2 : forall c2 u, match authFetcher c1 with
      | Some _ => RefreshAuthForReconnect env c1 | None => (c1, Ok ()) end = (c2, u) ->
    client_inv n c2).
  { intros c2 u. destruct (authFetcher c1); [|by intros [= <- _]].
    destruct (refresh_frame env c1) as (Hq' & Hr' & Hm').
    intros He. rewrite He in Hq', Hr', Hm'. cbn [fst] in *. destruct Hc1 as [Hq Hr Hm]. split.
    - by apply (queries_inv_frame n _ c1).
    - apply (results_inv_frame c1); [done|by apply id_token_part|done].
    - by apply (requests_inv_frame n _ c1). }
  destruct (match authFetcher c1 with Some _ => _ | None => _ end) as [c2 u] eqn:He.
  specialize (Hc2 c2 u eq_refl). destruct u; cbn [fst]; [|by apply client_inv_next].
  apply (client_inv_frame n c2); try done; by destruct (0 <? length (replayQueryAdds c2))%nat.
Qed.

Lemma perform_inv n c op : client_inv n c -> n + 1 < 2 ^ 32 -> client_inv (n + 1) (perform op c).
Proof.
  intros Hc Hn. destruct op; cbn [perform].
  - by apply Subscribe_inv.
  - by apply Unsubscribe_inv.
  - by apply Pop_inv.
  - by apply (auth_inv n c (OSetAuth _)).
  - by apply (auth_inv n c (OSetAdminAuth _ _)).
  - by apply (auth_inv n c OClearAuth).
  - by apply (auth_inv n c (OSetAuthCallback _ _)).
  - by apply (auth_inv n c (ORefreshAuth _)).
  - by apply Mutation_inv.
  - by apply Action_inv.
  - by apply Restart_inv.
  - by apply ReceiveMessage_inv.
Qed.

Lemma reachable_inv n c : reachable n c -> n < 2 ^ 32 -> client_inv n c.
Proof.
  induction 1 as [|n c op H IH]; intros Hn.
  - split; [apply New_queries_inv| |apply New_requests_inv]. by split.
  - apply perform_inv; [apply IH|]; lia.
Qed.
