(* ===== verification/ClientSession.v ===== *)
(** * The session with the server

    The abstract server side of a connection: what a server that receives the
    client's messages in order knows of its query set, identity and requests,
    and refuses when a version does not continue the last one.  The client's
    state refines it: every message it sends is accepted, and what the server
    has then is what the client believes. *)
From S2P Require Import Prelude GoStrings GoJson Values Results GoEncode Paths Protocol ClientMessages ServerMessages Canonical ClientState BaseClient ClientQueries ClientRequests ClientInvariant.
Local Open Scope Z_scope.

(** ** The specification *)

Definition server_query : Type := string * option (list Value).

Record session : Type := mkSession {
  ss_version : Z;
  ss_queries : gmap Z server_query;
  ss_identity : Z;
  ss_requests : list Z
}.
Definition new_session : session := mkSession 0 ∅ 0 [].

(** An added query is new, a removed one is there. *)
Definition accept_modification (m : QuerySetModification) (s : gmap Z server_query)
    : option (gmap Z server_query) :=
  match m with
  | ModAdd a =>
      match s !! qa_QueryID a with
      | Some _ => None
      | None => Some (<[qa_QueryID a := (qa_UDFPath a, qa_Args a)]> s)
      end
  | ModRemove id =>
      match s !! id with Some _ => Some (delete id s) | None => None end
  end.
Fixpoint accept_modifications (ms : list QuerySetModification) (s : gmap Z server_query)
    : option (gmap Z server_query) :=
  match ms with
  | [] => Some s
  | m :: rest => accept_modification m s ≫= accept_modifications rest
  end.

(** Versions continue one another and a request id is used once. *)
Definition accept (m : ClientMessage) (s : session) : option session :=
  match m with
  | CModifyQuerySet m =>
      if decide (mq_BaseVersion m = ss_version s /\ mq_NewVersion m = ss_version s + 1) then
        set ← accept_modifications (default [] (mq_Modifications m)) (ss_queries s);
        Some (mkSession (mq_NewVersion m) set (ss_identity s) (ss_requests s))
      else None
  | CAuthenticate m =>
      if decide (au_BaseVersion m = ss_identity s) then
        Some (mkSession (ss_version s) (ss_queries s) (ss_identity s + 1) (ss_requests s))
      else None
  | CMutation m | CAction m =>
      if decide (rq_RequestID m ∈ ss_requests s) then None
      else Some (mkSession (ss_version s) (ss_queries s) (ss_identity s)
                   (ss_requests s ++ [rq_RequestID m]))
  | CConnect _ | CEvent _ => Some s
  end.

Fixpoint accept_all (ms : list ClientMessage) (s : session) : option session :=
  match ms with [] => Some s | m :: rest => accept m s ≫= accept_all rest end.

Lemma accept_all_app ms ms' s : accept_all (ms ++ ms') s = accept_all ms s ≫= accept_all ms'.
Proof.
  revert s. induction ms as [|m ms IH]; intros s; cbn; [done|].
  destruct (accept m s); cbn; [apply IH|done].
Qed.

(** ** The refinement relation *)

Definition query_of (q : localBaseQuery) : server_query := (q_canonicalPath q, Some (q_args q)).

Record refines (c : Client) (s : session) : Prop := {
  rf_version : ss_version s = querySetVersion c;
  rf_identity : ss_identity s = identityVersion c;
  rf_queries : forall id sq, ss_queries s !! id = Some sq <->
    exists tok q, queries c !! tok = Some q /\ q_id q = id /\ query_of q = sq;
  rf_requests : forall id, is_Some (requests c !! id) -> id ∈ ss_requests s;
  rf_fresh : forall id, id ∈ ss_requests s -> 0 <= id < nextRequestID c
}.

(** The versions of the client within the bound of the history. *)
Definition versions_ok (n : Z) (c : Client) : Prop :=
  0 <= querySetVersion c <= n /\ 0 <= identityVersion c <= n.

(** [emits c c' ms]: going from [c] to [c'] queued [ms], which the server of
    [c] accepts and is then the server of [c']. *)
Definition emits (c c' : Client) (ms : list ClientMessage) : Prop :=
  outgoing c' = outgoing c ++ ms /\
  forall s, refines c s -> exists s', accept_all ms s = Some s' /\ refines c' s'.

Definition send_part (c : Client) :=
  (outgoing c, querySetVersion c, identityVersion c, queries c, nextRequestID c).

(** Nothing is queued when only answers are recorded. *)
Lemma emits_none c c' :
  send_part c' = send_part c ->
  (forall id, is_Some (requests c' !! id) -> is_Some (requests c !! id)) -> emits c c' [].
Proof.
  intros [= Ho Hv Hi Hq Hn] Hr. split; [by rewrite app_nil_r|].
  intros s [H1 H2 H3 H4 H5]. exists s. split; [done|].
  split; rewrite ?Ho, ?Hv, ?Hi, ?Hq, ?Hn; auto.
Qed.

Lemma emits_trans c1 c2 c3 ms ms' : emits c1 c2 ms -> emits c2 c3 ms' -> emits c1 c3 (ms ++ ms').
Proof.
  intros [Ho1 H1] [Ho2 H2]. split; [by rewrite Ho2, Ho1, app_assoc|].
  intros s Hs. destruct (H1 s Hs) as (s1 & Ha1 & Hs1), (H2 s1 Hs1) as (s2 & Ha2 & Hs2).
  exists s2. split; [|done]. by rewrite accept_all_app, Ha1.
Qed.

(** ** The operations that send *)

Lemma emits_auth n c t : versions_ok n c -> n + 1 < 2 ^ 32 ->
  exists m, emits c (fst (queueAuth t c)) [m].
Proof.
  intros [_ Hi] Hn. eexists. split; [done|].
  intros s [H1 H2 H3 H4 H5]. cbn. rewrite decide_True by done. cbn. eexists. split; [done|].
  split; cbn; try done. rewrite u32_small; lia.
Qed.

Lemma accept_modify n c m set s :
  versions_ok n c -> n + 1 < 2 ^ 32 -> ss_version s = querySetVersion c ->
  accept_modifications m (ss_queries s) = Some set ->
  accept_all [CModifyQuerySet (mkModify (querySetVersion c) (u32 (querySetVersion c + 1)) (Some m))] s
  = Some (mkSession (querySetVersion c + 1) set (ss_identity s) (ss_requests s)).
Proof.
  intros [Hv _] Hn Hs Ha. cbn. rewrite u32_small by lia. rewrite decide_True by (by rewrite Hs).
  cbn. rewrite Ha. cbn. done.
Qed.

Lemma Subscribe_emits n c path args :
  client_inv n c -> versions_ok n c -> n + 1 < 2 ^ 32 ->
  exists ms, emits c (fst (Subscribe path args c)) ms.
Proof.
  intros [Hq _ _] Hv Hn. unfold Subscribe.
  destruct (canonicalQuery path args) as [[[p l] tok]|e]; [|exists []; by apply emits_none].
  destruct (queries c !! tok) as [q|] eqn:Hl; cbn [fst].
  - exists []. split; [by rewrite app_nil_r|]. intros s [H1 H2 H3 H4 H5]. exists s.
    split; [done|]. split; try done. intros id sq. rewrite H3. cbn. clear H3.
    split; intros (tok' & q' & Hq' & He & Hs).
    + destruct (decide (tok = tok')) as [<-|Hne].
      * exists tok. eexists. rewrite lookup_insert_eq. split; [done|].
        assert (q' = q) as -> by congruence. done.
      * exists tok', q'. by rewrite lookup_insert_ne.
    + apply lookup_insert_Some in Hq' as [[<- <-]|[Hne Hq']]; [exists tok, q|exists tok', q']; done.
  - eexists. split; [done|]. intros s [H1 H2 H3 H4 H5].
    assert (Hnone : ss_queries s !! nextQueryID c = None).
    { apply eq_None_not_Some. intros [sq Hsq]. apply H3 in Hsq as (tok' & q' & Hq' & He & _).
      pose proof (qi_range _ _ Hq _ _ Hq'). lia. }
    eexists. split.
    { apply (accept_modify n); [done|done|done|]. cbn. by rewrite Hnone. }
    pose proof (qi_next _ _ Hq) as Hr. split; cbn; try done.
    + destruct Hv. by rewrite u32_small by lia.
    + intros id sq. rewrite lookup_insert_Some, H3. clear H3. split.
      * intros [[<- <-]|[Hne (tok' & q' & Hq' & He & Hs)]].
        { exists tok. eexists. by rewrite lookup_insert_eq. }
        exists tok', q'. rewrite lookup_insert_ne by congruence. done.
      * intros (tok' & q' & Hq' & <- & <-).
        apply lookup_insert_Some in Hq' as [[<- <-]|[Hne Hq']]; [by left|]. right. split; [|eauto].
        pose proof (qi_range _ _ Hq _ _ Hq'). lia.
Qed.

Lemma Unsubscribe_emits n c id :
  client_inv n c -> versions_ok n c -> n + 1 < 2 ^ 32 ->
  exists ms, emits c (fst (Unsubscribe id c)) ms.
Proof.
  intros [Hq _ _] Hv Hn. unfold Unsubscribe.
  destruct (decide (id ∈ subscribers c)) as [Hin|]; [|exists []; by apply emits_none].
  cbn [queryIDToToken set_subscribers queries].
  destruct (qi_subs _ _ Hq _ Hin) as (tok & q & Hl & He & _).
  rewrite <- He. rewrite (qi_token _ _ Hq _ _ Hl), Hl.
  assert (Huniq : forall tok' q', queries c !! tok' = Some q' -> q_id q' = q_id q -> tok' = tok /\ q' = q).
  { intros tok' q' Hq' Hid. by apply (query_id_inj n c). }
  destruct (Z.ltb_spec 1 (q_numSubscribers q)) as [Hmany|Hlast]; cbn [fst].
  - exists []. split; [by rewrite app_nil_r|]. intros s [H1 H2 H3 H4 H5]. exists s.
    split; [done|]. split; try done. intros id' sq. rewrite H3. cbn. clear H3.
    split; intros (tok' & q' & Hq' & He' & Hs).
    + destruct (decide (tok = tok')) as [<-|Hne].
      * exists tok. eexists. rewrite lookup_insert_eq. split; [done|].
        assert (q' = q) as -> by congruence. done.
      * exists tok', q'. by rewrite lookup_insert_ne.
    + apply lookup_insert_Some in Hq' as [[<- <-]|[Hne Hq']]; [exists tok, q|exists tok', q']; done.
  - eexists. split; [done|]. intros s [H1 H2 H3 H4 H5].
    assert (Hsome : ss_queries s !! q_id q = Some (query_of q)) by (apply H3; eauto).
    eexists. split.
    { apply (accept_modify n); [done|done|done|]. cbn. by rewrite Hsome. }
    split; cbn; try done.
    + destruct Hv. by rewrite u32_small by lia.
    + intros id' sq. rewrite lookup_delete_Some, H3. clear H3. split.
      * intros [Hne (tok' & q' & Hq' & He' & Hs)]. exists tok', q'.
        rewrite lookup_delete_ne; [done|]. intros ->. congruence.
      * intros (tok' & q' & Hq' & <- & <-). apply lookup_delete_Some in Hq' as [Hne Hq'].
        split; [|eauto]. intros Hid. by destruct (Huniq tok' q').
Qed.

(** A request that is queued and recorded. *)
Lemma request_emits n c r rq m :
  client_inv n c -> n + 1 < 2 ^ 32 -> r_id r = nextRequestID c -> rq_RequestID rq = r_id r ->
  m = CMutation rq \/ m = CAction rq ->
  emits c (enqueue m (set_requests (<[r_id r := r]> (requests c))
                        (set_nextRequestID (u32 (r_id r + 1)) c))) [m].
Proof.
  intros [_ _ Hm] Hn Hid Hrq Hmsg. pose proof (qr_next _ _ Hm) as Hr. split; [done|].
  intros s [H1 H2 H3 H4 H5].
  assert (Hfresh : rq_RequestID rq ∉ ss_requests s).
  { intros Hin%H5. lia. }
  exists (mkSession (ss_version s) (ss_queries s) (ss_identity s) (ss_requests s ++ [rq_RequestID rq])).
  split; [by destruct Hmsg as [->| ->]; cbn; rewrite decide_False|].
  split; cbn; try done.
  - intros id [r' Hr']. apply elem_of_app. apply lookup_insert_Some in Hr' as [[<- _]|[_ Hr']].
    + right. rewrite Hrq. by apply list_elem_of_singleton.
    + left. apply H4. eauto.
  - intros id. rewrite elem_of_app, list_elem_of_singleton, u32_small by lia.
    intros [Hin| ->]; [apply H5 in Hin|]; lia.
Qed.

Lemma set_results_emits c rs : emits c (set_results rs c) [].
Proof. by apply emits_none. Qed.

Lemma Mutation_emits n c path args opts : client_inv n c -> n + 1 < 2 ^ 32 ->
  exists ms, emits c (fst (Mutation path args opts c)) ms.
Proof.
  intros Hc Hn. unfold Mutation, mutation.
  destruct (canonicalRequest path args) as [[p l]|e]; [|exists []; by apply emits_none].
  set (r := mkTracked _ _ _ _ _ _ _).
  destruct (syncMutationOptionsFrom opts) as [u|]; cbn [fst].
  - destruct (optimisticResultsWith c (Some r)) as [rs|] eqn:Ho; [|exists []; by apply emits_none].
    eexists. eapply emits_trans; [apply set_results_emits|].
    assert (Hc' : client_inv n (set_results rs c)).
    { apply set_results_inv; [done|]. destruct Hc as [Hq Hr _].
      by eapply optimisticResultsWith_dom; [|apply Hr|]. }
    eapply (request_emits n (set_results rs c) r); [done|done|done| |by left]. done.
  - eexists. eapply (request_emits n c r); [done|done|done| |by left]. done.
Qed.

Lemma Action_emits n c path args : client_inv n c -> n + 1 < 2 ^ 32 ->
  exists ms, emits c (fst (Action path args c)) ms.
Proof.
  intros Hc Hn. unfold Action.
  destruct (canonicalRequest path args) as [[p l]|e]; [|exists []; by apply emits_none]. cbn [fst].
  set (r := mkTracked _ _ _ _ _ _ _).
  eexists. eapply (request_emits n c r); [done|done|done| |by right]. done.
Qed.

(** ** Answers from the server queue nothing *)

Lemma remember_action_send id r c : send_part (rememberActionResult id r c) = send_part c.
Proof. by destruct (rememberActionResult_eq id r c) as (? & ? & _ & ->). Qed.
Lemma remember_mutation_send id r c : send_part (rememberMutationResult id r c) = send_part c.
Proof. by destruct (rememberMutationResult_eq id r c) as (? & ? & _ & ->). Qed.

(** [quiet c c']: nothing is queued and no request is added. *)
Definition quiet (c c' : Client) : Prop :=
  send_part c' = send_part c /\
  forall id, is_Some (requests c' !! id) -> is_Some (requests c !! id).

#[export] Instance quiet_preorder : PreOrder quiet.
Proof.
  split; [done|]. intros c1 c2 c3 [H1 R1] [H2 R2]. split; [congruence|auto].
Qed.

Lemma quiet_delete id c c' :
  send_part c' = send_part c -> requests c' = requests c ->
  quiet c (set_requests (delete id (requests c')) c').
Proof.
  intros Hs Hr. split; [exact Hs|]. intros id'. cbn. rewrite Hr.
  intros [r [_ H]%lookup_delete_Some]. eauto.
Qed.

Lemma complete_quiet id c : quiet c (fst (completeMutationRequest id c)).
Proof.
  unfold completeMutationRequest. destruct (requests c !! id) as [r|]; [|done].
  destruct (r_hasResult r); [|done]. cbn [fst].
  apply quiet_delete; [apply remember_mutation_send|].
  by destruct (remember_mutation_frame id (r_result r) c) as (_ & _ & ->).
Qed.

Lemma completeThrough_quiet ts c : quiet c (completeMutationsThrough ts c).
Proof.
  unfold completeMutationsThrough. generalize (sorted_ids (completes_through ts) c). intros ids.
  revert c. induction ids as [|id ids IH]; intros c; [done|]. cbn [fold_left].
  etrans; [apply complete_quiet|apply IH].
Qed.

Lemma cancel_quiet c : quiet c (cancelPendingActionsForReconnect c).
Proof.
  unfold cancelPendingActionsForReconnect. generalize (sorted_ids is_action c). intros ids.
  revert c. induction ids as [|id ids IH]; intros c; [done|]. cbn [fold_left].
  etrans; [|apply IH]. apply quiet_delete; [apply remember_action_send|].
  by edestruct (remember_action_frame id) as (_ & _ & ->).
Qed.

Lemma observe_quiet ts c : quiet c (observeTimestamp ts c).
Proof. unfold observeTimestamp. destruct (maxObservedTimestamp c); [case_match|]; done. Qed.

Lemma recompute_quiet c : quiet c (fst (recomputeOptimisticResults c)).
Proof. unfold recomputeOptimisticResults. by destruct (optimisticResultsWith c None). Qed.

Lemma modifications_quiet ms c : quiet c (fold_left (fun c m => applyStateModification m c) ms c).
Proof.
  revert c. induction ms as [|m ms IH]; intros c; [done|]. cbn [fold_left].
  etrans; [|apply IH]. destruct m; cbn; unfold set_server_result; try case_match; done.
Qed.

Lemma update_mutation_quiet m c : quiet c (fst (updateRequestFromMutationResponse m c)).
Proof.
  unfold updateRequestFromMutationResponse.
  destruct (requests c !! mr_RequestID m) as [r|] eqn:Hr; [|by case_decide].
  destruct (decide (r_kind r = syncRequestMutation)); [|done].
  set (r' := mkTracked _ _ _ _ _ _ _). set (c1 := set_requests _ c).
  assert (H1 : quiet c c1).
  { split; [done|]. intros id. cbn. intros [x [[<- _]|[_ ?]]%lookup_insert_Some]; eauto. }
  destruct (negb (mr_Success m)); [|by destruct (mr_TS m)].
  pose proof (complete_quiet (mr_RequestID m) c1) as H2.
  destruct (completeMutationRequest (mr_RequestID m) c1) as [c2 []]; cbn [fst] in *.
  - etrans; [exact H1|]. etrans; [exact H2|]. apply recompute_quiet.
  - by etrans.
Qed.

Lemma receive_quiet msg c : quiet c (fst (ReceiveMessage msg c)).
Proof.
  destruct msg as [[m|m|m|m|m|e|]|]; cbn [ReceiveMessage]; try done.
  - unfold receiveTransition. destruct (decide (tr_StartVersion m = remoteVersion c)); [|done].
    set (c1 := fold_left _ _ c). set (c2 := observeTimestamp _ _).
    set (c3 := completeMutationsThrough _ c2).
    assert (H3 : quiet c c3).
    { etrans; [apply modifications_quiet|]. fold c1. trans (set_remoteVersion (tr_EndVersion m) c1);
        [done|]. etrans; [apply observe_quiet|apply completeThrough_quiet]. }
    pose proof (recompute_quiet c3) as H4.
    destruct (recomputeOptimisticResults c3) as [c4 [|]]; by etrans.
  - unfold receiveMutationResponse. pose proof (update_mutation_quiet m c) as H.
    destruct (updateRequestFromMutationResponse m c) as [c' [|]]; [|done]. cbn [fst] in *.
    etrans; [exact H|]. destruct (mr_TS m); [apply observe_quiet|done].
  - unfold updateRequestFromActionResponse.
    destruct (requests c !! ar_RequestID m) as [r|]; [|done].
    destruct (decide (r_kind r = syncRequestAction)); [|done]. cbn [fst].
    apply quiet_delete; [apply remember_action_send|].
    by edestruct (remember_action_frame (ar_RequestID m)) as (_ & _ & ->).
Qed.

Lemma quiet_emits c c' : quiet c c' -> emits c c' [].
Proof. intros []. by apply emits_none. Qed.

(** ** Reconnection *)

Lemma tracked_elem c r : r ∈ tracked_requests c <-> exists id, requests c !! id = Some r.
Proof.
  unfold tracked_requests. rewrite list_elem_of_fmap. split.
  - intros ([id r'] & -> & H%elem_of_map_to_list). eauto.
  - intros [id H]. exists (id, r). split; [done|]. by apply elem_of_map_to_list.
Qed.

Lemma tracked_ids_NoDup n c : requests_inv n c -> NoDup (map r_id (tracked_requests c)).
Proof.
  intros Hi. unfold tracked_requests. rewrite map_map.
  replace (map (fun x => r_id (snd x)) (map_to_list (requests c)))
    with (map fst (map_to_list (requests c))); [apply NoDup_fst_map_to_list|].
  apply map_ext_in. intros [id r] Hin%list_elem_of_In%elem_of_map_to_list.
  symmetry. by apply (qr_id _ _ Hi).
Qed.

Lemma sorted_queries_elem c q :
  q ∈ sortedBaseQueries (queries c) <-> exists tok, queries c !! tok = Some q.
Proof.
  unfold sortedBaseQueries. rewrite sort_by_elem, list_elem_of_fmap. split.
  - intros ([tok q'] & -> & H%elem_of_map_to_list). eauto.
  - intros [tok H]. exists (tok, q). split; [done|]. by apply elem_of_map_to_list.
Qed.

Lemma sorted_queries_NoDup n c :
  queries_inv n c -> NoDup (map q_id (sortedBaseQueries (queries c))).
Proof.
  intros Hi. unfold sortedBaseQueries.
  rewrite (fmap_Permutation q_id _ _ (sort_by_perm q_id (map snd (map_to_list (queries c))))).
  rewrite <- list_fmap_compose. apply NoDup_fmap_2_strong; [|apply NoDup_map_to_list].
  intros [t1 q1] [t2 q2] H1%elem_of_map_to_list H2%elem_of_map_to_list He. cbn in He.
  by destruct (query_id_inj n c t1 t2 q1 q2 Hi H1 H2 He) as [-> ->].
Qed.

Lemma accept_adds qs s :
  (forall q, q ∈ qs -> exists arg, q_args q = [arg]) -> NoDup (map q_id qs) ->
  (forall q, q ∈ qs -> s !! q_id q = None) ->
  exists s', accept_modifications (map replay_add qs) s = Some s' /\
    forall id sq, s' !! id = Some sq <->
      (exists q, q ∈ qs /\ q_id q = id /\ query_of q = sq) \/ s !! id = Some sq.
Proof.
  revert s. induction qs as [|q qs IH]; intros s Ha Hnd Hs.
  - exists s. split; [done|]. intros id sq. split; [auto|].
    intros [(q & []%not_elem_of_nil & _)|]; done.
  - cbn [map] in Hnd |- *. apply NoDup_cons in Hnd as [Hq Hnd].
    destruct (IH (<[q_id q := query_of q]> s)) as (s' & Hs' & Hl).
    + intros q' Hq'. apply Ha. by right.
    + done.
    + intros q' Hq'. rewrite lookup_insert_ne; [apply Hs; by right|].
      intros He. apply Hq. rewrite He. by apply list_elem_of_fmap_2.
    + exists s'. split.
      * cbn. rewrite Hs by left. cbn. destruct (Ha q) as [arg Harg]; [by left|].
        rewrite <- Hs'. unfold query_of. by rewrite Harg.
      * intros id sq. rewrite Hl, lookup_insert_Some. setoid_rewrite elem_of_cons. split.
        { intros [(q' & ? & ? & ?)|[[<- <-]|[_ ?]]]; [left|left|right]; eauto 10. }
        intros [(q' & [->|Hq'] & <- & <-)|Hsq]; [auto|left; eauto|].
        right. right. split; [|done]. intros <-. rewrite Hs in Hsq by left. done.
Qed.

Lemma accept_replays rs s :
  (forall r, r ∈ rs -> request_message r) -> NoDup (map r_id rs) ->
  (forall r, r ∈ rs -> r_id r ∉ ss_requests s) ->
  accept_all (map r_message rs) s =
    Some (mkSession (ss_version s) (ss_queries s) (ss_identity s) (ss_requests s ++ map r_id rs)).
Proof.
  revert s. induction rs as [|r rs IH]; intros s Hm Hnd Hs.
  - cbn. rewrite app_nil_r. by destruct s.
  - cbn [map] in *. apply NoDup_cons in Hnd as [Hr Hnd]. destruct (Hm r) as (p & l & _ & _ & Hmsg); [by left|].
    set (s1 := mkSession (ss_version s) (ss_queries s) (ss_identity s) (ss_requests s ++ [r_id r])).
    assert (accept (r_message r) s = Some s1) as Ha.
    { rewrite Hmsg. destruct (r_kind r); cbn; rewrite decide_False; try done; apply Hs; by left. }
    cbn [accept_all]. rewrite Ha. cbn [mbind option_bind]. rewrite IH.
    + cbn. by rewrite <- app_assoc.
    + intros r' Hr'. apply Hm. by right.
    + done.
    + intros r' Hr'. cbn. rewrite elem_of_app, list_elem_of_singleton. intros [Hin|He].
      * eapply Hs; [|exact Hin]. by right.
      * apply Hr. rewrite <- He. by apply list_elem_of_fmap_2.
Qed.

Lemma replayed_perm c :
  replayed_requests c ≡ₚ filter (fun r => r_kind r = syncRequestMutation) (tracked_requests c).
Proof. apply merge_sort_Permutation. Qed.

Lemma replayed_ids_NoDup n c : requests_inv n c -> NoDup (map r_id (replayed_requests c)).
Proof.
  intros Hi. rewrite (fmap_Permutation r_id _ _ (replayed_perm c)).
  eapply sublist_NoDup; [apply (tracked_ids_NoDup n c Hi)|].
  apply fmap_sublist, sublist_filter.
Qed.

(** After cancelling, only mutations are in flight. *)
Lemma cancel_ids_requests ids c id :
  requests (fold_left
      (fun c id =>
         let c := rememberActionResult id (ErrorMessageResult actionReconnectErrorMessage) c in
         set_requests (delete id (requests c)) c) ids c) !! id
  = if decide (id ∈ ids) then None else requests c !! id.
Proof.
  revert c. induction ids as [|i ids IH]; intros c; cbn [fold_left].
  - by rewrite decide_False by (by intros ?%not_elem_of_nil).
  - rewrite IH. cbn. edestruct (remember_action_frame i) as (_ & _ & ->).
    destruct (decide (id ∈ ids)) as [Hin|Hin].
    + by rewrite decide_True by (by right).
    + destruct (decide (i = id)) as [<-|Hne].
      * rewrite lookup_delete_eq, decide_True by (by left). done.
      * rewrite lookup_delete_ne by done. rewrite decide_False; [done|].
        intros [?|?]%elem_of_cons; congruence.
Qed.

Lemma cancel_requests c id r :
  requests (cancelPendingActionsForReconnect c) !! id = Some r <->
  requests c !! id = Some r /\ r_kind r = syncRequestMutation.
Proof.
  unfold cancelPendingActionsForReconnect. rewrite cancel_ids_requests. case_decide as Hin.
  - apply sorted_ids_elem in Hin as (r' & Hr' & Ha). split; [done|]. intros [Hr Hk].
    unfold is_action in Ha. congruence.
  - split; [|by intros []]. intros Hr. split; [done|].
    destruct (r_kind r) eqn:Hk; [done|]. exfalso. apply Hin, sorted_ids_elem. by exists r.
Qed.

(** A restarted client that succeeded: what it queued rebuilds the session. *)
Lemma Restart_session n c env c' :
  client_inv n c -> n + 1 < 2 ^ 32 -> RestartForReconnect env c = (c', Ok ()) ->
  exists s, accept_all (outgoing c') new_session = Some s /\ refines c' s /\
    (forall id, id ∈ ss_requests s -> is_Some (requests c' !! id)) /\ queries c' = queries c /\
    (forall id r, requests c' !! id = Some r <->
       requests c !! id = Some r /\ r_kind r = syncRequestMutation).
Proof.
  intros Hc Hn. unfold RestartForReconnect.
  set (c0 := set_remoteVersion _ _). set (c1 := cancelPendingActionsForReconnect c0).
  assert (Hc1 : client_inv n c1).
  { destruct Hc as [Hq Hr Hm]. destruct (cancel_frame c0) as [Hq' Hr']. fold c1 in Hq', Hr'. split.
    - by apply (queries_inv_frame n _ c).
    - apply (results_inv_frame c); [done|by apply id_token_part|done].
    - apply cancelPendingActions_inv. by apply (requests_inv_frame n _ c). }
  assert (Hmut : forall id r, requests c1 !! id = Some r -> r_kind r = syncRequestMutation).
  { intros id r Hr. by apply cancel_requests in Hr as []. }
  destruct (cancel_quiet c0) as [Hsend _]. fold c1 in Hsend.
  injection Hsend as Ho Hv Hid Hqs _. cbn in Ho, Hv, Hid, Hqs.
  destruct (match authFetcher c1 with Some _ => _ | None => _ end) as [c2 u] eqn:He.
  destruct u as [[]|]; [|by intros [=]]. intros [= <-].
  (* the state after the token is refreshed *)
  assert (H2 : exists k, 0 <= k <= 1 /\ accept_all (outgoing c2) new_session = Some (mkSession 0 ∅ k []) /\
    querySetVersion c2 = 0 /\ identityVersion c2 = k /\ queries c2 = queries c1 /\
    requests c2 = requests c1 /\ nextRequestID c2 = nextRequestID c1).
  { destruct (authFetcher c1) as [f|]; [|injection He as <-; exists 0; by rewrite Ho].
    unfold RefreshAuthForReconnect in He. destruct (authFetcher c1); [|done].
    destruct (call_fetcher env _ true) as [t|]; [|done]. injection He as <-. exists 1.
    cbn. rewrite Ho, Hv, Hid. cbn. done. }
  destruct H2 as (k & Hk & Ha2 & Hv2 & Hi2 & Hq2 & Hr2 & Hn2). clear He.
  destruct Hc1 as [Hqi _ Hmi].
  (* the adds *)
  destruct (accept_adds (sortedBaseQueries (queries c1)) ∅) as (set & Hset & Hl).
  { intros q [tok Hq]%sorted_queries_elem. destruct (qi_args _ _ Hqi _ _ Hq) as (_ & arg & ? & _). eauto. }
  { by eapply sorted_queries_NoDup. }
  { intros q _. apply lookup_empty. }
  set (c3 := if (0 <? length (replayQueryAdds c2))%nat then queue_modifications _ c2 else c2).
  assert (H3 : exists v, 0 <= v <= 1 /\ accept_all (outgoing c3) new_session = Some (mkSession v set k []) /\
    querySetVersion c3 = v /\ identityVersion c3 = k /\ queries c3 = queries c1 /\
    requests c3 = requests c1 /\ nextRequestID c3 = nextRequestID c1).
  { unfold c3. destruct (Nat.ltb_spec 0 (length (replayQueryAdds c2))) as [Hlt|Hlt].
    - exists 1. cbn. rewrite accept_all_app, Ha2, Hv2. unfold replayQueryAdds. rewrite Hq2. cbn.
      rewrite Hset. cbn. done.
    - exists 0. assert (sortedBaseQueries (queries c1) = []) as Hnil.
      { unfold replayQueryAdds in Hlt. rewrite Hq2 in Hlt.
        destruct (sortedBaseQueries (queries c1)); [done|]. cbn in Hlt. lia. }
      rewrite Hnil in Hset. injection Hset as <-. done. }
  destruct H3 as (v & Hvr & Ha3 & Hv3 & Hi3 & Hq3 & Hr3 & Hn3). clearbody c3.
  (* the mutations *)
  assert (Htr : tracked_requests c3 = tracked_requests c1) by (unfold tracked_requests; by rewrite Hr3).
  assert (Hrp : replayed_requests c3 = replayed_requests c1) by (unfold replayed_requests; by rewrite Htr).
  assert (Helem : forall r, r ∈ replayed_requests c1 <-> exists id, requests c1 !! id = Some r).
  { intros r. rewrite replayed_perm, list_elem_of_filter, tracked_elem. split; [by intros []|].
    intros [id Hid']. split; [by eapply Hmut|eauto]. }
  eexists. split; [|split; [|split; [|split]]].
  - cbn. rewrite accept_all_app, Ha3. cbn. unfold ReplayOngoingRequests. rewrite Hrp.
    apply accept_replays.
    + intros r [id Hr]%Helem. by apply (qr_message _ _ Hmi _ _ Hr).
    + by eapply replayed_ids_NoDup.
    + intros r _. apply not_elem_of_nil.
  - split; cbn; try done.
    + intros id sq. rewrite Hl, lookup_empty, Hq3. setoid_rewrite sorted_queries_elem.
      split; [intros [(q & [tok Hq] & Hs)|]; [eauto|done]|].
      intros (tok & q & Hq & Hs). left. eauto.
    + intros id [r Hr]. rewrite Hr3 in Hr. apply list_elem_of_fmap. exists r.
      split; [by destruct (qr_id _ _ Hmi _ _ Hr)|]. apply Helem. eauto.
    + intros id (r & -> & [id' Hr]%Helem)%list_elem_of_fmap.
      destruct (qr_id _ _ Hmi _ _ Hr) as [-> ?]. by rewrite Hn3.
  - cbn. intros id (r & -> & [id' Hr]%Helem)%list_elem_of_fmap.
    destruct (qr_id _ _ Hmi _ _ Hr) as [-> _]. rewrite Hr3. eauto.
  - cbn. by rewrite Hq3, Hqs.
  - intros id r. cbn. rewrite Hr3. exact (cancel_requests c0 id r).
Qed.

(** ** Histories *)

(** A history of a client with what it has sent since the connection was last
    (re)started: [Some sent], or [None] after a restart that failed, until one
    succeeds. *)
Inductive history : Z -> Client -> option (list ClientMessage) -> Prop :=
  | hist_new : history 0 New (Some [])
  | hist_step n c sent op : history n c sent ->
      match op with OPopNextMessage | ORestart _ => False | _ => True end ->
      history (n + 1) (perform op c) sent
  | hist_pop n c sent : history n c sent ->
      history (n + 1) (fst (PopNextMessage c))
        (sent ← sent; Some (sent ++ option_list (snd (PopNextMessage c))))
  | hist_restart n c sent env : history n c sent ->
      history (n + 1) (fst (RestartForReconnect env c))
        (match snd (RestartForReconnect env c) with Ok _ => Some [] | Err _ => None end).

Lemma history_reachable n c sent : history n c sent -> reachable n c.
Proof.
  induction 1 as [|n c sent op H IH _|n c sent H IH|n c sent env H IH]; [constructor|..].
  - by constructor.
  - by apply (reach_step n c OPopNextMessage).
  - by apply (reach_step n c (ORestart env)).
Qed.

Lemma operation_emits n c op :
  client_inv n c -> versions_ok n c -> n + 1 < 2 ^ 32 ->
  match op with OPopNextMessage | ORestart _ => False | _ => True end ->
  exists ms, emits c (perform op c) ms.
Proof.
  intros Hc Hv Hn Hop. destruct op as [p a|id| |t|t i| |env f|env|p a o|p a|env|msg];
    try done; cbn [perform].
  - by apply (Subscribe_emits n).
  - by apply (Unsubscribe_emits n).
  - destruct (emits_auth n (set_authFetcher (Some (FixedToken (UserAuthToken t))) c) (UserAuthToken t)
      Hv Hn) as [m Hm]. exists ([] ++ [m]). eapply emits_trans; [|exact Hm]. by apply emits_none.
  - destruct (emits_auth n (set_authFetcher (Some (FixedToken (AdminAuthToken t i))) c)
      (AdminAuthToken t i) Hv Hn) as [m Hm]. exists ([] ++ [m]).
    eapply emits_trans; [|exact Hm]. by apply emits_none.
  - destruct (emits_auth n (set_authFetcher None c) NoAuthToken Hv Hn) as [m Hm].
    exists ([] ++ [m]). eapply emits_trans; [|exact Hm]. by apply emits_none.
  - unfold SetAuthCallback. destruct f as [f|].
    + destruct (call_fetcher env f false) as [t|]; [|exists []; by apply emits_none].
      destruct (emits_auth n (set_authFetcher (Some f) c) t Hv Hn) as [m Hm].
      exists ([] ++ [m]). eapply emits_trans; [|exact Hm]. by apply emits_none.
    + destruct (emits_auth n (set_authFetcher None c) NoAuthToken Hv Hn) as [m Hm].
      exists ([] ++ [m]). eapply emits_trans; [|exact Hm]. by apply emits_none.
  - unfold RefreshAuthForReconnect. destruct (authFetcher c) as [f|]; [|exists []; by apply emits_none].
    destruct (call_fetcher env f true) as [t|]; [|exists []; by apply emits_none].
    destruct (emits_auth n c t Hv Hn) as [m Hm]. by exists [m].
  - by apply (Mutation_emits n).
  - by apply (Action_emits n).
  - exists []. apply quiet_emits, receive_quiet.
Qed.

Lemma versions_frame n c c' :
  versions_ok n c -> querySetVersion c' = querySetVersion c -> identityVersion c' = identityVersion c ->
  versions_ok (n + 1) c'.
Proof. unfold versions_ok. intros Hv -> ->. lia. Qed.

Lemma versions_auth n c c' t :
  versions_ok n c -> n + 1 < 2 ^ 32 -> querySetVersion c' = querySetVersion c ->
  identityVersion c' = identityVersion c -> versions_ok (n + 1) (fst (queueAuth t c')).
Proof.
  unfold versions_ok. intros [Hv Hi] Hn Hq Hid. cbn. rewrite Hq, Hid, u32_small; lia.
Qed.

Lemma versions_modify n c c' ms :
  versions_ok n c -> n + 1 < 2 ^ 32 -> querySetVersion c' = querySetVersion c ->
  identityVersion c' = identityVersion c -> versions_ok (n + 1) (queue_modifications ms c').
Proof.
  unfold versions_ok. intros [Hv Hi] Hn Hq Hid. cbn. rewrite Hq, Hid, u32_small; lia.
Qed.

Lemma Restart_versions n c env :
  0 <= n -> versions_ok (n + 1) (fst (RestartForReconnect env c)).
Proof.
  intros Hn. unfold RestartForReconnect. set (c0 := set_remoteVersion _ _).
  set (c1 := cancelPendingActionsForReconnect c0).
  destruct (cancel_quiet c0) as [Hsend _]. fold c1 in Hsend.
  injection Hsend as _ Hv Hid _ _. cbn in Hv, Hid. clearbody c1.
  assert (Hone : u32 (0 + 1) = 1) by (by apply u32_small).
  destruct (match authFetcher c1 with Some _ => _ | None => _ end) as [c2 u] eqn:He.
  assert (H2 : querySetVersion c2 = 0 /\ 0 <= identityVersion c2 <= 1).
  { destruct (authFetcher c1) as [f|]; [|injection He as <- _; lia].
    unfold RefreshAuthForReconnect in He. destruct (authFetcher c1); [|injection He as <- _; lia].
    destruct (call_fetcher env _ true) as [t|]; injection He as <- _; [|lia].
    cbn [enqueue set_outgoing set_identityVersion querySetVersion identityVersion].
    rewrite Hv, Hid, Hone. lia. }
  destruct H2 as [Hv2 Hi2]. unfold versions_ok. destruct u; cbn [fst]; [|lia].
  destruct (0 <? length (replayQueryAdds c2))%nat;
    cbn [set_outgoing queue_modifications enqueue set_querySetVersion querySetVersion identityVersion];
    rewrite Hv2, ?Hone; lia.
Qed.

Lemma perform_versions n c op :
  0 <= n -> versions_ok n c -> n + 1 < 2 ^ 32 -> versions_ok (n + 1) (perform op c).
Proof.
  intros H0 Hv Hn. destruct op as [p a|id| |t|t i| |env f|env|p a o|p a|env|msg]; cbn [perform];
    try by apply (versions_auth n c).
  - unfold Subscribe. destruct (canonicalQuery p a) as [[[p' l] tok]|]; [|by apply (versions_frame n c)].
    destruct (queries c !! tok); cbn [fst]; [by apply (versions_frame n c)|by apply (versions_modify n c)].
  - unfold Unsubscribe. destruct (decide (id ∈ subscribers c)); [|by apply (versions_frame n c)].
    destruct (queryIDToToken _ !! _) as [tok|]; [|by apply (versions_frame n c)].
    destruct (queries _ !! tok) as [q|]; [|by apply (versions_frame n c)].
    destruct (1 <? q_numSubscribers q); [by apply (versions_frame n c)|by apply (versions_modify n c)].
  - unfold PopNextMessage. destruct (outgoing c); by apply (versions_frame n c).
  - unfold SetAuthCallback. destruct f as [f|]; [|by apply (versions_auth n c)].
    destruct (call_fetcher env f false); [by apply (versions_auth n c)|by apply (versions_frame n c)].
  - unfold RefreshAuthForReconnect. destruct (authFetcher c) as [f|]; [|by apply (versions_frame n c)].
    destruct (call_fetcher env f true); [by apply (versions_auth n c)|by apply (versions_frame n c)].
  - unfold Mutation, mutation. destruct (canonicalRequest p a) as [[p' l]|]; [|by apply (versions_frame n c)].
    destruct (syncMutationOptionsFrom o); [|by apply (versions_frame n c)].
    destruct (optimisticResultsWith c _); by apply (versions_frame n c).
  - unfold Action. destruct (canonicalRequest p a) as [[p' l]|]; by apply (versions_frame n c).
  - by apply Restart_versions.
  - destruct (receive_quiet msg c) as [[= _ Hq Hi _ _] _]. by apply (versions_frame n c).
Qed.

Lemma reachable_versions n c : reachable n c -> n < 2 ^ 32 -> 0 <= n /\ versions_ok n c.
Proof.
  induction 1 as [|n c op H IH]; intros Hn; [unfold versions_ok; cbn; lia|].
  destruct IH as [H0 Hv]; [lia|]. split; [lia|]. by apply perform_versions.
Qed.

Lemma New_refines : refines New new_session.
Proof.
  split; cbn; try done.
  - intros id sq. rewrite lookup_empty. split; [done|]. intros (tok & q & H & _).
    by rewrite lookup_empty in H.
  - intros id. rewrite lookup_empty. by intros [].
  - intros id. by rewrite elem_of_nil.
Qed.

Lemma history_session n c sent :
  history n c (Some sent) -> n < 2 ^ 32 ->
  exists s, accept_all (sent ++ outgoing c) new_session = Some s /\ refines c s.
Proof.
  intros H. remember (Some sent) as o eqn:Ho. revert sent Ho.
  induction H as [|n c o op H IH Hop|n c o H IH|n c o env H IH]; intros sent Ho Hn.
  - injection Ho as <-. exists new_session. split; [done|apply New_refines].
  - subst o. destruct (IH sent eq_refl ltac:(lia)) as (s & Hs & Hr).
    pose proof (history_reachable _ _ _ H) as Hreach.
    destruct (reachable_versions n c Hreach) as [H0 Hv]; [lia|].
    destruct (operation_emits n c op) as (ms & Hout & Hacc); [by apply reachable_inv; [|lia]|done|done|done|].
    destruct (Hacc s Hr) as (s' & Ha & Hr'). exists s'. split; [|done].
    by rewrite Hout, app_assoc, accept_all_app, Hs.
  - destruct o as [sent'|]; [|done]. injection Ho as <-.
    destruct (IH sent' eq_refl ltac:(lia)) as (s & Hs & Hr). exists s.
    unfold PopNextMessage. destruct (outgoing c) as [|m rest] eqn:Hout; cbn.
    + rewrite app_nil_r, Hout. by rewrite <- Hs.
    + split; [by rewrite <- app_assoc|]. destruct Hr. by split.
  - destruct (RestartForReconnect env c) as [c' [u|e]] eqn:He; cbn in Ho |- *; [|done].
    injection Ho as <-. destruct u. cbn.
    pose proof (history_reachable _ _ _ H) as Hreach.
    destruct (Restart_session n c env c') as (s & Hs & Hr & _); [by apply reachable_inv; [|lia]|done|done|].
    by exists s.
Qed.
