(* ===== verification/ClientTheorems.v ===== *)
(** * What the base client guarantees

    The properties of [baseclient]: the invariants of its reachable states, the
    refinement of the server's session, reconnection, transitions, completed
    requests, results and errors. *)
From S2P Require Import Prelude GoStrings GoJson Values Results GoEncode Paths Protocol ClientMessages ServerMessages Canonical ClientState BaseClient ClientQueries ClientRequests ClientInvariant ClientSession.
Local Open Scope Z_scope.

(** ** A small history, for the concrete instances *)

Definition no_callback : auth_environment := fun _ _ => Err NoAuthCallback.
Definition optimistic_five : OptimisticUpdate :=
  USetQuery "messages:list" GNil (GInt 5) (fun _ => UReturn None).
Definition sample_client : Client :=
  perform (OMutation "messages:send" GNil [WithOptimisticUpdate (Some optimistic_five)])
    (perform (OSubscribe "messages:count" GNil)
      (perform (OSubscribe "messages.ts:list" GNil)
        (perform (OSubscribe "messages:list" GNil) New))).

Lemma sample_reachable : reachable (0 + 1 + 1 + 1 + 1) sample_client.
Proof. repeat apply reach_step. apply reach_new. Qed.

Lemma sample_history : history (0 + 1 + 1 + 1 + 1) sample_client (Some []).
Proof. repeat (apply hist_step; [|done]). apply hist_new. Qed.

(** ** Invariants *)

(** C13. In every state the client can reach, the four maps of the query set
    agree: tokens and query ids are in one-to-one correspondence, each active
    query has exactly as many subscribers as it counts and at least one, every
    subscriber belongs to an active query, and the token of a query is the one
    of its path and arguments. *)
Theorem query_set_invariant n c :
  reachable n c -> n < 2 ^ 32 -> queries_inv n c.
Proof. intros Hr Hn. apply (reachable_inv n c Hr Hn). Qed.

Lemma query_set_invariant_witness : queries_inv (0 + 1 + 1 + 1 + 1) sample_client.
Proof. apply query_set_invariant; [exact sample_reachable|lia]. Defined.

(** Results are only ever held for active queries, those of the server and
    those the user sees, whatever the server sends and whatever the optimistic
    updates do. *)
Theorem results_of_active_queries n c id r :
  reachable n c -> n < 2 ^ 32 -> serverResults c !! id = Some r \/ results c !! id = Some r ->
  isActiveQuery id c = true.
Proof.
  intros Hr Hn Hl. destruct (ci_results _ _ (reachable_inv n c Hr Hn)) as [Hs Hres].
  apply isActiveQuery_dom. destruct Hl as [Hl|Hl]; apply elem_of_dom_2 in Hl; set_solver.
Qed.

Lemma results_of_active_queries_witness : isActiveQuery 0 sample_client = true.
Proof.
  apply (results_of_active_queries _ _ 0 (ValueResult (VInt64 5)) sample_reachable); [lia|].
  right. vm_compute. reflexivity.
Defined.

(** C14. In every reachable state each request in flight is stored under its own
    id, below the next one, with the message that was sent for it; actions have
    neither an optimistic update nor a pending result; and the two logs of
    completed requests hold at most the retention limit, without repetition,
    with a result for exactly the ids they list, none of them in flight. *)
Theorem requests_invariant n c :
  reachable n c -> n < 2 ^ 32 -> requests_inv n c.
Proof. intros Hr Hn. apply (reachable_inv n c Hr Hn). Qed.

Lemma requests_invariant_witness : requests_inv (0 + 1 + 1 + 1 + 1) sample_client.
Proof. apply requests_invariant; [exact sample_reachable|lia]. Defined.

(** ** The session with the server *)

(** C1. The client refines the server's session.  After any history of fewer
    than 2^32 operations whose last restart succeeded, the server accepts
    everything sent on the connection and then everything still queued: the
    query set versions and the identity versions continue one another, no
    active query is added twice, no other removed, no request id used twice.
    What the server then has is what the client believes: the same versions, the
    active queries with their paths and arguments, and every request in
    flight. *)
Theorem client_refines_session n c sent :
  history n c (Some sent) -> n < 2 ^ 32 ->
  exists s0 s, accept_all sent new_session = Some s0 /\
    accept_all (outgoing c) s0 = Some s /\ refines c s.
Proof.
  intros Hh Hn. destruct (history_session n c sent Hh Hn) as (s & Hs & Hr).
  rewrite accept_all_app in Hs. apply bind_Some in Hs as (s0 & H0 & H1). eauto.
Qed.

Lemma client_refines_session_witness :
  exists s0 s, accept_all [] new_session = Some s0 /\
    accept_all (outgoing sample_client) s0 = Some s /\ refines sample_client s.
Proof. apply (client_refines_session _ _ _ sample_history). lia. Defined.

(** C15. A restart that succeeds leaves a queue that rebuilds the session from
    nothing: a fresh connection accepts it, and then has the active queries,
    the identity and every mutation in flight, and nothing else. *)
Theorem restart_rebuilds_session n c env c' :
  reachable n c -> n + 1 < 2 ^ 32 -> RestartForReconnect env c = (c', Ok ()) ->
  exists s, accept_all (outgoing c') new_session = Some s /\ refines c' s /\
    (forall id, is_Some (requests c' !! id) <-> id ∈ ss_requests s) /\
    queries c' = queries c /\
    (forall id r, requests c' !! id = Some r <->
       requests c !! id = Some r /\ r_kind r = syncRequestMutation).
Proof.
  intros Hreach Hn He.
  destruct (Restart_session n c env c') as (s & Hs & Hr & Hreq & Hq & Hkeep);
    [apply reachable_inv; [done|lia]|done|done|].
  exists s. split; [done|]. split; [done|]. split; [|done].
  intros id. split; [apply (rf_requests _ _ Hr)|apply Hreq].
Qed.

Lemma restart_rebuilds_session_witness :
  exists s, accept_all (outgoing (fst (RestartForReconnect no_callback sample_client))) new_session
    = Some s /\ refines (fst (RestartForReconnect no_callback sample_client)) s.
Proof.
  destruct (restart_rebuilds_session _ sample_client no_callback
    (fst (RestartForReconnect no_callback sample_client)) sample_reachable)
    as (s & H1 & H2 & _); [lia|vm_compute; reflexivity|exact (ex_intro _ s (conj H1 H2))].
Defined.

#[export] Instance replay_order_total : Total replay_order.
Proof.
  intros x y. unfold replay_order, replay_less.
  destruct (r_ts x) as [a|], (r_ts y) as [b|]; cbn; try (by auto); try lia.
  destruct (Z.eqb_spec a b), (Z.eqb_spec b a); cbn; lia.
Qed.

#[export] Instance replay_order_trans : Transitive replay_order.
Proof.
  intros x y z. unfold replay_order, replay_less.
  destruct (r_ts x) as [a|], (r_ts y) as [b|], (r_ts z) as [d|]; cbn; try done; try lia.
  destruct (Z.eqb_spec b a), (Z.eqb_spec d b), (Z.eqb_spec d a); cbn; lia.
Qed.

Lemma replay_order_antisym x y :
  replay_order x y -> replay_order y x -> r_id x = r_id y.
Proof.
  unfold replay_order, replay_less.
  destruct (r_ts x) as [a|], (r_ts y) as [b|]; cbn; try done; try lia.
  destruct (Z.eqb_spec a b), (Z.eqb_spec b a); cbn; lia.
Qed.

(** The order of the replay: a later timestamp first, no timestamp last, and by
    id between the same timestamps. *)
Definition later (x y : option Z) : Prop :=
  match x, y with
  | Some a, Some b => b < a
  | Some _, None => True
  | None, _ => False
  end.
Definition replay_before (x y : trackedSyncRequest) : Prop :=
  later (r_ts x) (r_ts y) \/ r_ts x = r_ts y /\ r_id x <= r_id y.

Lemma replay_order_before x y : replay_before x y -> replay_order x y.
Proof.
  unfold replay_before, replay_order, replay_less, later.
  destruct (r_ts x) as [a|], (r_ts y) as [b|]; intros [H|[He H]]; simplify_eq; try done; try lia.
  - destruct (Z.eqb_spec b a); cbn; lia.
  - destruct (Z.eqb_spec b b); cbn; lia.
Qed.

Lemma tracked_id_inj n c x y :
  requests_inv n c -> x ∈ tracked_requests c -> y ∈ tracked_requests c -> r_id x = r_id y -> x = y.
Proof.
  intros Hi [i Hx]%tracked_elem [j Hy]%tracked_elem He.
  destruct (qr_id _ _ Hi _ _ Hx) as [? _], (qr_id _ _ Hi _ _ Hy) as [? _]. congruence.
Qed.

(** The mutations a restart sends again are exactly those in flight, the
    ones the server has answered first, latest timestamp first, the others by
    id; the order does not depend on the order in which the map of requests is
    iterated. *)
Theorem replay_order_canonical n c l :
  reachable n c -> n < 2 ^ 32 ->
  l ≡ₚ filter (fun r => r_kind r = syncRequestMutation) (tracked_requests c) ->
  StronglySorted replay_before l ->
  ReplayOngoingRequests c = map r_message l.
Proof.
  intros Hreach Hn Hp Hl. pose proof (ci_requests _ _ (reachable_inv n c Hreach Hn)) as Hi.
  unfold ReplayOngoingRequests. f_equal.
  apply (StronglySorted_unique_strong replay_order).
  - intros x y Hx Hy Hxy Hyx. rewrite replayed_perm in Hx. rewrite Hp in Hy.
    apply list_elem_of_filter in Hx as [_ Hx], Hy as [_ Hy].
    apply (tracked_id_inj n c); [done..|]. by apply replay_order_antisym.
  - apply (StronglySorted_merge_sort replay_order).
  - clear Hp. induction Hl as [|x l _ IH Hx]; constructor; [done|].
    eapply Forall_impl; [exact Hx|]. apply replay_order_before.
  - by rewrite replayed_perm, Hp.
Qed.

(** Three mutations, the first and the third answered. *)
Definition answered (id ts : Z) : operation :=
  OReceive (Some (SMutationResponse
    (mkMutationResponse id true VNull "" (Some ts) None (mkOptionalValue false VNull) true))).
Definition replay_client : Client :=
  perform (answered 2 9) (perform (answered 0 7)
    (perform (OMutation "m:c" GNil []) (perform (OMutation "m:b" GNil [])
      (perform (OMutation "m:a" GNil []) New)))).
Definition replayed_message (id : Z) (path : string) : ClientMessage :=
  CMutation (mkRequest id path (Some [VObject ∅]) "").
Definition replayed_request (id : Z) (path : string) (ts : option Z) : trackedSyncRequest :=
  mkTracked id syncRequestMutation (replayed_message id path) None zero_result
    (bool_decide (is_Some ts)) ts.

Lemma replay_order_canonical_witness :
  ReplayOngoingRequests replay_client =
    [replayed_message 2 "m:c"; replayed_message 0 "m:a"; replayed_message 1 "m:b"].
Proof.
  apply (replay_order_canonical (0 + 1 + 1 + 1 + 1 + 1) replay_client
    [replayed_request 2 "m:c" (Some 9); replayed_request 0 "m:a" (Some 7);
     replayed_request 1 "m:b" None]).
  - repeat apply reach_step. apply reach_new.
  - lia.
  - assert (filter (fun r => r_kind r = syncRequestMutation) (tracked_requests replay_client) =
      [replayed_request 2 "m:c" (Some 9); replayed_request 1 "m:b" None;
       replayed_request 0 "m:a" (Some 7)]) as -> by (vm_compute; reflexivity).
    apply perm_skip, perm_swap.
  - repeat constructor.
Defined.

(** ** Subscriptions *)

(** Subscribing hands out an id no subscriber has.  If the query was active
    its subscribers share it and nothing is sent; if not, one message adds it. *)
Theorem subscribe_fresh n c path args c' id :
  reachable n c -> n + 1 < 2 ^ 32 -> Subscribe path args c = (c', Ok id) ->
  (id ∉ subscribers c) /\ subscribers c' = {[id]} ∪ subscribers c /\
  exists p l tok, canonicalQuery path args = Ok (p, l, tok) /\
    match queries c !! tok with
    | Some q => fst id = q_id q /\ outgoing c' = outgoing c
    | None => isActiveQuery (fst id) c = false /\
        outgoing c' = outgoing c ++
          [CModifyQuerySet (mkModify (querySetVersion c) (querySetVersion c + 1)
             (Some [ModAdd (mkAdd (fst id) p (Some l) (mkOptionalString false None) "")]))]
    end.
Proof.
  intros Hreach Hn. pose proof (ci_queries _ _ (reachable_inv n c Hreach ltac:(lia))) as Hi.
  destruct (reachable_versions n c Hreach) as [_ [Hv _]]; [lia|].
  unfold Subscribe. destruct (canonicalQuery path args) as [[[p l] tok]|] eqn:Hc; [|done].
  destruct (queries c !! tok) as [q|] eqn:Hl; intros [= <- <-].
  - split; [by apply (resubscribe_fresh n c tok q); [|lia|]|]. split; [done|].
    exists p, l, tok. by rewrite Hl.
  - assert (Hna : isActiveQuery (nextQueryID c) c = false).
    { apply not_true_iff_false. unfold isActiveQuery. rewrite bool_decide_eq_true.
      intros (tok' & q & Hq & He)%(active_query n c _ Hi).
      pose proof (qi_range _ _ Hi _ _ Hq). lia. }
    split; [|split; [done|]].
    + intros Hin. by apply (new_no_subscribers n c Hi _ Hin).
    + exists p, l, tok. rewrite Hl. split; [done|]. split; [done|]. cbn. by rewrite u32_small by lia.
Qed.

Lemma subscribe_fresh_witness :
  (1, 2) ∉ subscribers sample_client.
Proof.
  apply (subscribe_fresh _ sample_client "messages:count" GNil
           (fst (Subscribe "messages:count" GNil sample_client)) (1, 2) sample_reachable);
    [lia|vm_compute; reflexivity].
Defined.

(** Unsubscribing removes the subscriber and no other; an id that is not
    subscribed is refused and changes nothing.  The query goes, with its results
    and one message to the server, exactly when this was its last subscriber. *)
Theorem unsubscribe_spec n c id :
  reachable n c -> n + 1 < 2 ^ 32 ->
  if decide (id ∈ subscribers c) then
    exists c', Unsubscribe id c = (c', Ok ()) /\ subscribers c' = subscribers c ∖ {[id]} /\
      (isActiveQuery (fst id) c' = true <-> subscribers_of (fst id) c' <> ∅) /\
      outgoing c' = outgoing c ++
        (if isActiveQuery (fst id) c' then []
         else [CModifyQuerySet (mkModify (querySetVersion c) (querySetVersion c + 1)
                 (Some [ModRemove (fst id)]))])
  else Unsubscribe id c = (c, Err (UnknownSubscriber (fst id) (snd id))).
Proof.
  intros Hreach Hn. pose proof (ci_queries _ _ (reachable_inv n c Hreach ltac:(lia))) as Hi.
  destruct (reachable_versions n c Hreach) as [_ [Hv _]]; [lia|]. unfold Unsubscribe.
  destruct (decide (id ∈ subscribers c)) as [Hin|]; [|done].
  cbn [queryIDToToken set_subscribers queries].
  destruct (qi_subs _ _ Hi _ Hin) as (tok & q & Hl & He & _).
  rewrite <- He. rewrite (qi_token _ _ Hi _ _ Hl), Hl.
  destruct (qi_count _ _ Hi _ _ Hl) as [Hc _].
  pose proof (unsubscribe_count n c tok q id Hi Hin Hl He) as Hcount.
  destruct (Z.ltb_spec 1 (q_numSubscribers q)) as [Hmany|Hlast]; eexists; (split; [done|]);
    (split; [done|]).
  - assert (Ha : forall c', queryIDToToken c' = queryIDToToken c -> isActiveQuery (q_id q) c' = true).
    { intros c' Hc'. unfold isActiveQuery. rewrite Hc', (qi_token _ _ Hi _ _ Hl).
      by apply bool_decide_eq_true. }
    rewrite Ha by done. rewrite app_nil_r. split; [|done]. split; [|done]. intros _ Hempty.
    match type of Hempty with subscribers_of _ ?x = _ => specialize (Hcount x eq_refl) end.
    rewrite Hempty, size_empty in Hcount. lia.
  - assert (Ha : forall c', queryIDToToken c' = delete (q_id q) (queryIDToToken c) ->
      isActiveQuery (q_id q) c' = false).
    { intros c' Hc'. unfold isActiveQuery. rewrite Hc', lookup_delete_eq.
      by apply bool_decide_eq_false, is_Some_None. }
    rewrite Ha by done. cbn. rewrite u32_small by lia. split; [|done]. split; [done|].
    intros Hne. exfalso. apply Hne.
    match goal with |- subscribers_of _ ?x = _ => specialize (Hcount x eq_refl) end.
    apply leibniz_equiv, size_empty_inv. lia.
Qed.

Lemma unsubscribe_spec_witness :
  exists c', Unsubscribe (1, 1) sample_client = (c', Ok ()) /\
    subscribers c' = subscribers sample_client ∖ {[(1, 1)]}.
Proof.
  pose proof (unsubscribe_spec _ sample_client (1, 1) sample_reachable ltac:(lia)) as H.
  rewrite decide_True in H by (apply (bool_decide_unpack _); vm_compute; exact I).
  destruct H as (c' & H1 & H2 & _). exact (ex_intro _ c' (conj H1 H2)).
Defined.

(** ** Transitions and completed mutations *)

Definition about (id : Z) (m : StateModification) : Prop :=
  match m with
  | SMUpdated u => qu_QueryID u = id
  | SMFailed f => qf_QueryID f = id
  | SMRemoved i => i = id
  end.
Definition reported (m : StateModification) : option FunctionResult :=
  match m with
  | SMUpdated u => Some (ValueResult (qu_Value u))
  | SMFailed f => Some (queryFailedResult f)
  | SMRemoved _ => None
  end.

Lemma modification_other id m c :
  ~ about id m -> serverResults (applyStateModification m c) !! id = serverResults c !! id.
Proof.
  destruct m as [u|f|i]; cbn; intros Hne; unfold set_server_result; try case_match; try done; cbn;
    [by rewrite lookup_insert_ne..|by rewrite lookup_delete_ne].
Qed.

Lemma modification_same id m c :
  about id m -> isActiveQuery id c = true ->
  serverResults (applyStateModification m c) !! id = reported m.
Proof.
  destruct m as [u|f|i]; cbn; intros <- Ha; unfold set_server_result; rewrite ?Ha; cbn;
    [by rewrite lookup_insert_eq..|by rewrite lookup_delete_eq].
Qed.

Lemma modifications_other id ms c :
  Forall (fun m => ~ about id m) ms ->
  serverResults (fold_left (fun c m => applyStateModification m c) ms c) !! id = serverResults c !! id.
Proof.
  intros Hms. revert c. induction Hms as [|m ms Hm Hms IH]; intros c; [done|]. cbn.
  rewrite IH. by apply modification_other.
Qed.

Lemma isActive_frame id c c' :
  query_part c' = query_part c -> isActiveQuery id c' = isActiveQuery id c.
Proof. intros Hq. unfold isActiveQuery. by rewrite (id_token_part _ _ Hq). Qed.

(** The states a transition goes through. *)
Lemma transition_states m c c' r :
  receiveTransition m c = (c', r) -> tr_StartVersion m = remoteVersion c ->
  let c1 := fold_left (fun c m => applyStateModification m c) (default [] (tr_Modifications m)) c in
  let c2 := observeTimestamp (sv_TS (tr_EndVersion m)) (set_remoteVersion (tr_EndVersion m) c1) in
  let c3 := completeMutationsThrough (sv_TS (tr_EndVersion m)) c2 in
  match recomputeOptimisticResults c3 with
  | (c4, Err e) => c' = c4 /\ r = Err e
  | (c4, Ok _) => c' = c4 /\ r = Ok (queryResultsSnapshot c4)
  end.
Proof.
  unfold receiveTransition. intros H Hs. rewrite decide_True in H by done. cbv zeta in *.
  destruct (recomputeOptimisticResults _) as [c4 [u|e]]; by injection H as <- <-.
Qed.

(** The last modification of a transition that is about an active query
    decides its server result: the value, the error, or nothing once removed. *)
Theorem transition_last_wins m c c' r pre x post qid :
  receiveTransition m c = (c', r) -> tr_StartVersion m = remoteVersion c ->
  tr_Modifications m = Some (pre ++ x :: post) -> about qid x ->
  Forall (fun y => ~ about qid y) post -> isActiveQuery qid c = true ->
  serverResults c' !! qid = reported x.
Proof.
  intros H Hs Hm Hx Hpost Ha. pose proof (transition_states m c c' r H Hs) as Ht. cbv zeta in Ht.
  rewrite Hm in Ht. cbn [default from_option id] in Ht.
  set (c1 := fold_left _ _ c) in Ht. set (c2 := observeTimestamp _ _) in Ht.
  set (c3 := completeMutationsThrough _ _) in Ht.
  assert (serverResults c' = serverResults c1) as ->.
  { trans (serverResults c3).
    - unfold recomputeOptimisticResults in Ht.
      by destruct (optimisticResultsWith c3 None); destruct Ht as [-> _].
    - destruct (completeThrough_frame (sv_TS (tr_EndVersion m)) c2) as [_ [= H3 _]].
      destruct (observe_frame (sv_TS (tr_EndVersion m)) (set_remoteVersion (tr_EndVersion m) c1))
        as (_ & [= H2 _] & _). fold c2 in H2. fold c3 in H3. by rewrite H3, H2. }
  unfold c1. rewrite fold_left_app. cbn [fold_left]. rewrite modifications_other by done.
  apply modification_same; [done|].
  destruct (modifications_frame pre c) as [Hq _]. by rewrite (isActive_frame _ _ _ Hq).
Qed.

Definition sample_end : StateVersion := mkStateVersion 2 0 50.
Definition sample_update : TransitionMessage :=
  mkTransition zero_version sample_end
    (Some [SMUpdated (mkQueryUpdated 0 (VInt64 1) None (mkOptionalString true None));
           SMUpdated (mkQueryUpdated 1 (VInt64 2) None (mkOptionalString true None));
           SMUpdated (mkQueryUpdated 0 (VInt64 3) None (mkOptionalString true None))])
    None None false false.

Lemma transition_last_wins_witness :
  serverResults (fst (receiveTransition sample_update sample_client)) !! 0 =
    Some (ValueResult (VInt64 3)).
Proof.
  apply (transition_last_wins sample_update sample_client
    (fst (receiveTransition sample_update sample_client)) (snd (receiveTransition sample_update sample_client))
    [SMUpdated (mkQueryUpdated 0 (VInt64 1) None (mkOptionalString true None));
     SMUpdated (mkQueryUpdated 1 (VInt64 2) None (mkOptionalString true None))]
    (SMUpdated (mkQueryUpdated 0 (VInt64 3) None (mkOptionalString true None))) [] 0);
    [ apply surjective_pairing | vm_compute; reflexivity | vm_compute; reflexivity
    | vm_compute; reflexivity | constructor | vm_compute; reflexivity ].
Defined.

(** A transition leaves the requests to [completeMutationsThrough]. *)
Lemma transition_requests n m c c' r :
  requests_inv n c -> receiveTransition m c = (c', r) -> tr_StartVersion m = remoteVersion c ->
  exists c2, request_part c2 = request_part c /\
    request_part c' = request_part (completeMutationsThrough (sv_TS (tr_EndVersion m)) c2).
Proof.
  intros Hi H Hs. pose proof (transition_states m c c' r H Hs) as Ht. cbv zeta in Ht.
  set (c1 := fold_left _ _ c) in Ht. set (c2 := observeTimestamp _ _) in Ht.
  exists c2. split.
  - destruct (modifications_frame (default [] (tr_Modifications m)) c) as [_ H1].
    destruct (observe_frame (sv_TS (tr_EndVersion m)) (set_remoteVersion (tr_EndVersion m) c1))
      as (_ & _ & H2). fold c1 in H1. fold c2 in H2. rewrite H2. exact H1.
  - set (c3 := completeMutationsThrough _ _) in *.
    destruct (recompute_frame c3) as [_ H4].
    destruct (recomputeOptimisticResults c3) as [c4 [|]]; cbn [fst] in H4; by destruct Ht as [-> _].
Qed.

Lemma sorted_ids_frame P `{!forall r, Decision (P r)} c c' :
  requests c' = requests c -> sorted_ids P c' = sorted_ids P c.
Proof. intros He. unfold sorted_ids. by rewrite He. Qed.

Lemma sorted_ids_length P `{!forall r, Decision (P r)} c :
  (length (sorted_ids P c) <= size (requests c))%nat.
Proof.
  unfold sorted_ids. rewrite (Permutation_length (sort_by_perm _ _)), length_map.
  rewrite length_map_to_list. apply map_size_filter.
Qed.

(** The server has answered the mutation, with a timestamp up to [ts]. *)
Definition due (ts : Z) (r : trackedSyncRequest) : Prop :=
  r_kind r = syncRequestMutation /\ r_hasResult r = true /\ exists t, r_ts r = Some t /\ t <= ts.

Lemma completes_due ts r : completes_through ts r <-> due ts r.
Proof.
  unfold completes_through, due.
  split; intros (Hk & Hr & Ht); (split; [done|split; [done|]]).
  - destruct (r_ts r) as [t|]; [by exists t|done].
  - by destruct Ht as (t & -> & ?).
Qed.

Lemma transition_completes n m c c' res id r :
  reachable n c -> n < 2 ^ 32 ->
  receiveTransition m c = (c', res) -> tr_StartVersion m = remoteVersion c ->
  requests c !! id = Some r ->
  if decide (completes_through (sv_TS (tr_EndVersion m)) r) then
    requests c' !! id = None /\
    ((size (requests c) <= limit)%nat -> MutationResult id c' = (r_result r, true))
  else requests c' !! id = Some r.
Proof.
  intros Hreach Hn Ht Hs Hr. pose proof (ci_requests _ _ (reachable_inv n c Hreach Hn)) as Hi.
  set (ts := sv_TS (tr_EndVersion m)).
  destruct (transition_requests n m c c' res Hi Ht Hs) as (c2 & H2 & H').
  assert (Hi2 : requests_inv n c2) by (by apply (requests_inv_frame n _ c)).
  assert (Hreq2 : requests c2 = requests c) by (by injection H2).
  assert (Hord : sorted_ids (completes_through ts) c2 = sorted_ids (completes_through ts) c)
    by (by apply sorted_ids_frame).
  pose proof (completes_completable ts c2) as Hc.
  fold ts in H'. change (completeMutationsThrough ts c2)
    with (complete_ids (sorted_ids (completes_through ts) c2) c2) in H'.
  injection H' as _ Hreq' _ _ Hres' _ _.
  assert (Hin : id ∈ sorted_ids (completes_through ts) c2 <-> completes_through ts r).
  { rewrite Hord, sorted_ids_elem. split; [|eauto]. intros (r' & Hr' & ?). congruence. }
  rewrite Hreq', complete_ids_requests, Hreq2 by done. case_decide as Hd.
  - rewrite decide_True by (by apply Hin). split; [done|]. intros Hsize.
    unfold MutationResult, lookup_result. rewrite Hres'.
    rewrite (complete_ids_result n _ c2 id r); try done; [by apply Hin|by rewrite Hreq2|].
    destruct (complete_ids_order _ c2 Hc) as (d & Hd' & Hlen).
    { apply (log_limit _ _ (qr_mutations _ _ Hi2)). }
    set (ids := sorted_ids (completes_through ts) c2) in *.
    set (order := completedMutationOrder (complete_ids ids c2)) in *.
    assert (Hle : (length ids <= length order)%nat).
    { rewrite Hlen. pose proof (sorted_ids_length (completes_through ts) c). fold ids in Hord.
      rewrite Hord. lia. }
    assert (Hsuf : exists l, order = l ++ ids).
    { apply app_eq_inv in Hd' as [(l & H1 & H3)|(l & H1 & H3)].
      - by exists l.
      - destruct l as [|x l]; [by exists []; rewrite H3|].
        rewrite H3, length_app in Hle. cbn in Hle. lia. }
    destruct Hsuf as [l ->]. apply elem_of_app. right. by apply Hin.
  - rewrite decide_False by (by rewrite Hin). done.
Qed.

(** C38. A transition to timestamp [ts] completes exactly the mutations the server
    has answered with a timestamp up to [ts], whether or not the optimistic
    updates that are replayed then fail; every other request stays as it was.
    The result of a completed mutation can then be asked for, as long as no more
    requests were in flight than the log retains. *)
Theorem transition_completes_mutations n m c c' res id r :
  reachable n c -> n < 2 ^ 32 ->
  receiveTransition m c = (c', res) -> tr_StartVersion m = remoteVersion c ->
  requests c !! id = Some r ->
  (due (sv_TS (tr_EndVersion m)) r ->
    requests c' !! id = None /\
    ((size (requests c) <= limit)%nat -> MutationResult id c' = (r_result r, true))) /\
  (~ due (sv_TS (tr_EndVersion m)) r -> requests c' !! id = Some r).
Proof.
  intros Hreach Hn Ht Hs Hr.
  pose proof (transition_completes n m c c' res id r Hreach Hn Ht Hs Hr) as H.
  rewrite <-completes_due. case_decide as Hd; by split.
Qed.

Definition answered_client : Client :=
  perform (answered 0 40) sample_client.

Lemma transition_completes_mutations_witness :
  requests (fst (receiveTransition sample_update answered_client)) !! 0 = None /\
  MutationResult 0 (fst (receiveTransition sample_update answered_client)) =
    (ValueResult VNull, true).
Proof.
  pose proof (transition_completes_mutations (0 + 1 + 1 + 1 + 1 + 1) sample_update answered_client
    (fst (receiveTransition sample_update answered_client))
    (snd (receiveTransition sample_update answered_client)) 0
    (mkTracked 0 syncRequestMutation (CMutation (mkRequest 0 "messages:send" (Some [VObject ∅]) ""))
       (Some optimistic_five) (ValueResult VNull) true (Some 40))
    (reach_step _ _ _ sample_reachable) ltac:(lia) (surjective_pairing _)
    ltac:(vm_compute; reflexivity) ltac:(vm_compute; reflexivity)) as H.
  destruct H as [H _]. destruct H as [H1 H2].
  { split; [done|split; [done|]]. exists 40. split; [done|vm_compute; discriminate]. }
  split; [exact H1|]. apply H2.
  apply (bool_decide_unpack _). vm_compute. exact I.
Defined.

(** ** The user's view *)

Definition no_optimistic (c : Client) : Prop :=
  forall id r, requests c !! id = Some r -> ~ is_optimistic r.

(** Without optimistic mutations in flight the view is the server's. *)
Definition settled (c : Client) : Prop := no_optimistic c -> results c = serverResults c.

Lemma no_optimistic_requests c : no_optimistic c -> optimisticRequests c None = [].
Proof.
  intros Hno. unfold optimisticRequests. rewrite app_nil_r.
  assert (filter is_optimistic (tracked_requests c) = []) as ->; [|done].
  apply elem_of_nil_inv. intros r [Ho [id Hr]%tracked_elem]%list_elem_of_filter. by apply (Hno id r).
Qed.

Lemma recompute_settled c : settled (fst (recomputeOptimisticResults c)).
Proof.
  unfold recomputeOptimisticResults. intros Hno.
  destruct (optimisticResultsWith c None) as [rs|e] eqn:Ho;
    unfold optimisticResultsWith in Ho; rewrite no_optimistic_requests in Ho by done;
    cbn in Ho; [by injection Ho as <-|done].
Qed.

(** The optimistic requests of [c'] are among those of [c], and the results did
    not change. *)
Lemma settled_frame c c' :
  result_part c' = result_part c -> (no_optimistic c' -> no_optimistic c) -> settled c -> settled c'.
Proof. intros [= H1 H2] Hno Hs Hc'. rewrite H1, H2. auto. Qed.

Lemma no_optimistic_delete id c c' :
  requests c' = delete id (requests c) ->
  (forall r, requests c !! id = Some r -> ~ is_optimistic r) ->
  no_optimistic c' -> no_optimistic c.
Proof.
  intros Hr Hid Hno id' r' Hr'. destruct (decide (id = id')) as [<-|Hne]; [by apply Hid|].
  apply (Hno id'). by rewrite Hr, lookup_delete_ne.
Qed.

Lemma action_not_optimistic r : r_kind r = syncRequestAction -> ~ is_optimistic r.
Proof. intros Ha [Hm _]. congruence. Qed.

Lemma cancel_settled c : settled c -> settled (cancelPendingActionsForReconnect c).
Proof.
  apply settled_frame; [apply cancel_frame|]. intros Hno id r Hr Ho.
  apply (Hno id r); [|done]. apply cancel_requests. split; [done|]. by destruct Ho.
Qed.

Lemma update_mutation_settled n m c :
  client_inv n c -> settled c -> settled (fst (updateRequestFromMutationResponse m c)).
Proof.
  intros Hi Hs. unfold updateRequestFromMutationResponse.
  destruct (requests c !! mr_RequestID m) as [r|] eqn:Hr; [|by case_decide].
  destruct (decide (r_kind r = syncRequestMutation)); [|done].
  set (r' := mkTracked _ _ _ _ _ _ _). set (c1 := set_requests _ c).
  assert (H1 : no_optimistic c1 -> no_optimistic c).
  { intros Hno id x Hx. destruct (decide (mr_RequestID m = id)) as [<-|Hne].
    - assert (x = r) as -> by congruence. intros Ho.
      apply (Hno (mr_RequestID m) r'); [by apply lookup_insert_eq|]. exact Ho.
    - apply (Hno id). cbn. by rewrite lookup_insert_ne. }
  assert (Hs1 : settled c1) by (by apply (settled_frame c)).
  destruct (negb (mr_Success m)); [|by destruct (mr_TS m)].
  assert (Hl : requests c1 !! mr_RequestID m = Some r') by apply lookup_insert_eq.
  destruct (complete_eq (mr_RequestID m) c1 r' Hl eq_refl) as (k & ev & _ & Hreq & _).
  destruct (complete_frame (mr_RequestID m) c1) as [_ Hres].
  assert (Hsnd : snd (completeMutationRequest (mr_RequestID m) c1)
                 = bool_decide (is_Some (r_optimisticUpdate r'))).
  { unfold completeMutationRequest. by rewrite Hl. }
  destruct (completeMutationRequest (mr_RequestID m) c1) as [c2 b]; cbn [fst snd] in *.
  destruct b; [apply recompute_settled|]. apply (settled_frame c1); [done| |done].
  apply (no_optimistic_delete (mr_RequestID m)); [done|]. rewrite Hl. intros ? [= <-] [_ Ho].
  symmetry in Hsnd. by apply bool_decide_eq_false in Hsnd.
Qed.

Lemma perform_settled n c op : client_inv n c -> settled c -> settled (perform op c).
Proof.
  intros Hi Hs.
  assert (Hkeep : forall c', result_part c' = result_part c -> requests c' = requests c -> settled c').
  { intros c' H1 H2. apply (settled_frame c); [done| |done]. unfold no_optimistic. by rewrite H2. }
  destruct op as [p a|id| |t|t i| |env f|env|p a o|p a|env|msg]; cbn [perform];
    try by apply Hkeep.
  - unfold Subscribe. destruct (canonicalQuery p a) as [[[p' l] tok]|]; [|done].
    destruct (queries c !! tok); by apply Hkeep.
  - unfold Unsubscribe. destruct (decide (id ∈ subscribers c)); [|done].
    destruct (queryIDToToken _ !! _) as [tok|]; [|by apply Hkeep].
    destruct (queries _ !! tok) as [q|]; [|by apply Hkeep].
    destruct (1 <? q_numSubscribers q); [by apply Hkeep|].
    intros Hno. cbn. by rewrite (Hs Hno).
  - unfold PopNextMessage. destruct (outgoing c); by apply Hkeep.
  - unfold SetAuthCallback. destruct f as [f|]; [|by apply Hkeep].
    destruct (call_fetcher env f false); by apply Hkeep.
  - unfold RefreshAuthForReconnect. destruct (authFetcher c); [|done].
    destruct (call_fetcher env a true); by apply Hkeep.
  - assert (Hfresh : requests c !! nextRequestID c = None).
    { destruct (requests c !! nextRequestID c) eqn:Hx; [|done].
      destruct (qr_id _ _ (ci_requests _ _ Hi) _ _ Hx). lia. }
    unfold Mutation, mutation. destruct (canonicalRequest p a) as [[p' l]|]; [|done].
    destruct (syncMutationOptionsFrom o) as [u|]; cbn [fst].
    + destruct (optimisticResultsWith c _) as [rs|]; [|done]. intros Hno. exfalso.
      eapply Hno; [cbn; by apply lookup_insert_eq|]. by split; [|eexists].
    + apply (settled_frame c); [done| |done]. intros Hno id r Hr. apply (Hno id r). cbn.
      rewrite lookup_insert_ne; [done|]. intros <-. congruence.
  - assert (Hfresh : requests c !! nextRequestID c = None).
    { destruct (requests c !! nextRequestID c) eqn:Hx; [|done].
      destruct (qr_id _ _ (ci_requests _ _ Hi) _ _ Hx). lia. }
    unfold Action. destruct (canonicalRequest p a) as [[p' l]|]; [|done].
    apply (settled_frame c); [done| |done]. intros Hno id r Hr. apply (Hno id r). cbn.
    rewrite lookup_insert_ne; [done|]. intros <-. congruence.
  - unfold RestartForReconnect. set (c0 := set_remoteVersion _ _).
    assert (H0 : settled c0) by (by apply Hkeep). pose proof (cancel_settled c0 H0) as H1.
    set (c1 := cancelPendingActionsForReconnect c0) in *.
    assert (Hgo : forall c2, result_part c2 = result_part c1 -> requests c2 = requests c1 -> settled c2).
    { intros c2 Hx Hy. apply (settled_frame c1); [done| |done]. unfold no_optimistic. by rewrite Hy. }
    destruct (match authFetcher c1 with Some _ => _ | None => _ end) as [c2 u] eqn:He.
    assert (H2 : result_part c2 = result_part c1 /\ requests c2 = requests c1).
    { destruct (authFetcher c1); [|by injection He as <- _].
      destruct (refresh_frame env c1) as (_ & Hx & Hy). rewrite He in Hx, Hy. cbn [fst] in *.
      split; [done|]. by injection Hy. }
    destruct H2 as [Hx Hy]. destruct u; cbn [fst]; [|by apply Hgo].
    apply Hgo; by destruct (0 <? length (replayQueryAdds c2))%nat.
  - destruct msg as [[m|m|m|m|m|e|]|]; cbn [ReceiveMessage]; try done.
    + unfold receiveTransition. destruct (decide (tr_StartVersion m = remoteVersion c)); [|done].
      set (c3 := completeMutationsThrough _ _).
      pose proof (recompute_settled c3) as H4. by destruct (recomputeOptimisticResults c3) as [c4 [|]].
    + unfold receiveMutationResponse. pose proof (update_mutation_settled n m c Hi Hs) as H1.
      destruct (updateRequestFromMutationResponse m c) as [c' [u|e]]; [|done]. cbn [fst] in *.
      destruct (mr_TS m) as [ts|]; [|done].
      destruct (observe_frame ts c') as (_ & Hx & Hy). apply (settled_frame c'); [done| |done].
      injection Hy as _ Hy _ _ _ _ _. unfold no_optimistic. by rewrite Hy.
    + unfold updateRequestFromActionResponse.
      destruct (requests c !! ar_RequestID m) as [r|] eqn:Hr; [|done].
      destruct (decide (r_kind r = syncRequestAction)) as [Hk|]; [|done]. cbn [fst].
      set (x := functionResultFromResponse _ _ _ _).
      destruct (remember_action_frame (ar_RequestID m) x c) as (_ & Hx & Hy).
      apply (settled_frame c); [exact Hx| |done].
      apply (no_optimistic_delete (ar_RequestID m)); [cbn; by rewrite Hy|].
      intros r' Hr'. assert (r' = r) as -> by congruence. by apply action_not_optimistic.
Qed.

Lemma reachable_settled n c : reachable n c -> n < 2 ^ 32 -> settled c.
Proof.
  intros Hreach Hn. induction Hreach as [|n c op H IH]; [done|].
  apply (perform_settled n); [apply reachable_inv; [done|lia]|]. apply IH. lia.
Qed.

(** C4. Optimistic updates leave no trace.  Whenever no mutation with an
    optimistic update is in flight, because none was made, because the server
    refused them, or because their results have arrived, what the user sees is
    exactly what the server reported, whatever happened before. *)
Theorem optimism_leaves_no_trace n c :
  reachable n c -> n < 2 ^ 32 -> no_optimistic c -> results c = serverResults c.
Proof. intros Hreach Hn. by apply (reachable_settled n). Qed.

(** The optimistic mutation of the sample is refused by the server. *)
Definition refused_client : Client :=
  perform (OReceive (Some (SMutationResponse
    (mkMutationResponse 0 false VNull "no" None None (mkOptionalValue false VNull) false))))
    sample_client.

Lemma optimism_leaves_no_trace_witness :
  results sample_client !! 0 = Some (ValueResult (VInt64 5)) /\
  results refused_client = serverResults refused_client.
Proof.
  split; [vm_compute; reflexivity|].
  apply (optimism_leaves_no_trace (0 + 1 + 1 + 1 + 1 + 1)).
  - apply (reach_step _ sample_client), sample_reachable.
  - lia.
  - assert (requests refused_client = ∅) as Hr by (vm_compute; reflexivity).
    intros id r. rewrite Hr, lookup_empty. discriminate.
Defined.
