(* ===== verification/ClientSharing.v ===== *)
(** * Which subscriptions share a query

    The base client keys its queries by token.  Every key of a reachable client
    is the token of the query it holds, and a token stands for a path and its
    arguments, so subscriptions share a query exactly when they ask for the same
    one. *)
From S2P Require Import Prelude GoStrings GoJson Values Results GoEncode Paths Protocol ClientMessages ServerMessages Canonical CanonicalFacts ClientState BaseClient ClientQueries ClientRequests ClientInvariant ClientSession ClientTheorems.
Local Open Scope Z_scope.

(** A query is held under its own token. *)
Definition keyed (c : Client) : Prop :=
  forall tok q, queries c !! tok = Some q ->
    exists path args, canonicalQuery path args = Ok (q_canonicalPath q, q_args q, tok).

Lemma keyed_frame c c' : queries c' = queries c -> keyed c -> keyed c'.
Proof. unfold keyed. by intros ->. Qed.

Lemma keyed_insert c c' tok q path args :
  queries c' = <[tok := q]> (queries c) ->
  canonicalQuery path args = Ok (q_canonicalPath q, q_args q, tok) -> keyed c -> keyed c'.
Proof.
  intros Hq Hc Hk t x. rewrite Hq. intros [[<- <-]|[_ Hx]]%lookup_insert_Some; [eauto|].
  by apply Hk.
Qed.

Lemma Subscribe_keyed path args c : keyed c -> keyed (fst (Subscribe path args c)).
Proof.
  intros Hk. unfold Subscribe.
  destruct (canonicalQuery path args) as [[[p l] tok]|e] eqn:Hc; [|done].
  destruct (queries c !! tok) as [q|] eqn:Hq; cbn [fst].
  - destruct (Hk _ _ Hq) as (path' & args' & Hc').
    apply (keyed_insert c _ tok (mkQuery (q_id q) (q_canonicalPath q) (q_args q)
      (q_numSubscribers q + 1) (u64 (q_nextSubscriberIdx q + 1))) path' args'); done.
  - by apply (keyed_insert c _ tok (mkQuery (nextQueryID c) p l 1 1) path args).
Qed.

Lemma Unsubscribe_keyed id c : keyed c -> keyed (fst (Unsubscribe id c)).
Proof.
  intros Hk. unfold Unsubscribe. destruct (decide (id ∈ subscribers c)); [|done].
  destruct (queryIDToToken _ !! fst id) as [tok|]; [|done].
  destruct (queries _ !! tok) as [q|] eqn:Hq; [|done]. cbn [queries set_subscribers] in Hq.
  destruct (1 <? q_numSubscribers q); cbn [fst].
  - destruct (Hk _ _ Hq) as (path & args & Hc).
    by apply (keyed_insert c _ tok (mkQuery (q_id q) (q_canonicalPath q) (q_args q)
      (q_numSubscribers q - 1) (q_nextSubscriberIdx q)) path args).
  - intros t x Hx. change (delete tok (queries c) !! t = Some x) in Hx.
    apply lookup_delete_Some in Hx as [_ Hx]. by apply Hk.
Qed.

Lemma Restart_keyed env c : keyed c -> keyed (fst (RestartForReconnect env c)).
Proof.
  intros Hk. unfold RestartForReconnect. set (c0 := set_remoteVersion _ _).
  set (c1 := cancelPendingActionsForReconnect c0).
  destruct (cancel_quiet c0) as [Hsend _]. fold c1 in Hsend.
  injection Hsend as _ _ _ Hq _. assert (Hk1 : keyed c1) by (by apply (keyed_frame c)).
  clearbody c1.
  destruct (match authFetcher c1 with Some _ => _ | None => _ end) as [c2 u] eqn:He.
  assert (H2 : queries c2 = queries c1).
  { destruct (authFetcher c1) as [f|]; [|by injection He as <- _].
    destruct (refresh_frame env c1) as [[= _ Hr _ _] _]. by rewrite He in Hr. }
  destruct u; cbn [fst]; [|by apply (keyed_frame c1)].
  apply (keyed_frame c1); [|done]. by destruct (0 <? length (replayQueryAdds c2))%nat.
Qed.

Lemma perform_keyed op c : keyed c -> keyed (perform op c).
Proof.
  intros Hk. destruct op as [p a|id| |t|t i| |env f|env|p a o|p a|env|msg]; cbn [perform];
    try by apply (keyed_frame c).
  - by apply Subscribe_keyed.
  - by apply Unsubscribe_keyed.
  - unfold PopNextMessage. destruct (outgoing c); by apply (keyed_frame c).
  - unfold SetAuthCallback. destruct f as [f|]; [|by apply (keyed_frame c)].
    destruct (call_fetcher env f false); by apply (keyed_frame c).
  - apply (keyed_frame c); [|done]. by destruct (refresh_frame env c) as [[= _ Hq _ _] _].
  - unfold Mutation, mutation. destruct (canonicalRequest p a) as [[p' l]|]; [|done].
    destruct (syncMutationOptionsFrom o); [|by apply (keyed_frame c)].
    destruct (optimisticResultsWith c _); by apply (keyed_frame c).
  - unfold Action. destruct (canonicalRequest p a) as [[p' l]|]; by apply (keyed_frame c).
  - by apply Restart_keyed.
  - destruct (receive_quiet msg c) as [[= _ _ _ Hq _] _]. by apply (keyed_frame c).
Qed.

Lemma reachable_keyed n c : reachable n c -> keyed c.
Proof.
  induction 1 as [|n c op H IH]; [|by apply perform_keyed].
  intros tok q Hq. cbn in Hq. by rewrite lookup_empty in Hq.
Qed.

(** C33. Subscriptions share a query exactly when they ask for the same one.  A
    subscription joins an active query if and only if its canonical path and its
    encoded arguments are those of the query; otherwise it gets a query id of
    its own, so no subscriber is ever handed the results of another query, and
    no query is sent to the server twice. *)
Theorem subscriptions_share_exactly n c path args c' id p l tok0 tok q :
  reachable n c -> n + 1 < 2 ^ 32 -> Subscribe path args c = (c', Ok id) ->
  canonicalQuery path args = Ok (p, l, tok0) -> queries c !! tok = Some q ->
  fst id = q_id q <-> p = q_canonicalPath q /\ l = q_args q.
Proof.
  intros Hreach Hn Hs Hc Hq.
  pose proof (ci_queries _ _ (reachable_inv n c Hreach ltac:(lia))) as Hi.
  destruct (reachable_keyed n c Hreach _ _ Hq) as (path' & args' & Hc').
  rewrite <- (canonicalQuery_token _ _ _ _ _ _ _ _ _ _ Hc Hc').
  unfold Subscribe in Hs. rewrite Hc in Hs.
  destruct (queries c !! tok0) as [q0|] eqn:Hq0; injection Hs as <- <-; cbn [fst].
  - split; [|congruence]. intros He. by destruct (query_id_inj n c _ _ _ _ Hi Hq0 Hq He).
  - split; [|congruence]. intros He. exfalso.
    pose proof (qi_range _ _ Hi _ _ Hq). lia.
Qed.

Definition count_token : string :=
  match canonicalQuery "messages:count" GNil with Ok (_, _, tok) => tok | Err _ => "" end.

Lemma subscriptions_share_exactly_witness :
  fst (1, 2) = 1 <-> "messages:count" = "messages:count" /\ [VObject ∅] = [VObject ∅].
Proof.
  apply (subscriptions_share_exactly _ sample_client "messages.js:count" GNil
    (fst (Subscribe "messages.js:count" GNil sample_client)) (1, 2) "messages:count" [VObject ∅]
    count_token count_token (mkQuery 1 "messages:count" [VObject ∅] 1 1) sample_reachable);
    [lia|vm_compute; reflexivity..].
Defined.
