(* ===== verification/ClientAnswers.v ===== *)
(** * Errors, timestamps and snapshots of the base client

    What an operation that fails leaves behind, the responses the client
    refuses or ignores, the observed timestamp and the iteration over a
    snapshot of the results. *)
From S2P Require Import Prelude GoStrings GoJson Values Results GoEncode Paths Protocol ClientMessages ServerMessages Canonical ClientState BaseClient ClientQueries ClientRequests ClientInvariant ClientSession ClientTheorems.
Local Open Scope Z_scope.

(** ** Failures *)

(** C39. A subscription, a mutation or an action that is refused, for its path,
    its arguments or its optimistic update, leaves the client as it was: no
    identifier is used up, no message queued, no result changed. *)
Theorem refused_changes_nothing c path args opts e :
  (snd (Subscribe path args c) = Err e -> fst (Subscribe path args c) = c) /\
  (snd (Mutation path args opts c) = Err e -> fst (Mutation path args opts c) = c) /\
  (snd (Action path args c) = Err e -> fst (Action path args c) = c).
Proof.
  split; [|split].
  - unfold Subscribe. destruct (canonicalQuery path args) as [[[p l] tok]|]; [|done].
    by destruct (queries c !! tok).
  - unfold Mutation, mutation. destruct (canonicalRequest path args) as [[p l]|]; [|done].
    destruct (syncMutationOptionsFrom opts); [|done].
    by destruct (optimisticResultsWith c _).
  - unfold Action. by destruct (canonicalRequest path args) as [[p l]|].
Qed.

Definition failing_update : OptimisticUpdate :=
  USetQuery "messages:list" GNil (GInt 1) (fun _ => UReturn (Some "no")).

Lemma refused_changes_nothing_witness :
  fst (Mutation "messages:send" GNil [WithOptimisticUpdate (Some failing_update)] sample_client) = sample_client.
Proof.
  refine (proj1 (proj2 (refused_changes_nothing sample_client "messages:send" GNil
    [WithOptimisticUpdate (Some failing_update)] (OptimisticUpdateFailed 1 (CallbackError "no")))) _).
  vm_compute. reflexivity.
Defined.

(** The messages the client answers with an error and ignores. *)
Definition refused_message (msg : ServerMessage) (c : Client) : option client_error :=
  match msg with
  | STransition m =>
      if decide (tr_StartVersion m = remoteVersion c) then None
      else Some (TransitionMismatch (tr_StartVersion m) (remoteVersion c))
  | SMutationResponse m =>
      match requests c !! mr_RequestID m with
      | None => if decide (mr_RequestID m ∈ completedMutations c) then None
                else Some (InvalidMutationRequest (mr_RequestID m))
      | Some r => if decide (r_kind r = syncRequestMutation) then None
                  else Some (MismatchedMutationResponse (mr_RequestID m))
      end
  | SActionResponse m =>
      match requests c !! ar_RequestID m with
      | None => Some (InvalidActionRequest (ar_RequestID m))
      | Some r => if decide (r_kind r = syncRequestAction) then None
                  else Some (MismatchedActionResponse (ar_RequestID m))
      end
  | SAuthError m => Some (SyncAuthError (ae_Error m) (ae_BaseVersion m) (ae_AuthUpdateAttempted m))
  | SFatalError e => Some (FatalError e)
  | STransitionChunk _ => Some UnexpectedChunk
  | SPing => None
  end.

(** The messages of the server that do not fit the client's state, a
    transition from another version, an answer to a request that was never made
    or of the other kind, and the error messages, are answered with the error
    that says so and change nothing. *)
Theorem misfit_messages_rejected msg c e :
  refused_message msg c = Some e -> ReceiveMessage (Some msg) c = (c, Err e).
Proof.
  destruct msg as [m|m|m|m|m|x|]; cbn; try by intros [= <-].
  - unfold receiveTransition. case_decide; [done|]. by intros [= <-].
  - unfold receiveMutationResponse, updateRequestFromMutationResponse.
    destruct (requests c !! mr_RequestID m) as [r|]; case_decide; try done; by intros [= <-].
  - unfold updateRequestFromActionResponse.
    destruct (requests c !! ar_RequestID m) as [r|]; [|by intros [= <-]].
    destruct (decide (r_kind r = syncRequestAction)); [done|]. by intros [= <-].
Qed.

Lemma misfit_messages_rejected_witness :
  ReceiveMessage (Some (SActionResponse (mkActionResponse 0 true VNull "" None
    (mkOptionalValue false VNull)))) sample_client = (sample_client, Err (MismatchedActionResponse 0)).
Proof. apply misfit_messages_rejected. vm_compute. reflexivity. Defined.

(** A response that comes again for a mutation that has completed is
    accepted and ignored: it only moves the observed timestamp. *)
Theorem late_response_ignored n c m :
  reachable n c -> n < 2 ^ 32 -> mr_RequestID m ∈ completedMutations c ->
  ReceiveMessage (Some (SMutationResponse m)) c =
    (match mr_TS m with Some ts => observeTimestamp ts c | None => c end, Ok None).
Proof.
  intros Hreach Hn Hc. pose proof (ci_requests _ _ (reachable_inv n c Hreach Hn)) as Hi.
  assert (Hnone : requests c !! mr_RequestID m = None).
  { apply (qr_past _ _ Hi). left. by apply (qr_completed _ _ Hi). }
  cbn. unfold receiveMutationResponse, updateRequestFromMutationResponse. rewrite Hnone.
  rewrite decide_True by done. by rewrite andb_false_r.
Qed.

Definition late_response : MutationResponseMessage :=
  mkMutationResponse 0 true VNull "" (Some 60) None (mkOptionalValue false VNull) true.

Lemma late_response_ignored_witness :
  ReceiveMessage (Some (SMutationResponse late_response)) refused_client =
    (observeTimestamp 60 refused_client, Ok None).
Proof.
  apply (late_response_ignored (0 + 1 + 1 + 1 + 1 + 1)).
  - apply (reach_step _ sample_client), sample_reachable.
  - lia.
  - apply (bool_decide_unpack _). vm_compute. exact I.
Defined.

(** ** The observed timestamp *)

Definition at_least (o : option Z) (c : Client) : Prop :=
  match o with
  | None => True
  | Some t => exists t', maxObservedTimestamp c = Some t' /\ t <= t'
  end.

Lemma at_least_refl c : at_least (maxObservedTimestamp c) c.
Proof. unfold at_least. destruct (maxObservedTimestamp c); [|done]. eexists. split; [done|lia]. Qed.

Lemma at_least_frame o c c' :
  maxObservedTimestamp c' = maxObservedTimestamp c -> at_least o c -> at_least o c'.
Proof. unfold at_least. by intros ->. Qed.

Lemma at_least_observe o ts c : at_least o c -> at_least o (observeTimestamp ts c).
Proof.
  unfold at_least, observeTimestamp. destruct o as [t|]; [|done]. intros (t' & Ht & Hle).
  rewrite Ht. destruct (Z.ltb_spec t' ts); cbn; [|eauto]. eexists. split; [done|lia].
Qed.

Lemma max_remember_action id r c :
  maxObservedTimestamp (rememberActionResult id r c) = maxObservedTimestamp c.
Proof. by destruct (rememberActionResult_eq id r c) as (? & ? & _ & ->). Qed.

Lemma max_complete id c :
  maxObservedTimestamp (fst (completeMutationRequest id c)) = maxObservedTimestamp c.
Proof.
  unfold completeMutationRequest. destruct (requests c !! id) as [r|]; [|done].
  destruct (r_hasResult r); [|done]. cbn [fst].
  by destruct (rememberMutationResult_eq id (r_result r) c) as (? & ? & _ & ->).
Qed.

Lemma max_completeThrough ts c :
  maxObservedTimestamp (completeMutationsThrough ts c) = maxObservedTimestamp c.
Proof.
  unfold completeMutationsThrough. generalize (sorted_ids (completes_through ts) c). intros ids.
  revert c. induction ids as [|id ids IH]; intros c; [done|]. cbn [fold_left].
  by rewrite IH, max_complete.
Qed.

Lemma max_cancel c :
  maxObservedTimestamp (cancelPendingActionsForReconnect c) = maxObservedTimestamp c.
Proof.
  unfold cancelPendingActionsForReconnect. generalize (sorted_ids is_action c). intros ids.
  revert c. induction ids as [|id ids IH]; intros c; [done|]. cbn [fold_left].
  rewrite IH. cbn. apply max_remember_action.
Qed.

Lemma max_modifications ms c :
  maxObservedTimestamp (fold_left (fun c m => applyStateModification m c) ms c)
  = maxObservedTimestamp c.
Proof.
  revert c. induction ms as [|m ms IH]; intros c; [done|]. cbn [fold_left]. rewrite IH.
  destruct m; cbn; unfold set_server_result; try case_match; done.
Qed.

Lemma max_recompute c :
  maxObservedTimestamp (fst (recomputeOptimisticResults c)) = maxObservedTimestamp c.
Proof. unfold recomputeOptimisticResults. by destruct (optimisticResultsWith c None). Qed.

Lemma max_update_mutation m c :
  maxObservedTimestamp (fst (updateRequestFromMutationResponse m c)) = maxObservedTimestamp c.
Proof.
  unfold updateRequestFromMutationResponse.
  destruct (requests c !! mr_RequestID m) as [r|]; [|by case_decide].
  destruct (decide (r_kind r = syncRequestMutation)); [|done].
  destruct (negb (mr_Success m)); [|by destruct (mr_TS m)].
  set (c1 := set_requests _ c). pose proof (max_complete (mr_RequestID m) c1) as H2.
  destruct (completeMutationRequest (mr_RequestID m) c1) as [c2 []]; cbn [fst] in *; [|done].
  by rewrite max_recompute.
Qed.

Lemma receive_at_least msg c :
  at_least (maxObservedTimestamp c) (fst (ReceiveMessage msg c)).
Proof.
  pose proof (at_least_refl c) as H0.
  destruct msg as [[m|m|m|m|m|e|]|]; cbn [ReceiveMessage]; try done.
  - unfold receiveTransition. destruct (decide (tr_StartVersion m = remoteVersion c)); [|done].
    set (c1 := fold_left _ _ c). set (c2 := observeTimestamp _ _).
    set (c3 := completeMutationsThrough _ c2).
    assert (H3 : at_least (maxObservedTimestamp c) c3).
    { apply (at_least_frame _ c2); [apply max_completeThrough|]. apply at_least_observe.
      apply (at_least_frame _ c); [|done]. apply max_modifications. }
    apply (at_least_frame _ _ _ (max_recompute c3)) in H3.
    by destruct (recomputeOptimisticResults c3) as [c4 [|]].
  - unfold receiveMutationResponse. pose proof (max_update_mutation m c) as Hm.
    destruct (updateRequestFromMutationResponse m c) as [c' [u|e]]; cbn [fst] in *;
      apply (at_least_frame _ _ c') in H0; try done.
    destruct (mr_TS m); [by apply at_least_observe|done].
  - unfold updateRequestFromActionResponse.
    destruct (requests c !! ar_RequestID m) as [r|]; [|done].
    destruct (decide (r_kind r = syncRequestAction)); [|done]. cbn [fst].
    apply (at_least_frame _ c); [apply max_remember_action|done].
Qed.

(** The observed timestamp never goes back, through every operation and
    every restart. *)
Theorem observed_timestamp_monotone c op t :
  maxObservedTimestamp c = Some t ->
  exists t', maxObservedTimestamp (perform op c) = Some t' /\ t <= t'.
Proof.
  intros Ht. pose proof (at_least_refl c) as H0. rewrite Ht in H0. change (at_least (Some t) (perform op c)).
  assert (Hkeep : forall c', maxObservedTimestamp c' = maxObservedTimestamp c -> at_least (Some t) c').
  { intros c' Hc'. by apply (at_least_frame _ c). }
  destruct op as [p a|id| |tk|tk i| |env f|env|p a o|p a|env|msg]; cbn [perform];
    try by apply Hkeep.
  - unfold Subscribe. destruct (canonicalQuery p a) as [[[p' l] tok]|]; [|done].
    destruct (queries c !! tok); by apply Hkeep.
  - unfold Unsubscribe. destruct (decide (id ∈ subscribers c)); [|done].
    destruct (queryIDToToken _ !! _) as [tok|]; [|by apply Hkeep].
    destruct (queries _ !! tok) as [q|]; [|by apply Hkeep].
    destruct (1 <? q_numSubscribers q); by apply Hkeep.
  - unfold PopNextMessage. destruct (outgoing c); by apply Hkeep.
  - unfold SetAuthCallback. destruct f as [f|]; [|by apply Hkeep].
    destruct (call_fetcher env f false); by apply Hkeep.
  - unfold RefreshAuthForReconnect. destruct (authFetcher c); [|done].
    destruct (call_fetcher env a true); by apply Hkeep.
  - unfold Mutation, mutation. destruct (canonicalRequest p a) as [[p' l]|]; [|done].
    destruct (syncMutationOptionsFrom o); [|by apply Hkeep].
    destruct (optimisticResultsWith c _); by apply Hkeep.
  - unfold Action. destruct (canonicalRequest p a) as [[p' l]|]; [|done]. by apply Hkeep.
  - unfold RestartForReconnect. set (c0 := set_remoteVersion _ _).
    pose proof (max_cancel c0) as H1. set (c1 := cancelPendingActionsForReconnect c0) in *.
    destruct (match authFetcher c1 with Some _ => _ | None => _ end) as [c2 u] eqn:He.
    assert (H2 : maxObservedTimestamp c2 = maxObservedTimestamp c1).
    { destruct (authFetcher c1); [|by injection He as <- _].
      unfold RefreshAuthForReconnect in He. destruct (authFetcher c1); [|by injection He as <- _].
      by destruct (call_fetcher env _ true); injection He as <- _. }
    apply Hkeep. destruct u; cbn [fst]; [|by rewrite H2].
    by destruct (0 <? length (replayQueryAdds c2))%nat; cbn; rewrite H2.
  - pose proof (receive_at_least msg c) as H. by rewrite Ht in H.
Qed.

Lemma observed_timestamp_monotone_witness :
  exists t', maxObservedTimestamp (perform (ORestart no_callback) answered_client) = Some t' /\ 40 <= t'.
Proof. apply (observed_timestamp_monotone answered_client). vm_compute. reflexivity. Defined.

(** ** Snapshots *)

#[export] Instance subscriber_order_total : Total subscriber_order.
Proof. intros [a i] [b j]. unfold subscriber_order. cbn. lia. Qed.
#[export] Instance subscriber_order_trans : Transitive subscriber_order.
Proof. intros [a i] [b j] [d k]. unfold subscriber_order. cbn. lia. Qed.

(** Iterating over a snapshot visits every subscriber exactly once, by query
    and then by index, with the result that asking for it gives. *)
Theorem iteration_complete (r : QueryResults) :
  map en_SubscriberID (QueryResults_Iter r) ≡ₚ elements (qr_subscribers r) /\
  StronglySorted subscriber_order (map en_SubscriberID (QueryResults_Iter r)) /\
  length (QueryResults_Iter r) = QueryResults_Len r /\
  Forall (fun e => QueryResults_Get r (en_SubscriberID e) = (en_Result e, en_HasResult e))
    (QueryResults_Iter r).
Proof.
  set (ids := merge_sort subscriber_order (elements (qr_subscribers r))).
  assert (Hp : ids ≡ₚ elements (qr_subscribers r)) by apply merge_sort_Permutation.
  assert (Hids : map en_SubscriberID (QueryResults_Iter r) = ids).
  { unfold QueryResults_Iter. fold ids. rewrite map_map. rewrite <- (map_id ids) at 2.
    apply map_ext. intros id. by destruct (lookup_result _ _). }
  split; [by rewrite Hids|]. split; [rewrite Hids; apply (StronglySorted_merge_sort subscriber_order)|].
  split.
  - rewrite <- (length_map en_SubscriberID), Hids, Hp. done.
  - unfold QueryResults_Iter. fold ids. apply Forall_forall. intros e (id & -> & Hin)%list_elem_of_fmap.
    unfold QueryResults_Get. rewrite Hp, elem_of_elements in Hin.
    destruct (lookup_result (qr_results r) (fst id)) as [x ok] eqn:Hl. cbn.
    by rewrite decide_True, Hl.
Qed.
