(* ===== verification/ClientQueue.v ===== *)
(** * What the base client queues

    Every message of the queue is one the encoder accepts and the server reads
    back as it was, apart from what the user chose to impersonate: the ids and
    versions fit 32 bits, the paths are valid UTF-8 and the arguments are
    well-formed values, for messages that are sent and for those sent again. *)
From S2P Require Import Prelude GoStrings GoJson Values Results GoEncode Paths Protocol ClientMessages ServerMessages ProtocolFacts MessageCodec Canonical CanonicalFacts ClientState BaseClient ClientQueries ClientRequests ClientInvariant ClientSession ClientTheorems.
Local Open Scope Z_scope.

(** A token is the user's: only its version is the client's. *)
Definition queued_ok (m : ClientMessage) : Prop :=
  match m with
  | CAuthenticate a => in_u32 (au_BaseVersion a) = true
  | CConnect _ | CEvent _ => False
  | m => client_message_ok m
  end.
Definition queue_ok (c : Client) : Prop := Forall queued_ok (outgoing c).

Lemma in_u32_u32 z : in_u32 (u32 z) = true.
Proof. unfold in_u32, u32, wrap. apply andb_true_iff. pose proof (Z.mod_pos_bound z (2 ^ 32) ltac:(done)). lia. Qed.

Lemma in_u32_small z n : 0 <= z <= n -> n < 2 ^ 32 -> in_u32 z = true.
Proof. intros. unfold in_u32. apply andb_true_iff. lia. Qed.

Lemma queue_snoc c m : queue_ok c -> queued_ok m -> Forall queued_ok (outgoing c ++ [m]).
Proof. intros Hc Hm. apply Forall_app. split; [done|]. by constructor. Qed.

Lemma queue_auth_ok n t c :
  versions_ok n c -> n < 2 ^ 32 -> queue_ok c -> queue_ok (fst (queueAuth t c)).
Proof.
  intros [_ Hi] Hn Hc. apply queue_snoc; [done|]. cbn. by eapply in_u32_small.
Qed.

Lemma queue_modify_ok n ms c :
  versions_ok n c -> n < 2 ^ 32 -> forallb modification_ok ms = true -> queue_ok c ->
  queue_ok (queue_modifications ms c).
Proof.
  intros [Hv _] Hn Hms Hc. apply queue_snoc; [done|]. cbn. unfold modify_ok. cbn.
  rewrite in_u32_u32, Hms, (in_u32_small _ n) by done. done.
Qed.

Lemma add_query_ok id path args arg :
  in_u32 id = true -> utf8_ok path = true -> args = [arg] -> value_ok arg = true ->
  modification_ok (ModAdd (mkAdd id path (Some args) (mkOptionalString false None) "")) = true.
Proof.
  intros Hid Hp -> Ha. cbn. unfold add_ok. cbn. by rewrite Hid, Hp, Ha.
Qed.

Lemma request_message_queued id p l m :
  in_u32 id = true -> utf8_ok p = true -> values_ok (Some l) = true ->
  m = CMutation (mkRequest id p (Some l) "") \/ m = CAction (mkRequest id p (Some l) "") ->
  queued_ok m.
Proof.
  intros Hid Hp Hl Hm.
  assert (Hok : request_ok (mkRequest id p (Some l) "") = true).
  { unfold request_ok. cbn [rq_RequestID rq_UDFPath rq_Args rq_ComponentPath]. by rewrite Hid, Hp, Hl. }
  by destruct Hm as [->| ->].
Qed.

Lemma tracked_queued n id r c :
  requests_inv n c -> n < 2 ^ 32 -> requests c !! id = Some r -> queued_ok (r_message r).
Proof.
  intros Hi Hn Hr. destruct (qr_message _ _ Hi _ _ Hr) as (p & l & Hp & Hl & ->).
  destruct (qr_id _ _ Hi _ _ Hr) as [<- Hid]. pose proof (qr_next _ _ Hi).
  eapply (request_message_queued (r_id r) p l); [apply (in_u32_small _ n); lia|done|done|].
  destruct (r_kind r); auto.
Qed.

Lemma canonical_request_queued n c path args p l m :
  requests_inv n c -> n < 2 ^ 32 -> canonicalRequest path args = Ok (p, l) ->
  m = CMutation (mkRequest (nextRequestID c) p (Some l) "") \/
  m = CAction (mkRequest (nextRequestID c) p (Some l) "") -> queued_ok m.
Proof.
  intros Hi Hn (Hp & v & -> & Hw & Hu)%canonicalRequest_parts Hm.
  pose proof (qr_next _ _ Hi).
  eapply request_message_queued; [by eapply in_u32_small|exact Hp| |exact Hm].
  unfold values_ok, value_ok. cbn. by rewrite Hw, Hu.
Qed.

Lemma Subscribe_queue n c path args :
  queries_inv n c -> versions_ok n c -> n < 2 ^ 32 -> queue_ok c ->
  queue_ok (fst (Subscribe path args c)).
Proof.
  intros Hi Hv Hn Hc. unfold Subscribe.
  destruct (canonicalQuery path args) as [[[p l] tok]|e] eqn:Hq; [|done].
  apply canonicalQuery_Ok in Hq as (Hp & arg & Hl & _ & Ha).
  destruct (queries c !! tok); [done|]. cbn [fst]. apply (queue_modify_ok n); [done|done| |done].
  cbn [forallb]. rewrite (add_query_ok _ p l arg); [done| |done|done|done].
  apply (in_u32_small _ n); [apply Hi|done].
Qed.

Lemma Unsubscribe_queue n c id :
  queries_inv n c -> versions_ok n c -> n < 2 ^ 32 -> queue_ok c ->
  queue_ok (fst (Unsubscribe id c)).
Proof.
  intros Hi Hv Hn Hc. unfold Unsubscribe. destruct (decide (id ∈ subscribers c)); [|done].
  cbn [queryIDToToken set_subscribers queries].
  destruct (queryIDToToken c !! fst id) as [tok|] eqn:Ht; [|done].
  destruct (qi_id _ _ Hi _ _ Ht) as (q & Hl & He). rewrite Hl.
  destruct (1 <? q_numSubscribers q); [done|]. cbn [fst].
  apply (queue_modify_ok n); [done|done| |done]. cbn [forallb modification_ok].
  pose proof (qi_range _ _ Hi _ _ Hl). pose proof (qi_next _ _ Hi).
  by rewrite <- He, (in_u32_small _ n) by lia.
Qed.

Lemma Mutation_queue n c path args opts :
  requests_inv n c -> n < 2 ^ 32 -> queue_ok c -> queue_ok (fst (Mutation path args opts c)).
Proof.
  intros Hi Hn Hc. unfold Mutation, mutation.
  destruct (canonicalRequest path args) as [[p l]|e] eqn:Hq; [|done].
  pose proof (canonical_request_queued n c path args p l _ Hi Hn Hq (or_introl eq_refl)) as Hm.
  destruct (syncMutationOptionsFrom opts); [destruct (optimisticResultsWith c _); [|done]|];
    by apply queue_snoc.
Qed.

Lemma Action_queue n c path args :
  requests_inv n c -> n < 2 ^ 32 -> queue_ok c -> queue_ok (fst (Action path args c)).
Proof.
  intros Hi Hn Hc. unfold Action.
  destruct (canonicalRequest path args) as [[p l]|e] eqn:Hq; [|done].
  pose proof (canonical_request_queued n c path args p l _ Hi Hn Hq (or_intror eq_refl)) as Hm.
  by apply queue_snoc.
Qed.

(** ** Restarting *)

Lemma replay_adds_ok n c :
  queries_inv n c -> n < 2 ^ 32 -> forallb modification_ok (replayQueryAdds c) = true.
Proof.
  intros Hi Hn. apply forallb_forall. intros x Hx. apply list_elem_of_In in Hx.
  apply list_elem_of_fmap in Hx as (q & -> & [tok Hq]%sorted_queries_elem).
  destruct (qi_args _ _ Hi _ _ Hq) as (Hp & arg & Ha & _ & Hok).
  pose proof (qi_range _ _ Hi _ _ Hq). pose proof (qi_next _ _ Hi).
  unfold replay_add. rewrite Ha.
  apply (add_query_ok _ _ _ arg); [by apply (in_u32_small _ n); lia|done|done|done].
Qed.

Lemma replay_requests_ok n c :
  requests_inv n c -> n < 2 ^ 32 -> Forall queued_ok (ReplayOngoingRequests c).
Proof.
  intros Hi Hn. apply Forall_forall. intros m (r & -> & Hr)%list_elem_of_fmap.
  rewrite replayed_perm, list_elem_of_filter, tracked_elem in Hr. destruct Hr as [_ [id Hr]].
  by eapply tracked_queued.
Qed.

Lemma Restart_queue n c env :
  client_inv n c -> n < 2 ^ 32 -> 0 <= n -> queue_ok (fst (RestartForReconnect env c)).
Proof.
  intros [Hq Hr Hm] Hn H0. unfold RestartForReconnect. set (c0 := set_remoteVersion _ _).
  set (c1 := cancelPendingActionsForReconnect c0).
  destruct (cancel_quiet c0) as [Hsend _]. fold c1 in Hsend. injection Hsend as Ho Hv Hid _ _.
  destruct (cancel_frame c0) as [Hqp _]. fold c1 in Hqp.
  assert (Hq1 : queries_inv n c1) by (by apply (queries_inv_frame n _ c)).
  assert (Hm1 : requests_inv n c1).
  { apply cancelPendingActions_inv. by apply (requests_inv_frame n _ c). }
  assert (Hc1 : queue_ok c1) by (unfold queue_ok; by rewrite Ho).
  assert (Hv1 : versions_ok n c1) by (unfold versions_ok; rewrite Hv, Hid; cbn; lia).
  clearbody c1.
  assert (Hgo : forall c2, queries_inv n c2 -> requests_inv n c2 -> querySetVersion c2 = 0 -> queue_ok c2 ->
    let c3 := if (0 <? length (replayQueryAdds c2))%nat then queue_modifications (replayQueryAdds c2) c2
              else c2 in
    queue_ok (set_outgoing (outgoing c3 ++ ReplayOngoingRequests c3) c3)).
  { intros c2 Hq2 Hm2 Hv2 Hc2 c3. apply Forall_app. split.
    - unfold c3. destruct (0 <? _)%nat; [|done]. apply queue_snoc; [done|]. cbn. unfold modify_ok. cbn.
      rewrite Hv2, in_u32_u32, (replay_adds_ok n c2) by done. done.
    - apply (replay_requests_ok n); [|done]. unfold c3. destruct (0 <? _)%nat; [|done].
      by apply (requests_inv_frame n _ c2). }
  destruct (authFetcher c1) as [f|] eqn:Hf.
  - unfold RefreshAuthForReconnect. rewrite Hf.
    destruct (call_fetcher env f true) as [t|e]; [|done]. cbn [fst].
    apply (Hgo (fst (queueAuth t c1))).
    + by apply (queries_inv_frame n _ c1).
    + by apply (requests_inv_frame n _ c1).
    + exact Hv.
    + by apply (queue_auth_ok n).
  - by apply Hgo.
Qed.

(** ** Every operation *)

Lemma perform_queue n c op :
  0 <= n -> client_inv n c -> versions_ok n c -> n < 2 ^ 32 -> queue_ok c -> queue_ok (perform op c).
Proof.
  intros H0 Hi Hv Hn Hc. pose proof Hi as [Hq Hr Hm].
  destruct op as [p a|id| |t|t i| |env f|env|p a o|p a|env|msg]; cbn [perform].
  - by apply (Subscribe_queue n).
  - by apply (Unsubscribe_queue n).
  - unfold PopNextMessage, queue_ok in *. destruct (outgoing c) as [|m l] eqn:Ho; [cbn; by rewrite Ho|].
    by apply Forall_cons in Hc as [_ ?].
  - by apply (queue_auth_ok n).
  - by apply (queue_auth_ok n).
  - by apply (queue_auth_ok n).
  - unfold SetAuthCallback. destruct f as [f|]; [|by apply (queue_auth_ok n)].
    destruct (call_fetcher env f false); [|done]. by apply (queue_auth_ok n).
  - unfold RefreshAuthForReconnect. destruct (authFetcher c) as [f|]; [|done].
    destruct (call_fetcher env f true); [|done]. by apply (queue_auth_ok n).
  - by apply (Mutation_queue n).
  - by apply (Action_queue n).
  - by apply (Restart_queue n).
  - destruct (receive_quiet msg c) as [[= Ho _ _ _ _] _]. unfold queue_ok. by rewrite Ho.
Qed.

Lemma reachable_queue n c : reachable n c -> n < 2 ^ 32 -> queue_ok c.
Proof.
  induction 1 as [|n c op H IH]; intros Hn; [by constructor|].
  destruct (reachable_versions n c H) as [H0 Hv]; [lia|].
  apply (perform_queue n); [done|apply reachable_inv; [done|lia]|done|lia|apply IH; lia].
Qed.

(** C32. Every message a reachable client has queued can be sent: the encoder
    accepts it and the server reads back the message itself.  Ids and versions
    fit 32 bits, paths are valid UTF-8 and arguments well-formed values, also in
    what a restart queues again.  Only a token stands apart, since its text and
    the identity to act as are the user's. *)
Theorem queued_messages_sent n c m :
  reachable n c -> n < 2 ^ 32 -> m ∈ outgoing c ->
  match m with CAuthenticate _ => False | _ => True end ->
  exists j, EncodeClientMessage (Some m) = Ok j /\ DecodeClientMessage j = Ok m.
Proof.
  intros Hr Hn Hm Ha. pose proof (reachable_queue n c Hr Hn) as Hq.
  unfold queue_ok in Hq. rewrite Forall_forall in Hq. apply Hq in Hm.
  destruct (client_message_round m) as (j & Hj & Hd); [by destruct m|].
  exists j. split; [done|]. rewrite Hd. by destruct m.
Qed.

Definition sample_message : ClientMessage :=
  default (CEvent (mkEvent "" None)) (outgoing sample_client !! 2%nat).

Lemma queued_messages_sent_witness :
  exists j, EncodeClientMessage (Some sample_message) = Ok j /\ DecodeClientMessage j = Ok sample_message.
Proof.
  apply (queued_messages_sent _ sample_client sample_message sample_reachable); [lia| |].
  - apply list_elem_of_lookup. exists 2%nat. vm_compute. reflexivity.
  - vm_compute. exact I.
Defined.
