(* ===== verification/QuerySetSteps.v ===== *)
(** * What operations do to the query set

    Step lemmas for ResultsFollow: how an operation of the base client changes its query set, the
    results of the server and the queue, and how the abstract session moves on. *)
From S2P Require Import Prelude GoStrings GoJson Values Results GoEncode Paths Protocol ClientMessages ServerMessages Canonical ClientState BaseClient ClientQueries ClientRequests ClientInvariant ClientSession ClientTheorems.
Local Open Scope Z_scope.

(** ** What an operation does to the query set and to the results of the server *)

(** A query keeps its id, its path and its arguments; ids are given out in order. *)
Record evolves (c c' : Client) : Prop := {
  ev_next : nextQueryID c <= nextQueryID c';
  ev_queries : forall tok q', queries c' !! tok = Some q' ->
    nextQueryID c <= q_id q' \/
    exists q, queries c !! tok = Some q /\ q_id q = q_id q' /\ query_of q = query_of q'
}.

(** The results of the queries that were active and still are did not change. *)
Definition keeps_results (c c' : Client) : Prop :=
  remoteVersion c' = remoteVersion c /\
  forall id, isActiveQuery id c' = true -> id < nextQueryID c ->
    isActiveQuery id c = true /\ serverResults c' !! id = serverResults c !! id.

Lemma evolves_frame c c' : query_part c' = query_part c -> evolves c c'.
Proof.
  intros [= Hn Hq _ _]. split; [by rewrite Hn|]. rewrite Hq. intros tok q' H. right. by exists q'.
Qed.

Lemma keeps_frame c c' :
  query_part c' = query_part c -> serverResults c' = serverResults c ->
  remoteVersion c' = remoteVersion c -> keeps_results c c'.
Proof.
  intros Hq Hs Hv. split; [done|]. intros id. rewrite (isActive_frame id c c' Hq), Hs. done.
Qed.

Lemma Subscribe_evolves n c path args :
  client_inv n c -> n + 1 < 2 ^ 32 ->
  evolves c (fst (Subscribe path args c)) /\ keeps_results c (fst (Subscribe path args c)).
Proof.
  intros [Hq _ _] Hn. unfold Subscribe.
  destruct (canonicalQuery path args) as [[[p l] tok]|e];
    [|split; [by apply evolves_frame|by apply keeps_frame]].
  destruct (queries c !! tok) as [q|] eqn:Hl; cbn [fst].
  - split; [|split; [done|]].
    + split; [done|]. cbn. intros tok' q' [[<- <-]|[_ H]]%lookup_insert_Some; right; eauto.
    + intros id Ha _. split; [exact Ha|done].
  - pose proof (qi_next _ _ Hq) as Hr. split; [|split; [done|]].
    + split; cbn; [rewrite u32_small; lia|].
      intros tok' q' [[<- <-]|[_ H]]%lookup_insert_Some; [left; cbn; lia|right; eauto].
    + intros id. unfold isActiveQuery. rewrite !bool_decide_eq_true. cbn.
      intros Ha Hlt. rewrite lookup_insert_ne in Ha by lia. done.
Qed.

Lemma Unsubscribe_evolves n c id :
  client_inv n c ->
  evolves c (fst (Unsubscribe id c)) /\ keeps_results c (fst (Unsubscribe id c)).
Proof.
  intros [Hq _ _]. unfold Unsubscribe.
  destruct (decide (id ∈ subscribers c)) as [Hin|];
    [|split; [by apply evolves_frame|by apply keeps_frame]].
  cbn [queryIDToToken set_subscribers queries].
  destruct (qi_subs _ _ Hq _ Hin) as (tok & q & Hl & He & _).
  rewrite <- He. rewrite (qi_token _ _ Hq _ _ Hl), Hl.
  destruct (1 <? q_numSubscribers q); cbn [fst].
  - split; [|split; [done|]].
    + split; [done|]. cbn. intros tok' q' [[<- <-]|[_ H]]%lookup_insert_Some; right; eauto.
    + intros id' Ha _. split; [exact Ha|done].
  - split; [|split; [done|]].
    + split; [done|]. cbn. intros tok' q' [_ H]%lookup_delete_Some. right. eauto.
    + intros id'. unfold isActiveQuery. rewrite !bool_decide_eq_true. cbn.
      intros [t [Hne Ht]%lookup_delete_Some] _. split; [eauto|]. by rewrite lookup_delete_ne.
Qed.

(** The operations that are neither about the query set nor about results. *)
Definition aside (c c' : Client) : Prop :=
  query_part c' = query_part c /\ serverResults c' = serverResults c /\
  remoteVersion c' = remoteVersion c.

#[export] Instance aside_preorder : PreOrder aside.
Proof. split; [done|]. unfold aside. intros c1 c2 c3 (? & ? & ?) (? & ? & ?). split_and!; congruence. Qed.

Lemma recompute_aside c : aside c (fst (recomputeOptimisticResults c)).
Proof. unfold recomputeOptimisticResults. by destruct (optimisticResultsWith c None). Qed.

Lemma complete_aside id c : aside c (fst (completeMutationRequest id c)).
Proof.
  unfold completeMutationRequest. destruct (requests c !! id) as [r|]; [|done].
  destruct (r_hasResult r); [|done]. cbn [fst].
  destruct (rememberMutationResult_eq id (r_result r) c) as (? & ? & _ & ->). done.
Qed.

Lemma observe_aside ts c : aside c (observeTimestamp ts c).
Proof. unfold observeTimestamp. destruct (maxObservedTimestamp c); [case_match|]; done. Qed.

Lemma completeThrough_aside ts c : aside c (completeMutationsThrough ts c).
Proof.
  unfold completeMutationsThrough. generalize (sorted_ids (completes_through ts) c). intros ids.
  revert c. induction ids as [|id ids IH]; intros c; [done|]. cbn [fold_left].
  trans (fst (completeMutationRequest id c)); [apply complete_aside|apply IH].
Qed.

Lemma update_mutation_aside m c : aside c (fst (updateRequestFromMutationResponse m c)).
Proof.
  unfold updateRequestFromMutationResponse. destruct (requests c !! mr_RequestID m) as [r|]; [|by case_decide].
  destruct (decide (r_kind r = syncRequestMutation)); [|done].
  set (c1 := set_requests _ c). assert (H1 : aside c c1) by done.
  destruct (negb (mr_Success m)); [|by destruct (mr_TS m)].
  pose proof (complete_aside (mr_RequestID m) c1) as H2.
  destruct (completeMutationRequest (mr_RequestID m) c1) as [c2 []]; cbn [fst] in *; [|by trans c1].
  trans c2; [by trans c1|apply recompute_aside].
Qed.

Definition is_transition (msg : option ServerMessage) : Prop :=
  match msg with Some (STransition _) => True | _ => False end.

Lemma receive_aside msg c : ~ is_transition msg -> aside c (fst (ReceiveMessage msg c)).
Proof.
  destruct msg as [[m|m|m|m|m|e|]|]; intros Hno; cbn [ReceiveMessage]; try done.
  - unfold receiveMutationResponse. pose proof (update_mutation_aside m c) as H.
    destruct (updateRequestFromMutationResponse m c) as [c' [u|e]]; cbn [fst] in *; [|done].
    destruct (mr_TS m); [|done]. trans c'; [done|apply observe_aside].
  - unfold updateRequestFromActionResponse. destruct (requests c !! ar_RequestID m) as [r|]; [|done].
    destruct (decide (r_kind r = syncRequestAction)); [|done]. cbn [fst].
    edestruct (rememberActionResult_eq (ar_RequestID m)) as (? & ? & _ & ->). done.
Qed.

(** A transition sets the version and applies its modifications. *)
Lemma transition_effect m c :
  tr_StartVersion m = remoteVersion c ->
  query_part (fst (receiveTransition m c)) = query_part c /\
  remoteVersion (fst (receiveTransition m c)) = tr_EndVersion m /\
  serverResults (fst (receiveTransition m c)) =
    serverResults (fold_left (fun c m => applyStateModification m c) (default [] (tr_Modifications m)) c).
Proof.
  intros Hs. unfold receiveTransition. rewrite decide_True by done.
  set (c1 := fold_left _ _ c). set (c2 := set_remoteVersion (tr_EndVersion m) c1).
  set (c3 := completeMutationsThrough _ _).
  replace (fst _) with (fst (recomputeOptimisticResults c3)); [|
    by destruct (recomputeOptimisticResults c3) as [? [|]]].
  assert (aside c2 (fst (recomputeOptimisticResults c3))) as (Hq & Hr & Hv).
  { trans c3; [|apply recompute_aside].
    trans (observeTimestamp (sv_TS (tr_EndVersion m)) c2); [apply observe_aside|apply completeThrough_aside]. }
  rewrite Hq, Hr, Hv. split; [|done]. apply modifications_frame.
Qed.

Lemma transition_query_part m c : query_part (fst (receiveTransition m c)) = query_part c.
Proof.
  destruct (decide (tr_StartVersion m = remoteVersion c)) as [He|Hne]; [by apply transition_effect|].
  unfold receiveTransition. by rewrite decide_False.
Qed.

(** Everything a user can call, and every message but a transition. *)
Definition local (op : operation) : Prop :=
  match op with
  | OPopNextMessage | ORestart _ => False
  | OReceive msg => ~ is_transition msg
  | _ => True
  end.

Lemma local_aside op c : local op ->
  match op with OSubscribe _ _ | OUnsubscribe _ => True | _ => aside c (perform op c) end.
Proof.
  intros Hop. destruct op as [p a|id| |t|t i| |env f|env|p a o|p a|env|msg]; cbn [perform]; try done.
  - unfold SetAuthCallback. destruct f as [f|]; [|done]. by destruct (call_fetcher env f false).
  - unfold RefreshAuthForReconnect. destruct (authFetcher c) as [f|]; [|done].
    by destruct (call_fetcher env f true).
  - unfold Mutation, mutation. destruct (canonicalRequest p a) as [[p' l]|]; [|done].
    destruct (syncMutationOptionsFrom o); [|done]. by destruct (optimisticResultsWith c _).
  - unfold Action. by destruct (canonicalRequest p a) as [[p' l]|].
  - by apply receive_aside.
Qed.

Lemma local_evolves n c op :
  client_inv n c -> n + 1 < 2 ^ 32 -> local op ->
  evolves c (perform op c) /\ keeps_results c (perform op c).
Proof.
  intros Hc Hn Hop. pose proof (local_aside op c Hop) as H.
  destruct op; cbn [perform] in *; try done;
    try (destruct H as (Hq & Hs & Hv); split; [by apply evolves_frame|by apply keeps_frame]).
  - by apply (Subscribe_evolves n).
  - by apply (Unsubscribe_evolves n).
Qed.

Lemma Restart_aside env c :
  query_part (fst (RestartForReconnect env c)) = query_part c /\
  (forall u, snd (RestartForReconnect env c) = Ok u ->
     remoteVersion (fst (RestartForReconnect env c)) = zero_version).
Proof.
  unfold RestartForReconnect. set (c0 := set_remoteVersion _ _).
  set (c1 := cancelPendingActionsForReconnect c0).
  assert (H1 : query_part c1 = query_part c /\ remoteVersion c1 = zero_version).
  { destruct (cancel_frame c0) as [Hq _]. fold c1 in Hq. split; [by rewrite Hq|].
    unfold c1, cancelPendingActionsForReconnect. generalize (sorted_ids is_action c0). intros ids.
    assert (remoteVersion c0 = zero_version) as H0 by done. revert H0. generalize c0. clear.
    induction ids as [|id ids IH]; intros c0 H0; [done|]. cbn [fold_left]. apply IH.
    edestruct (rememberActionResult_eq id) as (? & ? & _ & ->). done. }
  clearbody c1. destruct H1 as [Hq Hv].
  destruct (match authFetcher c1 with Some _ => _ | None => _ end) as [c2 u] eqn:He.
  assert (H2 : query_part c2 = query_part c1 /\ remoteVersion c2 = remoteVersion c1).
  { destruct (authFetcher c1) as [f|] eqn:Hf; [|by injection He as <-].
    unfold RefreshAuthForReconnect in He. rewrite Hf in He.
    destruct (call_fetcher env f true); injection He as <- _; done. }
  destruct H2 as [Hq2 Hv2]. destruct u; cbn [fst snd].
  - split; [|intros _ _].
    + rewrite <- Hq, <- Hq2. by destruct (0 <? length (replayQueryAdds c2))%nat.
    + rewrite <- Hv, <- Hv2. by destruct (0 <? length (replayQueryAdds c2))%nat.
  - split; [congruence|done].
Qed.

(** ** Sessions over time *)

Definition onward (s s' : session) : Prop := exists ms, accept_all ms s = Some s'.

#[export] Instance onward_preorder : PreOrder onward.
Proof.
  split; [by intros s; exists []|]. intros s1 s2 s3 [ms1 H1] [ms2 H2]. exists (ms1 ++ ms2).
  by rewrite accept_all_app, H1.
Qed.

Lemma accept_onward m s s' : accept m s = Some s' -> onward s s'.
Proof. intros H. exists [m]. cbn. by rewrite H. Qed.

(** The version counts the changes of the query set. *)
Lemma accept_version m s s' : accept m s = Some s' ->
  ss_version s' = ss_version s /\ ss_queries s' = ss_queries s \/ ss_version s' = ss_version s + 1.
Proof.
  destruct m; cbn; try case_decide; try done; try (intros [= <-]; by left).
  intros (set & _ & [= <-])%bind_Some. right. cbn. lia.
Qed.

Lemma onward_version s s' : onward s s' ->
  ss_version s <= ss_version s' /\ (ss_version s' = ss_version s -> ss_queries s' = ss_queries s).
Proof.
  intros [ms H]. revert s H. induction ms as [|m ms IH]; intros s H; [by injection H as <-|].
  cbn in H. apply bind_Some in H as (s1 & Hm & [Hle Heq]%IH).
  destruct (accept_version _ _ _ Hm) as [[Hv Hq]|Hv]; [|lia].
  split; [lia|]. intros He. rewrite Heq by lia. done.
Qed.

(** ** Queries the client has asked for *)

(** An id the client has given out; while its query is active it is this one. *)
Definition fits (c : Client) (id : Z) (sq : server_query) : Prop :=
  id < nextQueryID c /\
  forall tok q, queries c !! tok = Some q -> q_id q = id -> query_of q = sq.
Definition set_fits (c : Client) (s : gmap Z server_query) : Prop := map_Forall (fits c) s.
Definition modification_fits (c : Client) (m : QuerySetModification) : Prop :=
  match m with
  | ModAdd a => fits c (qa_QueryID a) (qa_UDFPath a, qa_Args a)
  | ModRemove _ => True
  end.
Definition message_fits (c : Client) (m : ClientMessage) : Prop :=
  match m with
  | CModifyQuerySet m => Forall (modification_fits c) (default [] (mq_Modifications m))
  | _ => True
  end.

Lemma fits_evolves c c' id sq : evolves c c' -> fits c id sq -> fits c' id sq.
Proof.
  intros [Hn Hq] [Hlt Hf]. split; [lia|]. intros tok q' Hq' He.
  destruct (Hq _ _ Hq') as [Hge|(q & Hl & Hid & <-)]; [lia|]. apply (Hf tok); congruence.
Qed.

Lemma set_fits_evolves c c' s : evolves c c' -> set_fits c s -> set_fits c' s.
Proof. intros He Hs id sq Hl. by eapply fits_evolves, Hs. Qed.

Lemma messages_fit_evolves c c' ms :
  evolves c c' -> Forall (message_fits c) ms -> Forall (message_fits c') ms.
Proof.
  intros He Hms. eapply Forall_impl; [exact Hms|]. intros [] ; try done. cbn. intros Hm.
  eapply Forall_impl; [exact Hm|]. intros [a|]; [|done]. by apply fits_evolves.
Qed.

Lemma active_fits n c tok q :
  queries_inv n c -> queries c !! tok = Some q -> fits c (q_id q) (query_of q).
Proof.
  intros Hi Hq. split; [by apply (qi_range _ _ Hi _ _ Hq)|]. intros tok' q' Hq' He.
  by destruct (query_id_inj _ _ _ _ _ _ Hi Hq' Hq He) as [_ ->].
Qed.

Lemma accept_modification_fits c m s s' :
  set_fits c s -> modification_fits c m -> accept_modification m s = Some s' -> set_fits c s'.
Proof.
  intros Hs Hm. destruct m as [a|id]; cbn in *; case_match; try done; intros [= <-].
  - by apply map_Forall_insert_2.
  - by apply map_Forall_delete.
Qed.

Lemma accept_modifications_fit c ms : forall s s',
  set_fits c s -> Forall (modification_fits c) ms -> accept_modifications ms s = Some s' -> set_fits c s'.
Proof.
  induction ms as [|m ms IH]; intros s s' Hs Hms; cbn; [by intros [= <-]|].
  inversion_clear Hms. intros (s1 & H1 & H2)%bind_Some. eapply IH; [|done|exact H2].
  by eapply accept_modification_fits.
Qed.

Lemma accept_fits c m s s' :
  set_fits c (ss_queries s) -> message_fits c m -> accept m s = Some s' -> set_fits c (ss_queries s').
Proof.
  intros Hs Hm. destruct m; cbn in *; try case_decide; try done; try (by intros [= <-]).
  intros (set & Hset & [= <-])%bind_Some. cbn. by eapply accept_modifications_fit.
Qed.

(** What is queued fits, after any operation. *)
Definition queue_fits (c : Client) : Prop := Forall (message_fits c) (outgoing c).

Lemma Subscribe_fits n c path args :
  client_inv n c -> n + 1 < 2 ^ 32 -> queue_fits c -> queue_fits (fst (Subscribe path args c)).
Proof.
  intros Hc Hn Hf. pose proof (proj1 (Subscribe_evolves n c path args Hc Hn)) as He.
  pose proof (Subscribe_inv n c path args Hc Hn) as Hc'. pose proof (messages_fit_evolves _ _ _ He Hf) as Hf'.
  revert He Hc' Hf'. unfold Subscribe. destruct (canonicalQuery path args) as [[[p l] tok]|e]; [|done].
  destruct (queries c !! tok) as [q|] eqn:Hl; cbn [fst]; [done|].
  intros _ [Hi _ _] Hf'. apply Forall_app. split; [exact Hf'|]. constructor; [|constructor].
  constructor; [|constructor]. apply (active_fits _ _ tok (mkQuery (nextQueryID c) p l 1 1) Hi).
  cbn. by rewrite lookup_insert_eq.
Qed.

Lemma Unsubscribe_fits n c id :
  client_inv n c -> queue_fits c -> queue_fits (fst (Unsubscribe id c)).
Proof.
  intros Hc Hf. pose proof (proj1 (Unsubscribe_evolves n c id Hc)) as He.
  pose proof (messages_fit_evolves _ _ _ He Hf) as Hf'. revert He Hf'.
  unfold Unsubscribe. destruct (decide (id ∈ subscribers c)) as [Hin|]; [|done].
  destruct (queryIDToToken _ !! fst id) as [tok|]; [|done].
  destruct (queries (set_subscribers _ c) !! tok) as [q|]; [|done].
  destruct (1 <? q_numSubscribers q); cbn [fst]; [done|].
  intros _ Hf'. apply Forall_app. split; [exact Hf'|]. repeat constructor.
Qed.

Lemma fits_query_part c c' m : query_part c' = query_part c -> message_fits c m -> message_fits c' m.
Proof.
  intros Hq Hm. assert (H : Forall (message_fits c') [m]); [|by inversion H].
  apply (messages_fit_evolves c); [by apply evolves_frame|by constructor].
Qed.

(** A step outside the query set that queues messages of other kinds. *)
Lemma queue_fits_aside c c' ms :
  query_part c' = query_part c -> outgoing c' = outgoing c ++ ms -> Forall (message_fits c') ms ->
  queue_fits c -> queue_fits c'.
Proof.
  unfold queue_fits. intros Hq -> Hms Hf. apply Forall_app. split; [|done].
  eapply Forall_impl; [exact Hf|]. intros m. by apply fits_query_part.
Qed.

Lemma queue_fits_send c c' m :
  query_part c' = query_part c -> outgoing c' = outgoing c ++ [m] ->
  (if m is CModifyQuerySet _ then False else True) -> queue_fits c -> queue_fits c'.
Proof.
  intros Hq Ho Hm. apply (queue_fits_aside c _ [m]); [done..|]. constructor; [by destruct m|constructor].
Qed.

Ltac sends := eapply queue_fits_send; [|reflexivity|exact I|eassumption]; reflexivity.

Lemma replay_adds_fit n c c' :
  queries_inv n c -> query_part c' = query_part c ->
  Forall (modification_fits c') (replayQueryAdds c).
Proof.
  intros Hi Hq. unfold replayQueryAdds. apply Forall_map, Forall_forall.
  intros q [tok Hl]%sorted_queries_elem. cbn.
  eapply fits_evolves; [by apply evolves_frame|].
  pose proof (active_fits _ _ _ _ Hi Hl) as H. unfold query_of in H.
  destruct (qi_args _ _ Hi _ _ Hl) as (_ & arg & Ha & _). by rewrite Ha in *.
Qed.

Lemma replayed_requests_fit n c c' : requests_inv n c -> Forall (message_fits c') (ReplayOngoingRequests c).
Proof.
  intros Hi. apply Forall_map, Forall_forall. intros r. rewrite replayed_perm, list_elem_of_filter, tracked_elem.
  intros [_ [id Hr]]. destruct (qr_message _ _ Hi _ _ Hr) as (p & l & _ & _ & Hm). rewrite Hm. by destruct (r_kind r).
Qed.

Lemma Restart_fits n c env :
  client_inv n c -> queue_fits (fst (RestartForReconnect env c)).
Proof.
  intros [Hi _ Hr]. pose proof (proj1 (Restart_aside env c)) as Hq. revert Hq.
  unfold RestartForReconnect. set (c0 := set_remoteVersion _ _).
  set (c1 := cancelPendingActionsForReconnect c0).
  destruct (cancel_quiet c0) as [Hsend _]. fold c1 in Hsend. injection Hsend as Ho _ _ Hq1 _. cbn in Ho.
  assert (Hr1 : requests_inv n c1).
  { apply cancelPendingActions_inv. by apply (requests_inv_frame n _ c). }
  assert (Hi1 : queries_inv n c1).
  { destruct (cancel_frame c0) as [Hqp _]. fold c1 in Hqp. by apply (queries_inv_frame n _ c). }
  clearbody c1.
  destruct (match authFetcher c1 with Some _ => _ | None => _ end) as [c2 u] eqn:He.
  assert (H2 : queue_fits c2 /\ query_part c2 = query_part c1 /\ request_part c2 = request_part c1).
  { unfold queue_fits. destruct (authFetcher c1) as [f|] eqn:Hf; [|injection He as <-; by rewrite Ho].
    unfold RefreshAuthForReconnect in He. rewrite Hf in He.
    destruct (call_fetcher env f true); injection He as <- _; cbn; rewrite Ho; [|done].
    split; [repeat constructor|done]. }
  destruct H2 as (Hf2 & Hq2 & Hr2). destruct u; cbn [fst]; [|done]. intros _.
  assert (Hi2 : queries_inv n c2) by (by apply (queries_inv_frame n _ c1)).
  assert (Hm2 : requests_inv n c2) by (by apply (requests_inv_frame n _ c1)).
  set (c3 := if (0 <? length (replayQueryAdds c2))%nat then _ else c2).
  assert (H3 : queue_fits c3 /\ query_part c3 = query_part c2 /\ requests c3 = requests c2).
  { unfold c3. destruct (0 <? length (replayQueryAdds c2))%nat; [|done]. split; [|done].
    eapply (queue_fits_aside c2); [done|done| |done]. constructor; [|constructor].
    by apply (replay_adds_fit n). }
  destruct H3 as (Hf3 & Hq3 & Hr3). clearbody c3.
  eapply (queue_fits_aside c3); [done|done| |done].
  replace (ReplayOngoingRequests c3) with (ReplayOngoingRequests c2); [by apply (replayed_requests_fit n)|].
  unfold ReplayOngoingRequests, replayed_requests, tracked_requests. by rewrite Hr3.
Qed.

Lemma perform_fits n c op :
  client_inv n c -> n + 1 < 2 ^ 32 -> queue_fits c -> queue_fits (perform op c).
Proof.
  intros Hc Hn Hf. destruct op as [p a|id| |t|t i| |env f|env|p a o|p a|env|msg]; cbn [perform];
    try sends.
  - by apply (Subscribe_fits n).
  - by apply (Unsubscribe_fits n).
  - unfold PopNextMessage, queue_fits in *. destruct (outgoing c) eqn:Ho; cbn [fst]; [by rewrite Ho|]. by apply Forall_cons in Hf as [_ Hf].
  - unfold SetAuthCallback. destruct f as [f|]; [|sends].
    destruct (call_fetcher env f false); [sends|done].
  - unfold RefreshAuthForReconnect. destruct (authFetcher c) as [f|]; [|done].
    destruct (call_fetcher env f true); [sends|done].
  - unfold Mutation, mutation. destruct (canonicalRequest p a) as [[p' l]|]; [|done].
    destruct (syncMutationOptionsFrom o); [|sends].
    destruct (optimisticResultsWith c _); [sends|done].
  - unfold Action. destruct (canonicalRequest p a) as [[p' l]|]; [|done]. sends.
  - by apply (Restart_fits n).
  - destruct (receive_quiet msg c) as [[= Ho _ _ _ _] _].
    eapply (queue_fits_aside c _ []); [|by rewrite app_nil_r|done|done].
    destruct msg as [[m|m|m|m|m|e|]|]; try done; try (apply receive_aside; by intros []).
    cbn. pose proof (transition_query_part m c). by destruct (receiveTransition m c).
Qed.
