(* ===== verification/ResultsFollow.v ===== *)
(** * The results follow the server

    The base client, the abstract server session and the network between them as one
    closed system.  The server evaluates the queries of its query set at some
    moment of its database and publishes the changes as transitions; messages of
    either direction are under way for any time, connections are lost and
    replaced, and the user goes on calling.  What the client holds are the answers
    at one moment, and all of them once its version has caught up. *)
From S2P Require Import Prelude GoStrings GoJson Values Results GoEncode Paths Protocol ClientMessages ServerMessages Canonical ClientState BaseClient ClientQueries ClientRequests ClientInvariant ClientSession ClientTheorems QuerySetSteps.
Local Open Scope Z_scope.

(** ** The closed system *)

Section world.
(** The database: what a query answers at a moment.  A moment is whatever the
    answers depend on, the contents and the caller among it. *)
Context {moment : Type} (db : moment -> server_query -> FunctionResult).

(** What the server told with a version: the session it had then and the moment it
    evaluated the queries at. *)
Record view : Type := mkView { vw_session : session; vw_version : StateVersion; vw_moment : moment }.
Definition answers (v : view) : gmap Z FunctionResult := db (vw_moment v) <$> ss_queries (vw_session v).

(** What a modification does to the results it is about. *)
Definition report (results : gmap Z FunctionResult) (m : StateModification) : gmap Z FunctionResult :=
  match m with
  | SMUpdated u => <[qu_QueryID u := ValueResult (qu_Value u)]> results
  | SMFailed f => <[qf_QueryID f := queryFailedResult f]> results
  | SMRemoved id => delete id results
  end.

(** A transition from one view to the next: the versions, and modifications, in any
    order and as many as the server likes, that take the answers of the one to the
    answers of the other. *)
Record publication (v v' : view) (t : TransitionMessage) : Prop := {
  pb_start : tr_StartVersion t = vw_version v;
  pb_end : tr_EndVersion t = vw_version v';
  pb_version : sv_QuerySet (vw_version v') = ss_version (vw_session v');
  pb_answers : fold_left report (default [] (tr_Modifications t)) (answers v) = answers v'
}.

(** A connection: the messages sent and not yet processed, the server, the
    transitions on their way, each with the view it leads to, and the view the
    client has got. *)
Record link : Type := mkLink {
  lk_up : list ClientMessage;
  lk_server : session;
  lk_down : list (TransitionMessage * view);
  lk_view : view
}.
(** The view the server told last. *)
Fixpoint told (v : view) (down : list (TransitionMessage * view)) : view :=
  match down with [] => v | (_, v') :: down => told v' down end.
Definition new_link (m : moment) : link :=
  mkLink [] new_session [] (mkView new_session zero_version m).

(** What the network and the server do, with the number of operations of the client
    in it. *)
Inductive net_step (c : Client) : link -> Z -> Client -> link -> Prop :=
  (* the next message is written *)
  | net_send up s down v :
      net_step c (mkLink up s down v) 1 (fst (PopNextMessage c))
        (mkLink (up ++ option_list (snd (PopNextMessage c))) s down v)
  (* the server processes a message *)
  | net_accept m up s s' down v : accept m s = Some s' ->
      net_step c (mkLink (m :: up) s down v) 0 c (mkLink up s' down v)
  (* the server publishes *)
  | net_publish up s down v t v' : vw_session v' = s -> publication (told v down) v' t ->
      net_step c (mkLink up s down v) 0 c (mkLink up s (down ++ [(t, v')]) v)
  (* a transition arrives *)
  | net_deliver up s t v' down v :
      net_step c (mkLink up s ((t, v') :: down) v) 1
        (perform (OReceive (Some (STransition t))) c) (mkLink up s down v').

(** [world n c l]: after [n] operations of the client; [None] is a client whose
    restart failed. *)
Inductive world : Z -> Client -> option link -> Prop :=
  | world_new m : world 0 New (Some (new_link m))
  (* the user calls, or a message that is no transition arrives *)
  | world_call n c l op : world n c l -> local op -> world (n + 1) (perform op c) l
  | world_net n c l k c' l' : world n c (Some l) -> net_step c l k c' l' -> world (n + k) c' (Some l')
  (* the connection is replaced by a new one *)
  | world_restart n c l env m : world n c l ->
      world (n + 1) (fst (RestartForReconnect env c))
        (match snd (RestartForReconnect env c) with Ok _ => Some (new_link m) | Err _ => None end).

Lemma world_reachable n c l : world n c l -> reachable n c.
Proof.
  induction 1 as [m|n c l op H IH Hop|n c l k c' l' H IH Hs|n c l env m H IH];
    [constructor|by constructor| |by apply (reach_step n c (ORestart env))].
  destruct Hs; rewrite ?Z.add_0_r; [by apply (reach_step n c OPopNextMessage)|done..|by constructor].
Qed.

(** ** The invariant *)

(** From a view through the transitions on their way to the server of now. *)
Fixpoint chain (v : view) (down : list (TransitionMessage * view)) (s : session) : Prop :=
  match down with
  | [] => onward (vw_session v) s
  | (t, v') :: down => publication v v' t /\ onward (vw_session v) (vw_session v') /\ chain v' down s
  end.

Lemma chain_onward_server v down s s' : chain v down s -> onward s s' -> chain v down s'.
Proof.
  intros Hc Hs. revert v Hc. induction down as [|[t v'] down IH]; intros v; cbn; [by trans s|].
  intros (Hp & Ho & Hc). auto.
Qed.

Lemma chain_onward v down s : chain v down s -> onward (vw_session v) s.
Proof.
  revert v. induction down as [|[t v'] down IH]; intros v; cbn; [done|].
  intros (_ & Ho & Hc). trans (vw_session v'); auto.
Qed.

Lemma chain_snoc v down s t v' :
  chain v down s -> publication (told v down) v' t -> vw_session v' = s ->
  chain v (down ++ [(t, v')]) s.
Proof.
  intros Hc Hp <-. revert v Hc Hp. induction down as [|[t1 v1] down IH]; intros v Hc Hp.
  - cbn in *. by split_and!.
  - cbn in Hc |- *. destruct Hc as (H1 & H2 & Hc). split; [done|]. split; [done|]. by apply IH.
Qed.

Record link_inv (c : Client) (l : link) : Prop := {
  li_session : exists s, accept_all (lk_up l ++ outgoing c) (lk_server l) = Some s /\ refines c s;
  li_chain : chain (lk_view l) (lk_down l) (lk_server l);
  li_remote : remoteVersion c = vw_version (lk_view l);
  li_version : sv_QuerySet (vw_version (lk_view l)) = ss_version (vw_session (lk_view l));
  li_sets : set_fits c (ss_queries (lk_server l)) /\ set_fits c (ss_queries (vw_session (lk_view l))) /\
    Forall (fun tv => set_fits c (ss_queries (vw_session (snd tv)))) (lk_down l);
  li_queue : Forall (message_fits c) (lk_up l);
  li_results : forall id sq, isActiveQuery id c = true ->
    ss_queries (vw_session (lk_view l)) !! id = Some sq ->
    serverResults c !! id = Some (db (vw_moment (lk_view l)) sq)
}.

(** The parts of the invariant an operation on the query set carries along. *)
Lemma link_sets_evolve c c' l :
  evolves c c' ->
  set_fits c (ss_queries (lk_server l)) /\ set_fits c (ss_queries (vw_session (lk_view l))) /\
    Forall (fun tv => set_fits c (ss_queries (vw_session (snd tv)))) (lk_down l) ->
  set_fits c' (ss_queries (lk_server l)) /\ set_fits c' (ss_queries (vw_session (lk_view l))) /\
    Forall (fun tv => set_fits c' (ss_queries (vw_session (snd tv)))) (lk_down l).
Proof.
  intros He (H1 & H2 & H3). split_and!; try by eapply set_fits_evolves.
  eapply Forall_impl; [exact H3|]. intros tv. by apply set_fits_evolves.
Qed.

Lemma link_call n c l op :
  client_inv n c -> versions_ok n c -> n + 1 < 2 ^ 32 -> local op ->
  link_inv c l -> link_inv (perform op c) l.
Proof.
  intros Hc Hv Hn Hop [(s & Hs & Hr) H2 H3 H4 H5 H6 H7].
  destruct (local_evolves n c op Hc Hn Hop) as [He [Hrv Hk]].
  destruct (operation_emits n c op) as (ms & Hout & Hacc); [done|done|done|by destruct op|].
  destruct (Hacc s Hr) as (s' & Ha & Hr'). split.
  - exists s'. split; [|done]. by rewrite Hout, app_assoc, accept_all_app, Hs.
  - done.
  - by rewrite Hrv.
  - done.
  - by eapply link_sets_evolve.
  - by eapply messages_fit_evolves.
  - intros id sq Ha' Hl. destruct H5 as (_ & Hf & _). destruct (Hf _ _ Hl) as [Hlt _].
    destruct (Hk id Ha' Hlt) as [Hact ->]. by apply H7.
Qed.

(** One id through a list of modifications, on the server and on the client. *)
Lemma report_same id m rs : about id m -> report rs m !! id = reported m.
Proof. destruct m; cbn; intros <-; [by rewrite lookup_insert_eq..|by rewrite lookup_delete_eq]. Qed.
Lemma report_other id m rs : ~ about id m -> report rs m !! id = rs !! id.
Proof. destruct m; cbn; intros Hne; [by rewrite lookup_insert_ne..|by rewrite lookup_delete_ne]. Qed.

#[export] Instance about_dec id m : Decision (about id m).
Proof. destruct m; cbn; apply _. Defined.

(** Either nothing was about the id, or the last word decides on both sides. *)
Lemma modifications_report id ms rs c :
  isActiveQuery id c = true ->
  let c' := fold_left (fun c m => applyStateModification m c) ms c in
  (serverResults c' !! id = serverResults c !! id /\ fold_left report ms rs !! id = rs !! id) \/
  serverResults c' !! id = fold_left report ms rs !! id.
Proof.
  revert rs c. induction ms as [|m ms IH]; intros rs c Ha; cbn; [by left|].
  assert (Ha' : isActiveQuery id (applyStateModification m c) = true).
  { rewrite (isActive_frame id c); [done|]. apply applyStateModification_frame. }
  destruct (IH (report rs m) _ Ha') as [[-> ->]|H]; [|by right].
  destruct (decide (about id m)) as [Hab|Hno].
  - right. by rewrite modification_same, report_same.
  - left. by rewrite modification_other, report_other.
Qed.

Lemma link_deliver c up s t v' down v :
  link_inv c (mkLink up s ((t, v') :: down) v) ->
  link_inv (perform (OReceive (Some (STransition t))) c) (mkLink up s down v').
Proof.
  intros [(s' & Hs & Hr) H2 H3 H4 (H51 & H52 & H53) H6 H7]. cbn in *.
  destruct H2 as (Hp & Ho & Hc). apply Forall_cons in H53 as [H5v H53].
  pose proof (quiet_emits _ _ (receive_quiet (Some (STransition t)) c)) as [Hout Hacc].
  destruct (Hacc s' Hr) as (s'' & [= <-] & Hr').
  destruct (transition_effect t c) as (Hqp & Hrv & Hsr); [by rewrite (pb_start _ _ _ Hp)|].
  rewrite app_nil_r in Hout. cbn [ReceiveMessage] in *.
  destruct (receiveTransition t c) as [c' r] eqn:E. cbn [fst] in *.
  pose proof (evolves_frame _ _ Hqp) as He. split; cbn.
  - exists s'. by rewrite Hout.
  - done.
  - rewrite Hrv. apply Hp.
  - apply Hp.
  - split_and!; try by eapply set_fits_evolves.
    eapply Forall_impl; [exact H53|]. intros tv. by apply set_fits_evolves.
  - by eapply messages_fit_evolves.
  - intros id sq Ha Hl. rewrite (isActive_frame _ _ _ Hqp) in Ha. rewrite Hsr.
    assert (Hlast : fold_left report (default [] (tr_Modifications t)) (answers v) !! id =
      Some (db (vw_moment v') sq)) by (rewrite (pb_answers _ _ _ Hp); unfold answers; by rewrite lookup_fmap, Hl).
    destruct (modifications_report id (default [] (tr_Modifications t)) (answers v) c Ha) as [[-> Hsame]|H];
      [|by rewrite H, Hlast].
    rewrite Hlast in Hsame. unfold answers in Hsame. rewrite lookup_fmap in Hsame.
    destruct (ss_queries (vw_session v) !! id) as [sq0|] eqn:Hv; [|done].
    rewrite (H7 id sq0 Ha Hv). by rewrite Hsame.
Qed.

Lemma new_link_inv c m s :
  accept_all (outgoing c) new_session = Some s -> refines c s -> remoteVersion c = zero_version ->
  link_inv c (new_link m).
Proof.
  intros Hs Hr Hv. assert (set_fits c ∅) by apply map_Forall_empty.
  split; cbn; try done. by exists s.
Qed.

Lemma net_inv c l k c' l' :
  queue_fits c -> net_step c l k c' l' -> link_inv c l -> link_inv c' l'.
Proof.
  intros Hf [up s down v|m up s s' down v Hm|up s down v t v' Hv' Hp|up s t v' down v];
    [| | |by apply link_deliver]; intros [(s2 & Hs & Hr) H2 H3 H4 (H51 & H52 & H53) H6 H7].
  - unfold PopNextMessage.
    unfold queue_fits in Hf. destruct (outgoing c) as [|m rest] eqn:Ho; cbn [fst snd option_list] in *.
    + rewrite app_nil_r. split; try done. exists s2. by rewrite Ho.
    + split; cbn; try done.
      * exists s2. split; [|by destruct Hr; split]. by rewrite <- app_assoc.
      * apply Forall_app. split; [done|]. apply Forall_cons in Hf as [Hf _]. by constructor.
  - cbn in *. rewrite Hm in Hs. apply Forall_cons in H6 as [Hf1 H6]. split; cbn; try done.
    + by exists s2.
    + eapply chain_onward_server; [done|]. by eapply accept_onward.
    + split_and!; [|done..]. by apply (accept_fits c m s).
  - split; cbn; try done; [by exists s2|by apply chain_snoc|].
    split_and!; [done..|]. apply Forall_app. split; [done|]. constructor; [|constructor]. cbn. by rewrite Hv'.
Qed.

Lemma net_count c l k c' l' : net_step c l k c' l' -> 0 <= k.
Proof. by destruct 1. Qed.

Lemma world_ok n c l : world n c l -> n < 2 ^ 32 -> client_inv n c /\ versions_ok n c.
Proof.
  intros Hw Hn. pose proof (world_reachable _ _ _ Hw) as Hr.
  split; [by apply reachable_inv|by apply reachable_versions].
Qed.

Lemma net_queue_fits n c l k c' l' :
  world n c (Some l) -> n + k < 2 ^ 32 -> net_step c l k c' l' -> queue_fits c -> queue_fits c'.
Proof.
  intros Hw Hn Hs Hf. destruct Hs as [up s down v| | |up s t v' down v]; try done;
    destruct (world_ok _ _ _ Hw) as [Hc _]; try lia.
  - by apply (perform_fits n c OPopNextMessage).
  - by apply (perform_fits n).
Qed.

Lemma world_inv n c l : world n c l -> n < 2 ^ 32 ->
  queue_fits c /\ (if l is Some l then link_inv c l else True).
Proof.
  induction 1 as [m|n c l op H IH Hop|n c l k c' l' H IH Hs|n c l env m H IH]; intros Hn.
  - split; [constructor|]. apply (new_link_inv _ _ new_session); [done|apply New_refines|done].
  - destruct (world_ok _ _ _ H) as [Hc Hv]; [lia|]. destruct IH as [Hf Hl]; [lia|].
    split; [by apply (perform_fits n)|]. destruct l; [|done]. by apply (link_call n).
  - pose proof (net_count _ _ _ _ _ Hs). destruct IH as [Hf Hl]; [lia|].
    split; [by eapply net_queue_fits|by eapply net_inv].
  - destruct (world_ok _ _ _ H) as [Hc Hv]; [lia|]. split; [by apply (Restart_fits n)|].
    pose proof (Restart_session n c env) as Hrs. pose proof (proj2 (Restart_aside env c)) as Hra.
    destruct (RestartForReconnect env c) as [c' [[]|e]]; cbn in *; [|done].
    destruct (Hrs c' Hc Hn eq_refl) as (s & Hs & Hr & _). apply (new_link_inv _ _ s); [done|done|by eapply Hra].
Qed.

(** ** What the client holds *)

(** The query of an active id is the one the server was asked. *)
Lemma view_query n c l tok q sq :
  world n c (Some l) -> n < 2 ^ 32 -> queries c !! tok = Some q ->
  ss_queries (vw_session (lk_view l)) !! q_id q = Some sq ->
  sq = query_of q /\ isActiveQuery (q_id q) c = true.
Proof.
  intros Hw Hn Hq Hl. destruct (world_inv _ _ _ Hw Hn) as (_ & [_ _ _ _ (_ & Hf & _) _ _]).
  destruct (world_ok _ _ _ Hw Hn) as [[Hi _ _] _].
  destruct (Hf _ _ Hl) as [_ He]. split; [by rewrite <- (He _ _ Hq)|].
  unfold isActiveQuery. apply bool_decide_eq_true. apply (active_query n); eauto.
Qed.

(** Once the version has caught up the server has been asked every active query. *)
Lemma caught_up n c l tok q :
  world n c (Some l) -> n < 2 ^ 32 -> sv_QuerySet (remoteVersion c) = querySetVersion c ->
  queries c !! tok = Some q -> ss_queries (vw_session (lk_view l)) !! q_id q = Some (query_of q).
Proof.
  intros Hw Hn Hv Hq. destruct (world_inv _ _ _ Hw Hn) as (_ & [(s & Hs & Hr) Hc Hrv Hver _ _ _]).
  assert (Hon : onward (vw_session (lk_view l)) s).
  { trans (lk_server l); [by eapply chain_onward|]. by eexists. }
  destruct (onward_version _ _ Hon) as [_ Heq].
  rewrite <- Heq; [apply (rf_queries _ _ Hr); eauto|].
  rewrite (rf_version _ _ Hr). rewrite Hrv in Hv. congruence.
Qed.

(** C2. The results follow the server.  Whatever the user calls, however long messages
    of either direction are under way and however often the connection is
    replaced: no transition is refused, the results the client holds for the queries the server
    has told it about are the answers at one moment of the database, that of its
    version, and once that version has reached the version of its query set
    every active query has its answer at that moment, which is what the user sees when
    no optimistic mutation is in flight. *)
Theorem results_follow_server n c l :
  world n c (Some l) -> n < 2 ^ 32 ->
  let answer q := db (vw_moment (lk_view l)) (query_of q) in
  remoteVersion c = vw_version (lk_view l) /\
  (forall t v' rest, lk_down l = (t, v') :: rest -> tr_StartVersion t = remoteVersion c) /\
  (forall tok q, queries c !! tok = Some q -> is_Some (ss_queries (vw_session (lk_view l)) !! q_id q) ->
     serverResults c !! q_id q = Some (answer q)) /\
  (sv_QuerySet (remoteVersion c) = querySetVersion c -> forall tok q, queries c !! tok = Some q ->
     serverResults c !! q_id q = Some (answer q) /\
     (no_optimistic c -> GetQuery (q_id q) c = (answer q, true))).
Proof.
  intros Hw Hn answer. destruct (world_inv _ _ _ Hw Hn) as (_ & [_ Hc Hrv _ _ _ Hres]).
  assert (Htold : forall tok q, queries c !! tok = Some q ->
    is_Some (ss_queries (vw_session (lk_view l)) !! q_id q) -> serverResults c !! q_id q = Some (answer q)).
  { intros tok q Hq [sq Hl]. destruct (view_query _ _ _ _ _ _ Hw Hn Hq Hl) as [-> Ha]. by apply Hres. }
  split; [done|]. split; [|split; [done|]].
  - intros t v' rest Hd. rewrite Hd in Hc. destruct Hc as [Hp _]. by rewrite (pb_start _ _ _ Hp).
  - intros Hv tok q Hq. pose proof (caught_up _ _ _ _ _ Hw Hn Hv Hq) as Hl.
    pose proof (Htold tok q Hq ltac:(eauto)) as Hs. split; [done|]. intros Hno.
    destruct (view_query _ _ _ _ _ _ Hw Hn Hq Hl) as [_ Ha]. unfold GetQuery. rewrite Ha. unfold lookup_result.
    rewrite (reachable_settled n c) by (done || by eapply world_reachable). by rewrite Hs.
Qed.

(** ** The results can always catch up *)

Inductive net_steps : Client -> link -> Z -> Client -> link -> Prop :=
  | net_done c l : net_steps c l 0 c l
  | net_more c l k c1 l1 j c' l' :
      net_step c l k c1 l1 -> net_steps c1 l1 j c' l' -> net_steps c l (k + j) c' l'.

Lemma net_steps_trans c l k c1 l1 j c' l' :
  net_steps c l k c1 l1 -> net_steps c1 l1 j c' l' -> net_steps c l (k + j) c' l'.
Proof. induction 1; intros; [done|]. rewrite <- Z.add_assoc. econstructor; eauto. Qed.

Lemma world_net_steps n c l k c' l' :
  net_steps c l k c' l' -> world n c (Some l) -> world (n + k) c' (Some l').
Proof.
  intros H. revert n. induction H as [|c l k c1 l1 j c' l' Hs _ IH]; intros n Hw; [by rewrite Z.add_0_r|].
  rewrite Z.add_assoc. apply IH. by eapply world_net.
Qed.

Lemma send_all s down v ms : forall c up, outgoing c = ms ->
  net_steps c (mkLink up s down v) (Z.of_nat (length ms)) (set_outgoing [] c) (mkLink (up ++ ms) s down v).
Proof.
  induction ms as [|m ms IH]; intros c up Ho.
  - rewrite app_nil_r. destruct c. cbn in *. subst. constructor.
  - cbn [length]. rewrite Nat2Z.inj_succ, <- Z.add_1_l.
    pose proof (net_send c up s down v) as H. unfold PopNextMessage in H. rewrite Ho in H.
    eapply net_more; [exact H|]. cbn [fst snd option_list].
    replace (up ++ m :: ms) with ((up ++ [m]) ++ ms) by (by rewrite <- app_assoc).
    by apply (IH (set_outgoing ms c)).
Qed.

Lemma process_all c down v ms : forall s s', accept_all ms s = Some s' ->
  net_steps c (mkLink ms s down v) 0 c (mkLink [] s' down v).
Proof.
  induction ms as [|m ms IH]; intros s s'; cbn; [intros [= <-]; constructor|].
  intros (s1 & Hm & H)%bind_Some. apply (net_more _ _ 0 _ _ 0 _ _ (net_accept c m ms s s1 down v Hm)). by apply IH.
Qed.

Lemma deliver_all up s down : forall c v, exists c',
  net_steps c (mkLink up s down v) (Z.of_nat (length down)) c' (mkLink up s [] (told v down)) /\
  query_part c' = query_part c /\ outgoing c' = outgoing c.
Proof.
  induction down as [|[t v'] down IH]; intros c v; [exists c; split; [constructor|done]|].
  destruct (IH (perform (OReceive (Some (STransition t))) c) v') as (c' & Hs & Hq & Ho).
  exists c'. split; [|split].
  - cbn [length told]. rewrite Nat2Z.inj_succ, <- Z.add_1_l. eapply net_more; [apply net_deliver|exact Hs].
  - rewrite Hq. cbn. pose proof (transition_query_part t c). by destruct (receiveTransition t c).
  - rewrite Ho. by destruct (receive_quiet (Some (STransition t)) c) as [[= ? _ _ _ _] _].
Qed.

Lemma told_snoc v down t v' : told v (down ++ [(t, v')]) = v'.
Proof. revert v. induction down as [|[t1 v1] down IH]; intros v; cbn; [done|apply IH]. Qed.

Lemma report_removed ids rs id :
  fold_left report (map SMRemoved ids) rs !! id = if decide (id ∈ ids) then None else rs !! id.
Proof.
  revert rs. induction ids as [|i ids IH]; intros rs; cbn; [done|]. rewrite IH.
  destruct (decide (id ∈ ids)) as [Hin|Hin]; [by rewrite decide_True by (by right)|].
  destruct (decide (i = id)) as [->|Hne]; [by rewrite lookup_delete_eq, decide_True by (by left)|].
  rewrite lookup_delete_ne, decide_False; [done| |done]. intros [?|?]%elem_of_cons; congruence.
Qed.

Section publish.
(** The answers of the moment are values and errors that messages can carry. *)
Context (m' : moment).
Hypothesis db_reportable : forall id sq, exists m, about id m /\ reported m = Some (db m' sq).

Lemma report_set (s : gmap Z server_query) : exists ms, forall rs, fold_left report ms rs = (db m' <$> s) ∪ rs.
Proof.
  induction s as [|id sq s Hid (ms & Hms)] using map_ind.
  - exists []. intros rs. by rewrite fmap_empty, map_empty_union.
  - destruct (db_reportable id sq) as (m & Ha & Hm). exists (ms ++ [m]). intros rs.
    rewrite fold_left_app, Hms, fmap_insert, <- insert_union_l. destruct m; cbn in *; [| |done]; injection Hm as Hm; by rewrite Ha, Hm.
Qed.

Lemma can_publish v s : exists t v', vw_session v' = s /\ vw_moment v' = m' /\ publication v v' t.
Proof.
  destruct (report_set (ss_queries s)) as [ms Hms].
  set (v' := mkView s (mkStateVersion (ss_version s) 0 0) m').
  set (gone := map SMRemoved (map fst (map_to_list (answers v)))).
  exists (mkTransition (vw_version v) (vw_version v') (Some (gone ++ ms)) None None false false), v'.
  split; [done|]. split; [done|]. split; [done..|]. cbn. rewrite fold_left_app, Hms.
  replace (fold_left report gone (answers v)) with (∅ : gmap Z FunctionResult); [by rewrite map_union_empty|].
  symmetry. apply map_empty. intros id. unfold gone. rewrite report_removed. case_decide as Hin; [done|].
  apply eq_None_not_Some. intros [r Hr]. apply Hin, list_elem_of_fmap. exists (id, r).
  split; [done|]. by apply elem_of_map_to_list.
Qed.

(** C7. The results can always catch up: from any state with a connection the network and the
    server alone can lead to one where every active query has the answer of any moment
    the server chooses to publish, without the user calling anything. *)
Theorem results_catch_up n c l :
  world n c (Some l) -> n + Z.of_nat (length (outgoing c)) + Z.of_nat (length (lk_down l)) + 1 < 2 ^ 32 ->
  exists k c' l', net_steps c l k c' l' /\ n + k < 2 ^ 32 /\ query_part c' = query_part c /\
    forall tok q, queries c !! tok = Some q -> serverResults c' !! q_id q = Some (db m' (query_of q)).
Proof.
  intros Hw Hn. destruct l as [up s down v].
  destruct (world_inv _ _ _ Hw) as (_ & [(s' & Hs & Hr) _ _ _ _ _ _]); [cbn in Hn; lia|]. cbn in Hs, Hn.
  pose proof (send_all s down v _ c up eq_refl) as H1. set (c1 := set_outgoing [] c) in H1.
  pose proof (process_all c1 down v _ _ _ Hs) as H2.
  destruct (can_publish (told v down) s') as (t & v' & Hv' & Hm & Hp).
  pose proof (net_publish c1 [] s' down v t v' Hv' Hp) as H3.
  destruct (deliver_all [] s' (down ++ [(t, v')]) c1 v) as (c' & H4 & Hq & Ho). rewrite told_snoc in H4.
  pose proof (net_steps_trans _ _ _ _ _ _ _ _ H1 (net_steps_trans _ _ _ _ _ _ _ _ H2
    (net_more _ _ _ _ _ _ _ _ H3 H4))) as Hall.
  rewrite length_app in Hall. cbn [length] in Hall. do 3 eexists. split; [exact Hall|]. split; [lia|]. split; [done|].
  intros tok q Hl. pose proof (world_net_steps _ _ _ _ _ _ Hall Hw) as Hw'.
  destruct (world_inv _ _ _ Hw') as (_ & [_ _ _ _ _ _ Hres]); [lia|]. cbn in Hres. rewrite <- Hm.
  apply Hres; [|rewrite Hv'; apply (rf_queries _ _ Hr); eauto].
  destruct (world_ok _ _ _ Hw) as [[Hi _ _] _]; [lia|]. rewrite (isActive_frame _ c c') by done.
  unfold isActiveQuery. apply bool_decide_eq_true. apply (active_query n); eauto.
Qed.
End publish.
End world.

(** ** A run *)

(** A database whose answer is the moment. *)
Definition clock_db (m : Z) (_ : server_query) : FunctionResult := ValueResult (VInt64 m).
Definition run_subscribed : Client := perform (OSubscribe "messages:list" GNil) New.
Definition run_sent : Client := fst (PopNextMessage run_subscribed).
Definition run_up : list ClientMessage := [] ++ option_list (snd (PopNextMessage run_subscribed)).
Definition run_session : session :=
  default new_session (accept_all run_up new_session).
Definition run_view : view := mkView run_session (mkStateVersion 1 0 40) 7.
Definition run_transition : TransitionMessage :=
  mkTransition zero_version (mkStateVersion 1 0 40)
    (Some [SMUpdated (mkQueryUpdated 0 (VInt64 7) None (mkOptionalString true None))]) None None false false.
Definition run_delivered : Client := perform (OReceive (Some (STransition run_transition))) run_sent.

Lemma run_world_sent :
  world clock_db (0 + 1 + 1) run_sent
    (Some (mkLink run_up new_session [] (mkView new_session zero_version 0))).
Proof.
  refine (world_net clock_db _ _ _ 1 _ _ (world_call clock_db _ _ _ (OSubscribe "messages:list" GNil)
    (world_new clock_db 0) I) _).
  exact (net_send clock_db run_subscribed [] new_session [] (mkView new_session zero_version 0)).
Qed.

Lemma run_world : world clock_db (0 + 1 + 1 + 0 + 0 + 1) run_delivered (Some (mkLink [] run_session [] run_view)).
Proof.
  eapply world_net; [|exact (net_deliver clock_db run_sent [] run_session run_transition run_view []
    (mkView new_session zero_version 0))].
  eapply world_net; [|apply (net_publish clock_db run_sent [] run_session []
    (mkView new_session zero_version 0) run_transition run_view); [done|]].
  - eapply world_net; [exact run_world_sent|]. apply net_accept. vm_compute. reflexivity.
  - split; vm_compute; reflexivity.
Qed.

Definition run_query : string * localBaseQuery :=
  default ("", mkQuery 1 "" [] 0 0) (head (map_to_list (queries run_delivered))).

Lemma results_follow_server_witness : GetQuery 0 run_delivered = (ValueResult (VInt64 7), true).
Proof.
  assert (Hq : queries run_delivered !! fst run_query = Some (snd run_query)) by (vm_compute; reflexivity).
  assert (Hid : q_id (snd run_query) = 0) by (vm_compute; reflexivity).
  assert (Hv : sv_QuerySet (remoteVersion run_delivered) = querySetVersion run_delivered) by (vm_compute; reflexivity).
  assert (Hr : requests run_delivered = ∅) by (vm_compute; reflexivity).
  destruct (results_follow_server clock_db _ _ _ run_world ltac:(lia)) as (_ & _ & _ & H).
  rewrite <- Hid. apply (proj2 (H Hv _ _ Hq)).
  intros id r. rewrite Hr, lookup_empty. intros E. discriminate E.
Defined.

Lemma results_catch_up_witness : exists k c' l',
  net_steps clock_db run_sent
    (mkLink run_up new_session [] (mkView new_session zero_version 0)) k c' l' /\
  0 + 1 + 1 + k < 2 ^ 32 /\ query_part c' = query_part run_sent /\
  forall tok q, queries run_sent !! tok = Some q -> serverResults c' !! q_id q = Some (clock_db 9 (query_of q)).
Proof.
  apply (results_catch_up clock_db 9).
  - intros id sq. exists (SMUpdated (mkQueryUpdated id (VInt64 9) None (mkOptionalString true None))).
    split; reflexivity.
  - exact run_world_sent.
  - vm_compute. reflexivity.
Defined.
