(* ===== verification/SyncManager.v ===== *)
(** * The WebSocket manager: its data and operations

    The model of [internal/syncclient/connection_state.go], of the parts of
    [websocket_manager.go] and [websocket_manager_runtime.go] that run to their
    end under a lock or on their own: the connection state and its observers,
    the options, the buffered channel of results, writing the queue, restarting.
    The goroutines around them are steps of the machine in ManagerRun. *)
From S2P Require Import Prelude GoStrings GoBytes GoFloat GoJson Values Results GoEncode Paths Protocol ClientMessages ServerMessages Canonical ClientState BaseClient ClientInvariant.
From Stdlib Require Import Ascii Strings.Byte.
Local Open Scope Z_scope.

(** ** Connection state *)

Definition ConnectionPhaseDisconnected : string := "Disconnected".
Definition ConnectionPhaseConnecting : string := "Connecting".
Definition ConnectionPhaseConnected : string := "Connected".
Definition ConnectionPhaseReconnecting : string := "Reconnecting".

Record ConnectionState : Type := mkConnectionState {
  cs_Phase : string;
  cs_HasEverConnected : bool;
  cs_ConnectionCount : Z;
  cs_ConnectionRetries : Z;
  cs_LastChange : Z
}.

(** All but [LastChange]. *)
Definition connectionStateEqual (left right : ConnectionState) : bool :=
  bool_decide (cs_Phase left = cs_Phase right)
  && Bool.eqb (cs_HasEverConnected left) (cs_HasEverConnected right)
  && (cs_ConnectionCount left =? cs_ConnectionCount right)
  && (cs_ConnectionRetries left =? cs_ConnectionRetries right).

(** The part of the manager [stateMu] guards: the state, the observers by their
    id, each a callback known by a name, and the next id. *)
Record StateBox : Type := mkStateBox {
  connectionState : ConnectionState;
  connectionStateSubscribers : gmap Z nat;
  nextConnectionStateSubscriberID : Z
}.

(** A call of an observer. *)
Abbreviation notification := (nat * ConnectionState)%type.

(** [SubscribeToConnectionState]: the id that the returned function forgets, and
    the immediate call.  [None] is a nil callback. *)
Definition SubscribeToConnectionState (cb : option nat) (b : StateBox)
    : StateBox * option Z * list notification :=
  match cb with
  | None => (b, None, [])
  | Some cb =>
      let id := nextConnectionStateSubscriberID b in
      (mkStateBox (connectionState b) (<[id := cb]> (connectionStateSubscribers b)) (u64 (id + 1)),
       Some id, [(cb, connectionState b)])
  end.
Definition forgetSubscriber (id : Z) (b : StateBox) : StateBox :=
  mkStateBox (connectionState b) (delete id (connectionStateSubscribers b))
    (nextConnectionStateSubscriberID b).

(** Every observer is called with the new state when it differs; the order in
    which a Go map yields them is not fixed, here it is that of the ids. *)
Definition updateConnectionState (update : ConnectionState -> ConnectionState) (now : Z) (b : StateBox)
    : StateBox * list notification :=
  let next := update (connectionState b) in
  let next :=
    if decide (cs_Phase next = "")
    then mkConnectionState ConnectionPhaseDisconnected (cs_HasEverConnected next)
           (cs_ConnectionCount next) (cs_ConnectionRetries next) (cs_LastChange next)
    else next in
  if connectionStateEqual (connectionState b) next then (b, [])
  else
    let next := mkConnectionState (cs_Phase next) (cs_HasEverConnected next)
                  (cs_ConnectionCount next) (cs_ConnectionRetries next) now in
    (mkStateBox next (connectionStateSubscribers b) (nextConnectionStateSubscriberID b),
     map (fun kv => (snd kv, next)) (map_to_list (connectionStateSubscribers b))).

Definition markConnecting : Z -> StateBox -> StateBox * list notification :=
  updateConnectionState (fun s =>
    mkConnectionState ConnectionPhaseConnecting (cs_HasEverConnected s) (cs_ConnectionCount s)
      (cs_ConnectionRetries s) (cs_LastChange s)).
Definition markConnected : Z -> StateBox -> StateBox * list notification :=
  updateConnectionState (fun s =>
    mkConnectionState ConnectionPhaseConnected true (u64 (cs_ConnectionCount s + 1))
      (cs_ConnectionRetries s) (cs_LastChange s)).
Definition markReconnecting : Z -> StateBox -> StateBox * list notification :=
  updateConnectionState (fun s =>
    mkConnectionState ConnectionPhaseReconnecting (cs_HasEverConnected s) (cs_ConnectionCount s)
      (u64 (cs_ConnectionRetries s + 1)) (cs_LastChange s)).
Definition markDisconnected : Z -> StateBox -> StateBox * list notification :=
  updateConnectionState (fun s =>
    mkConnectionState ConnectionPhaseDisconnected (cs_HasEverConnected s) (cs_ConnectionCount s)
      (cs_ConnectionRetries s) (cs_LastChange s)).

(** ** A buffered channel

    [sendLatest] never blocks: when the buffer is full the oldest element makes
    room. *)
Definition trySend {A : Type} (cap : nat) (v : A) (ch : list A) : list A * bool :=
  if (length ch <? cap)%nat then (ch ++ [v], true) else (ch, false).
Definition sendLatest {A : Type} (cap : nat) (v : A) (ch : list A) : list A :=
  let '(ch, sent) := trySend cap v ch in
  if sent then ch else fst (trySend cap v (tail ch)).

(** ** Session ids *)

Definition hex_byte (b : byte) : string :=
  String (hex_digit (byteZ b / 16)) (String (hex_digit (byteZ b mod 16)) "").
Definition hex_EncodeToString (data : list byte) : string :=
  foldr (fun b rest => hex_byte b +:+ rest) "" data.

(** The version and the variant of the UUID are set in bytes 6 and 8. *)
Definition formatSyncSessionID (bytes : list byte) : string :=
  let bytes := alter (fun b => Zbyte (Z.lor (Z.land (byteZ b) 15) 64)) 6%nat bytes in
  let bytes := alter (fun b => Zbyte (Z.lor (Z.land (byteZ b) 63) 128)) 8%nat bytes in
  let encoded := hex_EncodeToString bytes in
  let slice (i j : nat) := take_bytes (j - i) (drop_bytes i encoded) in
  slice 0%nat 8%nat +:+ "-" +:+ slice 8%nat 12%nat +:+ "-" +:+ slice 12%nat 16%nat +:+ "-"
  +:+ slice 16%nat 20%nat +:+ "-" +:+ slice 20%nat 32%nat.

(** ** The manager *)

Definition defaultClientID : string := "go-0.1.0".
Definition errInactiveServer : string := "convex: inactive server".
Definition resultsCapacity : nat := 16.
Definition flushCapacity : nat := 16.

(** Why the loop of [Run] ended. *)
Inductive run_error : Type :=
  | SessionIDFailed
  | RunCanceled
  | RunUndecodable
  | RunProtocol (e : proto_error)
  | RunClient (e : client_error).

Record websocketRunState : Type := mkRunState {
  sessionID : string;
  connectionCount : Z;
  lastCloseReason : string;
  needsRestart : bool
}.
Definition newWebSocketRunState (random : option (list byte)) : result run_error websocketRunState :=
  match random with
  | None => Err SessionIDFailed
  | Some bytes => Ok (mkRunState (formatSyncSessionID bytes) 0 "InitialConnect" false)
  end.

(** The settings an option changes; a duration is a number of nanoseconds. *)
Record Settings : Type := mkSettings {
  st_client : Client;
  st_clientID : string;
  st_reconnectBackoff : Z;
  st_inactivityTimeout : Z
}.
Inductive option_error : Type :=
  | NilBaseClient
  | NilDialer
  | EmptyClientID
  | NegativeBackoff
  | NonPositiveInactivity.

(** The options; a dialer is the transport, here it is only nil or not. *)
Inductive Option : Type :=
  | WithBaseClient (client : option Client)
  | WithClientID (clientID : string)
  | WithReconnectBackoff (backoff : Z)
  | WithInactivityTimeout (timeout : Z)
  | WithDialer (isNil : bool).
Definition applyOption (o : Option) (s : Settings) : result option_error Settings :=
  match o with
  | WithBaseClient None => Err NilBaseClient
  | WithBaseClient (Some c) =>
      Ok (mkSettings c (st_clientID s) (st_reconnectBackoff s) (st_inactivityTimeout s))
  | WithClientID id =>
      if decide (trim_space id = "") then Err EmptyClientID
      else Ok (mkSettings (st_client s) id (st_reconnectBackoff s) (st_inactivityTimeout s))
  | WithReconnectBackoff d =>
      if d <? 0 then Err NegativeBackoff
      else Ok (mkSettings (st_client s) (st_clientID s) d (st_inactivityTimeout s))
  | WithInactivityTimeout d =>
      if d <=? 0 then Err NonPositiveInactivity
      else Ok (mkSettings (st_client s) (st_clientID s) (st_reconnectBackoff s) d)
  | WithDialer isNil => if isNil : bool then Err NilDialer else Ok s
  end.
Fixpoint applyOptions (os : list Option) (s : Settings) : result option_error Settings :=
  match os with
  | [] => Ok s
  | o :: rest => s ← applyOption o s; applyOptions rest s
  end.
Definition defaultSettings : Settings := mkSettings New defaultClientID 100000000 30000000000.
Definition initialState : StateBox :=
  mkStateBox (mkConnectionState ConnectionPhaseDisconnected false 0 0 0) ∅ 0.

(** ** Writing the queue

    [flushQueued] on its own: the replies of the connection to the writes are an
    argument, [None] for a write that succeeds.  What the connection got comes
    first in the result.  The fuel is for the messages of the queue, one call
    each and one that finds it empty. *)
Inductive write_error : Type :=
  | EncodeFailed (e : proto_error)
  | WriteFailed (message : string).

Definition writeClientMessage (reply : option string) (msg : ClientMessage) : result write_error unit :=
  _ ← map_err EncodeFailed (EncodeClientMessage (Some msg));
  match reply with None => Ok () | Some e => Err (WriteFailed e) end.

Fixpoint flushQueued (fuel : nat) (replies : list (option string)) (c : Client)
    : Client * list ClientMessage * option (result write_error unit) :=
  match fuel with
  | O => (c, [], None)
  | S fuel =>
      match PopNextMessage c with
      | (c, None) => (c, [], Some (Ok ()))
      | (c, Some msg) =>
          match writeClientMessage (default None (head replies)) msg with
          | Err e => (c, [], Some (Err e))
          | Ok _ =>
              let '(c, written, r) := flushQueued fuel (tail replies) c in (c, msg :: written, r)
          end
      end
  end.

(** ** Restarting *)

(** [prepareReconnect]: attempts until [RestartForReconnect] succeeds; an attempt
    that fails leaves its changes.  What the authentication callback does at
    each attempt is an argument, and so is for how many attempts the context
    stays alive. *)
Fixpoint prepareReconnect (envs : list auth_environment) (c : Client) : Client * bool :=
  match envs with
  | [] => (c, false)
  | env :: rest =>
      match RestartForReconnect env c with
      | (c, Ok _) => (c, true)
      | (c, Err _) => prepareReconnect rest c
      end
  end.

(** ** Comparing snapshots

    [reflect.DeepEqual] on values: floats as the machine compares them, so a NaN
    is not equal to itself.  A nil slice and an empty one are not told apart:
    the entries compared hold decoded values. *)
Definition float_equal (a b : Z) : bool :=
  negb (is_nan a) && ((a =? b) || (is_zero a && is_zero b)).

Fixpoint deep_equal (v w : Value) : bool :=
  match v, w with
  | VNull, VNull => true
  | VInt64 a, VInt64 b => a =? b
  | VFloat64 a, VFloat64 b => float_equal a b
  | VBoolean a, VBoolean b => Bool.eqb a b
  | VString a, VString b => bool_decide (a = b)
  | VBytes a, VBytes b => bool_decide (a = b)
  | VArray l, VArray l' =>
      (fix go (l l' : list Value) : bool :=
         match l, l' with
         | [], [] => true
         | x :: l, y :: l' => deep_equal x y && go l l'
         | _, _ => false
         end) l l'
  | VObject m, VObject m' =>
      bool_decide (dom m = dom m')
      && map_forallb (fun k x => match m' !! k with Some y => deep_equal x y | None => false end) m
  | _, _ => false
  end.

Definition result_equal (a b : FunctionResult) : bool :=
  deep_equal (fr_value a) (fr_value b) && bool_decide (fr_errorMessage a = fr_errorMessage b)
  && match fr_convexError a, fr_convexError b with
     | None, None => true
     | Some x, Some y =>
         bool_decide (ce_message x = ce_message y) && deep_equal (ce_data x) (ce_data y)
     | _, _ => false
     end.
Definition entry_equal (a b : QueryResultEntry) : bool :=
  bool_decide (en_SubscriberID a = en_SubscriberID b) && result_equal (en_Result a) (en_Result b)
  && Bool.eqb (en_HasResult a) (en_HasResult b).
Fixpoint entries_equal (a b : list QueryResultEntry) : bool :=
  match a, b with
  | [], [] => true
  | x :: a, y :: b => entry_equal x y && entries_equal a b
  | _, _ => false
  end.
Definition queryResultsEqual (left right : QueryResults) : bool :=
  entries_equal (QueryResults_Iter left) (QueryResults_Iter right).
