(* ===== verification/ManagerRun.v ===== *)
(** * The WebSocket manager at work

    The goroutines of [internal/syncclient] as one machine: the loop of [Run]
    with [runConnection], the write loop of each connection, and the callers of
    [Flush] and of the operations of the client.  An event is one atomic step of
    one of them, with what the transport, the clock and the authentication
    callback reply; [step] is the state after it, or [None] when the goroutine
    is not at that point.  A goroutine may take any number of steps before
    another does.

    The waits between attempts take no step of their own, and the read loop is
    the events [ERead] and [EReadError].  A write on a connection that has been
    closed fails.  While the channel of its write loop is full the loop of [Run]
    holds the request it has taken and does nothing else ([Forwarding]).  The three
    operations of [sendLatest] on the channel of results are three steps
    ([publish_step]).  The context of a write loop may end at any time ([WLeave]),
    before [Run] notices. *)
From S2P Require Import Prelude GoStrings GoBytes GoJson Values Results GoEncode Paths Protocol ClientMessages ServerMessages Canonical ClientState BaseClient ClientInvariant SyncManager.
From Stdlib Require Import Strings.Byte.
Local Open Scope Z_scope.

(** ** State *)

(** A request to write the queue; [None] is a nil acknowledgement channel, a
    number the call of [Flush] that waits. *)
Record flushRequest : Type := mkFlushRequest { fq_ack : option Z; fq_replay : bool }.

(** Where a write loop is: waiting for a request, about to take a message from
    the queue, about to write the message it took, or returned. *)
Inductive writer_state : Type :=
  | WaitRequest
  | TakeMessage (request : flushRequest)
  | WriteMessage (request : flushRequest) (msg : ClientMessage)
  | Returned.

(** A write loop with its channels of requests and of errors, the latter of
    capacity 1. *)
Record writer : Type := mkWriter {
  w_state : writer_state;
  w_requests : list flushRequest;
  w_error : option (write_error * bool)
}.

(** Where [Run] is.  Connections are numbered; [Forwarding] has taken a request to flush
    and waits for room in the channel of the write loop, [Delivering] for room in the
    channel of results. *)
Inductive run_pc : Type :=
  | NotRunning
  | Preparing
  | Dialing
  | Greeting (conn : Z)
  | Serving (conn : Z)
  | Forwarding (conn id : Z)
  | Delivering (conn : Z) (snapshot : QueryResults)
  | Finished (e : run_error).

(** Where a call of [sendLatest] is: it tries to send, takes the oldest element out when
    the channel is full, and tries once more. *)
Inductive publish_pc : Type :=
  | TrySend
  | DropOldest
  | TrySendAgain.
Definition publish_step (p : publish_pc) (snapshot : QueryResults) (ch : list QueryResults)
    : list QueryResults * option publish_pc :=
  match p with
  | TrySend =>
      let '(ch, sent) := trySend resultsCapacity snapshot ch in (ch, if sent : bool then None else Some DropOldest)
  | DropOldest => (tail ch, Some TrySendAgain)
  | TrySendAgain => (fst (trySend resultsCapacity snapshot ch), None)
  end.

(** The manager and its surroundings: [mx_wire] is what each connection got,
    [mx_acks] what the calls of [Flush] were told, [mx_publishing] the snapshots
    of mutations on their way to the channel of results, [mx_told] the calls of
    the observers, [mx_first] the first calls of new observers, which
    [SubscribeToConnectionState] makes once it has left the lock. *)
Record machine : Type := mkMachine {
  mx_client : Client;
  mx_box : StateBox;
  mx_results : list QueryResults;
  mx_flushCh : list Z;
  mx_pc : run_pc;
  mx_run : websocketRunState;
  mx_nextConn : Z;
  mx_writers : gmap Z writer;
  mx_wire : gmap Z (list ClientMessage);
  mx_acks : gmap Z (result write_error unit);
  mx_publishing : list (publish_pc * QueryResults);
  mx_told : list notification;
  mx_first : list notification
}.

(** Assignment to one field. *)
Definition put_client (v : Client) (m : machine) : machine :=
  mkMachine v (mx_box m) (mx_results m) (mx_flushCh m) (mx_pc m) (mx_run m) (mx_nextConn m)
    (mx_writers m) (mx_wire m) (mx_acks m) (mx_publishing m) (mx_told m) (mx_first m).
Definition put_box (v : StateBox) (m : machine) : machine :=
  mkMachine (mx_client m) v (mx_results m) (mx_flushCh m) (mx_pc m) (mx_run m) (mx_nextConn
    m) (mx_writers m) (mx_wire m) (mx_acks m) (mx_publishing m) (mx_told m) (mx_first m).
Definition put_results (v : list QueryResults) (m : machine) : machine :=
  mkMachine (mx_client m) (mx_box m) v (mx_flushCh m) (mx_pc m) (mx_run m) (mx_nextConn m)
    (mx_writers m) (mx_wire m) (mx_acks m) (mx_publishing m) (mx_told m) (mx_first m).
Definition put_flushCh (v : list Z) (m : machine) : machine :=
  mkMachine (mx_client m) (mx_box m) (mx_results m) v (mx_pc m) (mx_run m) (mx_nextConn m)
    (mx_writers m) (mx_wire m) (mx_acks m) (mx_publishing m) (mx_told m) (mx_first m).
Definition put_pc (v : run_pc) (m : machine) : machine :=
  mkMachine (mx_client m) (mx_box m) (mx_results m) (mx_flushCh m) v (mx_run m) (mx_nextConn
    m) (mx_writers m) (mx_wire m) (mx_acks m) (mx_publishing m) (mx_told m) (mx_first m).
Definition put_run (v : websocketRunState) (m : machine) : machine :=
  mkMachine (mx_client m) (mx_box m) (mx_results m) (mx_flushCh m) (mx_pc m) v (mx_nextConn
    m) (mx_writers m) (mx_wire m) (mx_acks m) (mx_publishing m) (mx_told m) (mx_first m).
Definition put_nextConn (v : Z) (m : machine) : machine :=
  mkMachine (mx_client m) (mx_box m) (mx_results m) (mx_flushCh m) (mx_pc m) (mx_run m) v
    (mx_writers m) (mx_wire m) (mx_acks m) (mx_publishing m) (mx_told m) (mx_first m).
Definition put_writers (v : gmap Z writer) (m : machine) : machine :=
  mkMachine (mx_client m) (mx_box m) (mx_results m) (mx_flushCh m) (mx_pc m) (mx_run m)
    (mx_nextConn m) v (mx_wire m) (mx_acks m) (mx_publishing m) (mx_told m) (mx_first m).
Definition put_wire (v : gmap Z (list ClientMessage)) (m : machine) : machine :=
  mkMachine (mx_client m) (mx_box m) (mx_results m) (mx_flushCh m) (mx_pc m) (mx_run m)
    (mx_nextConn m) (mx_writers m) v (mx_acks m) (mx_publishing m) (mx_told m) (mx_first m).
Definition put_acks (v : gmap Z (result write_error unit)) (m : machine) : machine :=
  mkMachine (mx_client m) (mx_box m) (mx_results m) (mx_flushCh m) (mx_pc m) (mx_run m)
    (mx_nextConn m) (mx_writers m) (mx_wire m) v (mx_publishing m) (mx_told m) (mx_first m).
Definition put_publishing (v : list (publish_pc * QueryResults)) (m : machine) : machine :=
  mkMachine (mx_client m) (mx_box m) (mx_results m) (mx_flushCh m) (mx_pc m) (mx_run m)
    (mx_nextConn m) (mx_writers m) (mx_wire m) (mx_acks m) v (mx_told m) (mx_first m).
Definition put_told (v : list notification) (m : machine) : machine :=
  mkMachine (mx_client m) (mx_box m) (mx_results m) (mx_flushCh m) (mx_pc m) (mx_run m)
    (mx_nextConn m) (mx_writers m) (mx_wire m) (mx_acks m) (mx_publishing m) v (mx_first m).
Definition put_first (v : list notification) (m : machine) : machine :=
  mkMachine (mx_client m) (mx_box m) (mx_results m) (mx_flushCh m) (mx_pc m) (mx_run m)
    (mx_nextConn m) (mx_writers m) (mx_wire m) (mx_acks m) (mx_publishing m) (mx_told m) v.

Definition initialMachine : machine :=
  mkMachine New initialState [] [] NotRunning (mkRunState "" 0 "" false) 0 ∅ ∅ ∅ [] [] [].

(** The connection that is open. *)
Definition current (m : machine) : option Z :=
  match mx_pc m with
  | Greeting conn | Serving conn | Forwarding conn _ | Delivering conn _ => Some conn
  | _ => None
  end.

(** ** Pieces of the loops *)

(** A change of the connection state, with the calls of the observers. *)
Definition mark (f : StateBox -> StateBox * list notification) (m : machine) : machine :=
  let '(box, calls) := f (mx_box m) in put_told (mx_told m ++ calls) (put_box box m).

(** [sendFlushAck]: the channel has room for one answer. *)
Definition sendFlushAck (ack : option Z) (r : result write_error unit) (m : machine) : machine :=
  match ack with
  | None => m
  | Some id =>
      match mx_acks m !! id with
      | Some _ => m
      | None => put_acks (<[id := r]> (mx_acks m)) m
      end
  end.
Definition ackPendingFlushRequests (requests : list flushRequest) (r : result write_error unit)
    (m : machine) : machine :=
  fold_left (fun m q => sendFlushAck (fq_ack q) r m) requests m.

(** The text of [context.Canceled]. *)
Definition errCanceled : string := "context canceled".

(** [finishRun] with the error [Run] returns. *)
Definition finishRun (e : run_error) (now : Z) (m : machine) : machine :=
  mark (markDisconnected now) (put_pc (Finished e) m).

(** The end of a connection after a [reconnectableWebSocketError], up to the next
    round of the loop of [Run]. *)
Definition reconnect (reason : string) (replay : bool) (now : Z) (m : machine) : machine :=
  let state := mx_run m in
  let state := mkRunState (sessionID state) (u32 (connectionCount state + 1)) reason replay in
  mark (markReconnecting now) (put_pc Preparing (put_run state m)).

Definition handleDialFailure (reason : string) (now : Z) (m : machine) : machine :=
  let m := mark (markReconnecting now) m in
  let state := mx_run m in
  put_pc Preparing
    (put_run (mkRunState (sessionID state) (u32 (connectionCount state + 1)) reason
                (needsRestart state)) m).

Definition put_writer (conn : Z) (w : writer) (m : machine) : machine :=
  put_writers (<[conn := w]> (mx_writers m)) m.

(** [m.results <- *results], which waits while the channel is full. *)
Definition deliver (conn : Z) (snapshot : QueryResults) (m : machine) : machine :=
  let '(results, sent) := trySend resultsCapacity snapshot (mx_results m) in
  if sent then put_pc (Serving conn) (put_results results m)
  else put_pc (Delivering conn snapshot) m.

(** [receiveServerMessage]; [None] is data that is no JSON document. *)
Definition receiveServerMessage (conn : Z) (doc : option json) (now : Z) (m : machine) : machine :=
  match doc with
  | None => finishRun RunUndecodable now m
  | Some j =>
      match DecodeServerMessage j with
      | Err e => finishRun (RunProtocol e) now m
      | Ok SPing => m
      | Ok msg =>
          let '(c, r) := ReceiveMessage (Some msg) (mx_client m) in
          let m := put_client c m in
          match r with
          | Err e => finishRun (RunClient e) now m
          | Ok None => m
          | Ok (Some snapshot) => deliver conn snapshot m
          end
      end
  end.

(** ** Events *)

Inductive writer_event : Type :=
  | WTake
  | WNext
  | WSend (reply : option string)
  | WLeave.

(** [ERun] is a call of [Run]: a second one returns an error at once. *)
Inductive event : Type :=
  | ERun (random : option (list byte)) (now : Z)
  | EUser (op : operation)
  | EPublish (i : nat)
  | EConsume
  | EFlush (id : Z)
  | EPrepare (env : auth_environment)
  | EDial (failure : option string) (now : Z)
  | EGreet (clientTS : Z) (failure : option string) (now : Z)
  | EForward
  | EForwarded
  | EWriter (conn : Z) (e : writer_event)
  | EWriteError (now : Z)
  | ERead (doc : option json) (now : Z)
  | EReadError (message : string) (now : Z)
  | EDeliver
  | EInactive (now : Z)
  | ECancel (now : Z)
  | EObserve (cb : option nat)
  | EForget (id : Z)
  | ETell (j : nat).

(** The operations of the client that the manager exports. *)
Definition user_operation (op : operation) : bool :=
  match op with
  | OPopNextMessage | ORefreshAuth _ | ORestart _ | OReceive _ => false
  | _ => true
  end.

(** [Manager.Mutation] compares the snapshots before and after, and publishes the
    new one once it has left the lock; the others leave the results alone. *)
Definition user_step (op : operation) (m : machine) : machine :=
  let before := LatestResults (mx_client m) in
  let c := perform op (mx_client m) in
  let after := LatestResults c in
  let m := put_client c m in
  match op with
  | OMutation path args opts =>
      if is_ok (snd (Mutation path args opts (mx_client m)))
         && negb (queryResultsEqual before after)
      then put_publishing (mx_publishing m ++ [(TrySend, after)]) m else m
  | _ => m
  end.

Section steps.
(** The text of an error of the encoder. *)
Context (proto_text : proto_error -> string).

Definition close_reason (e : write_error) : string :=
  match e with EncodeFailed e => proto_text e | WriteFailed message => message end.

(** A step of the write loop of a connection. *)
Definition writer_step (conn : Z) (e : writer_event) (w : writer) (m : machine) : option machine :=
  match e, w_state w with
  | WTake, WaitRequest =>
      match w_requests w with
      | [] => None
      | q :: rest => Some (put_writer conn (mkWriter (TakeMessage q) rest (w_error w)) m)
      end
  | WNext, TakeMessage q =>
      match PopNextMessage (mx_client m) with
      | (c, None) =>
          Some (put_writer conn (mkWriter WaitRequest (w_requests w) (w_error w))
                  (sendFlushAck (fq_ack q) (Ok ()) (put_client c m)))
      | (c, Some msg) =>
          Some (put_writer conn (mkWriter (WriteMessage q msg) (w_requests w) (w_error w))
                  (put_client c m))
      end
  | WSend reply, WriteMessage q msg =>
      if negb (bool_decide (current m = Some conn)) && negb (bool_decide (is_Some reply)) then None
      else
        match writeClientMessage reply msg with
        | Ok _ =>
            let sent := default [] (mx_wire m !! conn) in
            Some (put_writer conn (mkWriter (TakeMessage q) (w_requests w) (w_error w))
                    (put_wire (<[conn := sent ++ [msg]]> (mx_wire m)) m))
        | Err e =>
            let m := sendFlushAck (fq_ack q) (Err e) m in
            let m := ackPendingFlushRequests (w_requests w) (Err e) m in
            Some (put_writer conn (mkWriter Returned []
                    (match w_error w with Some x => Some x | None => Some (e, fq_replay q) end)) m)
        end
  | WLeave, WaitRequest => Some (put_writer conn (mkWriter Returned (w_requests w) (w_error w)) m)
  | _, _ => None
  end.

(** The first message on a connection. *)
Definition hello (clientTS : Z) (m : machine) : ClientMessage :=
  let '(ts, ok) := MaxObservedTimestamp (mx_client m) in
  CConnect (mkConnect (sessionID (mx_run m)) (connectionCount (mx_run m)) (lastCloseReason (mx_run m))
              (if ok : bool then Some ts else None) (Some clientTS) false false).

(** The start of [Run]: [startRun], and the state of the loop, which has a random
    session id. *)
Definition startRun (random : option (list byte)) (now : Z) (m : machine) : machine :=
  let m := mark (markConnecting now) m in
  match newWebSocketRunState random with
  | Err e => finishRun e now m
  | Ok state => put_pc Preparing (put_run state m)
  end.

(** One attempt of [prepareNextConnection]. *)
Definition prepareNextConnection (env : auth_environment) (m : machine) : machine :=
  if negb (needsRestart (mx_run m)) then put_pc Dialing m
  else
    match RestartForReconnect env (mx_client m) with
    | (c, Ok _) => put_pc Dialing (put_client c m)
    | (c, Err _) => put_client c m
    end.

(** The start of [runConnection]: the Connect message, and the write loop with its
    first request. *)
Definition greet (conn clientTS : Z) (failure : option string) (now : Z) (m : machine) : machine :=
  match writeClientMessage failure (hello clientTS m) with
  | Err e => reconnect (close_reason e) false now m
  | Ok _ =>
      let m := put_wire (<[conn := [hello clientTS m]]> (mx_wire m)) m in
      let m := mark (markConnected now) m in
      put_pc (Serving conn) (put_writer conn (mkWriter WaitRequest [mkFlushRequest None true] None) m)
  end.

(** A call of [Flush], taken by the loop and then handed to the write loop. *)
Definition take_flush (conn : Z) (m : machine) : option machine :=
  match mx_flushCh m with
  | id :: rest => Some (put_pc (Forwarding conn id) (put_flushCh rest m))
  | [] => None
  end.
Definition forward (conn id : Z) (m : machine) : option machine :=
  match mx_writers m !! conn with
  | Some w =>
      let '(requests, sent) := trySend flushCapacity (mkFlushRequest (Some id) true) (w_requests w) in
      if sent then
        Some (put_pc (Serving conn) (put_writer conn (mkWriter (w_state w) requests (w_error w)) m))
      else None
  | None => None
  end.

(** The write loop has reported an error. *)
Definition write_failed (conn now : Z) (m : machine) : option machine :=
  match mx_writers m !! conn with
  | Some (mkWriter st requests (Some (e, replay))) =>
      let m := ackPendingFlushRequests requests (Err e) m in
      Some (reconnect (close_reason e) replay now (put_writer conn (mkWriter st [] None) m))
  | _ => None
  end.

Definition step (e : event) (m : machine) : option machine :=
  match e, mx_pc m with
  | ERun random now, NotRunning =>
      Some (startRun random now m)
  | ERun _ _, _ => Some m
  | EUser op, _ => if user_operation op then Some (user_step op m) else None
  | EPublish i, _ =>
      match mx_publishing m !! i with
      | None => None
      | Some (p, snapshot) =>
          let '(results, next) := publish_step p snapshot (mx_results m) in
          Some (put_publishing
                  match next with
                  | Some p => <[i := (p, snapshot)]> (mx_publishing m)
                  | None => delete i (mx_publishing m)
                  end (put_results results m))
      end
  | EConsume, _ =>
      match mx_results m with [] => None | _ :: rest => Some (put_results rest m) end
  | EFlush id, _ =>
      let '(ch, sent) := trySend flushCapacity id (mx_flushCh m) in
      if sent then Some (put_flushCh ch m) else None
  | EPrepare env, Preparing => Some (prepareNextConnection env m)
  | EDial None now, Dialing => Some (put_pc (Greeting (mx_nextConn m)) (put_nextConn (mx_nextConn m + 1) m))
  | EDial (Some reason) now, Dialing => Some (handleDialFailure reason now m)
  | EGreet clientTS failure now, Greeting conn => Some (greet conn clientTS failure now m)
  | EForward, Serving conn => take_flush conn m
  | EForwarded, Forwarding conn id => forward conn id m
  | EWriter conn e, _ =>
      match mx_writers m !! conn with Some w => writer_step conn e w m | None => None end
  | EWriteError now, Serving conn => write_failed conn now m
  | ERead doc now, Serving conn => Some (receiveServerMessage conn doc now m)
  | EReadError message now, Serving _ => Some (reconnect message true now m)
  | EDeliver, Delivering conn snapshot =>
      let '(results, sent) := trySend resultsCapacity snapshot (mx_results m) in
      if sent then Some (put_pc (Serving conn) (put_results results m)) else None
  | EInactive now, Serving _ => Some (reconnect errInactiveServer true now m)
  | ECancel now, Forwarding _ id =>
      Some (finishRun RunCanceled now (sendFlushAck (Some id) (Err (WriteFailed errCanceled)) m))
  | ECancel now, (Preparing | Dialing | Greeting _ | Serving _ | Delivering _ _) =>
      Some (finishRun RunCanceled now m)
  | EObserve cb, _ =>
      let '(box, _, calls) := SubscribeToConnectionState cb (mx_box m) in
      Some (put_first (mx_first m ++ calls) (put_box box m))
  | EForget id, _ => Some (put_box (forgetSubscriber id (mx_box m)) m)
  | ETell j, _ =>
      match mx_first m !! j with
      | None => None
      | Some call => Some (put_first (delete j (mx_first m)) (put_told (mx_told m ++ [call]) m))
      end
  | _, _ => None
  end.

(** [runs allowed n m]: [n] events, each one allowed in the state it happens in,
    lead from a new manager to [m]. *)
Inductive runs (allowed : event -> machine -> Prop) : Z -> machine -> Prop :=
  | runs_start : runs allowed 0 initialMachine
  | runs_step n m e m' : runs allowed n m -> allowed e m -> step e m = Some m' ->
      runs allowed (n + 1) m'.
End steps.

(** A write loop whose connection has ended takes no message from the queue any
    more.  The code does not see to that: see [stale_writer_takes] in
    ManagerOutcomes. *)
Definition no_stale_take (e : event) (m : machine) : Prop :=
  match e with
  | EWriter conn WNext => current m = Some conn
  | _ => True
  end.

(** No first call of an observer is overtaken: the state does not change between
    the registration of an observer and the call.  Nor does the code see to that:
    see [first_call_overtaken] in ManagerOutcomes. *)
Definition may_change_state (e : event) : bool :=
  match e with
  | ERun _ _ | EDial (Some _) _ | EGreet _ _ _ | EWriteError _ | ERead _ _ | EReadError _ _ | EInactive _
  | ECancel _ => true
  | _ => false
  end.
Definition first_calls_prompt (e : event) (m : machine) : Prop :=
  may_change_state e = true -> mx_first m = [].
