(* ===== verification/ManagerFacts.v ===== *)
(** * What the WebSocket manager guarantees

    The queue of the client against what the connections get: the session with
    the server is kept on every connection, through failures, retries and
    whatever the goroutines do in between, as long as a write loop whose
    connection has ended takes nothing more from the queue. *)
From S2P Require Import Prelude GoStrings GoBytes GoJson Values Results GoEncode Paths Protocol ClientMessages ServerMessages Canonical ClientState BaseClient ClientQueries ClientRequests ClientInvariant ClientSession SyncManager ManagerRun.
From Stdlib Require Import Strings.Byte.
Local Open Scope Z_scope.

(** ** What a piece of a loop changes *)

Lemma mark_eq f m : exists box told, mark f m = put_told told (put_box box m).
Proof. unfold mark. destruct (f (mx_box m)) as [box calls]. eauto. Qed.

Lemma put_acks_same m : put_acks (mx_acks m) m = m.
Proof. by destruct m. Qed.

Lemma sendFlushAck_eq ack r m : exists acks, sendFlushAck ack r m = put_acks acks m.
Proof.
  unfold sendFlushAck. destruct ack as [id|]; [destruct (mx_acks m !! id)|];
    eauto using put_acks_same, eq_sym.
Qed.

Lemma ackPending_eq l r m : exists acks, ackPendingFlushRequests l r m = put_acks acks m.
Proof.
  revert m. induction l as [|q l IH]; intros m; [eauto using put_acks_same, eq_sym|].
  change (ackPendingFlushRequests (q :: l) r m)
    with (ackPendingFlushRequests l r (sendFlushAck (fq_ack q) r m)).
  destruct (sendFlushAck_eq (fq_ack q) r m) as [a ->]. destruct (IH (put_acks a m)) as [a' IHa].
  rewrite IHa. by exists a'.
Qed.

(** Replace the pieces by the fields they set. *)
Ltac open_pieces :=
  repeat match goal with
  | |- context [mark ?f ?m] =>
      let b := fresh "box" in let t := fresh "told" in
      destruct (mark_eq f m) as (b & t & ->)
  | |- context [sendFlushAck ?a ?r ?m] =>
      let x := fresh "acks" in destruct (sendFlushAck_eq a r m) as [x ->]
  | |- context [ackPendingFlushRequests ?l ?r ?m] =>
      let x := fresh "acks" in destruct (ackPending_eq l r m) as [x ->]
  end.

(** ** The invariant *)

(** The client has sent [log] since it was started or restarted. *)
Definition synced (n : Z) (c : Client) (log : list ClientMessage) : Prop :=
  exists k, k <= n /\ history k c (Some log).
Definition past (n : Z) (c : Client) : Prop := exists k sent, k <= n /\ history k c sent.

Lemma synced_past n c log : synced n c log -> past n c.
Proof. intros (k & Hk & H). exists k, (Some log). done. Qed.

(** What the client has sent, from what the connection got and where its write
    loop is. *)
Definition writer_log (st : writer_state) (n : Z) (c : Client) (log : list ClientMessage) : Prop :=
  match st with
  | WaitRequest | TakeMessage _ => synced n c log
  | WriteMessage _ msg => synced n c (log ++ [msg])
  | Returned => exists lost, synced n c (log ++ lost)
  end.

(** Where the loop of [Run] is, and what the client has sent by then. *)
Definition in_step (n : Z) (m : machine) : Prop :=
  match mx_pc m with
  | NotRunning | Dialing | Greeting _ => synced n (mx_client m) []
  | Preparing => if needsRestart (mx_run m) then past n (mx_client m) else synced n (mx_client m) []
  | Serving conn | Forwarding conn _ | Delivering conn _ =>
      exists w hello log, mx_writers m !! conn = Some w /\
        mx_wire m !! conn = Some (CConnect hello :: log) /\
        writer_log (w_state w) n (mx_client m) log
  | Finished _ => past n (mx_client m)
  end.

Record session_inv (n : Z) (m : machine) : Prop := {
  si_fresh : forall conn, mx_nextConn m <= conn ->
    mx_writers m !! conn = None /\ mx_wire m !! conn = None;
  si_current : forall conn, current m = Some conn -> conn < mx_nextConn m;
  si_greeting : forall conn, mx_pc m = Greeting conn -> mx_writers m !! conn = None;
  si_step : in_step n m
}.

Lemma writer_log_past st n c log : writer_log st n c log -> past n c.
Proof. destruct st; [apply synced_past..|]. intros [lost H]. by eapply synced_past. Qed.

Lemma in_step_past n m : in_step n m -> past n (mx_client m).
Proof.
  unfold in_step. destruct (mx_pc m); try apply synced_past; try done.
  - destruct (needsRestart (mx_run m)); [done|apply synced_past].
  - intros (w & h & log & _ & _ & H). by eapply writer_log_past.
  - intros (w & h & log & _ & _ & H). by eapply writer_log_past.
  - intros (w & h & log & _ & _ & H). by eapply writer_log_past.
Qed.

(** ** Operations of the client *)

Lemma synced_mono n n' c log : n <= n' -> synced n c log -> synced n' c log.
Proof. intros Hn (k & Hk & H). exists k. split; [lia|done]. Qed.
Lemma past_mono n n' c : n <= n' -> past n c -> past n' c.
Proof. intros Hn (k & s & Hk & H). exists k, s. split; [lia|done]. Qed.

Lemma synced_op n c log op :
  match op with OPopNextMessage | ORestart _ => False | _ => True end ->
  synced n c log -> synced (n + 1) (perform op c) log.
Proof. intros Hop (k & Hk & H). exists (k + 1). split; [lia|]. by apply hist_step. Qed.
Lemma past_op n c op :
  match op with OPopNextMessage | ORestart _ => False | _ => True end ->
  past n c -> past (n + 1) (perform op c).
Proof. intros Hop (k & s & Hk & H). exists (k + 1), s. split; [lia|]. by apply hist_step. Qed.

Lemma synced_pop n c log :
  synced n c log ->
  synced (n + 1) (fst (PopNextMessage c)) (log ++ option_list (snd (PopNextMessage c))).
Proof. intros (k & Hk & H). exists (k + 1). split; [lia|]. apply (hist_pop _ _ _ H). Qed.

Lemma restart_synced n c env :
  past n c ->
  match RestartForReconnect env c with
  | (c', Ok _) => synced (n + 1) c' []
  | (c', Err _) => past (n + 1) c'
  end.
Proof.
  intros (k & s & Hk & H). pose proof (hist_restart _ _ _ env H) as H'.
  destruct (RestartForReconnect env c) as [c' [u|e]]; cbn in H'.
  - exists (k + 1). split; [lia|done].
  - exists (k + 1), None. split; [lia|done].
Qed.

Lemma writer_log_client n c c' st log :
  (forall log, synced n c log -> synced (n + 1) c' log) ->
  writer_log st n c log -> writer_log st (n + 1) c' log.
Proof. intros Hs. destruct st; cbn; auto. intros [lost H]. eauto. Qed.

(** The client moves on while the loop of [Run] stays where it is. *)
Lemma in_step_client n m c :
  (forall log, synced n (mx_client m) log -> synced (n + 1) c log) ->
  (past n (mx_client m) -> past (n + 1) c) ->
  in_step n m -> in_step (n + 1) (put_client c m).
Proof.
  intros Hs Hp. unfold in_step. cbn. destruct (mx_pc m); auto.
  - destruct (needsRestart (mx_run m)); auto.
  - intros (w & h & log & Hw & Hl & H). exists w, h, log. eauto using writer_log_client.
  - intros (w & h & log & Hw & Hl & H). exists w, h, log. eauto using writer_log_client.
  - intros (w & h & log & Hw & Hl & H). exists w, h, log. eauto using writer_log_client.
Qed.

Lemma session_inv_client n m c :
  (forall log, synced n (mx_client m) log -> synced (n + 1) c log) ->
  (past n (mx_client m) -> past (n + 1) c) ->
  session_inv n m -> session_inv (n + 1) (put_client c m).
Proof. intros Hs Hp [H1 H2 H3 H4]. split; [done..|]. by apply in_step_client. Qed.

Lemma session_inv_next n m : session_inv n m -> session_inv (n + 1) m.
Proof.
  intros H. replace m with (put_client (mx_client m) m) by (by destruct m).
  apply session_inv_client; [|apply past_mono; lia|done].
  intros log. apply synced_mono. lia.
Qed.

(** Outside a connection only the client matters. *)
Lemma session_inv_between n m pc run :
  match pc with
  | NotRunning | Dialing => synced n (mx_client m) []
  | Preparing => if needsRestart run then past n (mx_client m) else synced n (mx_client m) []
  | Finished _ => past n (mx_client m)
  | _ => False
  end ->
  session_inv n m -> session_inv n (put_pc pc (put_run run m)).
Proof.
  intros Hpc [H1 H2 H3 H4]. split; [done|..].
  - cbn. unfold current. cbn. by destruct pc.
  - cbn. by destruct pc.
  - unfold in_step. cbn. by destruct pc.
Qed.

(** Fields the session does not depend on. *)
Lemma session_inv_frame n m m' :
  mx_client m' = mx_client m -> mx_pc m' = mx_pc m -> mx_run m' = mx_run m ->
  mx_nextConn m' = mx_nextConn m -> mx_writers m' = mx_writers m -> mx_wire m' = mx_wire m ->
  session_inv n m -> session_inv n m'.
Proof.
  destruct m, m'. cbn. intros -> -> -> -> -> -> [H1 H2 H3 H4]. by split.
Qed.

(** A step of the write loop of a connection, with what it does to the client. *)
Lemma session_inv_writer n m conn w w' c :
  mx_writers m !! conn = Some w ->
  (current m <> Some conn -> c = mx_client m) ->
  (current m = Some conn -> forall log,
     writer_log (w_state w) n (mx_client m) log -> writer_log (w_state w') (n + 1) c log) ->
  session_inv n m -> session_inv (n + 1) (put_writer conn w' (put_client c m)).
Proof.
  intros Hw Hc Hlog Hi.
  assert (Hold : current m <> Some conn -> in_step (n + 1) (put_client c m)).
  { intros Hne. rewrite Hc by done. apply in_step_client; [|apply past_mono; lia|apply Hi].
    intros log. apply synced_mono. lia. }
  destruct Hi as [H1 H2 H3 H4]. split; cbn.
  - intros conn' Hle. destruct (H1 conn' Hle) as [Hn Hl]. split; [|done].
    rewrite lookup_insert_ne; [done|]. intros ->. congruence.
  - exact H2.
  - intros conn' Hg. rewrite lookup_insert_ne; [by apply H3|]. intros ->.
    rewrite (H3 conn' Hg) in Hw. done.
  - assert (Hserve : forall conn',
      (exists w h log, mx_writers m !! conn' = Some w /\ mx_wire m !! conn' = Some (CConnect h :: log) /\
         writer_log (w_state w) n (mx_client m) log) ->
      current m = Some conn' ->
      (current m <> Some conn -> exists w h log, mx_writers m !! conn' = Some w /\
         mx_wire m !! conn' = Some (CConnect h :: log) /\ writer_log (w_state w) (n + 1) c log) ->
      exists w0 h log, <[conn := w']> (mx_writers m) !! conn' = Some w0 /\
        mx_wire m !! conn' = Some (CConnect h :: log) /\ writer_log (w_state w0) (n + 1) c log).
    { intros conn' (w0 & h & log & Hw0 & Hl & H) Hcur Ho.
      destruct (decide (conn' = conn)) as [->|Hne].
      - exists w', h, log. rewrite lookup_insert_eq. split; [done|]. split; [done|].
        apply Hlog; [done|]. by replace w with w0 by congruence.
      - rewrite lookup_insert_ne by done. apply Ho. congruence. }
    unfold in_step in *. unfold current in *. cbn in *.
    destruct (mx_pc m) as [| | |conn'|conn'|conn' id|conn' qr|e] eqn:Hpc; try (by apply Hold).
    + apply Hold. intros [= ->]. rewrite (H3 conn eq_refl) in Hw. done.
    + by apply Hserve.
    + by apply Hserve.
    + by apply Hserve.
Qed.

(** ** The steps *)

Lemma finishRun_session n e now m : session_inv n m -> session_inv n (finishRun e now m).
Proof.
  intros H. unfold finishRun. open_pieces.
  apply (session_inv_frame n (put_pc (Finished e) (put_run (mx_run m) m))); try done.
  apply session_inv_between; [|done]. by apply in_step_past, H.
Qed.

Lemma reconnect_session n reason now m : session_inv n m -> session_inv n (reconnect reason true now m).
Proof.
  intros H. unfold reconnect. open_pieces.
  eapply (session_inv_frame n (put_pc Preparing (put_run _ m))); try done.
  apply session_inv_between; [|done]. cbn. by apply in_step_past, H.
Qed.

Lemma user_session n op m :
  user_operation op = true -> session_inv n m -> session_inv (n + 1) (user_step op m).
Proof.
  intros Hop H. apply (session_inv_frame _ (put_client (perform op (mx_client m)) m));
    try (unfold user_step; destruct op; try done; by destruct (_ && _)).
  apply session_inv_client; [|by apply past_op; destruct op|done].
  intros log. apply synced_op. by destruct op.
Qed.

(** On one connection the loop may be at any of these places. *)
Definition serves_at (conn : Z) (pc : run_pc) : Prop :=
  pc = Serving conn \/ (exists id, pc = Forwarding conn id) \/ (exists qr, pc = Delivering conn qr).
Lemma serve_session n conn m pc :
  serves_at conn (mx_pc m) -> serves_at conn pc -> session_inv n m -> session_inv n (put_pc pc m).
Proof.
  intros Hpc Hpc' [H1 H2 H3 H4].
  assert (Hin : exists w hello log, mx_writers m !! conn = Some w /\
      mx_wire m !! conn = Some (CConnect hello :: log) /\ writer_log (w_state w) n (mx_client m) log).
  { unfold in_step in H4. by destruct Hpc as [E|[[? E]|[? E]]]; rewrite E in H4. }
  assert (Hlt : conn < mx_nextConn m).
  { apply H2. unfold current. by destruct Hpc as [E|[[? E]|[? E]]]; rewrite E. }
  destruct Hpc' as [->|[[id ->]|[qr ->]]]; split; cbn; try done; unfold current; cbn; by intros ? [= <-].
Qed.

(** A step of a publication sets two fields. *)
Lemma publish_frame proto_text i m m' : step proto_text (EPublish i) m = Some m' ->
  exists ps rs, m' = put_publishing ps (put_results rs m).
Proof.
  intros Hs. cbn [step] in Hs. destruct (mx_publishing m !! i) as [[p q]|]; [|destruct (mx_pc m); discriminate].
  destruct (publish_step p q (mx_results m)) as [rs next]. eexists _, rs. by destruct (mx_pc m); injection Hs as <-.
Qed.

Lemma deliver_session n conn qr m :
  mx_pc m = Serving conn -> session_inv n m -> session_inv n (deliver conn qr m).
Proof.
  intros Hpc H. unfold deliver. destruct (trySend resultsCapacity qr (mx_results m)) as [results []].
  - apply (serve_session _ conn); [by left|by left|]. by apply (session_inv_frame _ m).
  - apply (serve_session _ conn); [by left|right; right; by eexists|done].
Qed.

Lemma receive_session n conn doc now m :
  mx_pc m = Serving conn -> session_inv n m ->
  session_inv (n + 1) (receiveServerMessage conn doc now m).
Proof.
  intros Hpc H. pose proof (session_inv_next n m H) as Hn. unfold receiveServerMessage.
  destruct doc as [j|]; [|by apply finishRun_session].
  destruct (DecodeServerMessage j) as [msg|e]; [|by apply finishRun_session].
  assert (Hc : session_inv (n + 1) (put_client (perform (OReceive (Some msg)) (mx_client m)) m)).
  { apply session_inv_client; [|by apply past_op|done]. intros log. by apply synced_op. }
  cbn [perform] in Hc.
  assert (Hgo : session_inv (n + 1)
    (let '(c, r) := ReceiveMessage (Some msg) (mx_client m) in
     let m := put_client c m in
     match r with
     | Err e => finishRun (RunClient e) now m
     | Ok None => m
     | Ok (Some snapshot) => deliver conn snapshot m
     end)).
  { destruct (ReceiveMessage (Some msg) (mx_client m)) as [c [[qr|]|e]]; cbn [fst] in Hc.
    - by apply deliver_session.
    - done.
    - by apply finishRun_session. }
  by destruct msg.
Qed.

Lemma writer_next_session n conn q w m :
  mx_writers m !! conn = Some w -> w_state w = TakeMessage q -> current m = Some conn ->
  forall w', w_state w' = match snd (PopNextMessage (mx_client m)) with
                          | Some msg => WriteMessage q msg | None => WaitRequest end ->
  session_inv n m -> session_inv (n + 1) (put_writer conn w' (put_client (fst (PopNextMessage (mx_client m))) m)).
Proof.
  intros Hw Hst Hcur w' Hw' H. apply (session_inv_writer n m conn w); [done|congruence| |done].
  intros _ log. rewrite Hst, Hw'. cbn [writer_log]. intros Hlog.
  pose proof (synced_pop _ _ _ Hlog) as Hp.
  destruct (snd (PopNextMessage (mx_client m))); cbn in Hp |- *; [done|]. by rewrite app_nil_r in Hp.
Qed.

(** A message written on the open connection. *)
Lemma writer_sent_session n conn q msg w w' m :
  mx_writers m !! conn = Some w -> w_state w = WriteMessage q msg -> w_state w' = TakeMessage q ->
  current m = Some conn -> session_inv n m ->
  session_inv (n + 1) (put_writer conn w'
    (put_wire (<[conn := default [] (mx_wire m !! conn) ++ [msg]]> (mx_wire m)) m)).
Proof.
  intros Hw Hst Hst' Hcur H. destruct (session_inv_next n m H) as [H1 H2 H3 H4].
  pose proof (H2 conn Hcur) as Hlt. split; cbn.
  - intros conn' Hle. destruct (H1 conn' Hle). by rewrite !lookup_insert_ne by lia.
  - done.
  - intros conn' Hg. unfold current in Hcur. rewrite Hg in Hcur. injection Hcur as ->.
    rewrite (H3 conn Hg) in Hw. done.
  - unfold in_step in *. unfold current in Hcur. cbn.
    destruct (mx_pc m) as [| | |conn'|conn'|conn' id|conn' qr|e] eqn:Hpc; try discriminate Hcur;
      injection Hcur as ->.
    + rewrite (H3 conn eq_refl) in Hw. done.
    + destruct H4 as (w0 & h & log & Hw0 & Hl & Hlog). exists w', h, (log ++ [msg]).
      rewrite !lookup_insert_eq, Hl. split; [done|]. split; [done|].
      replace w0 with w in Hlog by congruence. by rewrite Hst in Hlog; rewrite Hst'.
    + destruct H4 as (w0 & h & log & Hw0 & Hl & Hlog). exists w', h, (log ++ [msg]).
      rewrite !lookup_insert_eq, Hl. split; [done|]. split; [done|].
      replace w0 with w in Hlog by congruence. by rewrite Hst in Hlog; rewrite Hst'.
    + destruct H4 as (w0 & h & log & Hw0 & Hl & Hlog). exists w', h, (log ++ [msg]).
      rewrite !lookup_insert_eq, Hl. split; [done|]. split; [done|].
      replace w0 with w in Hlog by congruence. by rewrite Hst in Hlog; rewrite Hst'.
Qed.

Lemma writer_session n conn e w m m' :
  mx_writers m !! conn = Some w -> no_stale_take (EWriter conn e) m ->
  writer_step conn e w m = Some m' -> session_inv n m -> session_inv (n + 1) m'.
Proof.
  intros Hw Hok Hs H. unfold writer_step in Hs.
  assert (Hkeep : forall w' m1,
    mx_client m1 = mx_client m -> mx_pc m1 = mx_pc m -> mx_run m1 = mx_run m ->
    mx_nextConn m1 = mx_nextConn m -> mx_writers m1 = <[conn := w']> (mx_writers m) ->
    mx_wire m1 = mx_wire m ->
    (current m = Some conn -> forall log, writer_log (w_state w) n (mx_client m) log ->
       writer_log (w_state w') n (mx_client m) log) -> session_inv (n + 1) m1).
  { intros w' m1 E1 E2 E3 E4 E5 E6 Hlog.
    apply (session_inv_frame _ (put_writer conn w' (put_client (mx_client m) m))); try done.
    apply (session_inv_writer n m conn w); [done|done| |done]. intros Hcur log Hl.
    eapply writer_log_client; [intros ?; apply synced_mono; lia|]. by apply Hlog. }
  destruct e as [| |reply|], (w_state w) as [|q|q msg|] eqn:Hst; try discriminate Hs.
  - destruct (w_requests w) as [|q rest]; [discriminate|]. injection Hs as <-.
    by apply (Hkeep (mkWriter (TakeMessage q) rest (w_error w))).
  - pose proof (writer_next_session n conn q w m Hw Hst Hok) as Hnext.
    destruct (PopNextMessage (mx_client m)) as [c [msg|]]; injection Hs as <-; cbn [fst snd] in Hnext.
    + by apply Hnext.
    + destruct (sendFlushAck_eq (fq_ack q) (Ok ()) (put_client c m)) as [a ->].
      eapply session_inv_frame; [..|by apply (Hnext (mkWriter WaitRequest (w_requests w) (w_error w)))]; done.
  - destruct (bool_decide_reflect (current m = Some conn)) as [Hcur|Hcur]; cbn in Hs.
    + destruct (writeClientMessage reply msg); injection Hs as <-.
      * by apply (writer_sent_session n conn q msg w).
      * open_pieces. eapply (Hkeep (mkWriter Returned [] _)); try done. cbn [writer_log w_state].
        intros _ log Hl. by exists [msg].
    + destruct (bool_decide_reflect (is_Some reply)) as [[r ->]|Hr]; cbn in Hs; [|discriminate].
      assert (Herr : exists e, writeClientMessage (Some r) msg = Err e).
      { unfold writeClientMessage. destruct (map_err _ _) as [[]|e]; cbn; eauto. }
      destruct Herr as [e He]. rewrite He in Hs. injection Hs as <-. open_pieces.
      by eapply (Hkeep (mkWriter Returned [] _)).
  - injection Hs as <-. apply (Hkeep (mkWriter Returned (w_requests w) (w_error w))); try done.
    intros _ log Hl. exists []. by rewrite app_nil_r.
Qed.

Lemma hello_connect ts m : exists h, hello ts m = CConnect h.
Proof. unfold hello. destruct (MaxObservedTimestamp (mx_client m)) as [t ok]. eauto. Qed.

Lemma greet_session n conn ts now m :
  mx_pc m = Greeting conn -> session_inv n m ->
  session_inv n (put_pc (Serving conn)
    (put_writer conn (mkWriter WaitRequest [mkFlushRequest None true] None)
       (mark (markConnected now) (put_wire (<[conn := [hello ts m]]> (mx_wire m)) m)))).
Proof.
  intros Hpc [H1 H2 H3 H4]. open_pieces. destruct (hello_connect ts m) as [h ->].
  assert (Hlt : conn < mx_nextConn m) by (apply H2; unfold current; by rewrite Hpc).
  split; cbn.
  - intros conn' Hle. destruct (H1 conn' Hle). by rewrite !lookup_insert_ne by lia.
  - unfold current. cbn. by intros ? [= <-].
  - done.
  - unfold in_step in *. rewrite Hpc in H4. cbn. eexists _, h, [].
    rewrite !lookup_insert_eq. by split.
Qed.

Lemma dial_session n m :
  mx_pc m = Dialing -> session_inv n m ->
  session_inv n (put_pc (Greeting (mx_nextConn m)) (put_nextConn (mx_nextConn m + 1) m)).
Proof.
  intros Hpc [H1 H2 H3 H4]. split; cbn.
  - intros conn Hle. apply H1. lia.
  - unfold current. cbn. intros ? [= <-]. lia.
  - intros ? [= <-]. by apply H1.
  - unfold in_step in *. by rewrite Hpc in H4.
Qed.

Section session.
Context (proto_text : proto_error -> string).

(** What a step does to a write loop, with the client before it. *)
Inductive writer_moves (c : Client) : writer -> writer -> Prop :=
  | moves_take q rest e : writer_moves c (mkWriter WaitRequest (q :: rest) e) (mkWriter (TakeMessage q) rest e)
  | moves_hold q rest e msg : msg ∈ outgoing c ->
      writer_moves c (mkWriter (TakeMessage q) rest e) (mkWriter (WriteMessage q msg) rest e)
  | moves_done q rest e : writer_moves c (mkWriter (TakeMessage q) rest e) (mkWriter WaitRequest rest e)
  | moves_sent q rest e msg :
      writer_moves c (mkWriter (WriteMessage q msg) rest e) (mkWriter (TakeMessage q) rest e)
  | moves_failed q rest e msg x :
      writer_moves c (mkWriter (WriteMessage q msg) rest e)
        (mkWriter Returned [] (match e with Some y => Some y | None => Some (x, fq_replay q) end))
  | moves_leave rest e : writer_moves c (mkWriter WaitRequest rest e) (mkWriter Returned rest e)
  | moves_asked st rest e id :
      writer_moves c (mkWriter st rest e) (mkWriter st (rest ++ [mkFlushRequest (Some id) true]) e)
  | moves_told st rest x : writer_moves c (mkWriter st rest (Some x)) (mkWriter st [] None).

Lemma writer_step_moves conn e w m m' :
  writer_step conn e w m = Some m' ->
  exists w', mx_writers m' = <[conn := w']> (mx_writers m) /\ writer_moves (mx_client m) w w'.
Proof.
  intros Hs. unfold writer_step in Hs. destruct w as [st rest err].
  destruct e as [| |reply|], st as [|q|q msg|]; try discriminate Hs; cbn [w_state w_requests w_error] in Hs.
  - destruct rest as [|q rest]; [discriminate|]. injection Hs as <-. eexists. by split; [|constructor].
  - unfold PopNextMessage in Hs. destruct (outgoing (mx_client m)) as [|x l] eqn:Ho; injection Hs as <-;
      open_pieces; eexists; (split; [done|constructor]). rewrite Ho. by left.
  - destruct (_ && _); [discriminate|].
    destruct (writeClientMessage reply msg) as [u|x]; injection Hs as <-; open_pieces; eexists;
      (split; [done|constructor]).
  - injection Hs as <-. eexists. by split; [|constructor].
Qed.

Lemma receive_writers conn doc now m : mx_writers (receiveServerMessage conn doc now m) = mx_writers m.
Proof.
  unfold receiveServerMessage, finishRun, deliver. destruct doc as [j|]; [|by open_pieces].
  destruct (DecodeServerMessage j) as [msg|e]; [|by open_pieces].
  destruct (ReceiveMessage (Some msg) (mx_client m)) as [c [[qr|]|e]];
    destruct (trySend resultsCapacity _ _) as [rs []] || idtac; destruct msg; try done; by open_pieces.
Qed.

Lemma step_writers e m m' :
  step proto_text e m = Some m' ->
  mx_writers m' = mx_writers m \/
  exists conn w', mx_writers m' = <[conn := w']> (mx_writers m) /\
    (w' = mkWriter WaitRequest [mkFlushRequest None true] None \/
     exists w, mx_writers m !! conn = Some w /\ writer_moves (mx_client m) w w').
Proof.
  intros Hs.
  destruct e as [random now|op|i| |id|env|failure now|ts failure now| | |conn e|now|doc now|msg now| |now|now|cb|id|j];
    cbn [step] in Hs;
    try (left; unfold take_flush in Hs;
         repeat case_match; simplify_eq; unfold startRun, prepareNextConnection, finishRun, reconnect,
           handleDialFailure, receiveServerMessage, user_step, deliver; repeat case_match; open_pieces; done).
  - destruct (mx_pc m); try discriminate Hs. injection Hs as <-. unfold greet, reconnect.
    destruct (writeClientMessage failure (hello ts m)); open_pieces; [right|by left].
    eexists _, _. split; [done|by left].
  - destruct (mx_pc m); try discriminate Hs. unfold forward in Hs.
    destruct (mx_writers m !! conn) as [[st rest x]|] eqn:Hw; [|discriminate]. unfold trySend in Hs.
    destruct (_ <? _)%nat; [|discriminate]. injection Hs as <-. right. eexists _, _. split; [done|right].
    eexists. split; [done|constructor].
  - destruct (mx_writers m !! conn) as [w|] eqn:Hw; [|destruct (mx_pc m); discriminate].
    destruct (writer_step_moves conn e w m m') as (w' & -> & Hm); [by destruct (mx_pc m)|]. right. eauto 8.
  - destruct (mx_pc m); try discriminate Hs. unfold write_failed in Hs.
    destruct (mx_writers m !! conn) as [[st rs [[e replay]|]]|] eqn:Hw; try discriminate Hs.
    injection Hs as <-. unfold reconnect. open_pieces. right. eexists _, _. split; [done|right].
    eexists. split; [done|constructor].
  - destruct (mx_pc m); try discriminate Hs. injection Hs as <-. left. apply receive_writers.
Qed.

(** A property of the write loops that the moves keep. *)
Lemma step_all_writers (P : writer -> Prop) e m m' :
  P (mkWriter WaitRequest [mkFlushRequest None true] None) ->
  (forall w w', writer_moves (mx_client m) w w' -> P w -> P w') ->
  step proto_text e m = Some m' ->
  map_Forall (fun _ w => P w) (mx_writers m) -> map_Forall (fun _ w => P w) (mx_writers m').
Proof.
  intros H0 Hmove Hs H. destruct (step_writers e m m' Hs) as [->|(conn & w' & -> & Hw)]; [done|].
  apply map_Forall_insert_2; [|done]. destruct Hw as [->|(w & Hw & Hm)]; [done|]. by eapply Hmove, H.
Qed.

(** Every failed write loop asks for a restart. *)
Definition asks_restart (w : writer) : Prop :=
  Forall (fun q => fq_replay q = true) (w_requests w) /\
  match w_state w with TakeMessage q | WriteMessage q _ => fq_replay q = true | _ => True end /\
  match w_error w with Some (_, replay) => replay = true | None => True end.
Definition replay_inv (m : machine) : Prop := map_Forall (fun _ w => asks_restart w) (mx_writers m).

Lemma moves_replay c w w' : writer_moves c w w' -> asks_restart w -> asks_restart w'.
Proof.
  unfold asks_restart. intros [] (Hq & Hst & He); cbn in *; try by repeat split.
  - by apply Forall_cons in Hq as [??].
  - repeat split; [constructor|]. by destruct e.
  - repeat split; [|done..]. apply Forall_app. split; [done|by constructor].
Qed.

Lemma step_replay e m m' : step proto_text e m = Some m' -> replay_inv m -> replay_inv m'.
Proof. apply step_all_writers; [by repeat constructor|apply moves_replay]. Qed.

Lemma step_session n e m m' :
  session_inv n m -> replay_inv m -> no_stale_take e m -> step proto_text e m = Some m' -> session_inv (n + 1) m'.
Proof.
  intros H Hrep Hok Hs. pose proof (session_inv_next n m H) as Hn. pose proof (si_step _ _ H) as Hin.
  unfold in_step in Hin.
  destruct e as [random now|op|i| |id|env|failure now|ts failure now| | |conn e|now|doc now|msg now| |now|now|cb|id|j];
    cbn [step] in Hs.
  - destruct (mx_pc m) eqn:Hpc; try (injection Hs as <-; exact Hn).
    injection Hs as <-. unfold startRun.
    destruct (newWebSocketRunState random) as [state|e] eqn:Hst; open_pieces.
    + destruct random as [bytes|]; [|discriminate Hst]. injection Hst as <-. apply (session_inv_frame _ (put_pc Preparing
        (put_run (mkRunState (formatSyncSessionID bytes) 0 "InitialConnect" false) m))); try done.
      apply session_inv_between; [|done]. cbn. apply (synced_mono n); [lia|exact Hin].
    + apply finishRun_session. by apply (session_inv_frame _ m).
  - destruct (user_operation op) eqn:Hop; [|destruct (mx_pc m); discriminate].
    assert (m' = user_step op m) as -> by (destruct (mx_pc m); congruence).
    by apply user_session.
  - apply (publish_frame proto_text) in Hs as (ps & rs & ->). by apply (session_inv_frame _ m).
  - destruct (mx_results m) as [|x l]; [destruct (mx_pc m); discriminate|].
    assert (m' = put_results l m) as -> by (destruct (mx_pc m); congruence).
    by apply (session_inv_frame _ m).
  - destruct (trySend flushCapacity id (mx_flushCh m)) as [ch []]; [|destruct (mx_pc m); discriminate].
    assert (m' = put_flushCh ch m) as -> by (destruct (mx_pc m); congruence).
    by apply (session_inv_frame _ m).
  - destruct (mx_pc m) eqn:Hpc; try discriminate Hs. injection Hs as <-. unfold prepareNextConnection.
    destruct (needsRestart (mx_run m)) eqn:Hr; cbn [negb].
    + pose proof (restart_synced n (mx_client m) env Hin) as Hre.
      destruct (RestartForReconnect env (mx_client m)) as [c [u|e]].
      * destruct Hn as [H1 H2 H3 _]. by split.
      * destruct Hn as [H1 H2 H3 _]. split; try done. unfold in_step. cbn. by rewrite Hpc, Hr.
    + destruct Hn as [H1 H2 H3 H4]. split; try done.
      unfold in_step in *. by rewrite Hpc, Hr in H4.
  - destruct failure as [reason|]; destruct (mx_pc m) eqn:Hpc; try discriminate Hs; injection Hs as <-.
    + unfold handleDialFailure. open_pieces. eapply (session_inv_frame _ (put_pc Preparing
        (put_run (mkRunState (sessionID (mx_run m)) (u32 (connectionCount (mx_run m) + 1)) reason
           (needsRestart (mx_run m))) m))); try done.
      apply session_inv_between; [|done]. cbn. apply (synced_mono n (n + 1)) in Hin; [|lia].
      destruct (needsRestart (mx_run m)); [by eapply synced_past|done].
    + by apply dial_session.
  - destruct (mx_pc m) eqn:Hpc; try discriminate Hs. injection Hs as <-. unfold greet.
    destruct (writeClientMessage failure (hello ts m)).
    + by apply greet_session.
    + unfold reconnect. open_pieces. eapply (session_inv_frame _ (put_pc Preparing (put_run _ m))); try done.
      apply session_inv_between; [|done]. cbn. apply (synced_mono n); [lia|exact Hin].
  - destruct (mx_pc m) eqn:Hpc; try discriminate Hs. unfold take_flush in Hs.
    destruct (mx_flushCh m) as [|id rest]; [discriminate|]. injection Hs as <-.
    apply (session_inv_frame _ (put_pc (Forwarding conn id) m)); try done.
    apply (serve_session _ conn); [by left|right; left; by eexists|done].
  - destruct (mx_pc m) eqn:Hpc; try discriminate Hs. unfold forward in Hs.
    destruct (mx_writers m !! conn) as [w|] eqn:Hw; [|discriminate].
    destruct (trySend flushCapacity (mkFlushRequest (Some id) true) (w_requests w)) as [rs []];
      [|discriminate]. injection Hs as <-.
    apply (serve_session _ conn); [by right; left; eexists|by left|].
    apply (session_inv_frame _ (put_writer conn (mkWriter (w_state w) rs (w_error w))
      (put_client (mx_client m) m))); try done.
    apply (session_inv_writer n m conn w); [done|done| |done]. intros _ log.
    apply writer_log_client. intros ?. apply synced_mono. lia.
  - destruct (mx_writers m !! conn) as [w|] eqn:Hw; [|destruct (mx_pc m); discriminate].
    apply (writer_session n conn e w m m'); try done; by destruct (mx_pc m).
  - destruct (mx_pc m) eqn:Hpc; try discriminate Hs. unfold write_failed in Hs.
    destruct (mx_writers m !! conn) as [[st rs [[e replay]|]]|] eqn:Hw; try discriminate Hs.
    destruct (Hrep conn _ Hw) as (_ & _ & ->). injection Hs as <-. apply reconnect_session.
    open_pieces.
    apply (session_inv_frame _ (put_writer conn (mkWriter st [] None) (put_client (mx_client m) m)));
      try done.
    apply (session_inv_writer n m conn _ _ _ Hw); [done| |done]. intros _ log.
    apply writer_log_client. intros ?. apply synced_mono. lia.
  - destruct (mx_pc m) eqn:Hpc; try discriminate Hs. injection Hs as <-. by apply receive_session.
  - destruct (mx_pc m) eqn:Hpc; try discriminate Hs. injection Hs as <-. by apply reconnect_session.
  - destruct (mx_pc m) as [| | | | | |conn qr|] eqn:Hpc; try discriminate Hs.
    destruct (trySend resultsCapacity qr (mx_results m)) as [results []]; [|discriminate].
    injection Hs as <-. apply (serve_session _ conn); [right; right; by eexists|by left|].
    by apply (session_inv_frame _ m).
  - destruct (mx_pc m) eqn:Hpc; try discriminate Hs. injection Hs as <-. by apply reconnect_session.
  - destruct (mx_pc m) eqn:Hpc; try discriminate Hs; injection Hs as <-; apply finishRun_session; try done.
    destruct (mx_acks m !! id); [done|by apply (session_inv_frame _ m)].
  - destruct (SubscribeToConnectionState cb (mx_box m)) as [[box id] calls].
    assert (m' = put_first (mx_first m ++ calls) (put_box box m)) as -> by (destruct (mx_pc m); congruence).
    by apply (session_inv_frame _ m).
  - assert (m' = put_box (forgetSubscriber id (mx_box m)) m) as -> by (destruct (mx_pc m); congruence).
    by apply (session_inv_frame _ m).
  - destruct (mx_first m !! j) as [call|]; [|destruct (mx_pc m); discriminate].
    assert (m' = put_first (delete j (mx_first m)) (put_told (mx_told m ++ [call]) m)) as ->
      by (destruct (mx_pc m); congruence).
    by apply (session_inv_frame _ m).
Qed.

Lemma runs_session n m : runs proto_text no_stale_take n m -> session_inv n m /\ replay_inv m.
Proof.
  induction 1 as [|n m e m' Hr [Hs Hp] Hok He].
  - split; [|done]. split; try done. exists 0. split; [done|]. constructor.
  - split; [by eapply step_session|by eapply step_replay].
Qed.
End session.

(** The message a write loop took and has not written. *)
Definition in_flight (st : writer_state) : list ClientMessage :=
  match st with WriteMessage _ msg => [msg] | _ => [] end.

(** ** The manager's steps as operations of the client *)

(** At most one operation of the client, and one that the manager exports only
    for a user. *)
Definition does (m m' : machine) (user : option operation) : Prop :=
  mx_client m' = mx_client m \/
  exists op, mx_client m' = perform op (mx_client m) /\ (user_operation op = true -> user = Some op).

Lemma receive_does conn doc now m : does m (receiveServerMessage conn doc now m) None.
Proof.
  unfold receiveServerMessage, finishRun, deliver, does.
  destruct doc as [j|]; [|open_pieces; by left].
  destruct (DecodeServerMessage j) as [msg|e]; [|open_pieces; by left].
  assert (Hgo : forall m', mx_client m' = fst (ReceiveMessage (Some msg) (mx_client m)) ->
    does m m' None) by (intros m' H; right; exists (OReceive (Some msg)); done).
  destruct msg; try (by left);
    destruct (ReceiveMessage _ (mx_client m)) as [c [[qr|]|e]]; cbn [fst] in Hgo;
    try (apply Hgo; open_pieces; done); destruct (trySend resultsCapacity _ _) as [rs []]; by apply Hgo.
Qed.

Lemma writer_does conn e w m m' : writer_step conn e w m = Some m' -> does m m' None.
Proof.
  intros Hs. unfold writer_step in Hs.
  destruct e as [| |reply|], (w_state w) as [|q|q msg|]; try discriminate Hs.
  - destruct (w_requests w); [discriminate|]. injection Hs as <-. by left.
  - right. exists OPopNextMessage. split; [|done]. cbn [perform].
    destruct (PopNextMessage (mx_client m)) as [c [msg|]]; injection Hs as <-; by open_pieces.
  - destruct (_ && _); [discriminate|]. left.
    destruct (writeClientMessage reply msg); injection Hs as <-; by open_pieces.
  - injection Hs as <-. by left.
Qed.

Lemma user_step_client op m : mx_client (user_step op m) = perform op (mx_client m).
Proof. unfold user_step. destruct op; try done. by destruct (_ && _). Qed.

Lemma step_does proto_text e m m' :
  step proto_text e m = Some m' -> does m m' (match e with EUser op => Some op | _ => None end).
Proof.
  intros Hs.
  destruct e as [random now|op|i| |id|env|failure now|ts failure now| | |conn e|now|doc now|msg now| |now|now|cb|id|j];
    cbn [step] in Hs.
  - left. destruct (mx_pc m); try (by injection Hs as <-).
    injection Hs as <-. unfold startRun. destruct (newWebSocketRunState random); unfold finishRun; by open_pieces.
  - destruct (user_operation op); [|destruct (mx_pc m); discriminate].
    assert (m' = user_step op m) as -> by (destruct (mx_pc m); congruence).
    right. exists op. by rewrite user_step_client.
  - left. by apply (publish_frame proto_text) in Hs as (ps & rs & ->).
  - left. destruct (mx_results m); destruct (mx_pc m); try discriminate Hs; by injection Hs as <-.
  - left. destruct (trySend flushCapacity id (mx_flushCh m)) as [ch []]; destruct (mx_pc m);
      try discriminate Hs; by injection Hs as <-.
  - destruct (mx_pc m); try discriminate Hs. injection Hs as <-.
    unfold prepareNextConnection. destruct (negb _); [by left|].
    right. exists (ORestart env). split; [|done]. cbn [perform].
    by destruct (RestartForReconnect env (mx_client m)) as [c [u|e]].
  - left. destruct failure as [reason|]; destruct (mx_pc m); try discriminate Hs; injection Hs as <-;
      unfold handleDialFailure; by open_pieces.
  - left. destruct (mx_pc m); try discriminate Hs. injection Hs as <-. unfold greet.
    destruct (writeClientMessage failure (hello ts m)); unfold reconnect; by open_pieces.
  - left. destruct (mx_pc m); try discriminate Hs. unfold take_flush in Hs. destruct (mx_flushCh m); [discriminate|].
    by injection Hs as <-.
  - left. destruct (mx_pc m); try discriminate Hs. unfold forward in Hs. destruct (mx_writers m !! conn); [|discriminate].
    destruct (trySend flushCapacity _ (w_requests w)) as [rs []]; [|discriminate]. by injection Hs as <-.
  - destruct (mx_writers m !! conn) as [w|]; [|destruct (mx_pc m); discriminate].
    apply (writer_does conn e w m m'). by destruct (mx_pc m).
  - left. destruct (mx_pc m); try discriminate Hs.
    unfold write_failed in Hs. destruct (mx_writers m !! conn) as [[st rs [[e replay]|]]|]; try discriminate Hs. injection Hs as <-.
    unfold reconnect. by open_pieces.
  - destruct (mx_pc m); try discriminate Hs. injection Hs as <-. apply receive_does.
  - left. destruct (mx_pc m); try discriminate Hs. injection Hs as <-. unfold reconnect. by open_pieces.
  - left. destruct (mx_pc m) as [| | | | | |conn qr|]; try discriminate Hs.
    destruct (trySend resultsCapacity qr (mx_results m)) as [rs []]; [|discriminate]. by injection Hs as <-.
  - left. destruct (mx_pc m); try discriminate Hs. injection Hs as <-. unfold reconnect. by open_pieces.
  - left. destruct (mx_pc m); try discriminate Hs; injection Hs as <-; try destruct (mx_acks m !! id); unfold finishRun; by open_pieces.
  - left. destruct (SubscribeToConnectionState cb (mx_box m)) as [[box id] calls].
    destruct (mx_pc m); by injection Hs as <-.
  - left. destruct (mx_pc m); by injection Hs as <-.
  - left. destruct (mx_first m !! j); destruct (mx_pc m); try discriminate Hs; by injection Hs as <-.
Qed.

Lemma step_reachable proto_text e m m' n :
  step proto_text e m = Some m' -> (exists k, k <= n /\ reachable k (mx_client m)) ->
  exists k, k <= n + 1 /\ reachable k (mx_client m').
Proof.
  intros [->|(op & -> & _)]%step_does (k & Hk & H); [exists k; split; [lia|done]|].
  exists (k + 1). split; [lia|]. by constructor.
Qed.

Lemma runs_reachable proto_text allowed n m :
  runs proto_text allowed n m -> exists k, k <= n /\ reachable k (mx_client m).
Proof.
  induction 1 as [|n m e m' _ IH _ He]; [exists 0; split; [done|constructor]|]. by eapply step_reachable.
Qed.
