(* ===== verification/ManagerPhases.v ===== *)
(** * The connection state and the loop of [Run]

    What the observers of the connection state are told is where the loop is:
    the phase, whether there was a connection, how many there were and how many
    attempts failed.  The Connect messages number the attempts, so no two of them
    are the same for the server. *)
From S2P Require Import Prelude GoStrings GoBytes GoJson Values Results GoEncode Paths Protocol ClientMessages ServerMessages Canonical ClientState BaseClient ClientQueries ClientInvariant SyncManager ManagerRun ManagerFacts.
From Stdlib Require Import Strings.Byte.
Local Open Scope Z_scope.

(** ** The state without its time *)

Definition facts (s : ConnectionState) : string * bool * Z * Z :=
  (cs_Phase s, cs_HasEverConnected s, cs_ConnectionCount s, cs_ConnectionRetries s).
Definition told_state (m : machine) := facts (connectionState (mx_box m)).

Lemma connectionStateEqual_facts a b : connectionStateEqual a b = true <-> facts a = facts b.
Proof.
  unfold connectionStateEqual, facts. rewrite !andb_true_iff, bool_decide_eq_true, eqb_true_iff, !Z.eqb_eq.
  split; [|intros [=]; tauto]. intros [[[-> ->] ->] ->]. done.
Qed.

Lemma update_facts up now b :
  cs_Phase (up (connectionState b)) <> "" ->
  facts (connectionState (fst (updateConnectionState up now b))) = facts (up (connectionState b)).
Proof.
  intros Hp. unfold updateConnectionState. rewrite decide_False by done.
  destruct (connectionStateEqual _ _) eqn:He; [|done]. by apply connectionStateEqual_facts in He.
Qed.

Lemma mark_told f m : told_state (mark f m) = facts (connectionState (fst (f (mx_box m)))).
Proof. unfold mark, told_state. by destruct (f (mx_box m)). Qed.

Lemma told_connecting now m ph h c r :
  told_state m = (ph, h, c, r) ->
  told_state (mark (markConnecting now) m) = (ConnectionPhaseConnecting, h, c, r).
Proof. rewrite mark_told. unfold markConnecting. rewrite update_facts by done. intros [= _ <- <- <-]. done. Qed.
Lemma told_connected now m ph h c r :
  told_state m = (ph, h, c, r) ->
  told_state (mark (markConnected now) m) = (ConnectionPhaseConnected, true, u64 (c + 1), r).
Proof. rewrite mark_told. unfold markConnected. rewrite update_facts by done. intros [= _ <- <- <-]. done. Qed.
Lemma told_reconnecting now m ph h c r :
  told_state m = (ph, h, c, r) ->
  told_state (mark (markReconnecting now) m) = (ConnectionPhaseReconnecting, h, c, u64 (r + 1)).
Proof. rewrite mark_told. unfold markReconnecting. rewrite update_facts by done. intros [= _ <- <- <-]. done. Qed.
Lemma told_disconnected now m ph h c r :
  told_state m = (ph, h, c, r) ->
  told_state (mark (markDisconnected now) m) = (ConnectionPhaseDisconnected, h, c, r).
Proof. rewrite mark_told. unfold markDisconnected. rewrite update_facts by done. intros [= _ <- <- <-]. done. Qed.

(** ** The invariant *)

(** The phase of a place in the loop. *)
Definition phase_of (m : machine) : string :=
  match mx_pc m with
  | NotRunning | Finished _ => ConnectionPhaseDisconnected
  | Preparing | Dialing | Greeting _ =>
      if connectionCount (mx_run m) =? 0 then ConnectionPhaseConnecting else ConnectionPhaseReconnecting
  | Serving _ | Forwarding _ _ | Delivering _ _ => ConnectionPhaseConnected
  end.

Definition attempting (pc : run_pc) : bool :=
  match pc with Preparing | Dialing | Greeting _ => true | _ => false end.

Record phase_inv (n : Z) (m : machine) : Prop := {
  pi_told : told_state m =
    (phase_of m, bool_decide (mx_wire m <> ∅), Z.of_nat (size (mx_wire m)), connectionCount (mx_run m));
  pi_count : 0 <= connectionCount (mx_run m) <= n;
  pi_size : Z.of_nat (size (mx_wire m)) <= n;
  pi_idle : mx_pc m = NotRunning -> mx_wire m = ∅ /\ connectionCount (mx_run m) = 0;
  pi_wire : forall conn l, mx_wire m !! conn = Some l -> conn < mx_nextConn m /\
    exists h log, l = CConnect h :: log /\ cn_SessionID h = sessionID (mx_run m) /\
      cn_ConnectionCount h <= connectionCount (mx_run m) /\
      (attempting (mx_pc m) = true -> cn_ConnectionCount h < connectionCount (mx_run m));
  pi_greeting : forall conn, mx_pc m = Greeting conn ->
    mx_wire m !! conn = None /\ mx_nextConn m = conn + 1;
  pi_order : forall conn conn' h h' log log', conn < conn' ->
    mx_wire m !! conn = Some (CConnect h :: log) -> mx_wire m !! conn' = Some (CConnect h' :: log') ->
    cn_ConnectionCount h < cn_ConnectionCount h';
  pi_writers : forall conn, is_Some (mx_writers m !! conn) -> is_Some (mx_wire m !! conn)
}.

(** The fields it depends on. *)
Lemma phase_inv_frame n m m' :
  told_state m' = told_state m -> mx_pc m' = mx_pc m -> mx_run m' = mx_run m ->
  mx_nextConn m' = mx_nextConn m -> mx_wire m' = mx_wire m ->
  (forall conn, is_Some (mx_writers m' !! conn) -> is_Some (mx_writers m !! conn)) ->
  phase_inv n m -> phase_inv n m'.
Proof.
  intros H1 H2 H3 H4 H5 H6 [I1 I2 I3 I4 I5 I6 I7 I8].
  assert (phase_of m' = phase_of m) as Hp by (unfold phase_of; by rewrite H2, H3).
  split; rewrite ?H1, ?H2, ?H3, ?H4, ?H5, ?Hp; try done. auto.
Qed.

Lemma phase_inv_next n m : phase_inv n m -> phase_inv (n + 1) m.
Proof. intros [I1 I2 I3 I4 I5 I6 I7 I8]. split; try done; lia. Qed.

(** A later place in the same attempt. *)
Lemma phase_inv_pc n m pc :
  mx_pc m <> NotRunning -> pc <> NotRunning -> (forall conn, pc <> Greeting conn) ->
  (attempting pc = true -> attempting (mx_pc m) = true) ->
  phase_of (put_pc pc m) = phase_of m ->
  phase_inv n m -> phase_inv n (put_pc pc m).
Proof.
  intros Hm Hpc Hg Ha Hph [I1 I2 I3 I4 I5 I6 I7 I8]. split; cbn; try done.
  - rewrite Hph. exact I1.
  - intros conn l Hl. destruct (I5 conn l Hl) as (Hlt & h & log & -> & Hs & Hc & Hatt).
    split; [done|]. exists h, log. repeat split; try done. auto.
  - intros conn He. by destruct (Hg conn).
Qed.

Lemma phase_inv_dial n m :
  mx_pc m = Dialing -> phase_inv n m ->
  phase_inv n (put_pc (Greeting (mx_nextConn m)) (put_nextConn (mx_nextConn m + 1) m)).
Proof.
  intros Hpc [I1 I2 I3 I4 I5 I6 I7 I8]. unfold phase_of in I1. rewrite Hpc in *. split; cbn; try done.
  - intros conn l Hl. destruct (I5 conn l Hl) as (Hlt & H). split; [lia|exact H].
  - intros conn [= <-]. split; [|done]. apply eq_None_not_Some. intros [l Hl].
    destruct (I5 _ _ Hl) as [Hlt _]. lia.
Qed.

(** A failed attempt, or the end of a connection. *)
Lemma phase_inv_again n m reason replay now :
  mx_pc m <> NotRunning -> n + 1 < 2 ^ 32 -> phase_inv n m ->
  phase_inv (n + 1)
    (mark (markReconnecting now) (put_pc Preparing (put_run (mkRunState (sessionID (mx_run m))
       (u32 (connectionCount (mx_run m) + 1)) reason replay) m))).
Proof.
  intros Hpc Hn [I1 I2 I3 I4 I5 I6 I7 I8]. set (m1 := put_pc _ _).
  assert (told_state m1 = told_state m) as Ht by done. rewrite I1 in Ht.
  pose proof (told_reconnecting now m1 _ _ _ _ Ht) as Hm. clear Ht.
  destruct (mark_eq (markReconnecting now) m1) as (box & told & E). rewrite E in Hm |- *. clear E.
  split; try done.
  - rewrite Hm. unfold phase_of. cbn. rewrite u32_small, u64_small by lia.
    destruct (Z.eqb_spec (connectionCount (mx_run m) + 1) 0); [lia|done].
  - cbn. rewrite u32_small; lia.
  - cbn. lia.
  - cbn. intros conn l Hl. destruct (I5 conn l Hl) as (Hlt & h & log & -> & Hs & Hc & Hatt).
    split; [done|]. exists h, log. rewrite u32_small by lia. repeat split; try done; lia.
Qed.

Lemma phase_inv_finish n m e now :
  mx_pc m <> NotRunning -> phase_inv n m -> phase_inv n (finishRun e now m).
Proof.
  intros Hpc [I1 I2 I3 I4 I5 I6 I7 I8]. unfold finishRun. set (m1 := put_pc _ m).
  assert (told_state m1 = told_state m) as Ht by done. rewrite I1 in Ht.
  pose proof (told_disconnected now m1 _ _ _ _ Ht) as Hm. clear Ht.
  destruct (mark_eq (markDisconnected now) m1) as (box & told & E). rewrite E in Hm |- *. clear E.
  split; try done. cbn. intros conn l Hl.
  destruct (I5 conn l Hl) as (Hlt & h & log & -> & Hs & Hc & Hatt).
  split; [done|]. exists h, log. done.
Qed.

Lemma put_writer_known conn w w' m :
  mx_writers m !! conn = Some w ->
  forall conn', is_Some (mx_writers (put_writer conn w' m) !! conn') -> is_Some (mx_writers m !! conn').
Proof.
  intros Hw conn' [x Hx]. cbn in Hx. apply lookup_insert_Some in Hx as [[<- _]|[_ Hx]]; eauto.
Qed.

(** ** The steps *)

Lemma phase_inv_greet n m conn ts now :
  mx_pc m = Greeting conn -> n + 1 < 2 ^ 32 -> phase_inv n m ->
  phase_inv (n + 1) (put_pc (Serving conn)
    (put_writer conn (mkWriter WaitRequest [mkFlushRequest None true] None)
       (mark (markConnected now) (put_wire (<[conn := [hello ts m]]> (mx_wire m)) m)))).
Proof.
  intros Hpc Hn [I1 I2 I3 I4 I5 I6 I7 I8]. destruct (I6 conn Hpc) as [Hnone Hnext].
  assert (Hhello : exists h, hello ts m = CConnect h /\ cn_SessionID h = sessionID (mx_run m) /\
    cn_ConnectionCount h = connectionCount (mx_run m)).
  { unfold hello. destruct (MaxObservedTimestamp (mx_client m)). eexists. by split. }
  destruct Hhello as (h & -> & Hsid & Hcount).
  set (m1 := put_wire _ m). assert (told_state m1 = told_state m) as Ht by done. rewrite I1 in Ht.
  pose proof (told_connected now m1 _ _ _ _ Ht) as Hm. clear Ht.
  destruct (mark_eq (markConnected now) m1) as (box & told & E). rewrite E in Hm |- *. clear E.
  assert (Hatt : attempting (mx_pc m) = true) by (by rewrite Hpc).
  assert (Hsize : size (<[conn := [CConnect h]]> (mx_wire m)) = S (size (mx_wire m)))
    by (by apply map_size_insert_None).
  split; try done.
  - etrans; [exact Hm|]. unfold phase_of. cbn. rewrite Hsize, u64_small by lia.
    rewrite bool_decide_eq_true_2; [|apply insert_non_empty].
    by replace (Z.of_nat (S (size (mx_wire m)))) with (Z.of_nat (size (mx_wire m)) + 1) by lia.
  - cbn. lia.
  - cbn. rewrite Hsize. lia.
  - cbn. intros conn' l Hl. apply lookup_insert_Some in Hl as [[<- <-]|[Hne Hl]].
    + split; [lia|]. exists h, []. repeat split; try done. lia.
    + destruct (I5 conn' l Hl) as (Hlt & h' & log & -> & Hs & Hc & _).
      split; [done|]. exists h', log. done.
  - cbn. intros c1 c2 h1 h2 l1 l2 Hlt H1 H2.
    apply lookup_insert_Some in H1 as [[<- [= <- <-]]|[Hne1 H1]];
      apply lookup_insert_Some in H2 as [[<- [= <- <-]]|[Hne2 H2]]; [lia| | |by eapply I7].
    + destruct (I5 c2 _ H2) as [Hlt2 _]. lia.
    + destruct (I5 c1 _ H1) as (_ & h' & log & [= <- <-] & _ & _ & Hs). rewrite Hcount. by apply Hs.
  - cbn. intros c' [w Hw]. apply lookup_insert_Some in Hw as [[<- _]|[Hne Hw]].
    + rewrite lookup_insert_eq. eauto.
    + rewrite lookup_insert_ne by done. eauto.
Qed.

(** A message more on a connection. *)
Lemma phase_inv_sent n m conn w w' msg :
  mx_writers m !! conn = Some w -> phase_inv n m ->
  phase_inv n (put_writer conn w'
    (put_wire (<[conn := default [] (mx_wire m !! conn) ++ [msg]]> (mx_wire m)) m)).
Proof.
  intros Hw [I1 I2 I3 I4 I5 I6 I7 I8]. destruct (I8 conn ltac:(eauto)) as [l Hl]. rewrite Hl. cbn [default].
  destruct (I5 conn l Hl) as (Hlt & h & log & -> & Hs & Hc & Ha). cbn [default id].
  assert (Hsize : size (<[conn := (CConnect h :: log) ++ [msg]]> (mx_wire m)) = size (mx_wire m))
    by (apply map_size_insert_Some; eauto).
  assert (Hheads : forall c h' l', <[conn := (CConnect h :: log) ++ [msg]]> (mx_wire m) !! c = Some (CConnect h' :: l')
    -> exists l'', mx_wire m !! c = Some (CConnect h' :: l'')).
  { intros c h' l' H. apply lookup_insert_Some in H as [[<- [= <- _]]|[_ H]]; eauto. }
  split; cbn; try done.
  - change (told_state m = (phase_of m, bool_decide (<[conn := (CConnect h :: log) ++ [msg]]> (mx_wire m) <> ∅),
      Z.of_nat (size (<[conn := (CConnect h :: log) ++ [msg]]> (mx_wire m))), connectionCount (mx_run m))).
    rewrite Hsize, I1, !bool_decide_eq_true_2; [done|apply insert_non_empty|].
    intros He. by rewrite He, lookup_empty in Hl.
  - change (Z.of_nat (size (<[conn := (CConnect h :: log) ++ [msg]]> (mx_wire m))) <= n).
    by rewrite Hsize.
  - intros Hp. destruct (I4 Hp) as [He _]. by rewrite He, lookup_empty in Hl.
  - intros c l' H. apply lookup_insert_Some in H as [[<- <-]|[_ H]]; [|by apply I5].
    split; [done|]. by exists h, (log ++ [msg]).
  - intros c Hp. destruct (I6 c Hp) as [Hnone Hnext]. split; [|done].
    rewrite lookup_insert_ne; [done|]. intros ->. congruence.
  - intros c c' h1 h2 l1 l2 Hcc [l1' H1]%Hheads [l2' H2]%Hheads. by eapply I7.
  - intros c [x Hx]. apply lookup_insert_Some in Hx as [[<- _]|[Hne Hx]].
    + rewrite lookup_insert_eq. eauto.
    + rewrite lookup_insert_ne by done. eauto.
Qed.

Lemma writer_phase n conn e w m m' :
  mx_writers m !! conn = Some w -> writer_step conn e w m = Some m' -> phase_inv n m -> phase_inv n m'.
Proof.
  intros Hw Hs H. unfold writer_step in Hs.
  assert (Hkeep : forall w' m1,
    told_state m1 = told_state m -> mx_pc m1 = mx_pc m -> mx_run m1 = mx_run m ->
    mx_nextConn m1 = mx_nextConn m -> mx_writers m1 = <[conn := w']> (mx_writers m) ->
    mx_wire m1 = mx_wire m -> phase_inv n m1).
  { intros w' m1 E1 E2 E3 E4 E5 E6. apply (phase_inv_frame n m); try done.
    rewrite E5. by apply (put_writer_known conn w w' m). }
  destruct e as [| |reply|], (w_state w) as [|q|q msg|] eqn:Hst; try discriminate Hs.
  - destruct (w_requests w); [discriminate|]. injection Hs as <-. by eapply Hkeep.
  - destruct (PopNextMessage (mx_client m)) as [c [msg|]]; injection Hs as <-; open_pieces; by eapply Hkeep.
  - destruct (_ && _); [discriminate|].
    destruct (writeClientMessage reply msg); injection Hs as <-.
    + by apply (phase_inv_sent n m conn w).
    + open_pieces. by eapply Hkeep.
  - injection Hs as <-. by eapply Hkeep.
Qed.

Lemma receive_phase n conn doc now m :
  mx_pc m = Serving conn -> phase_inv n m -> phase_inv n (receiveServerMessage conn doc now m).
Proof.
  intros Hpc H. assert (Hne : mx_pc m <> NotRunning) by congruence. unfold receiveServerMessage.
  destruct doc as [j|]; [|by apply phase_inv_finish].
  destruct (DecodeServerMessage j) as [msg|e]; [|by apply phase_inv_finish].
  assert (Hgo : phase_inv n
    (let '(c, r) := ReceiveMessage (Some msg) (mx_client m) in
     let m := put_client c m in
     match r with
     | Err e => finishRun (RunClient e) now m
     | Ok None => m
     | Ok (Some snapshot) => deliver conn snapshot m
     end)); [|by destruct msg].
  destruct (ReceiveMessage (Some msg) (mx_client m)) as [c [[qr|]|e]].
  - unfold deliver. destruct (trySend resultsCapacity qr _) as [rs []].
    + by apply (phase_inv_frame n m).
    + apply (phase_inv_frame n (put_pc (Delivering conn qr) m)); try done.
      apply phase_inv_pc; try done. unfold phase_of. cbn. by rewrite Hpc.
  - by apply (phase_inv_frame n m).
  - apply phase_inv_finish; [done|]. by apply (phase_inv_frame n m).
Qed.

Lemma mark_frame f m :
  mx_pc (mark f m) = mx_pc m /\ mx_run (mark f m) = mx_run m /\ mx_wire (mark f m) = mx_wire m.
Proof. by destruct (mark_eq f m) as (b & t & ->). Qed.
Lemma mark_put f pc run m : put_pc pc (put_run run (mark f m)) = mark f (put_pc pc (put_run run m)).
Proof. unfold mark. cbn. by destruct (f (mx_box m)). Qed.

Lemma handleDialFailure_eq reason now m :
  handleDialFailure reason now m = reconnect reason (needsRestart (mx_run m)) now m.
Proof.
  unfold handleDialFailure, reconnect. destruct (mark_frame (markReconnecting now) m) as (_ & -> & _).
  apply mark_put.
Qed.

Lemma phase_inv_run n random now m m' :
  mx_pc m = NotRunning -> 0 <= n ->
  startRun random now m = m' ->
  phase_inv n m -> phase_inv n m'.
Proof.
  intros Hpc H0 <- [I1 I2 I3 I4 I5 I6 I7 I8]. destruct (I4 Hpc) as [Hw Hc].
  pose proof (told_connecting now m _ _ _ _ I1) as Hm. rewrite Hw, Hc in Hm.
  unfold startRun. destruct (newWebSocketRunState random) as [state|e] eqn:Hst.
  - destruct random as [bytes|]; [|discriminate Hst]. injection Hst as <-.
    destruct (mark_eq (markConnecting now) m) as (box & told & E). rewrite E in Hm |- *.
    split; try done.
    + etrans; [exact Hm|]. cbn. by rewrite Hw.
    + cbn. intros conn l. by rewrite Hw, lookup_empty.
  - unfold finishRun.
    pose proof (told_disconnected now (put_pc (Finished e) (mark (markConnecting now) m)) _ _ _ _ Hm) as Hm'.
    destruct (mark_eq (markConnecting now) m) as (box & told & E). rewrite E in Hm' |- *. clear E.
    destruct (mark_eq (markDisconnected now) (put_pc (Finished e) (put_told told (put_box box m))))
      as (box' & told' & E). rewrite E in Hm' |- *.
    split; try done.
    + etrans; [exact Hm'|]. cbn. by rewrite Hw, Hc.
    + cbn. intros conn l. by rewrite Hw, lookup_empty.
Qed.

Lemma phase_inv_reconnect n m reason replay now :
  mx_pc m <> NotRunning -> n + 1 < 2 ^ 32 -> phase_inv n m ->
  phase_inv (n + 1) (reconnect reason replay now m).
Proof. apply phase_inv_again. Qed.

Lemma step_phase proto_text n e m m' :
  0 <= n -> n + 1 < 2 ^ 32 -> phase_inv n m -> step proto_text e m = Some m' -> phase_inv (n + 1) m'.
Proof.
  intros H0 Hn H Hs. pose proof (phase_inv_next n m H) as Hnext.
  destruct e as [random now|op|i| |id|env|failure now|ts failure now| | |conn e|now|doc now|msg now| |now|now|cb|id|j];
    cbn [step] in Hs.
  - destruct (mx_pc m) eqn:Hpc; try (injection Hs as <-; exact Hnext).
    apply (phase_inv_run (n + 1) random now m); [done|lia| |done]. by injection Hs.
  - destruct (user_operation op) eqn:Hop; [|destruct (mx_pc m); discriminate].
    assert (m' = user_step op m) as -> by (destruct (mx_pc m); congruence).
    apply (phase_inv_frame _ m); try done; unfold user_step; destruct op; try done; by destruct (_ && _).
  - apply (publish_frame proto_text) in Hs as (ps & rs & ->). by apply (phase_inv_frame _ m).
  - destruct (mx_results m) as [|x l]; [destruct (mx_pc m); discriminate|].
    assert (m' = put_results l m) as -> by (destruct (mx_pc m); congruence). by apply (phase_inv_frame _ m).
  - destruct (trySend flushCapacity id (mx_flushCh m)) as [ch []]; [|destruct (mx_pc m); discriminate].
    assert (m' = put_flushCh ch m) as -> by (destruct (mx_pc m); congruence). by apply (phase_inv_frame _ m).
  - destruct (mx_pc m) eqn:Hpc; try discriminate Hs.
    assert (Hdial : forall c, phase_inv (n + 1) (put_pc Dialing (put_client c m))).
    { intros c. apply (phase_inv_frame _ (put_pc Dialing m)); try done.
      apply phase_inv_pc; try done; [congruence|by rewrite Hpc|]. unfold phase_of. cbn. by rewrite Hpc. }
    injection Hs as <-. unfold prepareNextConnection. destruct (negb _).
    + by apply (phase_inv_frame _ (put_pc Dialing (put_client (mx_client m) m))).
    + destruct (RestartForReconnect env (mx_client m)) as [c [u|e]]; [done|].
      by apply (phase_inv_frame _ m).
  - destruct failure as [reason|]; destruct (mx_pc m) eqn:Hpc; try discriminate Hs; injection Hs as <-.
    + rewrite handleDialFailure_eq. apply phase_inv_reconnect; [congruence|done..].
    + by apply phase_inv_dial.
  - destruct (mx_pc m) eqn:Hpc; try discriminate Hs. injection Hs as <-. unfold greet.
    destruct (writeClientMessage failure (hello ts m)).
    + by apply phase_inv_greet.
    + apply phase_inv_reconnect; [congruence|done..].
  - destruct (mx_pc m) eqn:Hpc; try discriminate Hs.
    unfold take_flush in Hs. destruct (mx_flushCh m) as [|id rest]; [discriminate|]. injection Hs as <-.
    apply (phase_inv_frame _ (put_pc (Forwarding conn id) m)); try done.
    apply phase_inv_pc; try done; [congruence|]. unfold phase_of. cbn. by rewrite Hpc.
  - destruct (mx_pc m) eqn:Hpc; try discriminate Hs.
    unfold forward in Hs. destruct (mx_writers m !! conn) as [w|] eqn:Hw; [|discriminate].
    destruct (trySend flushCapacity (mkFlushRequest (Some id) true) (w_requests w)) as [rs []];
      [|discriminate]. injection Hs as <-.
    apply (phase_inv_frame _ (put_pc (Serving conn) m)); try done.
    + by apply (put_writer_known conn w _ (put_pc (Serving conn) m)).
    + apply phase_inv_pc; try done; [congruence|]. unfold phase_of. cbn. by rewrite Hpc.
  - destruct (mx_writers m !! conn) as [w|] eqn:Hw; [|destruct (mx_pc m); discriminate].
    apply (writer_phase (n + 1) conn e w m m'); try done; by destruct (mx_pc m).
  - destruct (mx_pc m) eqn:Hpc; try discriminate Hs.
    unfold write_failed in Hs. destruct (mx_writers m !! conn) as [[st rs [[e replay]|]]|] eqn:Hw; try discriminate Hs.
    injection Hs as <-. destruct (ackPending_eq rs (Err e) m) as [acks ->].
    apply phase_inv_reconnect; [by cbn; congruence|done|].
    apply (phase_inv_frame _ m); try done. by apply (put_writer_known conn _ _ m Hw).
  - destruct (mx_pc m) eqn:Hpc; try discriminate Hs. injection Hs as <-. by apply receive_phase.
  - destruct (mx_pc m) eqn:Hpc; try discriminate Hs. injection Hs as <-.
    apply phase_inv_reconnect; [congruence|done..].
  - destruct (mx_pc m) as [| | | | | |conn qr|] eqn:Hpc; try discriminate Hs.
    destruct (trySend resultsCapacity qr (mx_results m)) as [results []]; [|discriminate].
    injection Hs as <-. apply (phase_inv_frame _ (put_pc (Serving conn) m)); try done.
    apply phase_inv_pc; try done; [congruence|]. unfold phase_of. cbn. by rewrite Hpc.
  - destruct (mx_pc m) eqn:Hpc; try discriminate Hs. injection Hs as <-.
    apply phase_inv_reconnect; [congruence|done..].
  - destruct (mx_pc m) eqn:Hpc; try discriminate Hs; apply (inj Some) in Hs as <-;
      try (by apply phase_inv_finish; [congruence|]).
    destruct (sendFlushAck_eq (Some id) (Err (WriteFailed errCanceled)) m) as [acks ->].
    apply phase_inv_finish; [by cbn; congruence|]. by apply (phase_inv_frame _ m).
  - destruct (SubscribeToConnectionState cb (mx_box m)) as [[box id] calls] eqn:Hsub.
    assert (m' = put_first (mx_first m ++ calls) (put_box box m)) as -> by (destruct (mx_pc m); congruence).
    apply (phase_inv_frame _ m); try done. unfold SubscribeToConnectionState in Hsub.
    unfold told_state. cbn. destruct cb; by injection Hsub as <- <- <-.
  - assert (m' = put_box (forgetSubscriber id (mx_box m)) m) as -> by (destruct (mx_pc m); congruence).
    by apply (phase_inv_frame _ m).
  - destruct (mx_first m !! j) as [call|]; [|destruct (mx_pc m); discriminate].
    assert (m' = put_first (delete j (mx_first m)) (put_told (mx_told m ++ [call]) m)) as ->
      by (destruct (mx_pc m); congruence).
    by apply (phase_inv_frame _ m).
Qed.

Lemma runs_phase proto_text allowed n m :
  runs proto_text allowed n m -> n < 2 ^ 32 -> 0 <= n /\ phase_inv n m.
Proof.
  induction 1 as [|n m e m' Hr IH Hok He]; intros Hn.
  - split; [done|]. split; cbn; try done.
    intros conn [x Hx]. by rewrite lookup_empty in Hx.
  - destruct IH as [H0 H]; [lia|]. split; [lia|]. by eapply step_phase.
Qed.

(** ** The observers *)

(** The last state an observer was called with. *)
Definition last_told (cb : nat) (calls : list notification) : option ConnectionState :=
  snd <$> last (filter (fun call => fst call = cb) calls).

(** Each observer was told the current state last, or is about to be. *)
Definition observers_told (m : machine) : Prop :=
  let now := connectionState (mx_box m) in
  map_Forall (fun _ cb => last_told cb (mx_told m) = Some now \/ (cb, now) ∈ mx_first m)
    (connectionStateSubscribers (mx_box m)) /\
  Forall (fun call => snd call = now) (mx_first m).

Lemma observers_frame m m' :
  mx_box m' = mx_box m -> mx_told m' = mx_told m -> mx_first m' = mx_first m ->
  observers_told m -> observers_told m'.
Proof. unfold observers_told. by intros -> -> ->. Qed.

(** Calls that all carry the same state. *)
Lemma last_told_app cb calls calls' s :
  Forall (fun call => snd call = s) calls' ->
  (last_told cb calls = Some s \/ exists call, call ∈ calls' /\ fst call = cb) ->
  last_told cb (calls ++ calls') = Some s.
Proof.
  intros Hs Hc. unfold last_told. rewrite filter_app, last_app.
  destruct (last (filter _ calls')) as [call|] eqn:Hl.
  - cbn. apply last_Some_elem_of in Hl. apply list_elem_of_filter in Hl as [_ Hl].
    rewrite Forall_forall in Hs. apply Hs in Hl. cbn in Hl. by rewrite <- Hl.
  - destruct Hc as [Hc|(call & Hin & Hcb)]; [done|]. exfalso. apply last_None in Hl.
    apply (elem_of_nil call). rewrite <- Hl. by apply list_elem_of_filter.
Qed.

Lemma mark_first f m : mx_first (mark f m) = mx_first m.
Proof. unfold mark. by destruct (f (mx_box m)). Qed.

Lemma mark_observed up now m :
  mx_first m = [] -> observers_told m -> observers_told (mark (updateConnectionState up now) m).
Proof.
  intros Hf [H _]. rewrite Hf in H. unfold observers_told. rewrite mark_first, Hf. split; [|done].
  unfold mark, updateConnectionState. set (next := if decide _ then _ else _).
  destruct (connectionStateEqual _ next).
  - intros id cb Hid. cbn. rewrite app_nil_r. exact (H id cb Hid).
  - intros id cb Hid. cbn in Hid |- *. left. apply last_told_app.
    + apply Forall_forall. intros call (kv & -> & _)%list_elem_of_fmap. done.
    + right. exists (cb, mkConnectionState (cs_Phase next) (cs_HasEverConnected next)
        (cs_ConnectionCount next) (cs_ConnectionRetries next) now).
      split; [|reflexivity]. apply list_elem_of_fmap.
      exists (id, cb). split; [reflexivity|]. by apply elem_of_map_to_list.
Qed.

Lemma finish_observed e now m :
  mx_first m = [] -> observers_told m -> observers_told (finishRun e now m).
Proof. apply (mark_observed _ _ (put_pc (Finished e) m)). Qed.
Lemma reconnect_observed reason replay now m :
  mx_first m = [] -> observers_told m -> observers_told (reconnect reason replay now m).
Proof. apply (mark_observed _ _ (put_pc Preparing (put_run _ m))). Qed.

Lemma receive_observed conn doc now m :
  mx_first m = [] -> observers_told m -> observers_told (receiveServerMessage conn doc now m).
Proof.
  intros Hf H. unfold receiveServerMessage, deliver. destruct doc as [j|]; [|by apply finish_observed].
  destruct (DecodeServerMessage j) as [msg|e]; [|by apply finish_observed].
  destruct msg; try done;
    destruct (ReceiveMessage _ (mx_client m)) as [c [[qr|]|e]]; try done;
    first [by apply finish_observed|by destruct (trySend resultsCapacity _ _) as [rs []]].
Qed.

Lemma writer_observed conn e w m m' :
  writer_step conn e w m = Some m' -> observers_told m -> observers_told m'.
Proof.
  intros Hs H. unfold writer_step in Hs.
  destruct e as [| |reply|], (w_state w) as [|q|q msg|]; try discriminate Hs.
  - destruct (w_requests w); [discriminate|]. by injection Hs as <-.
  - destruct (PopNextMessage (mx_client m)) as [c [msg|]]; injection Hs as <-; open_pieces;
      by apply (observers_frame m).
  - destruct (_ && _); [discriminate|].
    destruct (writeClientMessage reply msg); injection Hs as <-; open_pieces; by apply (observers_frame m).
  - by injection Hs as <-.
Qed.

Lemma step_observed proto_text e m m' :
  first_calls_prompt e m -> step proto_text e m = Some m' -> observers_told m -> observers_told m'.
Proof.
  intros Hp Hs H. unfold first_calls_prompt in Hp.
  destruct e as [random now|op|i| |id|env|failure now|ts failure now| | |conn e|now|doc now|msg now| |now|now|cb|id|j];
    cbn [step] in Hs.
  - destruct (mx_pc m); try (by injection Hs as <-).
    pose proof (mark_observed (fun s => mkConnectionState ConnectionPhaseConnecting (cs_HasEverConnected s)
      (cs_ConnectionCount s) (cs_ConnectionRetries s) (cs_LastChange s)) now m (Hp eq_refl) H) as Hm.
    injection Hs as <-. unfold startRun. destruct (newWebSocketRunState random); [exact Hm|apply finish_observed; [by rewrite mark_first, Hp|done]].
  - destruct (user_operation op); [|destruct (mx_pc m); discriminate].
    assert (m' = user_step op m) as -> by (destruct (mx_pc m); congruence).
    apply (observers_frame m); try done; unfold user_step; destruct op; try done; by destruct (_ && _).
  - by apply (publish_frame proto_text) in Hs as (ps & rs & ->).
  - destruct (mx_results m); [destruct (mx_pc m); discriminate|]. destruct (mx_pc m); by injection Hs as <-.
  - destruct (trySend flushCapacity id (mx_flushCh m)) as [ch []]; [|destruct (mx_pc m); discriminate].
    destruct (mx_pc m); by injection Hs as <-.
  - destruct (mx_pc m); try discriminate Hs. injection Hs as <-.
    unfold prepareNextConnection. destruct (negb _); [done|].
    by destruct (RestartForReconnect env (mx_client m)) as [c [u|e]].
  - destruct failure as [reason|]; destruct (mx_pc m); try discriminate Hs; injection Hs as <-; [|done].
    rewrite handleDialFailure_eq. by apply reconnect_observed; [apply Hp|].
  - destruct (mx_pc m); try discriminate Hs. injection Hs as <-. unfold greet.
    destruct (writeClientMessage failure (hello ts m)); [|by apply reconnect_observed; [apply Hp|]].
    apply (mark_observed _ now (put_wire (<[conn := [hello ts m]]> (mx_wire m)) m)); [by apply Hp|exact H].
  - destruct (mx_pc m); try discriminate Hs. unfold take_flush in Hs. destruct (mx_flushCh m); [discriminate|].
    by injection Hs as <-.
  - destruct (mx_pc m); try discriminate Hs. unfold forward in Hs. destruct (mx_writers m !! conn); [|discriminate].
    destruct (trySend flushCapacity _ (w_requests w)) as [rs []]; [|discriminate]. by injection Hs as <-.
  - destruct (mx_writers m !! conn) as [w|]; [|destruct (mx_pc m); discriminate].
    apply (writer_observed conn e w m m'); [|done]. by destruct (mx_pc m).
  - destruct (mx_pc m); try discriminate Hs.
    unfold write_failed in Hs. destruct (mx_writers m !! conn) as [[st rs [[e replay]|]]|]; try discriminate Hs. injection Hs as <-.
    specialize (Hp eq_refl). apply reconnect_observed; open_pieces; [done|by apply (observers_frame m)].
  - destruct (mx_pc m); try discriminate Hs. injection Hs as <-. by apply receive_observed; [apply Hp|].
  - destruct (mx_pc m); try discriminate Hs. injection Hs as <-. by apply reconnect_observed; [apply Hp|].
  - destruct (mx_pc m) as [| | | | | |conn qr|]; try discriminate Hs.
    destruct (trySend resultsCapacity qr (mx_results m)) as [rs []]; [|discriminate]. by injection Hs as <-.
  - destruct (mx_pc m); try discriminate Hs. injection Hs as <-. by apply reconnect_observed; [apply Hp|].
  - destruct (mx_pc m); try discriminate Hs; injection Hs as <-; apply finish_observed; try (by apply Hp); try done;
      destruct (mx_acks m !! id); try done; by apply Hp.
  - destruct (SubscribeToConnectionState cb (mx_box m)) as [[box id] calls] eqn:Hsub.
    assert (m' = put_first (mx_first m ++ calls) (put_box box m)) as -> by (destruct (mx_pc m); congruence).
    unfold SubscribeToConnectionState in Hsub. destruct cb as [cb|]; injection Hsub as <- <- <-.
    + destruct H as [H1 H2]. split; [|by apply Forall_app; split; [|constructor]].
      intros id cb' Hid. cbn in Hid |- *.
      apply lookup_insert_Some in Hid as [[_ <-]|[_ Hid]]; [right|].
      * apply elem_of_app. right. by left.
      * destruct (H1 id cb' Hid) as [H|H]; [by left|right]. apply elem_of_app. by left.
    + apply (observers_frame m); [done|done| |done]. cbn. by rewrite app_nil_r.
  - assert (m' = put_box (forgetSubscriber id (mx_box m)) m) as -> by (destruct (mx_pc m); congruence).
    destruct H as [H1 H2]. split; [|exact H2].
    intros id' cb Hid. cbn in Hid |- *. apply lookup_delete_Some in Hid as [_ Hid]. exact (H1 _ _ Hid).
  - destruct (mx_first m !! j) as [call|] eqn:Hj; [|destruct (mx_pc m); discriminate].
    assert (m' = put_first (delete j (mx_first m)) (put_told (mx_told m ++ [call]) m)) as ->
      by (destruct (mx_pc m); congruence).
    destruct H as [H1 H2]. pose proof (Forall_lookup_1 _ _ _ _ H2 Hj) as Hc. split; cbn.
    + intros id cb Hid. destruct (decide (fst call = cb)) as [Hcb|Hcb].
      * left. apply last_told_app; [by constructor|]. right. exists call. split; [by left|done].
      * destruct (H1 id cb Hid) as [H|H]; [left; apply last_told_app; [by constructor|by left]|right].
        rewrite <- (take_drop_middle _ _ _ Hj) in H. rewrite delete_take_drop.
        apply elem_of_app in H as [H|H]; apply elem_of_app; [by left|right].
        apply elem_of_cons in H as [<-|H]; [by destruct Hcb|exact H].
    + by apply Forall_delete.
Qed.

Lemma runs_observed proto_text n m : runs proto_text first_calls_prompt n m -> observers_told m.
Proof.
  induction 1 as [|n m e m' Hr IH Hok He]; [|by eapply step_observed].
  split; [|done]. intros id cb. cbn. by rewrite lookup_empty.
Qed.
