(* ===== verification/ManagerTheorems.v ===== *)
(** * The theorems of the WebSocket manager

    Schedules and the states they lead to, the session on each connection, and the
    write loop against [flushQueued]. *)
From S2P Require Import Prelude GoStrings GoBytes GoJson Values Results GoEncode Paths Protocol ClientMessages ServerMessages ProtocolFacts MessageCodec Canonical ClientState BaseClient ClientQueries ClientRequests ClientInvariant ClientSession ClientTheorems ClientQueue SyncManager ManagerRun ManagerFacts.
From Stdlib Require Import Strings.Byte.
Local Open Scope Z_scope.

(** ** Schedules *)

#[export] Instance no_stale_take_dec e m : Decision (no_stale_take e m).
Proof. unfold no_stale_take. destruct e as [| | | | | | | | | |conn e| | | | | | | | |]; try apply _. destruct e; apply _. Defined.
#[export] Instance first_calls_prompt_dec e m : Decision (first_calls_prompt e m).
Proof. unfold first_calls_prompt. apply _. Defined.

(** The state after a list of events, if each can happen when its turn comes. *)
Fixpoint play (proto_text : proto_error -> string) (es : list event) (m : machine) : option machine :=
  match es with [] => Some m | e :: rest => step proto_text e m ≫= play proto_text rest end.
Fixpoint orderly (proto_text : proto_error -> string) (allowed : event -> machine -> Prop)
    `{!forall e m, Decision (allowed e m)} (es : list event) (m : machine) : bool :=
  match es with
  | [] => true
  | e :: rest =>
      bool_decide (allowed e m)
      && match step proto_text e m with Some m => orderly proto_text allowed rest m | None => true end
  end.

Section schedules.
Context (proto_text : proto_error -> string).

Lemma play_app es es' m : play proto_text (es ++ es') m = play proto_text es m ≫= play proto_text es'.
Proof.
  revert m. induction es as [|e es IH]; intros m; [done|]. cbn [play app].
  by destruct (step proto_text e m); cbn.
Qed.

Lemma play_runs allowed `{!forall e m, Decision (allowed e m)} n es m m' :
  runs proto_text allowed n m -> orderly proto_text allowed es m = true -> play proto_text es m = Some m' ->
  runs proto_text allowed (n + Z.of_nat (length es)) m'.
Proof.
  revert n m. induction es as [|e es IH]; intros n m Hr Ho Hp; cbn [orderly play length] in *.
  - injection Hp as <-. by rewrite Z.add_0_r.
  - apply andb_true_iff in Ho as [Hok Ho]. apply bool_decide_eq_true in Hok.
    destruct (step proto_text e m) as [m1|] eqn:Hs; [|done]. cbn in Hp.
    replace (n + Z.of_nat (S (length es))) with ((n + 1) + Z.of_nat (length es)) by lia.
    by apply (IH _ m1); [by eapply runs_step|..].
Qed.
End schedules.

(** ** The session on each connection *)

(** The connection that carries messages. *)
Definition open_connection (m : machine) : option Z :=
  match mx_pc m with Serving conn | Forwarding conn _ | Delivering conn _ => Some conn | _ => None end.

Lemma open_session proto_text n m conn :
  runs proto_text no_stale_take n m -> open_connection m = Some conn ->
  exists w hello log, mx_writers m !! conn = Some w /\
    mx_wire m !! conn = Some (CConnect hello :: log) /\ writer_log (w_state w) n (mx_client m) log.
Proof.
  intros [[_ _ _ Hs] _]%runs_session Ho. unfold in_step in Hs. unfold open_connection in Ho.
  destruct (mx_pc m); try discriminate Ho; by injection Ho as ->.
Qed.

Lemma synced_session n c log :
  synced n c log -> n < 2 ^ 32 ->
  exists s, accept_all (log ++ outgoing c) new_session = Some s /\ refines c s.
Proof. intros (k & Hk & H) Hn. apply (history_session _ _ _ H). lia. Qed.

Lemma synced_accepted n c log :
  synced n c log -> n < 2 ^ 32 -> exists s, accept_all log new_session = Some s.
Proof.
  intros H Hn. destruct (synced_session n c log H Hn) as (s & Hs & _).
  rewrite accept_all_app in Hs. apply bind_Some in Hs as (s0 & Hs & _). eauto.
Qed.

(** C3. Every connection carries a session the server accepts, in the schedules in
    which the write loop of an ended connection takes nothing from the queue.  The
    code does not see to that: in [stale_writer_takes] of ManagerOutcomes such a loop
    takes a message, which is then lost.  In fewer than 2^32 steps of such a schedule,
    whatever the transport, the server and the callers do and however the steps of
    the goroutines interleave otherwise, the connection in use got a Connect message
    and then messages the server accepts from the start of a session.  If moreover its
    write loop has not returned, the message it holds and then the queue complete the
    session to one in which the server has what the client believes, so that no
    message was lost, repeated or out of place through failures and reconnections. *)
Theorem connection_carries_session proto_text n m conn :
  runs proto_text no_stale_take n m -> n < 2 ^ 32 -> open_connection m = Some conn ->
  exists w hello log s0, mx_writers m !! conn = Some w /\
    mx_wire m !! conn = Some (CConnect hello :: log) /\ accept_all log new_session = Some s0 /\
    (w_state w <> Returned ->
     exists s, accept_all (in_flight (w_state w) ++ outgoing (mx_client m)) s0 = Some s /\
       refines (mx_client m) s).
Proof.
  intros Hr Hn Ho. destruct (open_session _ _ _ _ Hr Ho) as (w & h & log & Hw & Hl & Hlog).
  exists w, h, log.
  assert (Hsent : exists rest, synced n (mx_client m) (log ++ rest) /\
    (w_state w <> Returned -> rest = in_flight (w_state w))).
  { destruct (w_state w) as [|q|q msg|]; cbn in Hlog |- *.
    - exists []. by rewrite app_nil_r.
    - exists []. by rewrite app_nil_r.
    - by exists [msg].
    - destruct Hlog as [lost H]. by exists lost. }
  destruct Hsent as (rest & Hs & Hrest).
  destruct (synced_session _ _ _ Hs Hn) as (s & Ha & Href).
  rewrite <- app_assoc, accept_all_app in Ha. apply bind_Some in Ha as (s0 & H0 & H1).
  exists s0. repeat split; try done. intros Hst. exists s. by rewrite <- Hrest.
Qed.

(** A run: two operations, a connection, a message written, a read error, a
    connection that cannot be made, another one, and a message on it. *)
Definition zero_bytes : list byte := repeat Byte.x00 16.
Definition no_proto_text : proto_error -> string := fun _ => "".
Definition first_connection : list event :=
  [ERun (Some zero_bytes) 1; EUser (OSubscribe "messages:list" GNil);
   EUser (OMutation "messages:send" GNil []); EPrepare no_callback; EDial None 2; EGreet 3 None 4;
   EWriter 0 WTake; EWriter 0 WNext; EWriter 0 (WSend None)].
Definition sample_schedule : list event :=
  first_connection ++
  [EReadError "reset" 5; EPrepare no_callback; EDial (Some "refused") 6; EPrepare no_callback;
   EDial None 7; EGreet 8 None 9; EWriter 1 WTake; EWriter 1 WNext; EWriter 1 (WSend None);
   EWriter 1 WNext].
Definition sample_machine : machine :=
  default initialMachine (play no_proto_text sample_schedule initialMachine).

Lemma schedule_runs allowed `{!forall e m, Decision (allowed e m)} es :
  orderly no_proto_text allowed es initialMachine = true ->
  bool_decide (is_Some (play no_proto_text es initialMachine)) = true ->
  runs no_proto_text allowed (0 + Z.of_nat (length es)) (default initialMachine (play no_proto_text es initialMachine)).
Proof.
  intros Ho Hp. apply bool_decide_eq_true in Hp as [m Hm]. rewrite Hm. cbn.
  apply (play_runs _ _ 0 es initialMachine); [constructor|done|done].
Qed.

Lemma sample_runs : runs no_proto_text no_stale_take (0 + Z.of_nat (length sample_schedule)) sample_machine.
Proof. apply (schedule_runs no_stale_take); vm_compute; reflexivity. Qed.

Lemma connection_carries_session_witness :
  exists w hello log s0, mx_writers sample_machine !! 1 = Some w /\
    mx_wire sample_machine !! 1 = Some (CConnect hello :: log) /\
    accept_all log new_session = Some s0 /\
    (w_state w <> Returned ->
     exists s, accept_all (in_flight (w_state w) ++ outgoing (mx_client sample_machine)) s0 = Some s /\
       refines (mx_client sample_machine) s).
Proof.
  apply (connection_carries_session no_proto_text _ sample_machine 1 sample_runs);
    [vm_compute; reflexivity|vm_compute; reflexivity].
Defined.

(** ** Flushing *)

Lemma pop_cons c msg rest :
  outgoing c = msg :: rest -> PopNextMessage c = (set_outgoing rest c, Some msg).
Proof. unfold PopNextMessage. by intros ->. Qed.
Lemma pop_nil c : outgoing c = [] -> PopNextMessage c = (c, None).
Proof. unfold PopNextMessage. by intros ->. Qed.

Lemma set_outgoing_same c : set_outgoing (outgoing c) c = c.
Proof. by destruct c. Qed.

Lemma flushQueued_result fuel replies c :
  (length (outgoing c) < fuel)%nat ->
  exists k r, flushQueued fuel replies c
    = (set_outgoing (drop (match r with Ok _ => k | Err _ => S k end) (outgoing c)) c,
       take k (outgoing c), Some r) /\
  match r with
  | Ok _ => k = length (outgoing c)
  | Err e => exists msg, outgoing c !! k = Some msg /\
      writeClientMessage (default None (replies !! k)) msg = Err e
  end.
Proof.
  revert replies c. induction fuel as [|fuel IH]; intros replies c Hlen; [lia|].
  cbn [flushQueued]. destruct (outgoing c) as [|msg rest] eqn:Ho.
  - rewrite (pop_nil c Ho). exists 0%nat, (Ok ()). cbn. split; [|done].
    by rewrite <- Ho, set_outgoing_same.
  - rewrite (pop_cons c msg rest Ho). cbn in Hlen.
    destruct (writeClientMessage (default None (head replies)) msg) as [[]|e] eqn:Hw.
    + destruct (IH (tail replies) (set_outgoing rest c)) as (k & r & He & Hr); [cbn; lia|].
      rewrite He. cbn in Hr |- *. exists (S k), r. split; [by destruct r|].
      destruct r as [u|e]; [lia|]. destruct Hr as (msg' & Hk & Hw'). exists msg'. split; [done|].
      by destruct replies; [destruct k|].
    + exists 0%nat, (Err e). cbn. split; [done|]. exists msg. split; [done|].
      by destruct replies.
Qed.

(** A flush comes to its end and says what it did.  With as many calls as
    there are messages, and one more, it returns.  Success means that the
    connection got the whole queue, in order, and that the queue is empty.  A
    failure is the encoder's or the connection's at one message: the ones before
    it were written, it is gone, the ones after it are still queued, and nothing
    else of the client changed. *)
Theorem flushQueued_spec fuel replies c :
  (length (outgoing c) < fuel)%nat ->
  exists k r, flushQueued fuel replies c
    = (set_outgoing (drop (match r with Ok _ => k | Err _ => S k end) (outgoing c)) c,
       take k (outgoing c), Some r) /\
  match r with
  | Ok _ => k = length (outgoing c)
  | Err e => exists msg, outgoing c !! k = Some msg /\
      writeClientMessage (default None (replies !! k)) msg = Err e
  end.
Proof. apply flushQueued_result. Qed.

Lemma flushQueued_spec_witness :
  exists k r, flushQueued 4 [None; Some "closed"] sample_client
    = (set_outgoing (drop (match r with Ok _ => k | Err _ => S k end) (outgoing sample_client)) sample_client,
       take k (outgoing sample_client), Some r) /\
  match r with
  | Ok _ => k = length (outgoing sample_client)
  | Err e => exists msg, outgoing sample_client !! k = Some msg /\
      writeClientMessage (default None ([None; Some "closed"] !! k)) msg = Err e
  end.
Proof. apply flushQueued_spec. vm_compute. lia. Defined.

(** *** The write loop *)

(** What a call of [Flush] was told, when it had been told nothing before. *)
Definition told_ack (ack : option Z) (r : result write_error unit) (m m' : machine) : Prop :=
  forall id, ack = Some id -> mx_acks m' !! id = Some (default r (mx_acks m !! id)).

Lemma sendFlushAck_told ack r m : told_ack ack r m (sendFlushAck ack r m).
Proof.
  intros id ->. unfold sendFlushAck. destruct (mx_acks m !! id) eqn:Hid; [by rewrite Hid|].
  cbn. by rewrite lookup_insert_eq.
Qed.

Lemma sendFlushAck_keeps ack r m id x :
  mx_acks m !! id = Some x -> mx_acks (sendFlushAck ack r m) !! id = Some x.
Proof.
  unfold sendFlushAck. destruct ack as [i|]; [|done]. destruct (mx_acks m !! i) eqn:Hi; [done|].
  cbn. intros Hx. rewrite lookup_insert_ne; [done|]. intros ->. congruence.
Qed.

Lemma ackPending_keeps qs r m id x :
  mx_acks m !! id = Some x -> mx_acks (ackPendingFlushRequests qs r m) !! id = Some x.
Proof.
  revert m. induction qs as [|q qs IH]; intros m Hx; [done|]. apply IH. by apply sendFlushAck_keeps.
Qed.

Lemma ackPending_answers qs r m q id :
  q ∈ qs -> fq_ack q = Some id -> is_Some (mx_acks (ackPendingFlushRequests qs r m) !! id).
Proof.
  revert m. induction qs as [|q' qs IH]; intros m Hq Hid; [by apply elem_of_nil in Hq|].
  apply elem_of_cons in Hq as [<-|Hq]; [|by apply IH].
  exists (default r (mx_acks m !! id)). apply (ackPending_keeps qs r (sendFlushAck (fq_ack q) r m)). by apply sendFlushAck_told.
Qed.

(** Where a write loop is after a flush. *)
Definition flushed (conn : Z) (q : flushRequest) (requests : list flushRequest)
    (r : result write_error unit) (m m' : machine) : Prop :=
  told_ack (fq_ack q) r m m' /\
  match r with
  | Ok _ => exists e, mx_writers m' !! conn = Some (mkWriter WaitRequest requests e)
  | Err _ =>
      (exists e, mx_writers m' !! conn = Some (mkWriter Returned [] (Some e))) /\
      forall q' id, q' ∈ requests -> fq_ack q' = Some id -> is_Some (mx_acks m' !! id)
  end.

Section write_loop.
Context (proto_text : proto_error -> string).

Lemma play_writer conn e w m es :
  mx_writers m !! conn = Some w ->
  play proto_text (EWriter conn e :: es) m = writer_step conn e w m ≫= play proto_text es.
Proof. intros Hw. cbn. by rewrite Hw; destruct (mx_pc m). Qed.

Lemma write_loop_steps fuel replies conn q reqs err m c' written r :
  current m = Some conn -> mx_writers m !! conn = Some (mkWriter (TakeMessage q) reqs err) ->
  flushQueued fuel replies (mx_client m) = (c', written, Some r) ->
  exists es m', play proto_text (EWriter conn <$> es) m = Some m' /\ mx_client m' = c' /\
    default [] (mx_wire m' !! conn) = default [] (mx_wire m !! conn) ++ written /\
    flushed conn q reqs r m m'.
Proof.
  revert replies m c' written. induction fuel as [|fuel IH]; intros replies m c' written Hcur Hw Hf; [done|].
  cbn [flushQueued] in Hf.
  destruct (PopNextMessage (mx_client m)) as [c [msg|]] eqn:Hp.
  2: { injection Hf as <- <- <-. exists [WNext]. eexists. cbn [fmap list_fmap].
    rewrite (play_writer conn WNext _ _ _ Hw). cbn [writer_step w_state]. rewrite Hp. cbn [mbind option_bind play].
    split; [reflexivity|]. cbn [mx_client mx_wire put_writer].
    destruct (sendFlushAck_eq (fq_ack q) (Ok ()) (put_client c m)) as [acks E].
    pose proof (sendFlushAck_told (fq_ack q) (Ok ()) (put_client c m)) as Ht. rewrite E in Ht |- *.
    split; [done|]. split; [by rewrite app_nil_r|]. split; [exact Ht|]. exists err.
    cbn. by rewrite lookup_insert_eq. }
  set (w1 := mkWriter (WriteMessage q msg) reqs err). set (m1 := put_writer conn w1 (put_client c m)).
  assert (Hw1 : mx_writers m1 !! conn = Some w1) by (cbn; by rewrite lookup_insert_eq).
  assert (Hstep1 : forall es, play proto_text (EWriter conn WNext :: es) m = play proto_text es m1).
  { intros es. rewrite (play_writer conn WNext _ _ _ Hw). cbn [writer_step w_state]. by rewrite Hp. }
  assert (Hcur1 : bool_decide (current m1 = Some conn) = true) by (by apply bool_decide_eq_true).
  destruct (writeClientMessage (default None (head replies)) msg) as [[]|e] eqn:Hwrite.
  - destruct (flushQueued fuel (tail replies) c) as [[c2 written2] r2] eqn:Hf2.
    injection Hf as <- <- ->.
    set (m2 := put_writer conn (mkWriter (TakeMessage q) reqs err)
                 (put_wire (<[conn := default [] (mx_wire m1 !! conn) ++ [msg]]> (mx_wire m1)) m1)).
    destruct (IH (tail replies) m2 c2 written2) as (es & m' & Hplay & Hc & Hwire & Hfl).
    + exact Hcur.
    + cbn. by rewrite lookup_insert_eq.
    + exact Hf2.
    + exists (WNext :: WSend (default None (head replies)) :: es), m'. rewrite !fmap_cons, Hstep1.
      rewrite (play_writer conn _ _ _ _ Hw1). cbn [writer_step w_state w1].
      rewrite Hcur1, Hwrite. cbn [negb andb mbind option_bind].
      split; [exact Hplay|]. split; [exact Hc|]. split; [|exact Hfl].
      rewrite Hwire. cbn. rewrite lookup_insert_eq. cbn. by rewrite <- app_assoc.
  - injection Hf as <- <- <-. exists [WNext; WSend (default None (head replies))]. eexists.
    rewrite !fmap_cons, Hstep1. rewrite (play_writer conn _ _ _ _ Hw1). cbn [writer_step w_state w1].
    rewrite Hcur1, Hwrite. cbn [negb andb mbind option_bind fmap list_fmap play].
    split; [reflexivity|]. cbn [w_requests w_error w1].
    pose proof (sendFlushAck_told (fq_ack q) (Err e) m1) as Ht.
    destruct (sendFlushAck_eq (fq_ack q) (Err e) m1) as [acks E]. rewrite E in Ht |- *.
    set (m2 := put_acks acks m1) in *.
    pose proof (fun q' id => ackPending_answers reqs (Err e) m2 q' id) as Hans.
    pose proof (fun id x => ackPending_keeps reqs (Err e) m2 id x) as Hkeep.
    destruct (ackPending_eq reqs (Err e) m2) as [acks' E']. rewrite E' in Hans, Hkeep |- *.
    split; [done|]. split; [cbn; by rewrite app_nil_r|]. split; [|split].
    + intros id Hid. apply Hkeep. by apply Ht.
    + destruct err as [x|]; eexists; cbn; by rewrite lookup_insert_eq.
    + intros q' id Hq Hid. by apply (Hans q').
Qed.
End write_loop.

(** C10. The write loop implements [flushQueued].  Whatever the connection replies
    to the writes, the steps of the loop of the open connection lead from the
    request it took to the state [flushQueued] computes: the same queue left, the
    same messages on the wire after those already there, the call of [Flush]
    told the same result.  On success it waits for the next request; on an error
    it has returned, and every call whose request was waiting was told. *)
Theorem write_loop_flushes proto_text fuel replies conn q reqs err m :
  current m = Some conn -> mx_writers m !! conn = Some (mkWriter (TakeMessage q) reqs err) ->
  (length (outgoing (mx_client m)) < fuel)%nat ->
  exists c' written r es m', flushQueued fuel replies (mx_client m) = (c', written, Some r) /\
    play proto_text (EWriter conn <$> es) m = Some m' /\ mx_client m' = c' /\
    default [] (mx_wire m' !! conn) = default [] (mx_wire m !! conn) ++ written /\
    flushed conn q reqs r m m'.
Proof.
  intros Hcur Hw Hlen. destruct (flushQueued_result fuel replies (mx_client m) Hlen) as (k & r & He & _).
  destruct (write_loop_steps proto_text fuel replies conn q reqs err m _ _ _ Hcur Hw He) as (es & m' & H).
  by eexists _, _, r, es, m'.
Qed.

Definition idle_machine : machine :=
  default initialMachine (play no_proto_text
    (firstn 7 first_connection ++ [EUser (OAction "messages:log" GNil)]) initialMachine).

Lemma write_loop_flushes_witness :
  exists c' written r es m', flushQueued 5 [None; Some "closed"] (mx_client idle_machine) = (c', written, Some r) /\
    play no_proto_text (EWriter 0 <$> es) idle_machine = Some m' /\ mx_client m' = c' /\
    default [] (mx_wire m' !! 0) = default [] (mx_wire idle_machine !! 0) ++ written /\
    flushed 0 (mkFlushRequest None true) [] r idle_machine m'.
Proof.
  apply (write_loop_flushes no_proto_text 5 [None; Some "closed"] 0 (mkFlushRequest None true) [] None
    idle_machine); [vm_compute; reflexivity|vm_compute; reflexivity|vm_compute; lia].
Defined.
