(* ===== verification/ManagerFlush.v ===== *)
(** * The answers to the calls of Flush

    While a connection stays, the loop of [Run] and the write loop answer every
    call of [Flush] that has come to them: whatever turns the two take, they come
    to an end in a number of steps known beforehand, with the queue on the wire. *)
From S2P Require Import Prelude GoStrings GoBytes GoJson Values Results GoEncode Paths Protocol ClientMessages ServerMessages ProtocolFacts MessageCodec Canonical ClientState BaseClient ClientQueries ClientRequests ClientInvariant ClientSession ClientTheorems ClientQueue SyncManager ManagerRun ManagerFacts ManagerTheorems.
From Stdlib Require Import Strings.Byte.
Local Open Scope Z_scope.

(** ** What can be written *)

(** An identity to act as that can be encoded. *)
Definition token_ok (m : ClientMessage) : bool :=
  match m with CAuthenticate a => is_ok (Authenticate_MarshalJSON a) | _ => true end.

Lemma queued_written m : queued_ok m -> token_ok m = true -> writeClientMessage None m = Ok ().
Proof.
  intros Hm Ht. unfold writeClientMessage.
  assert (exists j, EncodeClientMessage (Some m) = Ok j) as [j ->]; [|done].
  destruct m as [a|a|a|a|a|a]; try done;
    try (destruct (client_message_round _ Hm) as (j & Hj & _); by exists j).
  cbn in Ht |- *. destruct (Authenticate_MarshalJSON a); [by eexists|done].
Qed.

(** A write loop only ever holds messages that can be encoded. *)
Definition flights_ok (m : machine) : Prop :=
  map_Forall (fun _ w => Forall queued_ok (in_flight (w_state w))) (mx_writers m).

Lemma moves_flight c w w' :
  queue_ok c -> writer_moves c w w' ->
  Forall queued_ok (in_flight (w_state w)) -> Forall queued_ok (in_flight (w_state w')).
Proof.
  intros Hc [] Hw; cbn in *; try done. unfold queue_ok in Hc. rewrite Forall_forall in Hc.
  constructor; [by apply Hc|constructor].
Qed.

Lemma runs_written proto_text allowed n m :
  runs proto_text allowed n m -> n < 2 ^ 32 -> queue_ok (mx_client m) /\ flights_ok m.
Proof.
  intros Hr Hn. split.
  { destruct (runs_reachable _ _ _ _ Hr) as (k & Hk & Hreach). apply (reachable_queue k); [done|lia]. }
  induction Hr as [|n m e m' Hr IH _ He]; [done|].
  apply (step_all_writers proto_text (fun w => Forall queued_ok (in_flight (w_state w))) e m);
    [done| |done|apply IH; lia].
  intros w w'. apply moves_flight. destruct (runs_reachable _ _ _ _ Hr) as (k & Hk & Hreach).
  apply (reachable_queue k); [done|lia].
Qed.

(** ** What is still to do *)

(** The steps of the two loops that flush, while the connection takes what is
    written. *)
Inductive flush_event (conn : Z) : event -> Prop :=
  | flush_EForward : flush_event conn EForward
  | flush_EForwarded : flush_event conn EForwarded
  | flush_WTake : flush_event conn (EWriter conn WTake)
  | flush_WNext : flush_event conn (EWriter conn WNext)
  | flush_WSend : flush_event conn (EWriter conn (WSend None)).

Definition caller (id : Z) : flushRequest := mkFlushRequest (Some id) true.

(** The request a write loop works on, and the one the loop of [Run] holds. *)
Definition served (st : writer_state) : list flushRequest :=
  match st with TakeMessage q | WriteMessage q _ => [q] | _ => [] end.
Definition held (pc : run_pc) : list flushRequest :=
  match pc with Forwarding _ id => [caller id] | _ => [] end.

(** The requests that have come and are not answered, in the order of their
    answers, and the messages that are not written. *)
Definition due (w : writer) (m : machine) : list flushRequest :=
  served (w_state w) ++ w_requests w ++ held (mx_pc m) ++ map caller (mx_flushCh m).
Definition unwritten (w : writer) (m : machine) : list ClientMessage :=
  in_flight (w_state w) ++ outgoing (mx_client m).

(** How many steps that takes: a message is taken and written, a request taken and
    answered, and a call of [Flush] taken and handed on before. *)
Definition work (w : writer) (m : machine) : nat :=
  2 * length (outgoing (mx_client m)) + 2 * length (w_requests w)
  + match w_state w with TakeMessage _ => 1 | WriteMessage _ _ => 2 | _ => 0 end
  + 3 * length (held (mx_pc m)) + 4 * length (mx_flushCh m).

(** A connection whose loops are both there. *)
Record flushing (conn : Z) (w : writer) (m : machine) : Prop := {
  fl_writer : mx_writers m !! conn = Some w;
  fl_there : w_state w <> Returned;
  fl_serving : mx_pc m = Serving conn \/ exists id, mx_pc m = Forwarding conn id;
  fl_written : Forall (fun msg => writeClientMessage None msg = Ok ()) (unwritten w m);
  fl_due : outgoing (mx_client m) = [] \/ due w m <> []
}.

(** What the steps of the two loops lead from and to. *)
Record onwards (conn : Z) (w w' : writer) (m m' : machine) : Prop := {
  on_flushing : flushing conn w' m';
  on_wire : default [] (mx_wire m' !! conn) ++ unwritten w' m'
            = default [] (mx_wire m !! conn) ++ unwritten w m;
  on_due : forall q id, q ∈ due w m -> fq_ack q = Some id -> q ∈ due w' m' \/ is_Some (mx_acks m' !! id);
  on_acks : forall id x, mx_acks m' !! id = Some x -> mx_acks m !! id = Some x \/ x = Ok ();
  on_told : forall id, is_Some (mx_acks m !! id) -> is_Some (mx_acks m' !! id)
}.

Lemma onwards_refl conn w m : flushing conn w m -> onwards conn w w m m.
Proof. intros H. split; eauto. Qed.

Lemma onwards_trans conn w1 w2 w3 m1 m2 m3 :
  onwards conn w1 w2 m1 m2 -> onwards conn w2 w3 m2 m3 -> onwards conn w1 w3 m1 m3.
Proof.
  intros [_ A2 A3 A4 A5] [B1 B2 B3 B4 B5]. split; [done|by rewrite B2| | |by eauto].
  - intros q id Hq Hid. destruct (A3 q id Hq Hid) as [?|?]; eauto.
  - intros id x Hx. destruct (B4 id x Hx) as [?|?]; eauto.
Qed.

(** ** One step *)

Section flush.
Context (proto_text : proto_error -> string).

Lemma EWriter_step conn e w m :
  mx_writers m !! conn = Some w -> step proto_text (EWriter conn e) m = writer_step conn e w m.
Proof. intros Hw. cbn. by rewrite Hw; destruct (mx_pc m). Qed.

Lemma forward_step conn w m m' :
  flushing conn w m -> step proto_text EForward m = Some m' ->
  onwards conn w w m m' /\ work w m = S (work w m').
Proof.
  intros [Hw Ht [Hpc|[id Hpc]] Hok Hdue] Hs; cbn [step] in Hs; rewrite Hpc in Hs; [|discriminate].
  unfold take_flush in Hs. destruct (mx_flushCh m) as [|id rest] eqn:Hch; [discriminate|]. injection Hs as <-.
  assert (Hsame : due w (put_pc (Forwarding conn id) (put_flushCh rest m)) = due w m)
    by (unfold due; cbn; by rewrite Hpc, Hch).
  split.
  - split; [|done| |by left|done].
    + split; [done|done|by right; eexists|done|]. by rewrite Hsame.
    + intros q i Hq _. left. by rewrite Hsame.
  - unfold work. cbn. rewrite Hpc, Hch. cbn. lia.
Qed.

Lemma forwarded_step conn w m m' :
  flushing conn w m -> step proto_text EForwarded m = Some m' ->
  exists w', onwards conn w w' m m' /\ work w m = S (work w' m').
Proof.
  intros [Hw Ht [Hpc|[id Hpc]] Hok Hdue] Hs; cbn [step] in Hs; rewrite Hpc in Hs; [discriminate|].
  unfold forward in Hs. rewrite Hw in Hs. unfold trySend in Hs.
  destruct (_ <? _)%nat; [|discriminate]. injection Hs as <-. fold (caller id).
  set (w' := mkWriter (w_state w) (w_requests w ++ [caller id]) (w_error w)).
  set (m' := put_pc (Serving conn) (put_writer conn w' m)). exists w'.
  assert (Hsame : due w' m' = due w m).
  { unfold due. cbn. rewrite Hpc. cbn. by rewrite <- !app_assoc. }
  split.
  - split; [|done| |by left|done].
    + split; [by cbn; rewrite lookup_insert_eq|done|by left|done|]. by rewrite Hsame.
    + intros q i Hq _. left. by rewrite Hsame.
  - unfold work. cbn. rewrite Hpc, length_app. cbn. lia.
Qed.

(** A step of the write loop that sets the writer, the queue and what was written. *)
Lemma writer_onwards conn w w' m m' :
  flushing conn w m ->
  mx_writers m' !! conn = Some w' -> w_state w' <> Returned -> mx_pc m' = mx_pc m ->
  mx_flushCh m' = mx_flushCh m -> mx_acks m' = mx_acks m ->
  default [] (mx_wire m' !! conn) ++ unwritten w' m' = default [] (mx_wire m !! conn) ++ unwritten w m ->
  (exists done, unwritten w m = done ++ unwritten w' m') ->
  served (w_state w') ++ w_requests w' = served (w_state w) ++ w_requests w ->
  (outgoing (mx_client m') = [] \/ outgoing (mx_client m) <> []) ->
  onwards conn w w' m m'.
Proof.
  intros [Hw Ht Hpc Hok Hdue] Hw' Ht' Epc Ech Eacks Hwire [ms Hms] Hreq Hout.
  assert (Hsame : due w' m' = due w m) by (unfold due; by rewrite !app_assoc, Hreq, Epc, Ech).
  split; [|done| | |].
  - split; [done|done|by rewrite Epc| |].
    + rewrite Hms in Hok. by apply Forall_app in Hok as [_ ?].
    + rewrite Hsame. destruct Hout; [by left|]. destruct Hdue; [done|by right].
  - intros q i Hq _. left. by rewrite Hsame.
  - rewrite Eacks. by left.
  - by rewrite Eacks.
Qed.

Lemma take_step conn w m m' :
  flushing conn w m -> step proto_text (EWriter conn WTake) m = Some m' ->
  exists w', onwards conn w w' m m' /\ work w m = S (work w' m').
Proof.
  intros H Hs. pose proof (fl_writer _ _ _ H) as Hw. rewrite (EWriter_step _ _ _ _ Hw) in Hs.
  destruct w as [[|q|q msg|] rest err]; cbn in Hs; try discriminate Hs.
  destruct rest as [|q rest]; [discriminate|]. injection Hs as <-. exists (mkWriter (TakeMessage q) rest err).
  split; [|unfold work; cbn; lia].
  eapply (writer_onwards conn _ _ m); try done; cbn; [by rewrite lookup_insert_eq|by exists []|].
  destruct (outgoing (mx_client m)); [by left|by right].
Qed.

Lemma next_step conn w m m' :
  flushing conn w m -> step proto_text (EWriter conn WNext) m = Some m' ->
  exists w', onwards conn w w' m m' /\ work w m = S (work w' m').
Proof.
  intros H Hs. pose proof (fl_writer _ _ _ H) as Hw. rewrite (EWriter_step _ _ _ _ Hw) in Hs.
  destruct w as [[|q|q msg|] rest err]; cbn in Hs; try discriminate Hs.
  destruct (outgoing (mx_client m)) as [|msg out] eqn:Ho.
  - rewrite (pop_nil _ Ho) in Hs. injection Hs as <-.
    pose proof (sendFlushAck_told (fq_ack q) (Ok ()) (put_client (mx_client m) m)) as Htold.
    destruct (sendFlushAck_eq (fq_ack q) (Ok ()) (put_client (mx_client m) m)) as [acks E].
    assert (Hacks : acks = match fq_ack q with
      | Some id => match mx_acks m !! id with Some _ => mx_acks m | None => <[id := Ok ()]> (mx_acks m) end
      | None => mx_acks m end).
    { unfold sendFlushAck in E. destruct (fq_ack q) as [id|]; [cbn in E; destruct (mx_acks m !! id)|];
        by apply (f_equal mx_acks) in E. }
    rewrite E in Htold |- *. exists (mkWriter WaitRequest rest err). split; [|unfold work; cbn; rewrite Ho; cbn; lia].
    destruct H as [_ Ht Hpc Hok Hdue]. split.
    + split; [by cbn; rewrite lookup_insert_eq|done|done|by unfold unwritten; cbn; rewrite Ho|by left].
    + unfold unwritten. cbn. by rewrite Ho.
    + intros q' id Hq Hid. unfold due in Hq. cbn in Hq. apply elem_of_cons in Hq as [->|Hq]; [|by left].
      right. exists (default (Ok ()) (mx_acks m !! id)). by apply Htold.
    + intros id x. cbn. rewrite Hacks. destruct (fq_ack q) as [i|]; [|by left].
      destruct (mx_acks m !! i) eqn:Hi; [by left|]. intros [[<- <-]|[_ ?]]%lookup_insert_Some; [by right|by left].
    + intros id [x Hx]. cbn. rewrite Hacks. destruct (fq_ack q) as [i|]; [|by eexists].
      destruct (mx_acks m !! i) eqn:Hi; [by eexists|]. rewrite lookup_insert_ne; [by eexists|congruence].
  - rewrite (pop_cons _ _ _ Ho) in Hs. injection Hs as <-. exists (mkWriter (WriteMessage q msg) rest err).
    split; [|unfold work; cbn; rewrite Ho; cbn; lia].
    eapply (writer_onwards conn _ _ m); try done; unfold unwritten; cbn;
      rewrite ?lookup_insert_eq, ?Ho; [done|done|by exists []|by right].
Qed.

Lemma send_step conn w m m' :
  flushing conn w m -> step proto_text (EWriter conn (WSend None)) m = Some m' ->
  exists w', onwards conn w w' m m' /\ work w m = S (work w' m').
Proof.
  intros H Hs. pose proof (fl_writer _ _ _ H) as Hw. rewrite (EWriter_step _ _ _ _ Hw) in Hs.
  pose proof (fl_written _ _ _ H) as Hok.
  destruct w as [[|q|q msg|] rest err]; cbn in Hs; try discriminate Hs.
  apply Forall_cons in Hok as [Hmsg _]. rewrite Hmsg in Hs.
  destruct (_ && _); [discriminate|]. injection Hs as <-. exists (mkWriter (TakeMessage q) rest err).
  split; [|unfold work; cbn; lia].
  eapply (writer_onwards conn _ _ m); try done; unfold unwritten; cbn; rewrite ?lookup_insert_eq.
  - done.
  - cbn. by rewrite <- app_assoc.
  - by exists [msg].
  - destruct (outgoing (mx_client m)); [by left|by right].
Qed.

Lemma flush_step conn e w m m' :
  flush_event conn e -> flushing conn w m -> step proto_text e m = Some m' ->
  exists w', onwards conn w w' m m' /\ work w m = S (work w' m').
Proof.
  intros [] H Hs.
  - exists w. by apply forward_step.
  - by apply forwarded_step.
  - by apply take_step.
  - by apply next_step.
  - by apply send_step.
Qed.

(** ** All of them *)

Lemma flush_progress conn w m :
  flushing conn w m -> work w m <> 0%nat -> exists e m', flush_event conn e /\ step proto_text e m = Some m'.
Proof.
  intros H Hwork. pose proof (fl_written _ _ _ H) as Hok. destruct H as [Hw Ht Hpc _ Hdue].
  pose proof (fun e => EWriter_step conn e w m Hw) as Hstep. destruct w as [[|q|q msg|] rest err]; [| | |done].
  - destruct rest as [|q rest].
    + destruct Hpc as [Hpc|[id Hpc]].
      * destruct (mx_flushCh m) as [|id ch] eqn:Hch.
        { destruct Hdue as [Ho|Hd].
          - destruct Hwork. unfold work. by rewrite Hpc, Hch, Ho.
          - destruct Hd. unfold due. by rewrite Hpc, Hch. }
        exists EForward. eexists. split; [constructor|]. cbn. unfold take_flush. by rewrite Hpc, Hch.
      * exists EForwarded. eexists. split; [constructor|]. cbn. unfold forward. by rewrite Hpc, Hw.
    + eexists _, _. split; [apply flush_WTake|]. by rewrite Hstep.
  - destruct (PopNextMessage (mx_client m)) as [c [msg|]] eqn:Hp; eexists _, _;
      (split; [apply flush_WNext|]); rewrite Hstep; cbn; by rewrite Hp.
  - apply Forall_cons in Hok as [Hmsg _]. eexists _, _. split; [apply flush_WSend|]. rewrite Hstep. cbn.
    rewrite Hmsg, bool_decide_true; [done|]. unfold current. by destruct Hpc as [->|[id ->]].
Qed.

Lemma flush_steps conn es : forall w m m1,
  flushing conn w m -> Forall (flush_event conn) es -> play proto_text es m = Some m1 ->
  exists w1, onwards conn w w1 m m1 /\ work w m = (length es + work w1 m1)%nat.
Proof.
  induction es as [|e es IH]; intros w m m1 H Hes Hp; cbn [play] in Hp.
  - injection Hp as <-. exists w. split; [by apply onwards_refl|done].
  - apply Forall_cons in Hes as [He Hes]. destruct (step proto_text e m) as [m2|] eqn:Hs; [|done].
    destruct (flush_step conn e w m m2 He H Hs) as (w2 & H2 & Hwork).
    destruct (IH w2 m2 m1 (on_flushing _ _ _ _ _ H2) Hes Hp) as (w1 & H1 & Hwork1).
    exists w1. split; [by eapply onwards_trans|]. cbn [length]. lia.
Qed.

Lemma flush_ends conn k : forall w m,
  work w m = k -> flushing conn w m ->
  exists es m', Forall (flush_event conn) es /\ length es = k /\ play proto_text es m = Some m'.
Proof.
  induction k as [|k IH]; intros w m Hk H; [by exists [], m|].
  destruct (flush_progress conn w m H) as (e & m1 & He & Hs); [lia|].
  destruct (flush_step conn e w m m1 He H Hs) as (w1 & [H1 _ _ _ _] & Hwork).
  destruct (IH w1 m1) as (es & m' & Hes & Hl & Hp); [lia|done|].
  exists (e :: es), m'. split; [by constructor|]. split; [by cbn; lia|]. cbn. by rewrite Hs.
Qed.

(** With nothing left to do, all is written and answered. *)
Lemma flush_over conn w m :
  flushing conn w m -> work w m = 0%nat ->
  mx_pc m = Serving conn /\ unwritten w m = [] /\ due w m = [] /\
  forall e, flush_event conn e -> step proto_text e m = None.
Proof.
  intros H Hwork.
  assert (Hstuck : forall e, flush_event conn e -> step proto_text e m = None).
  { intros e He. destruct (step proto_text e m) as [m'|] eqn:Hs; [|done].
    destruct (flush_step conn e w m m' He H Hs) as (w' & _ & Hwork'). lia. }
  destruct H as [_ Ht Hpc _ _]. unfold work, due, unwritten in *.
  assert (Ho : outgoing (mx_client m) = []) by (apply nil_length_inv; lia).
  assert (Hr : w_requests w = []) by (apply nil_length_inv; lia).
  assert (Hh : held (mx_pc m) = []) by (apply nil_length_inv; lia).
  assert (Hc : mx_flushCh m = []) by (apply nil_length_inv; lia).
  rewrite Ho, Hr, Hh, Hc. destruct Hpc as [Hpc|[id Hpc]]; [|by rewrite Hpc in Hh].
  by destruct (w_state w); try lia.
Qed.
End flush.

(** C6. While the connection stays, every call of [Flush] that has come is answered.
    Take any state the manager can get to in fewer than 2^32 steps, with a connection
    that is served and whose write loop has not returned, where the identities to act
    as that are still to be written can be encoded; and a call of [Flush] that has
    not been answered, be it in the channel of the manager, in the hands of the loop
    of [Run], in the channel of the write loop or the one it works on.  Let the two
    loops take the steps that flush, with a connection that takes what is written,
    in whatever turns, and nobody else any: however far they got, they can go on, and
    after [work] steps in all neither can take another.  Then the connection has
    got the message on its way and the whole queue, in order, the queue is empty, the
    loop of [Run] waits, and the call was told of success.  A connection that ends
    first leaves a call without its answer: [flush_forgotten] in ManagerOutcomes. *)
Theorem flush_answered proto_text allowed n m conn w id :
  runs proto_text allowed n m -> n < 2 ^ 32 ->
  (mx_pc m = Serving conn \/ exists id', mx_pc m = Forwarding conn id') ->
  mx_writers m !! conn = Some w -> w_state w <> Returned ->
  forallb token_ok (unwritten w m) = true ->
  (exists q, q ∈ due w m /\ fq_ack q = Some id) -> mx_acks m !! id = None ->
  forall es m1, Forall (flush_event conn) es -> play proto_text es m = Some m1 ->
  exists es' m', Forall (flush_event conn) es' /\ play proto_text es' m1 = Some m' /\
    (length es + length es' = work w m)%nat /\
    (forall e, flush_event conn e -> step proto_text e m' = None) /\
    mx_pc m' = Serving conn /\ outgoing (mx_client m') = [] /\
    default [] (mx_wire m' !! conn) = default [] (mx_wire m !! conn) ++ unwritten w m /\
    mx_acks m' !! id = Some (Ok ()).
Proof.
  intros Hr Hn Hpc Hw Ht Htok (q & Hq & Hid) Hack es m1 Hes Hp.
  destruct (runs_written _ _ _ _ Hr Hn) as [Hqueue Hflight].
  assert (H : flushing conn w m).
  { split; try done.
    - apply Forall_forall. intros msg Hmsg. apply queued_written.
      + apply elem_of_app in Hmsg as [Hmsg|Hmsg]; [|by eapply Forall_forall in Hqueue].
        pose proof (Hflight conn w Hw) as Hf. cbn in Hf. by eapply Forall_forall in Hf.
      + rewrite forallb_forall in Htok. by apply Htok, list_elem_of_In.
    - right. intros E. rewrite E in Hq. by apply elem_of_nil in Hq. }
  destruct (flush_steps proto_text conn es w m m1 H Hes Hp) as (w1 & H1 & Hwork).
  destruct (flush_ends proto_text conn (work w1 m1) w1 m1 eq_refl (on_flushing _ _ _ _ _ H1))
    as (es' & m' & Hes' & Hl & Hp').
  destruct (flush_steps proto_text conn es' w1 m1 m' (on_flushing _ _ _ _ _ H1) Hes' Hp') as (w' & H2 & Hwork').
  pose proof (onwards_trans _ _ _ _ _ _ _ H1 H2) as [H' Hwire Hdue Hacks _].
  destruct (flush_over proto_text conn w' m' H') as (Hserve & Hun & Hnone & Hstuck); [lia|].
  exists es', m'. split; [done|]. split; [done|]. split; [lia|]. split; [done|]. split; [done|].
  rewrite Hun, app_nil_r in Hwire. split; [by apply app_eq_nil in Hun as [_ ?]|]. split; [done|].
  destruct (Hdue q id Hq Hid) as [Hin|[x Hx]]; [rewrite Hnone in Hin; by apply elem_of_nil in Hin|].
  destruct (Hacks id x Hx) as [?| ->]; [congruence|done].
Qed.

(** A call of [Flush] on the connection of [first_connection], held by the loop of
    [Run] while the write loop writes. *)
Definition flush_schedule : list event := first_connection ++ [EWriter 0 WNext; EFlush 7; EForward; EFlush 8].
Definition flush_machine : machine :=
  default initialMachine (play no_proto_text flush_schedule initialMachine).
Definition flush_writer : writer := default (mkWriter Returned [] None) (mx_writers flush_machine !! 0).

Lemma flush_answered_witness :
  exists es' m', Forall (flush_event 0) es' /\
    play no_proto_text es' (default initialMachine (play no_proto_text [EForwarded; EForward] flush_machine)) = Some m' /\
    (2 + length es' = work flush_writer flush_machine)%nat /\
    (forall e, flush_event 0 e -> step no_proto_text e m' = None) /\
    mx_pc m' = Serving 0 /\ outgoing (mx_client m') = [] /\
    default [] (mx_wire m' !! 0) = default [] (mx_wire flush_machine !! 0) ++ unwritten flush_writer flush_machine /\
    mx_acks m' !! 7 = Some (Ok ()).
Proof.
  apply (flush_answered no_proto_text no_stale_take (0 + Z.of_nat (length flush_schedule)) flush_machine 0
    flush_writer 7) with (es := [EForwarded; EForward]).
  - apply (schedule_runs no_stale_take); vm_compute; reflexivity.
  - vm_compute. reflexivity.
  - right. exists 7. vm_compute. reflexivity.
  - vm_compute. reflexivity.
  - vm_compute. discriminate.
  - vm_compute. reflexivity.
  - exists (caller 7). split; [vm_compute; by right; left|reflexivity].
  - vm_compute. reflexivity.
  - repeat constructor.
  - vm_compute. reflexivity.
Defined.
