(* ===== verification/ManagerOutcomes.v ===== *)
(** * Restarts, observers and what gets lost

    The retries of a restart leave no trace, the observers of the connection
    state know where the loop is, and schedules of the goroutines lose a message, a
    caller of [Flush], a snapshot and the first call of an observer. *)
From S2P Require Import Prelude GoStrings GoBytes GoJson Values Results GoEncode Paths Protocol ClientMessages ServerMessages Canonical ClientState BaseClient ClientQueries ClientRequests ClientInvariant ClientSession ClientTheorems SyncManager ManagerRun ManagerFacts ManagerPhases ManagerTheorems.
From Stdlib Require Import Strings.Byte.
Local Open Scope Z_scope.

(** ** Retrying a restart *)

(** A restart up to the refresh of the token. *)
Definition restarted (c : Client) : Client :=
  cancelPendingActionsForReconnect
    (set_remoteVersion zero_version (set_querySetVersion 0 (set_identityVersion 0 (set_outgoing [] c)))).

Lemma no_actions_left c : sorted_ids is_action (cancelPendingActionsForReconnect c) = [].
Proof.
  destruct (sorted_ids is_action (cancelPendingActionsForReconnect c)) as [|id l] eqn:Hl; [done|].
  assert (Hin : id ∈ sorted_ids is_action (cancelPendingActionsForReconnect c)) by (rewrite Hl; by left).
  apply sorted_ids_elem in Hin as (r & Hr & Ha). apply cancel_requests in Hr as [_ Hk].
  unfold is_action in Ha. congruence.
Qed.

Lemma cancel_remote c :
  remoteVersion (cancelPendingActionsForReconnect c) = remoteVersion c.
Proof.
  unfold cancelPendingActionsForReconnect. generalize (sorted_ids is_action c). intros ids.
  revert c. induction ids as [|id ids IH]; intros c; [done|]. cbn [fold_left]. rewrite IH.
  by destruct (rememberActionResult_eq id (ErrorMessageResult actionReconnectErrorMessage) c)
    as (? & ? & _ & ->).
Qed.

Lemma restarted_again c : restarted (restarted c) = restarted c.
Proof.
  unfold restarted at 1. set (c0 := set_remoteVersion _ (set_querySetVersion _ _)).
  assert (c0 = restarted c) as ->.
  { subst c0. unfold restarted. set (c1 := set_remoteVersion _ (set_querySetVersion _ (set_identityVersion _ (set_outgoing _ c)))).
    destruct (cancel_quiet c1) as [[= Ho Hv Hi _ _] _]. pose proof (cancel_remote c1) as Hr.
    destruct (cancelPendingActionsForReconnect c1). cbn in *. by subst. }
  unfold restarted at 1. unfold cancelPendingActionsForReconnect at 1. by rewrite no_actions_left.
Qed.

(** The rest of a restart. *)
Definition replayed (env : auth_environment) (c : Client) : Client * result client_error unit :=
  let '(c, refreshed) :=
    match authFetcher c with
    | Some _ => RefreshAuthForReconnect env c
    | None => (c, Ok ())
    end in
  match refreshed with
  | Err e => (c, Err e)
  | Ok _ =>
      let adds := replayQueryAdds c in
      let c := if (0 <? length adds)%nat then queue_modifications adds c else c in
      (set_outgoing (outgoing c ++ ReplayOngoingRequests c) c, Ok ())
  end.

Lemma Restart_parts env c : RestartForReconnect env c = replayed env (restarted c).
Proof. reflexivity. Qed.

Lemma restart_failed env c : is_ok (snd (RestartForReconnect env c)) = false ->
  fst (RestartForReconnect env c) = restarted c.
Proof.
  rewrite Restart_parts. generalize (restarted c). intros c1. unfold replayed, RefreshAuthForReconnect.
  destruct (authFetcher c1) as [f|]; [|done]. by destruct (call_fetcher env f true).
Qed.

Lemma restart_again env c : RestartForReconnect env (restarted c) = RestartForReconnect env c.
Proof. by rewrite !Restart_parts, restarted_again. Qed.

Lemma prepareReconnect_retries c pre env post :
  Forall (fun e => is_ok (snd (RestartForReconnect e c)) = false) pre ->
  is_ok (snd (RestartForReconnect env c)) = true ->
  prepareReconnect (pre ++ env :: post) c = (fst (RestartForReconnect env c), true).
Proof.
  intros Hpre Henv. revert c Hpre Henv. induction pre as [|e pre IH]; intros c Hpre Henv.
  - cbn. destruct (RestartForReconnect env c) as [c' [u|err]]; [done|discriminate Henv].
  - apply Forall_cons in Hpre as [He Hpre]. cbn. pose proof (restart_failed e c He) as Hc.
    destruct (RestartForReconnect e c) as [c' [u|err]]; [discriminate He|]. cbn in Hc. subst c'.
    rewrite IH; rewrite ?restart_again; try done.
    eapply Forall_impl; [exact Hpre|]. intros e' He'. by rewrite restart_again.
Qed.

Lemma prepare_steps proto_text m pre env :
  mx_pc m = Preparing -> needsRestart (mx_run m) = true ->
  Forall (fun e => is_ok (snd (RestartForReconnect e (mx_client m))) = false) pre ->
  is_ok (snd (RestartForReconnect env (mx_client m))) = true ->
  play proto_text (EPrepare <$> pre ++ [env]) m
  = Some (put_pc Dialing (put_client (fst (RestartForReconnect env (mx_client m))) m)).
Proof.
  revert m. induction pre as [|e pre IH]; intros m Hpc Hn Hpre Henv.
  - cbn. rewrite Hpc. cbn. unfold prepareNextConnection. rewrite Hn. cbn.
    destruct (RestartForReconnect env (mx_client m)) as [c' [u|err]]; [done|discriminate Henv].
  - apply Forall_cons in Hpre as [He Hpre]. pose proof (restart_failed e _ He) as Hc.
    cbn. rewrite Hpc. cbn. unfold prepareNextConnection. rewrite Hn. cbn.
    destruct (RestartForReconnect e (mx_client m)) as [c' [u|err]]; [discriminate He|]. cbn in Hc |- *.
    subst c'. rewrite IH; cbn [mx_client mx_pc mx_run put_client]; rewrite ?restart_again; try done.
    eapply Forall_impl; [exact Hpre|]. intros e' He'. by rewrite restart_again.
Qed.

(** C25. The retries of a restart come to an end and leave no trace.  However
    often the authentication callback fails, the first time it succeeds
    [prepareReconnect] is done, and the client is what one restart that succeeds
    at once would have made of it: the failures neither repeat a message nor
    drop a request.  The same holds for the loop of [Run], which then goes on to
    connect. *)
Theorem retries_leave_no_trace proto_text m pre env post :
  mx_pc m = Preparing -> needsRestart (mx_run m) = true ->
  Forall (fun e => is_ok (snd (RestartForReconnect e (mx_client m))) = false) pre ->
  is_ok (snd (RestartForReconnect env (mx_client m))) = true ->
  prepareReconnect (pre ++ env :: post) (mx_client m)
    = (fst (RestartForReconnect env (mx_client m)), true) /\
  play proto_text (EPrepare <$> pre ++ [env]) m
    = Some (put_pc Dialing (put_client (fst (RestartForReconnect env (mx_client m))) m)).
Proof.
  intros Hpc Hn Hpre Henv. split; [by apply prepareReconnect_retries|by apply prepare_steps].
Qed.

(** A client with a callback that fails twice and then gives a token. *)
Definition some_token : auth_environment := fun _ _ => Ok (UserAuthToken "t").
Definition callback_machine : machine :=
  default initialMachine (play no_proto_text
    ([EUser (OSetAuthCallback some_token (Some (Callback 0)));
      EUser (OMutation "messages:send" GNil []); EUser (OAction "messages:log" GNil);
      ERun (Some zero_bytes) 1; EPrepare no_callback; EDial None 2; EGreet 3 None 4;
      EReadError "reset" 5]) initialMachine).

Lemma retries_leave_no_trace_witness :
  prepareReconnect ([no_callback; no_callback] ++ some_token :: []) (mx_client callback_machine)
    = (fst (RestartForReconnect some_token (mx_client callback_machine)), true) /\
  play no_proto_text (EPrepare <$> [no_callback; no_callback] ++ [some_token]) callback_machine
    = Some (put_pc Dialing (put_client
        (fst (RestartForReconnect some_token (mx_client callback_machine))) callback_machine)).
Proof.
  apply retries_leave_no_trace; [vm_compute; reflexivity|vm_compute; reflexivity| |vm_compute; reflexivity].
  repeat constructor; vm_compute; reflexivity.
Defined.

(** ** The connection state *)

(** C19. The connection state is where the loop is, and its observers know it unless
    their first call is overtaken.  In fewer than 2^32 steps of any schedule: the
    phase is that of the place in the loop, the number of connections is that of the
    connections that got a Connect message, the flag that there ever was one is set
    when there was, and the retries are the attempts that failed or ended; and connections name the
    same session, a later one a larger number.  In the schedules in which the state
    does not change between the registration of an observer and its first call, the
    last call of every observer that is subscribed carried the current state, unless
    its first call is still to come, which then carries it.  The code does not see
    to it that schedules are such: see [first_call_overtaken] below. *)
Theorem connection_state_told proto_text allowed n m :
  runs proto_text allowed n m -> n < 2 ^ 32 ->
  let s := connectionState (mx_box m) in
  facts s = (phase_of m, bool_decide (mx_wire m <> ∅), Z.of_nat (size (mx_wire m)),
             connectionCount (mx_run m)) /\
  (runs proto_text first_calls_prompt n m -> forall id cb, connectionStateSubscribers (mx_box m) !! id = Some cb ->
     last_told cb (mx_told m) = Some s \/ (cb, s) ∈ mx_first m) /\
  (forall conn conn' h h' log log', conn < conn' ->
     mx_wire m !! conn = Some (CConnect h :: log) -> mx_wire m !! conn' = Some (CConnect h' :: log') ->
     cn_SessionID h = cn_SessionID h' /\ cn_ConnectionCount h < cn_ConnectionCount h').
Proof.
  intros Hr Hn. destruct (runs_phase _ _ _ _ Hr Hn) as [_ H]. split; [apply H|]. split.
  - intros Hp. exact (proj1 (runs_observed _ _ _ Hp)).
  - intros conn conn' h h' log log' Hc H1 H2. split; [|by eapply (pi_order _ _ H conn conn')].
    destruct (pi_wire _ _ H _ _ H1) as (_ & g & l & [= <- <-] & -> & _).
    by destruct (pi_wire _ _ H _ _ H2) as (_ & g' & l' & [= <- <-] & -> & _).
Qed.

Definition observed_schedule : list event := EObserve (Some 5%nat) :: ETell 0 :: sample_schedule.
Definition observed_machine : machine :=
  default initialMachine (play no_proto_text observed_schedule initialMachine).

Lemma connection_state_told_witness :
  facts (connectionState (mx_box observed_machine))
  = (ConnectionPhaseConnected, true, 2, 2) /\
  last_told 5 (mx_told observed_machine) = Some (connectionState (mx_box observed_machine)).
Proof.
  assert (Hr : runs no_proto_text first_calls_prompt (0 + Z.of_nat (length observed_schedule)) observed_machine)
    by (apply (schedule_runs first_calls_prompt); vm_compute; reflexivity).
  destruct (connection_state_told no_proto_text first_calls_prompt _ observed_machine Hr
    ltac:(vm_compute; reflexivity)) as (H1 & H2 & _).
  split; [rewrite H1; vm_compute; reflexivity|].
  assert (Hsub : connectionStateSubscribers (mx_box observed_machine) !! 0 = Some 5%nat)
    by (vm_compute; reflexivity).
  destruct (H2 Hr 0 5%nat Hsub) as [H|H]; [exact H|].
  assert (Hf : mx_first observed_machine = []) by (vm_compute; reflexivity).
  rewrite Hf in H. by apply not_elem_of_nil in H.
Defined.

(** ** What the loops lose *)

(** The write loop of a connection that ended is still in [flushQueued], and
    takes the first message of the queue the restart has rebuilt. *)
Definition stale_schedule : list event :=
  firstn 7 first_connection ++
  [EReadError "reset" 5; EPrepare no_callback; EWriter 0 WNext; EWriter 0 (WSend (Some "closed"));
   EDial None 7; EGreet 8 None 9; EWriter 1 WTake; EWriter 1 WNext; EWriter 1 (WSend None);
   EWriter 1 WNext].
Definition stale_machine : machine :=
  default initialMachine (play no_proto_text stale_schedule initialMachine).

(** A schedule of the goroutines loses a message for good: the second connection
    is served, its write loop has emptied the queue without an error, and what
    the server got is not what the client believes, since the subscription never
    reached it. *)
Lemma stale_writer_takes :
  play no_proto_text stale_schedule initialMachine = Some stale_machine /\
  mx_pc stale_machine = Serving 1 /\ outgoing (mx_client stale_machine) = [] /\
  mx_writers stale_machine !! 1 = Some (mkWriter WaitRequest [] None) /\
  isActiveQuery 0 (mx_client stale_machine) = true /\
  exists hello log s, mx_wire stale_machine !! 1 = Some (CConnect hello :: log) /\
    accept_all log new_session = Some s /\ ss_queries s = ∅.
Proof.
  split; [|split; [|split; [|split; [|split]]]]; [vm_compute; reflexivity..|].
  eexists _, _, _. split; [vm_compute; reflexivity|]. split; [vm_compute; reflexivity|].
  reflexivity.
Qed.

(** [Flush] is called, its request is handed to the write loop, and the
    connection ends before the loop takes it. *)
Definition forgotten_schedule : list event :=
  first_connection ++
  [EWriter 0 WNext; EWriter 0 (WSend None); EWriter 0 WNext; EFlush 7; EForward; EForwarded;
   EReadError "reset" 5;
   EWriter 0 WLeave; EPrepare no_callback;
   EDial None 7; EGreet 8 None 9; EWriter 1 WTake; EWriter 1 WNext; EWriter 1 (WSend None);
   EWriter 1 WNext; EWriter 1 (WSend None); EWriter 1 WNext].
Definition forgotten_machine : machine :=
  default initialMachine (play no_proto_text forgotten_schedule initialMachine).

(** The caller is never told: the next connection is served and the queue is
    written and idle,
    but the request is left with a loop that has returned. *)
Lemma flush_forgotten :
  play no_proto_text forgotten_schedule initialMachine = Some forgotten_machine /\
  mx_pc forgotten_machine = Serving 1 /\ outgoing (mx_client forgotten_machine) = [] /\
  mx_flushCh forgotten_machine = [] /\ mx_acks forgotten_machine !! 7 = None /\
  mx_writers forgotten_machine !! 1 = Some (mkWriter WaitRequest [] None) /\
  mx_writers forgotten_machine !! 0 = Some (mkWriter Returned [mkFlushRequest (Some 7) true] None).
Proof. repeat (split; [vm_compute; reflexivity|]). vm_compute. reflexivity. Qed.

(** An observer is registered, the state changes and the observer is told; then
    comes its first call, with the state from before. *)
Definition overtaken_schedule : list event :=
  [EObserve (Some 5%nat); ERun (Some zero_bytes) 1; ETell 0].
Definition overtaken_machine : machine :=
  default initialMachine (play no_proto_text overtaken_schedule initialMachine).
Lemma first_call_overtaken :
  play no_proto_text overtaken_schedule initialMachine = Some overtaken_machine /\
  cs_Phase (connectionState (mx_box overtaken_machine)) = ConnectionPhaseConnecting /\
  mx_first overtaken_machine = [] /\
  cs_Phase <$> last_told 5 (mx_told overtaken_machine) = Some ConnectionPhaseDisconnected.
Proof. split; [|split; [|split]]; vm_compute; reflexivity. Qed.

(** The channel of results is full and the loop of [Run] waits for room, when a
    mutation publishes its snapshot. *)
Definition optimistic_list (v : Z) : OptimisticUpdate :=
  USetQuery "messages:list" GNil (GInt v) (fun _ => UReturn None).
Definition publishing (v : Z) : list event :=
  [EUser (OMutation "messages:send" GNil [WithOptimisticUpdate (Some (optimistic_list v))]); EPublish 0].
Definition query_answer : option json :=
  match EncodeServerMessage (Some (STransition (mkTransition zero_version (mkStateVersion 1 0 5)
    (Some [SMUpdated (mkQueryUpdated 0 (VInt64 7) None (mkOptionalString true None))]) None None false false))) with
  | Ok j => Some j
  | Err _ => None
  end.
Definition dropped_schedule : list event :=
  first_connection ++ concat (map (fun v => publishing (Z.of_nat v)) (seq 1 16)) ++
  [ERead query_answer 5] ++ publishing 17 ++ [EPublish 0; EDeliver; EPublish 0].
Definition dropped_machine : machine :=
  default initialMachine (play no_proto_text dropped_schedule initialMachine).

(** The newest snapshot is dropped: [sendLatest] makes room, the loop of [Run] fills
    it with the snapshot it waited with, and the second attempt finds the channel
    full.  Who reads the channel to its end does not see the last update. *)
Lemma newest_snapshot_dropped :
  play no_proto_text dropped_schedule initialMachine = Some dropped_machine /\
  mx_pc dropped_machine = Serving 0 /\ mx_publishing dropped_machine = [] /\
  QueryResults_Get (LatestResults (mx_client dropped_machine)) (0, 1) = (ValueResult (VInt64 17), true) /\
  ((fun snapshot => QueryResults_Get snapshot (0, 1)) <$> last (mx_results dropped_machine))
  = Some (ValueResult (VInt64 16), true).
Proof. repeat (split; [vm_compute; reflexivity|]). vm_compute. reflexivity. Qed.

(** The write loop is at a message, its channel is full, and the loop of [Run] has
    taken one more call of [Flush]. *)
Definition stalled_schedule : list event :=
  first_connection ++ [EWriter 0 WNext] ++
  concat (map (fun id => [EFlush (Z.of_nat id); EForward; EForwarded]) (seq 1 16)) ++ [EFlush 17; EForward].
Definition stalled_machine : machine :=
  default initialMachine (play no_proto_text stalled_schedule initialMachine).

(** Until the message is written the loop does not notice that the server is silent
    or the connection broken: only the end of the context moves it. *)
Lemma full_channel_stalls :
  play no_proto_text stalled_schedule initialMachine = Some stalled_machine /\
  mx_pc stalled_machine = Forwarding 0 17 /\
  (forall now, step no_proto_text (EInactive now) stalled_machine = None) /\
  (forall message now, step no_proto_text (EReadError message now) stalled_machine = None) /\
  step no_proto_text EForwarded stalled_machine = None /\
  (forall now, is_Some (step no_proto_text (ECancel now) stalled_machine)).
Proof.
  assert (Hpc : mx_pc stalled_machine = Forwarding 0 17) by (vm_compute; reflexivity).
  split; [vm_compute; reflexivity|]. split; [exact Hpc|].
  split; [intros now; cbn [step]; by rewrite Hpc|]. split; [intros message now; cbn [step]; by rewrite Hpc|].
  split; [vm_compute; reflexivity|]. intros now. cbn [step]. rewrite Hpc. by eexists.
Qed.
