(* ===== verification/RealtimeClient.v ===== *)
(** * The realtime client

    The model of [subscription_client.go] and [subscription_handles.go] over the
    machine of the WebSocket manager: the maps of subscriptions and watchers, the
    buffered channels their handles read, the goroutines [run] and
    [pumpResults], and the calls users make, each of them a sequence of atomic
    steps between which others take theirs.

    A handle is known by a number, which stands for its address and for its
    channel of updates; a call is known by a number, which is also that of its
    acknowledgement channel.  A caller's context may end whenever a step looks at
    it. *)
From S2P Require Import Prelude GoStrings Values Results GoEncode Protocol ClientMessages ServerMessages ClientState BaseClient ClientInvariant SyncManager ManagerRun.
Local Open Scope Z_scope.

(** ** Data *)

Inductive rt_error : Type :=
  | ErrSubscriptionClosed
  | ErrContext
  | ErrRun (e : run_error)
  | ErrClient (e : client_error)
  | ErrWrite (e : write_error).

(** A [QuerySubscription].  [h_locked] is its mutex, [h_updates] its channel. *)
Record QuerySubscription : Type := mkHandle {
  h_id : SubscriberID;
  h_updates : list FunctionResult;
  h_locked : bool;
  h_closedOK : bool;
  h_unsubscribeQueued : bool;
  h_closeErr : option rt_error
}.
Definition with_updates (l : list FunctionResult) (h : QuerySubscription) : QuerySubscription :=
  mkHandle (h_id h) l (h_locked h) (h_closedOK h) (h_unsubscribeQueued h) (h_closeErr h).
Definition with_locked (b : bool) (h : QuerySubscription) : QuerySubscription :=
  mkHandle (h_id h) (h_updates h) b (h_closedOK h) (h_unsubscribeQueued h) (h_closeErr h).
Definition with_queued (h : QuerySubscription) : QuerySubscription :=
  mkHandle (h_id h) (h_updates h) (h_locked h) (h_closedOK h) true (h_closeErr h).
Definition with_closed (e : option rt_error) (h : QuerySubscription) : QuerySubscription :=
  mkHandle (h_id h) (h_updates h) false true (h_unsubscribeQueued h) e.

(** A [QuerySetSubscription]. *)
Record QuerySetSubscription : Type := mkWatcher { wt_updates : list QueryResults; wt_closed : bool }.

(** What a flush is for, and what comes after a publication. *)
Inductive flush_for : Type := FlushSubscribe (h : Z) | FlushOperation | FlushUnsubscribe (h : Z).
Inductive publish_for : Type :=
  | PublishSubscribe (h : Z)
  | PublishMutation
  | PublishUnsubscribe (h : Z)
  | PublishRollback (e : rt_error).

(** What a call returns. *)
Inductive returned : Type :=
  | RetSubscription (h : Z)
  | RetWatcher (w : Z)
  | RetError (e : rt_error)
  | RetNil.

(** The calls of users, at the step they come to next. *)
Inductive call : Type :=
  | CallSubscribe (path : string) (args : goval)
  | CallOperation (op : operation) (flush : bool)
  | CallWatchAll
  | CallUnsubscribe (h : Z)
  | DoSubscribe (path : string) (args : goval)
  | Register (id : SubscriberID)
  | DoOperation (op : operation) (flush : bool)
  | DoWatch
  | DoUnsubscribe (h : Z)
  | ReadLatest (k : publish_for)
  | Publish (snapshot : QueryResults) (k : publish_for)
  | Flush (k : flush_for)
  | AwaitFlush (k : flush_for)
  | Rollback (h : Z) (e : rt_error)
  | RollbackManager (id : SubscriberID) (e : rt_error)
  | Panicked
  | CallReturned (r : returned).

(** Where the goroutine [run] is: in the manager's [Run], about to release the
    state, about to close [done], or over. *)
Inductive runner : Type :=
  | Running
  | Releasing (e : run_error)
  | Closing (e : run_error)
  | Done (e : run_error).

(** The client.  A map is [None] when it is nil. *)
Record WebSocketClient : Type := mkWebSocketClient {
  ws_manager : machine;
  ws_canceled : bool;
  ws_runner : runner;
  ws_subscriptions : option (gmap SubscriberID Z);
  ws_watchers : option (gset Z);
  ws_latest : QueryResults;
  ws_hasLatest : bool;
  ws_handles : gmap Z QuerySubscription;
  ws_sets : gmap Z QuerySetSubscription;
  ws_pump : option QueryResults;
  ws_calls : gmap Z call;
  ws_next : Z
}.

(** Assignment to one field. *)
Definition ws_put_manager (v : machine) (c : WebSocketClient) : WebSocketClient :=
  mkWebSocketClient v (ws_canceled c) (ws_runner c) (ws_subscriptions c) (ws_watchers c) (ws_latest c)
    (ws_hasLatest c) (ws_handles c) (ws_sets c) (ws_pump c) (ws_calls c) (ws_next c).
Definition ws_put_runner (canceled : bool) (v : runner) (c : WebSocketClient) : WebSocketClient :=
  mkWebSocketClient (ws_manager c) canceled v (ws_subscriptions c) (ws_watchers c) (ws_latest c)
    (ws_hasLatest c) (ws_handles c) (ws_sets c) (ws_pump c) (ws_calls c) (ws_next c).
Definition ws_put_subscriptions (v : option (gmap SubscriberID Z)) (c : WebSocketClient) : WebSocketClient :=
  mkWebSocketClient (ws_manager c) (ws_canceled c) (ws_runner c) v (ws_watchers c) (ws_latest c)
    (ws_hasLatest c) (ws_handles c) (ws_sets c) (ws_pump c) (ws_calls c) (ws_next c).
Definition ws_put_watchers (v : option (gset Z)) (c : WebSocketClient) : WebSocketClient :=
  mkWebSocketClient (ws_manager c) (ws_canceled c) (ws_runner c) (ws_subscriptions c) v (ws_latest c)
    (ws_hasLatest c) (ws_handles c) (ws_sets c) (ws_pump c) (ws_calls c) (ws_next c).
Definition ws_put_latest (v : QueryResults) (has : bool) (c : WebSocketClient) : WebSocketClient :=
  mkWebSocketClient (ws_manager c) (ws_canceled c) (ws_runner c) (ws_subscriptions c) (ws_watchers c) v
    has (ws_handles c) (ws_sets c) (ws_pump c) (ws_calls c) (ws_next c).
Definition ws_put_handles (v : gmap Z QuerySubscription) (c : WebSocketClient) : WebSocketClient :=
  mkWebSocketClient (ws_manager c) (ws_canceled c) (ws_runner c) (ws_subscriptions c) (ws_watchers c)
    (ws_latest c) (ws_hasLatest c) v (ws_sets c) (ws_pump c) (ws_calls c) (ws_next c).
Definition ws_put_sets (v : gmap Z QuerySetSubscription) (c : WebSocketClient) : WebSocketClient :=
  mkWebSocketClient (ws_manager c) (ws_canceled c) (ws_runner c) (ws_subscriptions c) (ws_watchers c)
    (ws_latest c) (ws_hasLatest c) (ws_handles c) v (ws_pump c) (ws_calls c) (ws_next c).
Definition ws_put_pump (v : option QueryResults) (c : WebSocketClient) : WebSocketClient :=
  mkWebSocketClient (ws_manager c) (ws_canceled c) (ws_runner c) (ws_subscriptions c) (ws_watchers c)
    (ws_latest c) (ws_hasLatest c) (ws_handles c) (ws_sets c) v (ws_calls c) (ws_next c).
Definition ws_put_calls (v : gmap Z call) (c : WebSocketClient) : WebSocketClient :=
  mkWebSocketClient (ws_manager c) (ws_canceled c) (ws_runner c) (ws_subscriptions c) (ws_watchers c)
    (ws_latest c) (ws_hasLatest c) (ws_handles c) (ws_sets c) (ws_pump c) v (ws_next c).
Definition ws_put_next (v : Z) (c : WebSocketClient) : WebSocketClient :=
  mkWebSocketClient (ws_manager c) (ws_canceled c) (ws_runner c) (ws_subscriptions c) (ws_watchers c)
    (ws_latest c) (ws_hasLatest c) (ws_handles c) (ws_sets c) (ws_pump c) (ws_calls c) v.

Definition put_call (k : Z) (s : call) (c : WebSocketClient) : WebSocketClient :=
  ws_put_calls (<[k := s]> (ws_calls c)) c.
Definition change_handle (f : QuerySubscription -> QuerySubscription) (h : Z) (c : WebSocketClient)
    : WebSocketClient := ws_put_handles (alter f h (ws_handles c)) c.

(** [NewWebSocketClient], once its options are accepted. *)
Definition NewWebSocketClient : WebSocketClient :=
  mkWebSocketClient initialMachine false Running (Some ∅) (Some ∅) (LatestResults New) true ∅ ∅ None ∅ 0.

(** [SetAuthContext] and its siblings are calls with a flush; without a context they make one of
    their own. *)
Definition ws_SetAuthContext (token : string) : call := CallOperation (OSetAuth token) true.
Definition ws_SetAdminAuthContext (token : string) (actingAs : list SyncUserIdentityAttributes) : call :=
  CallOperation (OSetAdminAuth token actingAs) true.
Definition ws_ClearAuthContext : call := CallOperation OClearAuth true.

(** [Close] after it has cancelled the context: it waits for the end of [run], and being cancelled is
    no error. *)
Definition WebSocketClient_Close (c : WebSocketClient) : option (option rt_error) :=
  match ws_runner c with
  | Done RunCanceled => Some None
  | Done e => Some (Some (ErrRun e))
  | _ => None
  end.

(** ** Pieces *)

(** [doneErr]: why the client is over, if it is.  Running ends with
    [context.Canceled] or an error of its own. *)
Definition run_result (e : run_error) : rt_error :=
  match e with RunCanceled => ErrContext | e => ErrRun e end.
Definition doneErr (c : WebSocketClient) : option rt_error :=
  match ws_runner c with
  | Done e => Some (run_result e)
  | _ => if ws_canceled c then Some ErrContext else None
  end.

Definition is_done (c : WebSocketClient) : bool :=
  match ws_runner c with Done _ => true | _ => false end.

(** Results go to a channel of capacity 1. *)
Definition updatesCapacity : nat := 1.

(** [publishLatest]: a subscription gets its result if the snapshot has one, a
    watcher the snapshot.  Ranging over a nil map does nothing. *)
Definition send_update (snapshot : QueryResults) (subscriptions : gmap SubscriberID Z)
    (n : Z) (h : QuerySubscription) : QuerySubscription :=
  if decide (subscriptions !! h_id h = Some n) then
    match QueryResults_Get snapshot (h_id h) with
    | (r, true) => with_updates (sendLatest updatesCapacity r (h_updates h)) h
    | (_, false) => h
    end
  else h.
Definition send_snapshot (snapshot : QueryResults) (watchers : gset Z) (n : Z) (w : QuerySetSubscription)
    : QuerySetSubscription :=
  if decide (n ∈ watchers) then mkWatcher (sendLatest updatesCapacity snapshot (wt_updates w)) (wt_closed w)
  else w.
Definition publishLatest (snapshot : QueryResults) (c : WebSocketClient) : WebSocketClient :=
  let c := ws_put_latest snapshot true c in
  let c := ws_put_handles (map_imap (fun n h => Some (send_update snapshot (default ∅ (ws_subscriptions c)) n h))
             (ws_handles c)) c in
  ws_put_sets (map_imap (fun n w => Some (send_snapshot snapshot (default ∅ (ws_watchers c)) n w))
    (ws_sets c)) c.

(** The registration of a new handle; assigning to a nil map panics. *)
Definition register (k : Z) (id : SubscriberID) (c : WebSocketClient) : WebSocketClient :=
  match ws_subscriptions c with
  | None => put_call k Panicked c
  | Some m =>
      let n := ws_next c in
      let updates :=
        if ws_hasLatest c then
          match QueryResults_Get (ws_latest c) id with (r, true) => [r] | (_, false) => [] end
        else [] in
      let c := ws_put_next (n + 1) c in
      let c := ws_put_subscriptions (Some (<[id := n]> m)) c in
      let c := ws_put_handles (<[n := mkHandle id updates false false false None]> (ws_handles c)) c in
      put_call k (ReadLatest (PublishSubscribe n)) c
  end.
Definition watch (k : Z) (c : WebSocketClient) : WebSocketClient :=
  match ws_watchers c with
  | None => put_call k Panicked c
  | Some s =>
      let n := ws_next c in
      let c := ws_put_next (n + 1) c in
      let c := ws_put_watchers (Some ({[n]} ∪ s)) c in
      let c := ws_put_sets
        (<[n := mkWatcher (if ws_hasLatest c then [ws_latest c] else []) false]> (ws_sets c)) c in
      put_call k (CallReturned (RetWatcher n)) c
  end.

(** Deleting from a nil map does nothing. *)
Definition forget (id : SubscriberID) (c : WebSocketClient) : WebSocketClient :=
  ws_put_subscriptions (delete id <$> ws_subscriptions c) c.

(** [finishUnsubscribe] and what follows it under the mutex of the handle. *)
Definition finishUnsubscribe (h : Z) (e : option rt_error) (c : WebSocketClient) : WebSocketClient :=
  match ws_handles c !! h with
  | None => c
  | Some s => change_handle (with_closed e) h (forget (h_id s) c)
  end.

(** [unwatch], the first time; [closeOnce] makes later calls do nothing. *)
Definition QuerySetSubscription_Close (w : Z) (c : WebSocketClient) : WebSocketClient :=
  match ws_sets c !! w with
  | Some (mkWatcher updates false) =>
      ws_put_sets (<[w := mkWatcher updates true]> (ws_sets c))
        (ws_put_watchers ((fun s => s ∖ {[w]}) <$> ws_watchers c) c)
  | _ => c
  end.

(** [releaseRuntimeState]. *)
Definition releaseRuntimeState (c : WebSocketClient) : WebSocketClient :=
  ws_put_latest (mkQueryResults ∅ ∅) false (ws_put_watchers None (ws_put_subscriptions None c)).

(** ** Steps *)

(** What a step of a call meets: the end of the caller's context, the channel it
    waits for being ready, or none of these. *)
Inductive input : Type := Go | ContextEnds | ChannelReady.

(** The error of [Manager.Flush], if waiting can end in this way now: with the
    answer, a context that has ended, or the manager being done. *)
Definition flush_outcome (k : Z) (i : input) (c : WebSocketClient) : option (option rt_error) :=
  match i with
  | ChannelReady =>
      match mx_acks (ws_manager c) !! k with
      | Some (Ok _) => Some None
      | Some (Err e) => Some (Some (ErrWrite e))
      | None => None
      end
  | ContextEnds => Some (Some ErrContext)
  | Go => match mx_pc (ws_manager c) with Finished e => Some (Some (run_result e)) | _ => None end
  end.

(** [WebSocketClient.flush] maps the error of a client that is over to that of
    the client. *)
Definition flush_error (e : option rt_error) (c : WebSocketClient) : option rt_error :=
  match e with
  | None => None
  | Some e => Some (if ws_canceled c then default ErrContext (doneErr c) else e)
  end.

(** What a call does once its flush has ended. *)
Definition after_flush (k : Z) (f : flush_for) (e : option rt_error) (c : WebSocketClient)
    : WebSocketClient :=
  match f, e with
  | FlushSubscribe h, None => put_call k (CallReturned (RetSubscription h)) c
  | FlushSubscribe h, Some e => put_call k (Rollback h e) c
  | FlushOperation, None => put_call k (CallReturned RetNil) c
  | FlushOperation, Some e => put_call k (CallReturned (RetError e)) c
  | FlushUnsubscribe h, None =>
      put_call k (CallReturned RetNil) (finishUnsubscribe h None c)
  | FlushUnsubscribe h, Some e =>
      put_call k (CallReturned (RetError e))
        (if ws_canceled c then finishUnsubscribe h (Some e) c
         else change_handle (with_locked false) h c)
  end.

(** What follows a publication. *)
Definition after_publish (k : Z) (p : publish_for) (c : WebSocketClient) : WebSocketClient :=
  match p with
  | PublishSubscribe h => put_call k (Flush (FlushSubscribe h)) c
  | PublishMutation => put_call k (Flush FlushOperation) c
  | PublishUnsubscribe h => put_call k (Flush (FlushUnsubscribe h)) (change_handle with_queued h c)
  | PublishRollback e => put_call k (CallReturned (RetError e)) c
  end.

(** The checks at the start of a call. *)
Definition start (k : Z) (i : input) (next : call) (c : WebSocketClient) : option WebSocketClient :=
  match i with
  | ContextEnds => Some (put_call k (CallReturned (RetError ErrContext)) c)
  | Go =>
      Some (put_call k (match doneErr c with Some e => CallReturned (RetError e) | None => next end) c)
  | ChannelReady => None
  end.

(** The operations of the manager behind [Mutation] and the methods of
    authentication, and whether they succeed. *)
Definition operation_result (op : operation) (c : Client) : result client_error unit :=
  match op with
  | OSetAuth t => snd (SetAuth t c)
  | OSetAdminAuth t i => snd (SetAdminAuth t i c)
  | OClearAuth => snd (ClearAuth c)
  | OSetAuthCallback env f => snd (SetAuthCallback env f c)
  | OMutation path args opts => (fun _ => ()) <$> snd (Mutation path args opts c)
  | _ => Ok ()
  end.
Definition is_control (op : operation) : bool :=
  match op with
  | OSetAuth _ | OSetAdminAuth _ _ | OClearAuth | OSetAuthCallback _ _ | OMutation _ _ _ => true
  | _ => false
  end.
Definition is_mutation (op : operation) : bool := match op with OMutation _ _ _ => true | _ => false end.

Section steps.
Context (proto_text : proto_error -> string).

Definition manager_step (e : event) (c : WebSocketClient) : option WebSocketClient :=
  m ← step proto_text e (ws_manager c); Some (ws_put_manager m c).

(** The manager's part of [Subscribe]. *)
Definition do_subscribe (k : Z) (path : string) (args : goval) (c : WebSocketClient)
    : option WebSocketClient :=
  c' ← manager_step (EUser (OSubscribe path args)) c;
  Some (put_call k
          match snd (Subscribe path args (mx_client (ws_manager c))) with
          | Ok id => Register id
          | Err e => CallReturned (RetError (ErrClient e))
          end c').

(** The manager's part of [Mutation], [setAuth], [setAdminAuth], [clearAuth] and
    [setAuthCallback]. *)
Definition do_operation (k : Z) (op : operation) (flush : bool) (c : WebSocketClient)
    : option WebSocketClient :=
  if is_control op then
    c' ← manager_step (EUser op) c;
    Some (put_call k
            match operation_result op (mx_client (ws_manager c)) with
            | Err e => CallReturned (RetError (ErrClient e))
            | Ok _ =>
                if is_mutation op then ReadLatest PublishMutation
                else if flush then Flush FlushOperation else CallReturned RetNil
            end c')
  else None.

(** [Unsubscribe] of a handle up to its first branch, under the mutex. *)
Definition begin_unsubscribe (k : Z) (i : input) (h : Z) (c : WebSocketClient) : option WebSocketClient :=
  match i, ws_handles c !! h with
  | ContextEnds, _ => Some (put_call k (CallReturned (RetError ErrContext)) c)
  | Go, Some s =>
      if h_locked s then None
      else if h_closedOK s then
        Some (put_call k (CallReturned (match h_closeErr s with None => RetNil | Some e => RetError e end)) c)
      else
        Some (put_call k (if h_unsubscribeQueued s then Flush (FlushUnsubscribe h) else DoUnsubscribe h)
                (change_handle (with_locked true) h c))
  | _, _ => None
  end.

(** The manager's part of it. *)
Definition do_unsubscribe (k h : Z) (c : WebSocketClient) : option WebSocketClient :=
  s ← ws_handles c !! h;
  c' ← manager_step (EUser (OUnsubscribe (h_id s))) c;
  Some match snd (Unsubscribe (h_id s) (mx_client (ws_manager c))) with
       | Ok _ => put_call k (ReadLatest (PublishUnsubscribe h)) c'
       | Err e => put_call k (CallReturned (RetError (ErrClient e))) (change_handle (with_locked false) h c')
       end.

(** A step of a call. *)
Definition call_step (k : Z) (i : input) (s : call) (c : WebSocketClient) : option WebSocketClient :=
  match s with
  | CallSubscribe path args => start k i (DoSubscribe path args) c
  | CallWatchAll => start k i DoWatch c
  | CallOperation op flush => start k (if is_mutation op then i else Go) (DoOperation op flush) c
  | CallUnsubscribe h => begin_unsubscribe k i h c
  | DoSubscribe path args => do_subscribe k path args c
  | Register id => Some (register k id c)
  | DoWatch => Some (watch k c)
  | DoOperation op flush => do_operation k op flush c
  | DoUnsubscribe h => do_unsubscribe k h c
  | ReadLatest p => Some (put_call k (Publish (LatestResults (mx_client (ws_manager c))) p) c)
  | Publish snapshot p => Some (after_publish k p (publishLatest snapshot c))
  | Flush f =>
      match i with
      | ChannelReady => c' ← manager_step (EFlush k) c; Some (put_call k (AwaitFlush f) c')
      | i => e ← flush_outcome k i c; Some (after_flush k f (flush_error e c) c)
      end
  | AwaitFlush f => e ← flush_outcome k i c; Some (after_flush k f (flush_error e c) c)
  | Rollback h e =>
      s ← ws_handles c !! h; Some (put_call k (RollbackManager (h_id s) e) (forget (h_id s) c))
  | RollbackManager id e =>
      c' ← manager_step (EUser (OUnsubscribe id)) c; Some (put_call k (ReadLatest (PublishRollback e)) c')
  | Panicked | CallReturned _ => None
  end.

(** [RManager] is a step of a goroutine of the manager, [RCancel] the end of the
    client's context, by [Close] or from outside. *)
Inductive ws_event : Type :=
  | RManager (e : event)
  | RCancel
  | RRun
  | RPump
  | RPublish
  | RCall (s : call)
  | RStep (k : Z) (i : input)
  | RNext (h : Z)
  | RNextSet (w : Z)
  | RClose (w : Z).

(** The events of the manager that come from inside it: the context of a write loop
    ends with its connection, and with that of the client. *)
Definition internal (e : event) (c : WebSocketClient) : bool :=
  match e with
  | EUser _ | EConsume | EFlush _ => false
  | ECancel _ => ws_canceled c
  | EWriter conn WLeave => ws_canceled c || negb (bool_decide (current (ws_manager c) = Some conn))
  | _ => true
  end.

(** A handle a user has: the one a call returned. *)
Definition returns_handle (h : Z) (s : call) : bool :=
  match s with CallReturned (RetSubscription h') => h' =? h | _ => false end.
Definition has_handle (h : Z) (c : WebSocketClient) : bool :=
  negb (map_forallb (fun _ s => negb (returns_handle h s)) (ws_calls c)).
Definition call_start (s : call) (c : WebSocketClient) : bool :=
  match s with
  | CallSubscribe _ _ | CallWatchAll => true
  | CallOperation op _ => is_control op
  | CallUnsubscribe h => has_handle h c
  | _ => false
  end.

(** A panic ends the program. *)
Definition panics (s : call) : bool := match s with Panicked => true | _ => false end.
Definition crashed (c : WebSocketClient) : bool :=
  negb (map_forallb (fun _ s => negb (panics s)) (ws_calls c)).

(** The goroutine [run], from the end of the manager's [Run]. *)
Definition run (c : WebSocketClient) : option WebSocketClient :=
  match ws_runner c with
  | Running =>
      match mx_pc (ws_manager c) with
      | Finished e => Some (ws_put_runner true (Releasing e) c)
      | _ => None
      end
  | Releasing e => Some (ws_put_runner true (Closing e) (releaseRuntimeState c))
  | Closing e => Some (ws_put_runner true (Done e) c)
  | Done _ => None
  end.

(** [pumpResults]: a snapshot taken from the manager, then published. *)
Definition pump_take (c : WebSocketClient) : option WebSocketClient :=
  match ws_pump c, mx_results (ws_manager c) with
  | None, snapshot :: _ => c' ← manager_step EConsume c; Some (ws_put_pump (Some snapshot) c')
  | _, _ => None
  end.
Definition pump_publish (c : WebSocketClient) : option WebSocketClient :=
  match ws_pump c with
  | Some snapshot => Some (ws_put_pump None (publishLatest snapshot c))
  | None => None
  end.

(** [Next] of both kinds of handle when it returns an update. *)
Definition QuerySubscription_Next (h : Z) (c : WebSocketClient) : option WebSocketClient :=
  s ← ws_handles c !! h;
  match h_closedOK s || is_done c, h_updates s with
  | false, _ :: rest => Some (change_handle (with_updates rest) h c)
  | _, _ => None
  end.
Definition QuerySetSubscription_Next (w : Z) (c : WebSocketClient) : option WebSocketClient :=
  s ← ws_sets c !! w;
  match wt_closed s || is_done c, wt_updates s with
  | false, _ :: rest => Some (ws_put_sets (<[w := mkWatcher rest false]> (ws_sets c)) c)
  | _, _ => None
  end.

Definition ws_step (e : ws_event) (c : WebSocketClient) : option WebSocketClient :=
  if crashed c then None else
  match e with
  | RManager e => if internal e c then manager_step e c else None
  | RCancel => Some (ws_put_runner true (ws_runner c) c)
  | RRun => run c
  | RPump => pump_take c
  | RPublish => pump_publish c
  | RCall s =>
      if call_start s c then Some (put_call (ws_next c) s (ws_put_next (ws_next c + 1) c)) else None
  | RStep k i => s ← ws_calls c !! k; call_step k i s c
  | RNext h => QuerySubscription_Next h c
  | RNextSet w => QuerySetSubscription_Next w c
  | RClose w => Some (QuerySetSubscription_Close w c)
  end.

Inductive ws_runs : Z -> WebSocketClient -> Prop :=
  | ws_runs_start : ws_runs 0 NewWebSocketClient
  | ws_runs_step n c e c' : ws_runs n c -> ws_step e c = Some c' -> ws_runs (n + 1) c'.

Fixpoint ws_play (es : list ws_event) (c : WebSocketClient) : option WebSocketClient :=
  match es with [] => Some c | e :: rest => ws_step e c ≫= ws_play rest end.

Lemma ws_play_runs n es c c' :
  ws_runs n c -> ws_play es c = Some c' -> ws_runs (n + Z.of_nat (length es)) c'.
Proof.
  revert n c. induction es as [|e es IH]; intros n c Hr Hp; cbn [ws_play length] in *.
  - injection Hp as <-. by rewrite Z.add_0_r.
  - destruct (ws_step e c) as [c1|] eqn:Hs; [|done]. cbn in Hp.
    replace (n + Z.of_nat (S (length es))) with ((n + 1) + Z.of_nat (length es)) by lia.
    by apply (IH _ c1); [by eapply ws_runs_step|].
Qed.
End steps.
