(* ===== verification/RealtimeFacts.v ===== *)
(** * The subscriptions of the realtime client

    Who owns each subscriber of the base client: a handle that a user has and has
    not closed, or a call on its way.  The invariant of the handles and calls
    from which the theorems of RealtimeTheorems follow. *)
From S2P Require Import Prelude GoStrings Values Results GoEncode Protocol ClientMessages ServerMessages Canonical ClientState BaseClient ClientQueries ClientRequests ClientInvariant ClientSession SyncManager ManagerRun ManagerFacts RealtimeClient.
Local Open Scope Z_scope.

(** ** Subscribers through the operations *)

Definition changes_subscribers (op : operation) : bool :=
  match op with OSubscribe _ _ | OUnsubscribe _ => true | _ => false end.

Lemma receive_query_part msg c : query_part (fst (ReceiveMessage msg c)) = query_part c.
Proof.
  destruct msg as [[m|m|m|m|m|e|]|]; cbn [ReceiveMessage]; try done.
  - unfold receiveTransition. destruct (decide (tr_StartVersion m = remoteVersion c)); [|done].
    set (c1 := fold_left _ _ c). set (c2 := observeTimestamp _ _).
    set (c3 := completeMutationsThrough _ c2).
    assert (H3 : query_part c3 = query_part c).
    { destruct (completeThrough_frame (sv_TS (tr_EndVersion m)) c2) as [H3 _]. fold c3 in H3. rewrite H3.
      destruct (observe_frame (sv_TS (tr_EndVersion m)) (set_remoteVersion (tr_EndVersion m) c1)) as [H2 _].
      fold c2 in H2. rewrite H2. by destruct (modifications_frame (default [] (tr_Modifications m)) c). }
    destruct (recompute_frame c3) as [H4 _]. rewrite H3 in H4.
    by destruct (recomputeOptimisticResults c3) as [c4 [|]].
  - unfold receiveMutationResponse.
    assert (H : query_part (fst (updateRequestFromMutationResponse m c)) = query_part c).
    { unfold updateRequestFromMutationResponse.
      destruct (requests c !! mr_RequestID m) as [r|]; [|by case_decide].
      destruct (decide _); [|done]. set (c1 := set_requests _ c).
      destruct (negb _); [|by destruct (mr_TS m)].
      destruct (complete_frame (mr_RequestID m) c1) as [Hc _].
      destruct (completeMutationRequest (mr_RequestID m) c1) as [c2 []]; [|exact Hc].
      destruct (recompute_frame c2) as [-> _]. exact Hc. }
    destruct (updateRequestFromMutationResponse m c) as [c' [|]]; [|exact H]. cbn [fst] in *.
    destruct (mr_TS m) as [ts|]; [|exact H]. by destruct (observe_frame ts c') as [-> _].
  - unfold updateRequestFromActionResponse.
    destruct (requests c !! ar_RequestID m) as [r|]; [|done]. destruct (decide _); [|done].
    cbn [fst]. destruct (remember_action_frame (ar_RequestID m) (functionResultFromResponse (ar_Success m)
      (ar_Value m) (ar_ErrorMessage m) (ar_ErrorData m)) c) as (Hq & _ & _). exact Hq.
Qed.

Lemma perform_query_part op c :
  changes_subscribers op = false -> query_part (perform op c) = query_part c.
Proof.
  intros Hop. destruct op as [p a|id| |t|t i| |env f|env|p a o|p a|env|msg]; try done; cbn [perform].
  - unfold PopNextMessage. by destruct (outgoing c).
  - unfold SetAuthCallback. destruct f as [f|]; [|done]. by destruct (call_fetcher env f false).
  - apply refresh_frame.
  - unfold Mutation, mutation. destruct (canonicalRequest p a) as [[p' l]|]; [|done].
    destruct (syncMutationOptionsFrom o); [|done]. by destruct (optimisticResultsWith c _).
  - unfold Action. by destruct (canonicalRequest p a) as [[p' l]|].
  - unfold RestartForReconnect. set (c0 := set_remoteVersion _ _).
    set (c1 := cancelPendingActionsForReconnect c0).
    assert (H1 : query_part c1 = query_part c) by (etrans; [apply cancel_frame|done]).
    assert (H2 : forall c2 u, match authFetcher c1 with
        | Some _ => RefreshAuthForReconnect env c1 | None => (c1, Ok ()) end = (c2, u) ->
      query_part c2 = query_part c).
    { intros c2 u. destruct (authFetcher c1); [|by intros [= <- _]].
      destruct (refresh_frame env c1) as [Hq _]. intros He. rewrite He in Hq. by etrans. }
    destruct (match authFetcher c1 with Some _ => _ | None => _ end) as [c2 u] eqn:He.
    specialize (H2 c2 u eq_refl). destruct u; [|exact H2]. by destruct (0 <? _)%nat.
  - apply receive_query_part.
Qed.

(** *** Ids are handed out once *)

(** An id that was given to a subscriber, now or earlier. *)
Definition issued (c : Client) (id : SubscriberID) : Prop :=
  fst id < nextQueryID c /\
  forall tok q, queries c !! tok = Some q -> q_id q = fst id -> snd id <= q_nextSubscriberIdx q.

Lemma issued_frame c c' id : query_part c' = query_part c -> issued c id -> issued c' id.
Proof. unfold issued. by intros [= -> -> _ _]. Qed.

Lemma subscriber_issued n c id : queries_inv n c -> id ∈ subscribers c -> issued c id.
Proof.
  intros Hi Hin. destruct (qi_subs _ _ Hi _ Hin) as (tok & q & Hq & He & Hs).
  split; [pose proof (qi_range _ _ Hi _ _ Hq); lia|].
  intros tok' q' Hq' He'. destruct (query_id_inj n c tok' tok q' q Hi Hq' Hq ltac:(lia)) as [_ ->]. lia.
Qed.

Lemma Subscribe_subscribers n c path args :
  queries_inv n c -> n + 1 < 2 ^ 32 ->
  match Subscribe path args c with
  | (c', Ok id) => ~ issued c id /\ subscribers c' = {[id]} ∪ subscribers c /\
      forall id', issued c id' -> issued c' id'
  | (c', Err _) => c' = c
  end.
Proof.
  intros Hi Hn. pose proof (qi_next _ _ Hi) as Hnext. unfold Subscribe.
  destruct (canonicalQuery path args) as [[[p l] tok]|]; [|done].
  destruct (queries c !! tok) as [q|] eqn:Hl.
  - pose proof (qi_idx _ _ Hi _ _ Hl) as Hidx. rewrite u64_small by lia. split; [|split; [done|]].
    + intros [_ H]. specialize (H tok q Hl eq_refl). cbn in H. lia.
    + intros id' [H1 H2]. split; [done|]. cbn. intros tok' q' Hq' He.
      apply lookup_insert_Some in Hq' as [[<- <-]|[_ Hq']]; [|by eapply H2].
      cbn in He |- *. specialize (H2 tok q Hl He). lia.
  - split; [|split; [done|]].
    + intros [H _]. cbn in H. lia.
    + intros id' [H1 H2]. split; [cbn; rewrite u32_small; lia|]. cbn. intros tok' q' Hq' He.
      apply lookup_insert_Some in Hq' as [[<- <-]|[_ Hq']]; [cbn in He; lia|by eapply H2].
Qed.

Lemma Unsubscribe_subscribers n c id :
  queries_inv n c -> id ∈ subscribers c ->
  snd (Unsubscribe id c) = Ok () /\ subscribers (fst (Unsubscribe id c)) = subscribers c ∖ {[id]} /\
  forall id', issued c id' -> issued (fst (Unsubscribe id c)) id'.
Proof.
  intros Hi Hin. unfold Unsubscribe. rewrite decide_True by done.
  cbn [queryIDToToken set_subscribers queries].
  destruct (qi_subs _ _ Hi _ Hin) as (tok & q & Hl & He & _).
  rewrite <- He. rewrite (qi_token _ _ Hi _ _ Hl), Hl.
  destruct (1 <? q_numSubscribers q); (split; [done|]; split; [done|]);
    intros id' [H1 H2]; (split; [done|]); cbn; intros tok' q' Hq' He'.
  - apply lookup_insert_Some in Hq' as [[<- <-]|[_ Hq']]; [|by eapply H2].
    cbn in He' |- *. by apply (H2 tok q).
  - apply lookup_delete_Some in Hq' as [_ Hq']. by eapply H2.
Qed.

(** The step of a call, case by case. *)
Ltac open_call Hs :=
  cbn [call_step] in Hs; unfold begin_unsubscribe, do_subscribe, do_operation, do_unsubscribe in Hs.

(** A step of the manager other than for a user keeps the query set. *)
Lemma step_query_part proto_text e m m' :
  step proto_text e m = Some m' ->
  match e with EUser op => changes_subscribers op = false | _ => True end ->
  query_part (mx_client m') = query_part (mx_client m).
Proof.
  intros [->|(op & -> & Hop)]%step_does He; [done|]. apply perform_query_part.
  destruct (changes_subscribers op) eqn:Hc; [|done].
  assert (Hu : user_operation op = true) by (by destruct op). specialize (Hop Hu).
  destruct e; try done. injection Hop as ->. congruence.
Qed.

(** ** Handles and the calls that work on them *)

(** How far a handle is, with the call that works on it. *)
Inductive phase : Type :=
  | Creating (k : Z)
  | Open
  | Unsubscribing (k : Z)
  | Told (k : Z)
  | Queued
  | Flushing (k : Z)
  | Closed
  | RolledBack.

(** The manager still has the subscription. *)
Definition live (p : phase) : bool :=
  match p with Creating _ | Open | Unsubscribing _ => true | _ => false end.

(** What the handle shows of it. *)
Definition shows (p : phase) (s : QuerySubscription) : Prop :=
  h_locked s = match p with Unsubscribing _ | Told _ | Flushing _ => true | _ => false end /\
  h_unsubscribeQueued s = match p with Queued | Flushing _ | Closed => true | _ => false end /\
  h_closedOK s = match p with Closed => true | _ => false end.

(** The handle a call works on. *)
Definition works_on (k : Z) (s : call) : option (Z * phase) :=
  match s with
  | ReadLatest (PublishSubscribe h) | Publish _ (PublishSubscribe h)
  | Flush (FlushSubscribe h) | AwaitFlush (FlushSubscribe h) | Rollback h _ => Some (h, Creating k)
  | DoUnsubscribe h => Some (h, Unsubscribing k)
  | ReadLatest (PublishUnsubscribe h) | Publish _ (PublishUnsubscribe h) => Some (h, Told k)
  | Flush (FlushUnsubscribe h) | AwaitFlush (FlushUnsubscribe h) => Some (h, Flushing k)
  | _ => None
  end.

(** The call a phase belongs to. *)
Definition by_call (p : phase) : option Z :=
  match p with Creating k | Unsubscribing k | Told k | Flushing k => Some k | _ => None end.

(** The subscriber a call answers for, between the manager and the handle. *)
Definition holds (s : call) : option SubscriberID :=
  match s with Register id | RollbackManager id _ => Some id | _ => None end.

(** A handle that a call returned, or that a user calls to unsubscribe. *)
Definition names (s : call) : option Z :=
  match s with CallReturned (RetSubscription h) | CallUnsubscribe h => Some h | _ => None end.
Definition given (p : phase) : bool := match p with Creating _ | RolledBack => false | _ => true end.

(** A call that is on its way and does not answer for the subscriber of a handle. *)
Definition moving (s : call) : bool :=
  match s with RollbackManager _ _ | CallReturned _ => false | _ => true end.

(** [ph] says how far each handle is and [own] who answers for a subscriber. *)
Record accounts (c : WebSocketClient) (ph : gmap Z phase) (own : gmap Z SubscriberID) : Prop := {
  ac_handle : forall h s, ws_handles c !! h = Some s -> exists p, ph !! h = Some p /\ shows p s;
  ac_phase : forall h p, ph !! h = Some p -> is_Some (ws_handles c !! h);
  ac_works : forall k s h p, ws_calls c !! k = Some s -> works_on k s = Some (h, p) -> ph !! h = Some p;
  ac_names : forall k s h, ws_calls c !! k = Some s -> names s = Some h ->
    exists p, ph !! h = Some p /\ given p = true;
  ac_fresh : forall k, is_Some (ws_calls c !! k) \/ is_Some (ws_handles c !! k) -> k < ws_next c;
  ac_apart : forall k, is_Some (ws_calls c !! k) -> ws_handles c !! k = None;
  ac_subs : forall id, id ∈ subscribers (mx_client (ws_manager c)) <-> exists o, own !! o = Some id;
  ac_inj : forall o o' id, own !! o = Some id -> own !! o' = Some id -> o = o';
  ac_owner : forall o id, own !! o = Some id <->
    (exists s, ws_calls c !! o = Some s /\ holds s = Some id) \/
    (exists s p, ws_handles c !! o = Some s /\ ph !! o = Some p /\ live p = true /\ h_id s = id);
  ac_issued : forall h s, ws_handles c !! h = Some s -> issued (mx_client (ws_manager c)) (h_id s);
  ac_dead : forall h s p, ws_handles c !! h = Some s -> ph !! h = Some p -> live p = false ->
    h_id s ∈ subscribers (mx_client (ws_manager c)) ->
    p = RolledBack /\ exists k e, ws_calls c !! k = Some (RollbackManager (h_id s) e);
  ac_ids : forall h h' s s', ws_handles c !! h = Some s -> ws_handles c !! h' = Some s' ->
    h_id s = h_id s' -> h = h';
  ac_registered : forall h s p, ws_handles c !! h = Some s -> ph !! h = Some p ->
    match p with Closed | RolledBack => True | _ =>
      forall m, ws_subscriptions c = Some m -> m !! h_id s = Some h end;
  ac_busy : forall h p k, ph !! h = Some p -> by_call p = Some k ->
    exists s, ws_calls c !! k = Some s /\ works_on k s = Some (h, p);
  ac_returned : forall h p, ph !! h = Some p -> given p = true ->
    exists k, ws_calls c !! k = Some (CallReturned (RetSubscription h))
}.

Record ws_inv (n : Z) (c : WebSocketClient) : Prop := {
  wi_reach : exists k, k <= n /\ reachable k (mx_client (ws_manager c));
  wi_accounts : crashed c = true \/ exists ph own, accounts c ph own
}.

(** ** Frames *)

Definition same_handle (s s' : QuerySubscription) : Prop :=
  h_id s' = h_id s /\ h_locked s' = h_locked s /\ h_closedOK s' = h_closedOK s /\
  h_unsubscribeQueued s' = h_unsubscribeQueued s.

Lemma shows_same p s s' : same_handle s s' -> shows p s -> shows p s'.
Proof. intros (_ & Hl & Hc & Hq). unfold shows. by rewrite Hl, Hc, Hq. Qed.

(** Only the updates and what is not about handles and calls change. *)
Lemma accounts_frame c c' ph own :
  query_part (mx_client (ws_manager c')) = query_part (mx_client (ws_manager c)) ->
  (forall h s', ws_handles c' !! h = Some s' -> exists s, ws_handles c !! h = Some s /\ same_handle s s') ->
  (forall h, is_Some (ws_handles c !! h) -> is_Some (ws_handles c' !! h)) ->
  ws_calls c' = ws_calls c -> ws_next c <= ws_next c' ->
  (ws_subscriptions c' = ws_subscriptions c \/ ws_subscriptions c' = None) ->
  accounts c ph own -> accounts c' ph own.
Proof.
  intros Hq Hh Hh' Hc Hn Hs [A1 A2 A3 A4 A5 A6 A7 A8 A9 A10 A11 A12 A13 A14 A15].
  assert (Hsub : subscribers (mx_client (ws_manager c')) = subscribers (mx_client (ws_manager c)))
    by (by injection Hq).
  split; rewrite ?Hc, ?Hsub; try done.
  - intros h s' H'. destruct (Hh h s' H') as (s & H & Hsame). destruct (A1 h s H) as (p & Hp & Hsh).
    exists p. eauto using shows_same.
  - eauto.
  - intros k [H|[s' H]]; [enough (k < ws_next c) by lia; apply A5; by left|].
    destruct (Hh k s' H) as (s & H1 & _). enough (k < ws_next c) by lia. apply A5. eauto.
  - intros k Hk. apply eq_None_not_Some. intros [s' H']. destruct (Hh k s' H') as (s & H1 & _).
    rewrite (A6 k Hk) in H1. done.
  - intros o id. rewrite A9. split; intros [H|(s & p & H1 & H2 & H3 & H4)]; [by left| |by left|]; right.
    + destruct (Hh' o ltac:(eauto)) as [s' H']. destruct (Hh o s' H') as (s0 & H0 & (Hid & _)).
      exists s', p. replace s0 with s in Hid by congruence. rewrite Hid. done.
    + destruct (Hh o s H1) as (s0 & H0 & (Hid & _)). exists s0, p. rewrite <- Hid. done.
  - intros h s' H'. destruct (Hh h s' H') as (s & H & (Hid & _)). rewrite Hid.
    eapply issued_frame; [done|]. by eapply A10.
  - intros h s' p H'. destruct (Hh h s' H') as (s & H & (Hid & _)). rewrite Hid. by apply A11.
  - intros h1 h2 s1 s2 H1 H2. destruct (Hh _ _ H1) as (t1 & K1 & (Hid1 & _)).
    destruct (Hh _ _ H2) as (t2 & K2 & (Hid2 & _)). rewrite Hid1, Hid2. by apply A12.
  - intros h s' p H' Hp. destruct (Hh h s' H') as (s & H & (Hid & _)). rewrite Hid.
    specialize (A13 h s p H Hp). destruct p; try done; intros m Hm;
      (destruct Hs as [Hs|Hs]; [apply A13; congruence|congruence]).
Qed.

(** Handles and calls as they are. *)
Lemma accounts_manager c m ph own :
  query_part (mx_client m) = query_part (mx_client (ws_manager c)) ->
  accounts c ph own -> accounts (ws_put_manager m c) ph own.
Proof.
  intros Hq H. apply (accounts_frame c); try done; [|by left].
  intros h s Hs. by exists s.
Qed.

Lemma send_update_same snapshot subs n s : same_handle s (send_update snapshot subs n s).
Proof.
  unfold send_update. destruct (decide _); [|done]. by destruct (QueryResults_Get snapshot (h_id s)) as [r []].
Qed.

Lemma publish_handles snapshot c h :
  ws_handles (publishLatest snapshot c) !! h
  = send_update snapshot (default ∅ (ws_subscriptions c)) h <$> ws_handles c !! h.
Proof. unfold publishLatest. cbn. rewrite map_lookup_imap. by destruct (ws_handles c !! h). Qed.

Lemma accounts_publish snapshot c ph own : accounts c ph own -> accounts (publishLatest snapshot c) ph own.
Proof.
  intros H. apply (accounts_frame c); try done; [| |by left]; intros h.
  - intros s'. rewrite publish_handles. intros (s & -> & Hs)%fmap_Some. exists s.
    split; [done|]. subst. apply send_update_same.
  - rewrite publish_handles. intros [s ->]. by eexists.
Qed.

(** ** The next step of a call *)

Lemma accounts_call c ph own k s s' :
  accounts c ph own -> ws_calls c !! k = Some s -> holds s' = holds s ->
  works_on k s' = works_on k s ->
  (forall h, names s' = Some h -> exists p, ph !! h = Some p /\ given p = true) ->
  moving s = true ->
  accounts (put_call k s' c) ph own.
Proof.
  intros [A1 A2 A3 A4 A5 A6 A7 A8 A9 A10 A11 A12 A13 A14 A15] Hk Hh Hw Hn Hrb. split; cbn; try done.
  - intros k' t h p Hk'. apply lookup_insert_Some in Hk' as [[<- <-]|[_ Hk']]; [|by apply A3].
    intros Hp. apply (A3 k s); [done|]. congruence.
  - intros k' t h Hk'. apply lookup_insert_Some in Hk' as [[<- <-]|[_ Hk']]; [apply Hn|by apply (A4 k')].
  - intros k' [Hk'|Hk']; [|by apply A5; right]. apply A5. left.
    destruct Hk' as [t Hk']. apply lookup_insert_Some in Hk' as [[<- _]|[_ Hk']]; eauto.
  - intros k' [t Hk']. apply lookup_insert_Some in Hk' as [[<- _]|[_ Hk']]; eauto.
  - intros o id. rewrite A9. split; (intros [(t & Ht & Hid)|H]; [left|by right]).
    + destruct (decide (k = o)) as [<-|Hne].
      * exists s'. rewrite lookup_insert_eq. split; [done|]. congruence.
      * exists t. by rewrite lookup_insert_ne.
    + apply lookup_insert_Some in Ht as [[<- <-]|[_ Ht]]; [exists s|exists t]; split; congruence.
  - intros h t p Ht Hp Hl Hin. destruct (A11 h t p Ht Hp Hl Hin) as (Hrb' & k' & e & Hk'). split; [done|]. exists k', e.
    rewrite lookup_insert_ne; [done|]. intros <-. rewrite Hk in Hk'. by injection Hk' as ->.
  - intros h p k' Hp Hby. destruct (A14 h p k' Hp Hby) as (t & Ht & Hwt).
    destruct (decide (k = k')) as [<-|Hne]; [|exists t; by rewrite lookup_insert_ne].
    exists s'. rewrite lookup_insert_eq. split; [done|]. congruence.
  - intros h p Hp Hg. destruct (A15 h p Hp Hg) as [k' Hk']. exists k'.
    rewrite lookup_insert_ne; [done|]. intros <-. rewrite Hk in Hk'. by injection Hk' as ->.
Qed.

Lemma works_by_call k s h p : works_on k s = Some (h, p) -> by_call p = Some k.
Proof.
  destruct s as [| | | | | | | |h'|[]|? []|[]|[]|h' e| | |]; cbn; try done; by intros [= <- <-].
Qed.

Definition over (p : phase) : bool := match p with Closed | RolledBack => true | _ => false end.

(** The next step of a call that changes its handle. *)
Lemma accounts_phase c ph own k s s' h hs hs' p p' :
  accounts c ph own -> ws_calls c !! k = Some s -> ws_handles c !! h = Some hs -> ph !! h = Some p ->
  (by_call p = None \/ by_call p = Some k) ->
  (works_on k s = None \/ works_on k s = Some (h, p)) ->
  (by_call p' = None /\ works_on k s' = None \/ works_on k s' = Some (h, p')) ->
  moving s = true -> p <> RolledBack -> (given p' = true -> given p = true \/ s' = CallReturned (RetSubscription h)) ->
  holds s = None -> holds s' = None -> live p' = live p -> h_id hs' = h_id hs -> shows p' hs' ->
  (names s' = None \/ names s' = Some h /\ given p' = true) -> (given p = true -> given p' = true) ->
  (over p = true -> over p' = true) ->
  accounts (put_call k s' (ws_put_handles (<[h := hs']> (ws_handles c)) c)) (<[h := p']> ph) own.
Proof.
  intros [A1 A2 A3 A4 A5 A6 A7 A8 A9 A10 A11 A12 A13 A14 A15] Hk Hhs Hp Hby Hw Hw' Hmv Hnrb Hgiv Hh Hh' Hlive Hid Hshow Hn Hg Hov.
  assert (Hlook : forall h' t, <[h := hs']> (ws_handles c) !! h' = Some t ->
    exists t0, ws_handles c !! h' = Some t0 /\ h_id t = h_id t0).
  { intros h' t [[<- <-]|[_ Ht]]%lookup_insert_Some; eauto. }
  assert (Hph : forall h' q, <[h := p']> ph !! h' = Some q ->
    (h' = h /\ q = p') \/ (h' <> h /\ ph !! h' = Some q)).
  { intros h' q. rewrite lookup_insert_Some. intros [[-> ->]|[? ?]]; auto. }
  split; cbn; try done.
  - intros h' t [[<- <-]|[Hne Ht]]%lookup_insert_Some.
    + exists p'. by rewrite lookup_insert_eq.
    + rewrite lookup_insert_ne by done. by apply A1.
  - intros h' q [[-> ->]|[Hne Hq]]%Hph; [rewrite lookup_insert_eq; eauto|].
    rewrite lookup_insert_ne by done. by eapply A2.
  - intros k' t h' q Hk' Hq. apply lookup_insert_Some in Hk' as [[<- <-]|[Hne Hk']].
    + destruct Hw' as [[_ Hw']|Hw']; rewrite Hw' in Hq; [done|]. injection Hq as <- <-.
      by rewrite lookup_insert_eq.
    + pose proof (A3 k' t h' q Hk' Hq) as Hold. rewrite lookup_insert_ne; [done|]. intros <-.
      pose proof (works_by_call _ _ _ _ Hq). destruct Hby; congruence.
  - intros k' t h' Hk' Hnm. assert (Hgive : forall h', (exists q, ph !! h' = Some q /\ given q = true) ->
      exists q, <[h := p']> ph !! h' = Some q /\ given q = true).
    { intros h0 (q & Hq & Hgq). destruct (decide (h = h0)) as [<-|Hne].
      - exists p'. rewrite lookup_insert_eq. split; [done|]. apply Hg. congruence.
      - exists q. by rewrite lookup_insert_ne. }
    apply lookup_insert_Some in Hk' as [[<- <-]|[Hne Hk']]; [|by apply Hgive, (A4 k' t)].
    destruct Hn as [Hn|[Hn Hgp]]; rewrite Hn in Hnm; [done|]. injection Hnm as <-.
    exists p'. by rewrite lookup_insert_eq.
  - intros k' [[t Hk']|[t Ht]].
    + apply A5. left. apply lookup_insert_Some in Hk' as [[<- _]|[_ Hk']]; eauto.
    + destruct (Hlook _ _ Ht) as (t0 & Ht0 & _). apply A5. eauto.
  - intros k' [t Hk']. apply eq_None_not_Some. intros [u Hu]. destruct (Hlook _ _ Hu) as (u0 & Hu0 & _).
    enough (ws_handles c !! k' = None) by congruence. apply A6.
    apply lookup_insert_Some in Hk' as [[<- _]|[_ Hk']]; eauto.
  - intros o id. rewrite A9. split.
    + intros [(t & Ht & Hid')|(t & q & Ht & Hq & Hl & Hid')].
      * left. exists t. rewrite lookup_insert_ne; [done|]. congruence.
      * right. destruct (decide (h = o)) as [<-|Hne].
        { exists hs', p'. rewrite !lookup_insert_eq. repeat split; congruence. }
        { exists t, q. by rewrite !lookup_insert_ne. }
    + intros [(t & Ht & Hid')|(t & q & Ht & Hq & Hl & Hid')].
      * left. apply lookup_insert_Some in Ht as [[<- <-]|[_ Ht]]; [congruence|eauto].
      * right. apply Hph in Hq as [[-> ->]|[Hne Hq]].
        { rewrite lookup_insert_eq in Ht. injection Ht as <-. exists hs, p. repeat split; congruence. }
        { rewrite lookup_insert_ne in Ht by done. by exists t, q. }
  - intros h' t Ht. destruct (Hlook _ _ Ht) as (t0 & Ht0 & ->). by eapply A10.
  - intros h' t q Ht Hq Hl Hin. destruct (Hlook _ _ Ht) as (t0 & Ht0 & He). rewrite He in Hin |- *.
    apply Hph in Hq as [[-> ->]|[Hne Hq]].
    + destruct (A11 h t0 p Ht0 Hp ltac:(congruence) Hin). done.
    + destruct (A11 h' t0 q Ht0 Hq Hl Hin) as (Hrb' & k' & e & Hk'). split; [done|]. exists k', e.
      rewrite lookup_insert_ne; [done|]. intros <-. rewrite Hk in Hk'. by injection Hk' as ->.
  - intros h1 h2 s1 s2 H1 H2. destruct (Hlook _ _ H1) as (t1 & K1 & ->).
    destruct (Hlook _ _ H2) as (t2 & K2 & ->). by apply A12.
  - intros h' t q Ht Hq. destruct (Hlook _ _ Ht) as (t0 & Ht0 & ->).
    apply Hph in Hq as [[-> ->]|[Hne Hq]]; [|by apply A13].
    specialize (A13 h t0 p Ht0 Hp). destruct p', p; cbn in Hov; try done; by specialize (Hov eq_refl).
  - intros h' q k' Hq Hbq. apply Hph in Hq as [[-> ->]|[Hne Hq]].
    + destruct Hw' as [[Hb _]|Hw']; [congruence|]. rewrite (works_by_call _ _ _ _ Hw') in Hbq. injection Hbq as <-.
      exists s'. by rewrite lookup_insert_eq.
    + destruct (A14 h' q k' Hq Hbq) as (t & Ht & Hwt).
      assert (k' <> k) by (intros ->; destruct Hw; congruence). exists t. by rewrite lookup_insert_ne.
  - intros h' q Hq Hgq.
    assert (Hold : forall h' q, ph !! h' = Some q -> given q = true ->
      exists k', <[k := s']> (ws_calls c) !! k' = Some (CallReturned (RetSubscription h'))).
    { intros h0 q0 Hq0 Hg0. destruct (A15 h0 q0 Hq0 Hg0) as [k' Hk']. exists k'.
      rewrite lookup_insert_ne; [done|]. intros <-. rewrite Hk in Hk'. by injection Hk' as ->. }
    apply Hph in Hq as [[-> ->]|[Hne Hq]]; [|by eapply Hold].
    destruct (Hgiv Hgq) as [Hgp| ->]; [by eapply Hold|]. exists k. by rewrite lookup_insert_eq.
Qed.

(** A handle that is over leaves the map. *)
Lemma accounts_forget c ph own h hs p :
  accounts c ph own -> ws_handles c !! h = Some hs -> ph !! h = Some p -> over p = true ->
  accounts (forget (h_id hs) c) ph own.
Proof.
  intros [A1 A2 A3 A4 A5 A6 A7 A8 A9 A10 A11 A12 A13 A14 A15] Hh Hp Hover. split; try done. cbn.
  intros h' s q Hh' Hq. specialize (A13 h' s q Hh' Hq).
  assert (Hne : over q = false -> h_id hs <> h_id s).
  { intros Hq' He. pose proof (A12 _ _ _ _ Hh Hh' He) as <-. congruence. }
  destruct q; try done; intros m (m0 & Hm & ->)%fmap_Some;
    (rewrite lookup_delete_ne; [by apply A13|by apply Hne]).
Qed.

(** *** Who answers for a subscriber *)

(** The manager has a new subscriber and its call knows. *)
Lemma accounts_subscribed c c' ph own k s id :
  accounts c ph own -> ws_calls c !! k = Some s -> holds s = None -> works_on k s = None -> moving s = true ->
  let old := mx_client (ws_manager c) in
  let new := mx_client (ws_manager c') in
  ~ issued old id -> id ∉ subscribers old -> subscribers new = {[id]} ∪ subscribers old ->
  (forall id', issued old id' -> issued new id') ->
  c' = put_call k (Register id) (ws_put_manager (ws_manager c') c) ->
  accounts c' ph (<[k := id]> own).
Proof.
  intros [A1 A2 A3 A4 A5 A6 A7 A8 A9 A10 A11 A12 A13 A14 A15] Hk Hh Hw Hmv old new Hfresh Hnin Hsub Hiss ->.
  fold new in old |- *. assert (Hk0 : own !! k = None).
  { apply eq_None_not_Some. intros [x Hx]. apply A9 in Hx as [(t & Ht & Hx)|(t & q & Ht & _)]; [congruence|].
    rewrite (A6 k) in Ht; [done|eauto]. }
  assert (Hno : forall o, own !! o <> Some id) by (intros o Ho; apply Hnin, A7; eauto).
  split; cbn [ws_handles ws_calls ws_next ws_manager ws_subscriptions put_call ws_put_calls ws_put_manager]; try done.
  - intros k' t h p Hk' Hp. apply lookup_insert_Some in Hk' as [[<- <-]|[_ Hk']]; [done|by eapply A3].
  - intros k' t h Hk' Hp. apply lookup_insert_Some in Hk' as [[<- <-]|[_ Hk']]; [done|by eapply A4].
  - intros k' [[t Hk']|Hk']; [|by apply A5; right]. apply A5. left.
    apply lookup_insert_Some in Hk' as [[<- _]|[_ Hk']]; eauto.
  - intros k' [t Hk']. apply A6. apply lookup_insert_Some in Hk' as [[<- _]|[_ Hk']]; eauto.
  - intros id'. fold new. rewrite Hsub, elem_of_union, elem_of_singleton.
    change (subscribers old) with (subscribers (mx_client (ws_manager c))). rewrite A7. split.
    + intros [->|[o Ho]]; [exists k; by rewrite lookup_insert_eq|]. exists o.
      rewrite lookup_insert_ne; [done|]. congruence.
    + intros [o Ho]. apply lookup_insert_Some in Ho as [[_ ->]|[_ Ho]]; eauto.
  - intros o o' x Ho Ho'. apply lookup_insert_Some in Ho as [[<- <-]|[? Ho]];
      apply lookup_insert_Some in Ho' as [[<- ?]|[? Ho']]; try done; try (by eapply A8); exfalso.
    + by eapply Hno.
    + eapply Hno. by subst.
  - intros o x. destruct (decide (k = o)) as [<-|Hne].
    + rewrite !lookup_insert_eq. split.
      * intros [= <-]. left. by exists (Register id).
      * intros [(t & [= <-] & [= <-])|(t & q & Ht & _)]; [done|]. rewrite (A6 k) in Ht; [done|eauto].
    + rewrite !lookup_insert_ne by done. apply A9.
  - intros h t Ht. apply Hiss. by eapply A10.
  - intros h t p Ht Hp Hl. fold new. rewrite Hsub, elem_of_union, elem_of_singleton. intros [He|Hin].
    + destruct Hfresh. rewrite <- He. by eapply A10.
    + destruct (A11 h t p Ht Hp Hl Hin) as (Hrb' & k' & e & Hk'). split; [done|]. exists k', e.
      rewrite lookup_insert_ne; [done|]. intros <-. rewrite Hk in Hk'. by injection Hk' as ->.
  - intros h p k' Hp Hby. destruct (A14 h p k' Hp Hby) as (t & Ht & Hwt). exists t.
    rewrite lookup_insert_ne; [done|]. congruence.
  - intros h p Hp Hg. destruct (A15 h p Hp Hg) as [k' Hk']. exists k'.
    rewrite lookup_insert_ne; [done|]. intros <-. rewrite Hk in Hk'. by injection Hk' as ->.
Qed.

(** The call hands it over to a new handle. *)
Lemma accounts_registered c ph own k id m updates :
  issued (mx_client (ws_manager c)) id ->
  accounts c ph own -> ws_calls c !! k = Some (Register id) -> ws_subscriptions c = Some m ->
  accounts (put_call k (ReadLatest (PublishSubscribe (ws_next c)))
      (ws_put_handles (<[ws_next c := mkHandle id updates false false false None]> (ws_handles c))
        (ws_put_subscriptions (Some (<[id := ws_next c]> m)) (ws_put_next (ws_next c + 1) c))))
    (<[ws_next c := Creating k]> ph) (<[ws_next c := id]> (delete k own)).
Proof.
  intros Hissued [A1 A2 A3 A4 A5 A6 A7 A8 A9 A10 A11 A12 A13 A14 A15] Hk Hm. set (n := ws_next c).
  assert (Hcn : ws_calls c !! n = None).
  { apply eq_None_not_Some. intros H. assert (n < ws_next c) by (apply A5; by left). unfold n in *. lia. }
  assert (Hhn : ws_handles c !! n = None).
  { apply eq_None_not_Some. intros H. assert (n < ws_next c) by (apply A5; by right). unfold n in *. lia. }
  assert (Hpn : ph !! n = None).
  { apply eq_None_not_Some. intros [p Hp]. destruct (A2 n p Hp). congruence. }
  assert (Hkn : k <> n) by congruence.
  assert (Hown : own !! k = Some id) by (apply A9; left; by exists (Register id)).
  assert (Hin : id ∈ subscribers (mx_client (ws_manager c))) by (apply A7; eauto).
  assert (Hids : forall h s, ws_handles c !! h = Some s -> h_id s <> id).
  { intros h s Hs He. destruct (A1 h s Hs) as (p & Hp & _). destruct (live p) eqn:Hl.
    - assert (own !! h = Some id) as Ho by (apply A9; right; exists s, p; done).
      pose proof (A8 _ _ _ Hown Ho) as ->. rewrite A6 in Hs; [done|eauto].
    - rewrite <- He in Hin. destruct (A11 h s p Hs Hp Hl Hin) as (_ & k' & e & Hk'). rewrite He in Hk'.
      assert (own !! k' = Some id) as Ho by (apply A9; left; by eexists).
      pose proof (A8 _ _ _ Hown Ho) as ->. congruence. }
  split; cbn [ws_handles ws_calls ws_next ws_manager ws_subscriptions put_call ws_put_calls ws_put_handles
    ws_put_subscriptions ws_put_next]; try done.
  - intros h s [[<- <-]|[Hne Hs]]%lookup_insert_Some.
    + exists (Creating k). by rewrite lookup_insert_eq.
    + rewrite lookup_insert_ne by done. by apply A1.
  - intros h p [[<- <-]|[Hne Hp]]%lookup_insert_Some; [rewrite lookup_insert_eq; eauto|].
    rewrite lookup_insert_ne by done. by eapply A2.
  - intros k' s h p [[<- <-]|[Hne Hs]]%lookup_insert_Some Hw.
    + injection Hw as <- <-. by rewrite lookup_insert_eq.
    + rewrite lookup_insert_ne; [by eapply A3|]. intros <-. pose proof (A3 _ _ _ _ Hs Hw). congruence.
  - intros k' s h [[<- <-]|[Hne Hs]]%lookup_insert_Some Hw; [done|].
    destruct (A4 _ _ _ Hs Hw) as (p & Hp & Hg). exists p. rewrite lookup_insert_ne; [done|congruence].
  - intros k' [[s [[<- _]|[_ Hs]]%lookup_insert_Some]|[s [[<- _]|[_ Hs]]%lookup_insert_Some]].
    + enough (k < ws_next c) by lia. apply A5. left. eauto.
    + enough (k' < ws_next c) by lia. apply A5. left. eauto.
    + unfold n. lia.
    + enough (k' < ws_next c) by lia. apply A5. right. eauto.
  - intros k' [s Hs]. assert (Hk' : is_Some (ws_calls c !! k'))
      by (apply lookup_insert_Some in Hs as [[<- _]|[_ Hs]]; eauto).
    rewrite lookup_insert_ne; [by apply A6|]. intros <-. rewrite Hcn in Hk'. by destruct Hk'.
  - intros x. rewrite A7. split; intros [o Ho].
    + destruct (decide (k = o)) as [<-|Hne].
      * exists n. rewrite lookup_insert_eq. congruence.
      * exists o. rewrite lookup_insert_ne; [by rewrite lookup_delete_ne|]. intros <-.
        apply A9 in Ho as [(s & Hs & _)|(s & p & Hs & _)]; congruence.
    + apply lookup_insert_Some in Ho as [[<- <-]|[_ Ho]]; [eauto|].
      apply lookup_delete_Some in Ho as [_ Ho]. eauto.
  - assert (Hother : forall o, delete k own !! o <> Some id).
    { intros o [Hne Ho]%lookup_delete_Some. by rewrite (A8 _ _ _ Hown Ho) in Hne. }
    intros o o' x [[<- <-]|[Hno Ho]]%lookup_insert_Some [[<- He]|[Hno' Ho']]%lookup_insert_Some; try done.
    + by destruct (Hother o').
    + subst. by destruct (Hother o).
    + apply lookup_delete_Some in Ho as [_ Ho]. apply lookup_delete_Some in Ho' as [_ Ho']. by eapply A8.
  - intros o x. destruct (decide (n = o)) as [<-|Hno].
    + rewrite !lookup_insert_eq. rewrite lookup_insert_ne by done. split.
      * intros [= <-]. right. eexists _, _. done.
      * intros [(s & Hs & _)|(s & p & [= <-] & [= <-] & _ & <-)]; [congruence|done].
    + rewrite !(lookup_insert_ne _ n) by done. destruct (decide (k = o)) as [<-|Hko].
      * rewrite lookup_delete_eq, lookup_insert_eq. split; [done|].
        intros [(s & [= <-] & [=])|(s & p & Hs & _)]. rewrite A6 in Hs; [done|eauto].
      * rewrite lookup_delete_ne, lookup_insert_ne by done. apply A9.
  - intros h s [[<- <-]|[_ Hs]]%lookup_insert_Some; [done|by eapply A10].
  - intros h s p [[<- <-]|[Hne Hs]]%lookup_insert_Some Hp Hl Hsubs.
    + rewrite lookup_insert_eq in Hp. by injection Hp as <-.
    + rewrite lookup_insert_ne in Hp by done. destruct (A11 h s p Hs Hp Hl Hsubs) as (Hrb' & k' & e & Hk').
      split; [done|]. exists k', e. rewrite lookup_insert_ne; [done|]. intros <-. congruence.
  - intros h h' s s' [[<- <-]|[Hne Hs]]%lookup_insert_Some [[<- <-]|[Hne' Hs']]%lookup_insert_Some He; try done.
    + by destruct (Hids _ _ Hs').
    + by destruct (Hids _ _ Hs).
    + by eapply A12.
  - intros h s p [[<- <-]|[Hne Hs]]%lookup_insert_Some Hp.
    + rewrite lookup_insert_eq in Hp. injection Hp as <-. intros m' [= <-]. cbn. apply lookup_insert_eq.
    + rewrite lookup_insert_ne in Hp by done. specialize (A13 h s p Hs Hp).
      destruct p; try done; intros m' [= <-]; rewrite lookup_insert_ne by (by apply not_eq_sym, (Hids h));
        by apply A13.
  - intros h p k' [[<- <-]|[Hne Hp]]%lookup_insert_Some Hby.
    + injection Hby as <-. eexists. by rewrite lookup_insert_eq.
    + destruct (A14 h p k' Hp Hby) as (t & Ht & Hwt). exists t. rewrite lookup_insert_ne; [done|].
      intros <-. rewrite Hk in Ht. by injection Ht as <-.
  - intros h p [[<- <-]|[Hne Hp]]%lookup_insert_Some Hg; [done|]. destruct (A15 h p Hp Hg) as [k' Hk'].
    exists k'. rewrite lookup_insert_ne; [done|]. congruence.
Qed.

(** The manager drops a subscriber, and the call or the handle no longer answers
    for it. *)
Lemma own_delete (own : gmap Z SubscriberID) (o : Z) (id : SubscriberID) (subs subs' : gset SubscriberID) :
  (forall x, x ∈ subs <-> exists o : Z, own !! o = Some x) ->
  (forall (o o' : Z) x, own !! o = Some x -> own !! o' = Some x -> o = o') ->
  own !! o = Some id -> subs' = subs ∖ {[id]} ->
  forall x, x ∈ subs' <-> exists o' : Z, delete o own !! o' = Some x.
Proof.
  intros Hs Hi Ho -> x. rewrite elem_of_difference, elem_of_singleton, Hs. split.
  - intros [[o' Ho'] Hne]. exists o'. rewrite lookup_delete_ne; [done|]. intros <-. congruence.
  - intros [o' [Hne Ho']%lookup_delete_Some]. split; [eauto|]. intros ->. apply Hne. by eapply Hi.
Qed.

Lemma accounts_told c m ph own k h hs :
  accounts c ph own -> ws_calls c !! k = Some (DoUnsubscribe h) -> ws_handles c !! h = Some hs ->
  subscribers (mx_client m) = subscribers (mx_client (ws_manager c)) ∖ {[h_id hs]} ->
  (forall id, issued (mx_client (ws_manager c)) id -> issued (mx_client m) id) ->
  accounts (put_call k (ReadLatest (PublishUnsubscribe h)) (ws_put_manager m c))
    (<[h := Told k]> ph) (delete h own).
Proof.
  intros [A1 A2 A3 A4 A5 A6 A7 A8 A9 A10 A11 A12 A13 A14 A15] Hk Hh Hsub Hiss.
  pose proof (A3 k _ h _ Hk eq_refl) as Hp.
  assert (Hown : own !! h = Some (h_id hs)) by (apply A9; right; eexists _, _; done).
  split; cbn [ws_handles ws_calls ws_next ws_manager ws_subscriptions put_call ws_put_calls ws_put_manager].
  - intros h' s Hs. destruct (A1 h' s Hs) as (p & Hp' & Hsh). destruct (decide (h = h')) as [<-|Hne].
    + exists (Told k). rewrite lookup_insert_eq. split; [done|].
      replace p with (Unsubscribing k) in Hsh by congruence. exact Hsh.
    + exists p. by rewrite lookup_insert_ne.
  - intros h' p [[<- <-]|[_ Hp']]%lookup_insert_Some; [by eexists|by eapply A2].
  - intros k' s h' p [[<- <-]|[Hne Hs]]%lookup_insert_Some Hw.
    + injection Hw as <- <-. by rewrite lookup_insert_eq.
    + pose proof (A3 _ _ _ _ Hs Hw) as Hq. rewrite lookup_insert_ne; [done|]. intros <-.
      pose proof (works_by_call _ _ _ _ Hw) as Hby. rewrite Hp in Hq. injection Hq as <-. cbn in Hby. congruence.
  - intros k' s h' [[<- <-]|[Hne Hs]]%lookup_insert_Some Hw; [done|].
    destruct (A4 _ _ _ Hs Hw) as (p & Hp' & Hg). destruct (decide (h = h')) as [<-|Hne'].
    + exists (Told k). by rewrite lookup_insert_eq.
    + exists p. by rewrite lookup_insert_ne.
  - intros k' [[s [[<- _]|[_ Hs]]%lookup_insert_Some]|Hs]; apply A5; eauto.
  - intros k' [s [[<- _]|[_ Hs]]%lookup_insert_Some]; apply A6; eauto.
  - by apply (own_delete own h (h_id hs) _ _ A7 A8).
  - intros o o' x [_ Ho]%lookup_delete_Some [_ Ho']%lookup_delete_Some. by eapply A8.
  - intros o x. rewrite lookup_delete_Some, A9. split.
    + intros [Hne [(s & Hs & Hx)|(s & p & Hs & Hp' & H)]]; [left|right].
      * exists s. rewrite lookup_insert_ne; [done|]. intros <-. rewrite Hk in Hs. by injection Hs as <-.
      * exists s, p. by rewrite lookup_insert_ne.
    + intros [(s & Hs & Hx)|(s & p & Hs & Hp' & Hl & H)].
      * apply lookup_insert_Some in Hs as [[<- <-]|[Hne Hs]]; [done|]. split; [|eauto].
        intros <-. rewrite (A6 h) in Hh; [done|eauto].
      * apply lookup_insert_Some in Hp' as [[<- <-]|[Hne Hp']]; [done|]. split; [done|]. right. eauto 6.
  - intros h' s Hs. apply Hiss. by eapply A10.
  - intros h' s p Hs Hp' Hl. rewrite Hsub, elem_of_difference, elem_of_singleton.
    apply lookup_insert_Some in Hp' as [[<- <-]|[Hne Hp']]; [intros [_ Hx]; congruence|].
    intros [Hx _]. destruct (A11 h' s p Hs Hp' Hl Hx) as (Hrb' & k' & e & Hk'). split; [done|]. exists k', e.
    rewrite lookup_insert_ne; [done|]. intros <-. congruence.
  - done.
  - intros h' s p Hs Hp'. apply lookup_insert_Some in Hp' as [[<- <-]|[Hne Hp']]; [|by apply A13].
    exact (A13 h s _ Hs Hp).
  - intros h' p k' [[<- <-]|[Hne Hp']]%lookup_insert_Some Hby.
    + injection Hby as <-. eexists. by rewrite lookup_insert_eq.
    + destruct (A14 h' p k' Hp' Hby) as (t & Ht & Hwt). exists t. rewrite lookup_insert_ne; [done|].
      intros <-. rewrite Hk in Ht. injection Ht as <-. cbn in Hwt. congruence.
  - intros h' p Hp' Hg.
    assert (exists q, ph !! h' = Some q /\ given q = true) as (q & Hq & Hgq).
    { apply lookup_insert_Some in Hp' as [[<- <-]|[Hne Hp']]; eauto. }
    destruct (A15 h' q Hq Hgq) as [k' Hk']. exists k'. rewrite lookup_insert_ne; [done|]. congruence.
Qed.

Lemma accounts_dropped c m ph own k id e :
  accounts c ph own -> ws_calls c !! k = Some (RollbackManager id e) ->
  subscribers (mx_client m) = subscribers (mx_client (ws_manager c)) ∖ {[id]} ->
  (forall id, issued (mx_client (ws_manager c)) id -> issued (mx_client m) id) ->
  accounts (put_call k (ReadLatest (PublishRollback e)) (ws_put_manager m c)) ph (delete k own).
Proof.
  intros [A1 A2 A3 A4 A5 A6 A7 A8 A9 A10 A11 A12 A13 A14 A15] Hk Hsub Hiss.
  assert (Hown : own !! k = Some id) by (apply A9; left; eexists; done).
  split; cbn [ws_handles ws_calls ws_next ws_manager ws_subscriptions put_call ws_put_calls ws_put_manager]; try done.
  - intros k' s h' p [[<- <-]|[Hne Hs]]%lookup_insert_Some Hw; [done|by eapply A3].
  - intros k' s h' [[<- <-]|[Hne Hs]]%lookup_insert_Some Hw; [done|by eapply A4].
  - intros k' [[s [[<- _]|[_ Hs]]%lookup_insert_Some]|Hs]; apply A5; eauto.
  - intros k' [s [[<- _]|[_ Hs]]%lookup_insert_Some]; apply A6; eauto.
  - by apply (own_delete own k id _ _ A7 A8).
  - intros o o' x [_ Ho]%lookup_delete_Some [_ Ho']%lookup_delete_Some. by eapply A8.
  - intros o x. rewrite lookup_delete_Some, A9. split.
    + intros [Hne [(s & Hs & Hx)|H]]; [left|by right]. exists s. by rewrite lookup_insert_ne.
    + intros [(s & Hs & Hx)|(s & p & Hs & H)].
      * apply lookup_insert_Some in Hs as [[<- <-]|[Hne Hs]]; [done|]. eauto.
      * split; [|right; eauto 6]. intros <-. rewrite A6 in Hs; [done|eauto].
  - intros h' s Hs. apply Hiss. by eapply A10.
  - intros h' s p Hs Hp' Hl. rewrite Hsub, elem_of_difference, elem_of_singleton. intros [Hx Hne].
    destruct (A11 h' s p Hs Hp' Hl Hx) as (Hrb' & k' & e' & Hk'). split; [done|]. exists k', e'.
    rewrite lookup_insert_ne; [done|]. intros <-. congruence.
  - intros h p k' Hp Hby. destruct (A14 h p k' Hp Hby) as (t & Ht & Hwt). exists t.
    rewrite lookup_insert_ne; [done|]. intros <-. rewrite Hk in Ht. by injection Ht as <-.
  - intros h p Hp Hg. destruct (A15 h p Hp Hg) as [k' Hk']. exists k'.
    rewrite lookup_insert_ne; [done|]. congruence.
Qed.

(** A handle that is not returned is given back to its call. *)
Lemma accounts_rollback c ph own k h hs e :
  accounts c ph own -> ws_calls c !! k = Some (Rollback h e) -> ws_handles c !! h = Some hs ->
  accounts (put_call k (RollbackManager (h_id hs) e) c) (<[h := RolledBack]> ph)
    (<[k := h_id hs]> (delete h own)).
Proof.
  intros [A1 A2 A3 A4 A5 A6 A7 A8 A9 A10 A11 A12 A13 A14 A15] Hk Hh.
  pose proof (A3 k _ h _ Hk eq_refl) as Hp.
  assert (Hown : own !! h = Some (h_id hs)) by (apply A9; right; eexists _, _; done).
  assert (Hkh : k <> h). { intros ->. rewrite A6 in Hh; [done|eauto]. }
  assert (Hnone : own !! k = None).
  { apply eq_None_not_Some. intros [x [(s & Hs & Hx)|(s & p & Hs & _)]%A9].
    - rewrite Hk in Hs. by injection Hs as <-.
    - rewrite A6 in Hs; [done|eauto]. }
  split; cbn [ws_handles ws_calls ws_next ws_manager ws_subscriptions put_call ws_put_calls]; try done.
  - intros h' s Hs. destruct (A1 h' s Hs) as (p & Hp' & Hsh). destruct (decide (h = h')) as [<-|Hne].
    + exists RolledBack. rewrite lookup_insert_eq. split; [done|].
      replace p with (Creating k) in Hsh by congruence. exact Hsh.
    + exists p. by rewrite lookup_insert_ne.
  - intros h' p [[<- <-]|[_ Hp']]%lookup_insert_Some; [by eexists|by eapply A2].
  - intros k' s h' p [[<- <-]|[Hne Hs]]%lookup_insert_Some Hw; [done|].
    pose proof (A3 _ _ _ _ Hs Hw) as Hq. rewrite lookup_insert_ne; [done|]. intros <-.
    pose proof (works_by_call _ _ _ _ Hw) as Hby. rewrite Hp in Hq. injection Hq as <-. cbn in Hby. congruence.
  - intros k' s h' [[<- <-]|[Hne Hs]]%lookup_insert_Some Hw; [done|].
    destruct (A4 _ _ _ Hs Hw) as (p & Hp' & Hg). exists p. rewrite lookup_insert_ne; [done|].
    intros <-. rewrite Hp in Hp'. by injection Hp' as <-.
  - intros k' [[s [[<- _]|[_ Hs]]%lookup_insert_Some]|Hs]; apply A5; eauto.
  - intros k' [s [[<- _]|[_ Hs]]%lookup_insert_Some]; apply A6; eauto.
  - intros x. rewrite A7. split; intros [o Ho].
    + destruct (decide (h = o)) as [<-|Hne].
      * exists k. rewrite lookup_insert_eq. congruence.
      * exists o. rewrite lookup_insert_ne; [by rewrite lookup_delete_ne|]. congruence.
    + apply lookup_insert_Some in Ho as [[<- <-]|[_ [_ Ho]%lookup_delete_Some]]; eauto.
  - intros o o' x [[<- <-]|[Hno [Hd Ho]%lookup_delete_Some]]%lookup_insert_Some
      [[<- He]|[Hno' [Hd' Ho']%lookup_delete_Some]]%lookup_insert_Some; try done.
    + by rewrite (A8 _ _ _ Hown Ho') in Hd'.
    + subst. by rewrite (A8 _ _ _ Hown Ho) in Hd.
    + by eapply A8.
  - intros o x. destruct (decide (k = o)) as [<-|Hko].
    + rewrite !lookup_insert_eq. split.
      * intros [= <-]. left. by eexists.
      * intros [(s & [= <-] & [= <-])|(s & p & Hs & _)]; [done|]. rewrite A6 in Hs; [done|eauto].
    + rewrite !(lookup_insert_ne _ k) by done. destruct (decide (h = o)) as [<-|Hho].
      * rewrite lookup_delete_eq. split; [done|].
        intros [(s & Hs & _)|(s & p & Hs & Hp' & Hl & _)]; [rewrite A6 in Hh; [done|eauto]|].
        rewrite lookup_insert_eq in Hp'. by injection Hp' as <-.
      * rewrite lookup_delete_ne, lookup_insert_ne by done. apply A9.
  - intros h' s p Hs Hp' Hl Hin. apply lookup_insert_Some in Hp' as [[<- <-]|[Hne Hp']].
    + split; [done|]. exists k, e. rewrite lookup_insert_eq. by replace s with hs by congruence.
    + destruct (A11 h' s p Hs Hp' Hl Hin) as (Hrb' & k' & e' & Hk'). split; [done|]. exists k', e'.
      rewrite lookup_insert_ne; [done|]. intros <-. congruence.
  - intros h' s p Hs Hp'. apply lookup_insert_Some in Hp' as [[<- <-]|[Hne Hp']]; [done|by apply A13].
  - intros h' p k' [[<- <-]|[Hne Hp']]%lookup_insert_Some Hby; [done|].
    destruct (A14 h' p k' Hp' Hby) as (t & Ht & Hwt). exists t. rewrite lookup_insert_ne; [done|].
    intros <-. rewrite Hk in Ht. injection Ht as <-. cbn in Hwt. congruence.
  - intros h' p [[<- <-]|[Hne Hp']]%lookup_insert_Some Hg; [done|].
    destruct (A15 h' p Hp' Hg) as [k' Hk']. exists k'. rewrite lookup_insert_ne; [done|]. congruence.
Qed.
