(* ===== verification/RealtimeInvariant.v ===== *)
(** * Every step of the realtime client keeps its accounts

    The steps of calls, of the goroutines and of the manager against the
    invariant of RealtimeFacts. *)
From S2P Require Import Prelude GoStrings Values Results GoEncode Protocol ClientMessages ServerMessages Canonical ClientState BaseClient ClientQueries ClientRequests ClientInvariant ClientSession SyncManager ManagerRun ManagerFacts RealtimeClient RealtimeFacts.
Local Open Scope Z_scope.

(** ** Records *)

Lemma change_handle_eq f h hs c :
  ws_handles c !! h = Some hs -> change_handle f h c = ws_put_handles (<[h := f hs]> (ws_handles c)) c.
Proof.
  intros Hh. unfold change_handle. f_equal. apply map_eq. intros h'.
  destruct (decide (h = h')) as [<-|Hne].
  - by rewrite lookup_alter_eq, lookup_insert_eq, Hh.
  - by rewrite lookup_alter_ne, lookup_insert_ne by done.
Qed.

Lemma put_handle_same h hs c :
  ws_handles c !! h = Some hs -> ws_put_handles (<[h := hs]> (ws_handles c)) c = c.
Proof. intros Hh. rewrite insert_id by done. by destruct c. Qed.

(** ** The steps of a call *)

Definition accounted (c : WebSocketClient) : Prop := crashed c = true \/ exists ph own, accounts c ph own.

Lemma panicked_crashed k c : crashed (put_call k Panicked c) = true.
Proof.
  unfold crashed. apply negb_true_iff, not_true_iff_false. rewrite map_forallb_true. intros H.
  specialize (H k Panicked). cbn in H. rewrite lookup_insert_eq in H. by specialize (H eq_refl).
Qed.

Lemma start_accounts c ph own k i s next c' :
  accounts c ph own -> ws_calls c !! k = Some s -> start k i next c = Some c' ->
  holds s = None -> works_on k s = None -> holds next = None -> works_on k next = None -> names next = None ->
  moving s = true -> accounts c' ph own.
Proof.
  intros H Hk Hs H1 H2 H3 H4 H5 Hrb. unfold start in Hs. destruct i; try discriminate Hs; injection Hs as <-.
  - destruct (doneErr c); apply (accounts_call c _ _ _ s); try done; try congruence; auto; by rewrite H5.
  - apply (accounts_call c _ _ _ s); try done; try congruence; auto.
Qed.

Lemma after_flush_accounts c ph own k s f e :
  accounts c ph own -> ws_calls c !! k = Some s -> s = Flush f \/ s = AwaitFlush f ->
  exists ph', accounts (after_flush k f e c) ph' own.
Proof.
  intros H Hk Hs.
  assert (Hholds : holds s = None) by (by destruct Hs as [->| ->]).
  assert (Hrb : moving s = true) by (by destruct Hs as [->| ->]).
  assert (Hworks : works_on k s = works_on k (Flush f)) by (by destruct Hs as [->| ->]).
  assert (Hphase : forall h p, works_on k s = Some (h, p) -> ph !! h = Some p /\
    exists hs, ws_handles c !! h = Some hs /\ shows p hs).
  { intros h p Hw. pose proof (ac_works _ _ _ H k s h p Hk Hw) as Hp. split; [done|].
    destruct (ac_phase _ _ _ H h p Hp) as [hs Hh]. exists hs. split; [done|].
    destruct (ac_handle _ _ _ H h hs Hh) as (p' & Hp' & Hsh). by replace p with p' by congruence. }
  destruct f as [h| |h]; cbn [after_flush].
  - destruct (Hphase h (Creating k)) as (Hp & hs & Hh & Hsh); [by rewrite Hworks|]. destruct e as [e|].
    + exists ph. apply (accounts_call c _ _ _ s); try done; auto.
    + exists (<[h := Open]> ph). rewrite <- (put_handle_same h hs c Hh) at 1.
      apply (accounts_phase c ph own k s _ h hs hs (Creating k) Open); try done; auto.
  - exists ph. destruct e; apply (accounts_call c _ _ _ s); try done; auto.
  - destruct (Hphase h (Flushing k)) as (Hp & hs & Hh & Hsh); [by rewrite Hworks|].
    assert (Hfin : forall e r, names (CallReturned r) = None ->
      accounts (put_call k (CallReturned r) (finishUnsubscribe h e c)) (<[h := Closed]> ph) own).
    { intros e' r Hr. unfold finishUnsubscribe. rewrite Hh, (change_handle_eq _ h hs) by done.
      assert (Ha : accounts (put_call k (CallReturned r)
          (ws_put_handles (<[h := with_closed e' hs]> (ws_handles c)) c)) (<[h := Closed]> ph) own).
      { apply (accounts_phase c ph own k s _ h hs _ (Flushing k) Closed); try done; auto.
        destruct Hsh as (_ & Hq & _). split; [done|]. split; [exact Hq|done]. }
      apply (accounts_forget _ _ _ h (with_closed e' hs) Closed Ha); cbn; by rewrite ?lookup_insert_eq. }
    destruct e as [e|]; [|eexists; by apply Hfin]. destruct (ws_canceled c); [eexists; by apply Hfin|].
    exists (<[h := Queued]> ph). rewrite (change_handle_eq _ h hs) by done.
    apply (accounts_phase c ph own k s _ h hs _ (Flushing k) Queued); try done; auto.
    destruct Hsh as (_ & Hq & Hc). split; [done|]. split; [exact Hq|exact Hc].
Qed.

Lemma after_publish_accounts c ph own k snapshot p :
  accounts c ph own -> ws_calls c !! k = Some (Publish snapshot p) ->
  exists ph', accounts (after_publish k p c) ph' own.
Proof.
  intros H Hk. destruct p as [h| |h|e]; cbn [after_publish].
  - exists ph. apply (accounts_call c _ _ _ (Publish snapshot (PublishSubscribe h))); try done; auto.
  - exists ph. apply (accounts_call c _ _ _ (Publish snapshot PublishMutation)); try done; auto.
  - pose proof (ac_works _ _ _ H k _ h _ Hk eq_refl) as Hp.
    destruct (ac_phase _ _ _ H h _ Hp) as [hs Hh].
    destruct (ac_handle _ _ _ H h hs Hh) as (p' & Hp' & Hsh). replace p' with (Told k) in Hsh by congruence.
    exists (<[h := Flushing k]> ph). rewrite (change_handle_eq _ h hs) by done.
    apply (accounts_phase c ph own k (Publish snapshot (PublishUnsubscribe h)) _ h hs _ (Told k) (Flushing k));
      try done; auto.
    destruct Hsh as (Hl & _ & Hc). split; [exact Hl|]. split; [done|exact Hc].
  - exists ph. apply (accounts_call c _ _ _ (Publish snapshot (PublishRollback e))); try done; auto.
Qed.

Lemma unsubscribe_start proto_text c ph own k h i c' :
  accounts c ph own -> ws_calls c !! k = Some (CallUnsubscribe h) ->
  call_step proto_text k i (CallUnsubscribe h) c = Some c' ->
  exists ph', accounts c' ph' own.
Proof.
  intros H Hk Hs. destruct (ac_names _ _ _ H k _ h Hk eq_refl) as (p & Hp & Hg).
  assert (Hret : forall r, names (CallReturned r) = None -> accounts (put_call k (CallReturned r) c) ph own).
  { intros r Hr. apply (accounts_call c _ _ _ (CallUnsubscribe h)); try done; auto. by rewrite Hr. }
  open_call Hs.
  destruct i; [|injection Hs as <-; by eauto|by destruct (ws_handles c !! h)].
  destruct (ws_handles c !! h) as [hs|] eqn:Hh; [|discriminate].
  destruct (ac_handle _ _ _ H h hs Hh) as (p' & Hp' & Hsh).
  replace p' with p in Hsh by congruence. clear p' Hp'. destruct Hsh as (Hl & Hq & Hc).
  destruct (h_locked hs) eqn:El; [discriminate|].
  destruct (h_closedOK hs) eqn:Ec; [injection Hs as <-; exists ph; destruct (h_closeErr hs); by apply Hret|].
  injection Hs as <-. rewrite (change_handle_eq _ h hs) by done.
  destruct (h_unsubscribeQueued hs) eqn:Eq; destruct p; try discriminate.
  - exists (<[h := Flushing k]> ph).
    apply (accounts_phase c ph own k (CallUnsubscribe h) _ h hs _ Queued); try done; auto.
  - exists (<[h := Unsubscribing k]> ph).
    apply (accounts_phase c ph own k (CallUnsubscribe h) _ h hs _ Open); try done; auto.
Qed.

(** The client the manager works on. *)
Abbreviation base c := (mx_client (ws_manager c)).

Lemma manager_step_eq proto_text e c c' :
  manager_step proto_text e c = Some c' ->
  exists m, step proto_text e (ws_manager c) = Some m /\ c' = ws_put_manager m c.
Proof. unfold manager_step. destruct (step proto_text e (ws_manager c)); [|done]. intros [= <-]. eauto. Qed.

Lemma user_event proto_text op m m' :
  step proto_text (EUser op) m = Some m' -> mx_client m' = perform op (mx_client m).
Proof.
  cbn [step]. destruct (user_operation op); [|destruct (mx_pc m); discriminate].
  intros Hs. assert (m' = user_step op m) as -> by (destruct (mx_pc m); congruence). apply user_step_client.
Qed.

Lemma call_step_accounts proto_text n c ph own k i s c' :
  queries_inv n (base c) -> n + 1 < 2 ^ 32 ->
  accounts c ph own -> ws_calls c !! k = Some s -> call_step proto_text k i s c = Some c' -> accounted c'.
Proof.
  intros Hq Hn H Hk Hs.
  assert (Hsome : forall c', (exists ph', accounts c' ph' own) -> accounted c')
    by (intros ? [? ?]; right; eauto).
  destruct s as [path args|op flush| |h|path args|id|op flush| |h|p|snapshot p|f|f|h e|id e| |r];
    try discriminate Hs.
  - apply Hsome. exists ph. by apply (start_accounts c ph own k i _ (DoSubscribe path args) c' H Hk Hs).
  - apply Hsome. exists ph. by eapply (start_accounts c ph own k _ _ _ c' H Hk Hs).
  - apply Hsome. exists ph. by apply (start_accounts c ph own k i _ DoWatch c' H Hk Hs).
  - apply Hsome. by eapply unsubscribe_start.
  - open_call Hs. apply bind_Some in Hs as (c1 & (m & Hm & ->)%manager_step_eq & Hs).
    injection Hs as <-. pose proof (user_event _ _ _ _ Hm) as Hc. cbn [perform] in Hc.
    pose proof (Subscribe_subscribers n (base c) path args Hq Hn) as Hsub.
    destruct (Subscribe path args (base c)) as [b [id|e]]; cbn [fst snd] in *.
    + destruct Hsub as (Hfresh & Hsubs & Hiss). right. exists ph, (<[k := id]> own).
      eapply (accounts_subscribed c _ ph own k (DoSubscribe path args) id); try done; cbn; rewrite ?Hc; try done.
      intros Hin. apply Hfresh. by eapply subscriber_issued.
    + right. exists ph, own. eapply (accounts_call _ ph own k (DoSubscribe path args)); try done; auto.
      apply accounts_manager; [|done]. by rewrite Hc, Hsub.
  - injection Hs as <-. unfold register.
    destruct (ws_subscriptions c) as [m|] eqn:Hm; [|left; apply panicked_crashed].
    right. eexists _, _. apply (accounts_registered c ph own k id m); [|done..].
    eapply subscriber_issued; [done|]. apply (ac_subs _ _ _ H). exists k.
    apply (ac_owner _ _ _ H). left. by eexists.
  - open_call Hs. destruct (is_control op) eqn:Hop; [|discriminate].
    apply bind_Some in Hs as (c1 & (m & Hm & ->)%manager_step_eq & Hs). injection Hs as <-.
    right. exists ph, own.
    assert (Hm' : accounts (ws_put_manager m c) ph own).
    { apply accounts_manager; [|done]. apply (step_query_part _ _ _ _ Hm). by destruct op. }
    destruct (operation_result op (base c)); [destruct (is_mutation op); [|destruct flush]|];
      eapply (accounts_call _ ph own k (DoOperation op _)); try done; auto.
  - injection Hs as <-. unfold watch. destruct (ws_watchers c) as [m|]; [|left; apply panicked_crashed].
    right. exists ph, own. eapply (accounts_call _ ph own k DoWatch); try done; auto.
    apply (accounts_frame c); try done; cbn; [|lia|by left]. intros h s Hs. by exists s.
  - open_call Hs. apply bind_Some in Hs as (hs & Hh & Hs).
    apply bind_Some in Hs as (c1 & (m & Hm & ->)%manager_step_eq & Hs). injection Hs as <-.
    pose proof (user_event _ _ _ _ Hm) as Hc. cbn [perform] in Hc.
    pose proof (ac_works _ _ _ H k _ h _ Hk eq_refl) as Hp.
    destruct (Unsubscribe_subscribers n (base c) (h_id hs) Hq) as (Hok & Hsub & Hiss).
    { apply (ac_subs _ _ _ H). exists h. apply (ac_owner _ _ _ H). right. eexists _, _. done. }
    rewrite Hok. right. eexists _, _.
    apply (accounts_told c m ph own k h hs); try done; by rewrite Hc.
  - injection Hs as <-. right. exists ph, own. apply (accounts_call c _ _ _ (ReadLatest p)); try done; auto.
  - injection Hs as <-. apply Hsome. eapply after_publish_accounts; [by apply accounts_publish|done].
  - assert (Hend : forall e, exists ph', accounts (after_flush k f e c) ph' own)
      by (intros e; eapply after_flush_accounts; eauto).
    open_call Hs. destruct i.
    + apply bind_Some in Hs as (e & _ & Hs). injection Hs as <-. apply Hsome, Hend.
    + apply bind_Some in Hs as (e & _ & Hs). injection Hs as <-. apply Hsome, Hend.
    + apply bind_Some in Hs as (c1 & (m & Hm & ->)%manager_step_eq & Hs). injection Hs as <-.
      right. exists ph, own. apply (accounts_call _ ph own k (Flush f)); try done; auto.
      apply accounts_manager; [|done]. by apply (step_query_part _ _ _ _ Hm).
  - open_call Hs. apply bind_Some in Hs as (e & _ & Hs). injection Hs as <-. apply Hsome.
    eapply after_flush_accounts; eauto.
  - open_call Hs. apply bind_Some in Hs as (hs & Hh & Hs). injection Hs as <-.
    right. eexists _, _. pose proof (accounts_rollback c ph own k h hs e H Hk Hh) as Ha.
    apply (accounts_forget _ _ _ h hs RolledBack Ha); [done| |done]. by rewrite lookup_insert_eq.
  - open_call Hs. apply bind_Some in Hs as (c1 & (m & Hm & ->)%manager_step_eq & Hs).
    injection Hs as <-. pose proof (user_event _ _ _ _ Hm) as Hc. cbn [perform] in Hc.
    destruct (Unsubscribe_subscribers n (base c) id Hq) as (Hok & Hsub & Hiss).
    { apply (ac_subs _ _ _ H). exists k. apply (ac_owner _ _ _ H). left. eexists. done. }
    right. eexists _, _. apply (accounts_dropped c m ph own k id e); try done; by rewrite Hc.
Qed.

(** ** The steps of the client *)

(** A step of a call takes at most one step of the manager. *)
Definition manager_moves proto_text (c c' : WebSocketClient) : Prop :=
  ws_manager c' = ws_manager c \/
  exists e m, step proto_text e (ws_manager c) = Some m /\ ws_manager c' = m.

Lemma after_flush_manager k f e c : ws_manager (after_flush k f e c) = ws_manager c.
Proof.
  destruct f as [h| |h], e as [e|]; try done; cbn [after_flush]; unfold finishUnsubscribe;
    [destruct (ws_canceled c); [|done]|]; by destruct (ws_handles c !! h).
Qed.

Lemma call_step_manager proto_text k i s c c' :
  call_step proto_text k i s c = Some c' -> manager_moves proto_text c c'.
Proof.
  intros Hs. assert (Hstart : forall next, start k i next c = Some c' -> manager_moves proto_text c c').
  { intros next Hst. left. unfold start in Hst. by destruct i; try discriminate Hst; injection Hst as <-. }
  destruct s as [path args|op flush| |h|path args|id|op flush| |h|p|snapshot p|f|f|h e|id e| |r];
    open_call Hs; try discriminate Hs.
  - by eapply Hstart.
  - left. unfold start in Hs. destruct (is_mutation op), i; try discriminate Hs; by injection Hs as <-.
  - by eapply Hstart.
  - left. destruct i; [|by injection Hs as <-|by destruct (ws_handles c !! h)].
    destruct (ws_handles c !! h) as [hs|]; [|discriminate].
    destruct (h_locked hs); [discriminate|]. by destruct (h_closedOK hs); injection Hs as <-.
  - apply bind_Some in Hs as (c1 & (m & Hm & ->)%manager_step_eq & [= <-]). right. eauto.
  - left. injection Hs as <-. unfold register. by destruct (ws_subscriptions c).
  - destruct (is_control op); [|discriminate].
    apply bind_Some in Hs as (c1 & (m & Hm & ->)%manager_step_eq & [= <-]). right. eauto.
  - left. injection Hs as <-. unfold watch. by destruct (ws_watchers c).
  - apply bind_Some in Hs as (hs & Hh & Hs).
    apply bind_Some in Hs as (c1 & (m & Hm & ->)%manager_step_eq & [= <-]). right. exists (EUser (OUnsubscribe (h_id hs))), m.
    split; [done|]. by destruct (snd (Unsubscribe (h_id hs) (mx_client (ws_manager c)))).
  - left. by injection Hs as <-.
  - left. injection Hs as <-. by destruct p.
  - destruct i; apply bind_Some in Hs as (x & Hx & [= <-]).
    + left. apply after_flush_manager.
    + left. apply after_flush_manager.
    + apply manager_step_eq in Hx as (m & Hm & ->). right. eauto.
  - apply bind_Some in Hs as (x & Hx & [= <-]). left. apply after_flush_manager.
  - apply bind_Some in Hs as (hs & Hh & [= <-]). by left.
  - apply bind_Some in Hs as (c1 & (m & Hm & ->)%manager_step_eq & [= <-]). right. eauto.
Qed.

Lemma new_call_accounts c ph own s :
  accounts c ph own -> call_start s c = true ->
  accounts (put_call (ws_next c) s (ws_put_next (ws_next c + 1) c)) ph own.
Proof.
  intros [A1 A2 A3 A4 A5 A6 A7 A8 A9 A10 A11 A12 A13 A14 A15] Hs.
  assert (Hs' : holds s = None /\ works_on (ws_next c) s = None) by (by destruct s).
  destruct Hs' as [Hh Hw].
  assert (Hcn : ws_calls c !! ws_next c = None).
  { apply eq_None_not_Some. intros H. assert (ws_next c < ws_next c) by (apply A5; by left). lia. }
  assert (Hhn : ws_handles c !! ws_next c = None).
  { apply eq_None_not_Some. intros H. assert (ws_next c < ws_next c) by (apply A5; by right). lia. }
  split; cbn; try done.
  - intros k t h p [[<- <-]|[_ Ht]]%lookup_insert_Some Hp; [congruence|by eapply A3].
  - intros k t h [[<- <-]|[_ Ht]]%lookup_insert_Some Hnm; [|by eapply A4].
    destruct s as [| | |h'| | | | | | | | | | | | |]; try done. injection Hnm as ->. cbn in Hs.
    unfold has_handle in Hs. apply negb_true_iff, not_true_iff_false in Hs.
    destruct (decide (map_Exists (fun _ s => returns_handle h s = true) (ws_calls c))) as [He|He].
    + destruct He as (k & t & Ht & Hr). destruct t as [| | | | | | | | | | | | | | | |[h'| | |]]; try done.
      cbn in Hr. apply Z.eqb_eq in Hr as ->. by eapply (A4 k).
    + destruct Hs. apply map_forallb_true. intros k t Ht. apply negb_true_iff, not_true_iff_false.
      intros Hr. apply He. by exists k, t.
  - intros k [[t [[<- _]|[_ Ht]]%lookup_insert_Some]|Ht]; [lia|enough (k < ws_next c) by lia..]; apply A5; eauto.
  - intros k [t [[<- _]|[_ Ht]]%lookup_insert_Some]; [done|apply A6; eauto].
  - intros o id. rewrite A9. split; (intros [(t & Ht & Hid)|H]; [left|by right]).
    + exists t. rewrite lookup_insert_ne; [done|]. congruence.
    + apply lookup_insert_Some in Ht as [[<- <-]|[_ Ht]]; [congruence|eauto].
  - intros h t p Ht Hp Hl Hin. destruct (A11 h t p Ht Hp Hl Hin) as (Hrb & k & e & Hk). split; [done|].
    exists k, e. rewrite lookup_insert_ne; [done|]. congruence.
  - intros h p k Hp Hby. destruct (A14 h p k Hp Hby) as (t & Ht & Hwt). exists t.
    rewrite lookup_insert_ne; [done|]. congruence.
  - intros h p Hp Hg. destruct (A15 h p Hp Hg) as [k Hk]. exists k. rewrite lookup_insert_ne; [done|]. congruence.
Qed.

Lemma ws_step_inv proto_text n e c c' :
  n + 1 < 2 ^ 32 -> ws_inv n c -> ws_step proto_text e c = Some c' -> ws_inv (n + 1) c'.
Proof.
  intros Hn [Hreach Hacc] Hs. unfold ws_step, run, pump_take, pump_publish, QuerySubscription_Next, QuerySetSubscription_Next in Hs.
  destruct (crashed c) eqn:Hcr; [discriminate|].
  destruct Hacc as [Hacc|(ph & own & H)]; [congruence|].
  assert (Hq : queries_inv n (base c)).
  { destruct Hreach as (k & Hk & Hr). eapply (queries_inv_frame k); [done|done|].
    apply (reachable_inv k); [done|lia]. }
  assert (Hkeep : manager_moves proto_text c c' -> exists k, k <= n + 1 /\ reachable k (base c')).
  { intros [->|(e' & m & Hm & ->)]; [destruct Hreach as (k & Hk & Hr); exists k; split; [lia|done]|].
    by eapply step_reachable. }
  assert (Hframe : forall c', query_part (base c') = query_part (base c) -> ws_handles c' = ws_handles c ->
    ws_calls c' = ws_calls c -> ws_next c' = ws_next c ->
    (ws_subscriptions c' = ws_subscriptions c \/ ws_subscriptions c' = None) -> accounted c').
  { intros c1 E1 E2 E3 E4 E5. right. exists ph, own. apply (accounts_frame c); try done; [| |lia]; rewrite E2.
    - intros h s Hs'. by exists s.
    - done. }
  destruct e as [e| | | | |s|k i|h|w|w].
  - destruct (internal e c) eqn:Hint; [|discriminate].
    apply manager_step_eq in Hs as (m & Hm & ->). split; [apply Hkeep; right; eauto|].
    apply Hframe; try done; [|by left]. apply (step_query_part _ _ _ _ Hm). by destruct e.
  - injection Hs as <-. split; [apply Hkeep; by left|]. apply Hframe; try done. by left.
  - destruct (ws_runner c); [destruct (mx_pc (ws_manager c)); try discriminate Hs|..];
      try discriminate Hs; injection Hs as <-; (split; [apply Hkeep; by left|]); apply Hframe; try done; auto.
  - destruct (ws_pump c); [discriminate|]. destruct (mx_results (ws_manager c)); [discriminate|].
    apply bind_Some in Hs as (c1 & (m & Hm & ->)%manager_step_eq & Hs). injection Hs as <-.
    split; [apply Hkeep; right; eauto|]. apply Hframe; try done; [|by left].
    by apply (step_query_part _ _ _ _ Hm).
  - destruct (ws_pump c) as [snapshot|]; [|discriminate]. injection Hs as <-.
    split; [apply Hkeep; by left|]. right. exists ph, own.
    apply (accounts_frame (publishLatest snapshot c)); try done; [|by left|by apply accounts_publish].
    intros h s Hs'. by exists s.
  - destruct (call_start s c) eqn:Hst; [|discriminate]. injection Hs as <-.
    split; [apply Hkeep; by left|]. right. exists ph, own. by apply new_call_accounts.
  - apply bind_Some in Hs as (s & Hk & Hs). split; [|by eapply call_step_accounts].
    apply Hkeep. by eapply call_step_manager.
  - apply bind_Some in Hs as (s & Hh & Hs). destruct (h_closedOK s || is_done c); [discriminate|].
    destruct (h_updates s) as [|x rest]; [discriminate|]. injection Hs as <-.
    split; [apply Hkeep; by left|]. right. exists ph, own. rewrite (change_handle_eq _ h s) by done.
    apply (accounts_frame c); try done; cbn; [| |by left].
    + intros h' t [[<- <-]|[_ Ht]]%lookup_insert_Some; [exists s|exists t]; done.
    + intros h' [t Ht]. destruct (decide (h = h')) as [<-|Hne]; [rewrite lookup_insert_eq; eauto|].
      rewrite lookup_insert_ne by done. eauto.
  - apply bind_Some in Hs as (s & Hh & Hs). destruct (wt_closed s || is_done c); [discriminate|].
    destruct (wt_updates s) as [|x rest]; [discriminate|]. injection Hs as <-.
    split; [apply Hkeep; by left|]. apply Hframe; try done. by left.
  - injection Hs as <-. unfold QuerySetSubscription_Close. split.
    + apply Hkeep. left. unfold QuerySetSubscription_Close. by destruct (ws_sets c !! w) as [[? []]|].
    + destruct (ws_sets c !! w) as [[? []]|]; apply Hframe; try done; by left.
Qed.

Lemma ws_runs_inv proto_text n c : ws_runs proto_text n c -> n < 2 ^ 32 -> 0 <= n /\ ws_inv n c.
Proof.
  induction 1 as [|n c e c' Hr IH Hs]; intros Hn.
  - split; [done|]. split; [exists 0; split; [done|constructor]|]. right. exists ∅, ∅.
    split; cbn; try done.
    + intros k [[x Hx]|[x Hx]]; by rewrite lookup_empty in Hx.
    + intros id. split; [by intros ?%not_elem_of_empty|intros [o Ho]; by rewrite lookup_empty in Ho].
    + intros o id. rewrite lookup_empty. split; [done|].
      intros [(s & Hs & _)|(s & p & Hs & _)]; by rewrite lookup_empty in Hs.
  - destruct IH as [H0 Hi]; [lia|]. split; [lia|]. by eapply ws_step_inv.
Qed.
