(* ===== verification/RealtimeTheorems.v ===== *)
(** * The theorems of the realtime client

    Every subscriber of the base client has an owner and nobody else's is
    dropped, unsubscribing reaches the manager once, and what waits for a reader
    is never older than the last publication.  Two schedules show a panic and a
    snapshot that stays although it is old. *)
From S2P Require Import Prelude GoStrings GoJson Values Results GoEncode Paths Protocol ClientMessages ServerMessages Canonical ClientState BaseClient ClientQueries ClientRequests ClientInvariant ClientSession SyncManager ManagerRun ManagerFacts RealtimeClient RealtimeFacts RealtimeInvariant.
From Stdlib Require Import Strings.Byte.
Local Open Scope Z_scope.

(** ** A schedule, for the concrete instances *)

Definition ws_no_text : proto_error -> string := fun _ => "".
Definition ws_no_callback : auth_environment := fun _ _ => Err NoAuthCallback.
Definition subscribe_steps (k : Z) : list ws_event :=
  [RStep k Go; RStep k Go; RStep k Go; RStep k Go; RStep k Go].
Definition first_answer : option json :=
  match EncodeServerMessage (Some (STransition (mkTransition zero_version (mkStateVersion 1 0 5)
    (Some [SMUpdated (mkQueryUpdated 0 (VInt64 7) None (mkOptionalString true None))]) None None false false))) with
  | Ok j => Some j
  | Err _ => None
  end.

(** Subscribe, connect, flush, receive a result. *)
Definition sample_events : list ws_event :=
  [RCall (CallSubscribe "messages:list" GNil)] ++ subscribe_steps 0 ++ [RStep 0 ChannelReady] ++
  (RManager <$> [ERun (Some (repeat Byte.x00 16)) 1; EPrepare ws_no_callback; EDial None 2; EGreet 3 None 4;
    EForward; EForwarded; EWriter 0 WTake; EWriter 0 WNext; EWriter 0 (WSend None); EWriter 0 WNext;
    EWriter 0 WTake; EWriter 0 WNext]) ++
  [RStep 0 ChannelReady; RManager (ERead first_answer 5); RPump; RPublish].
Definition sample_ws : WebSocketClient :=
  default NewWebSocketClient (ws_play ws_no_text sample_events NewWebSocketClient).

Lemma ws_schedule_runs es :
  bool_decide (is_Some (ws_play ws_no_text es NewWebSocketClient)) = true ->
  ws_runs ws_no_text (0 + Z.of_nat (length es))
    (default NewWebSocketClient (ws_play ws_no_text es NewWebSocketClient)).
Proof.
  intros [c Hc]%bool_decide_eq_true. rewrite Hc. cbn.
  apply (ws_play_runs _ 0 es NewWebSocketClient); [constructor|done].
Qed.

(** ** Subscribers and their owners *)

(** No call is on its way. *)
Definition quiet_calls (c : WebSocketClient) : bool :=
  map_forallb (fun _ s => match s with CallReturned _ => true | _ => false end) (ws_calls c).

Lemma has_handle_spec h c :
  has_handle h c = true <-> exists k, ws_calls c !! k = Some (CallReturned (RetSubscription h)).
Proof.
  unfold has_handle. rewrite negb_true_iff, <- not_true_iff_false, map_forallb_true. split.
  - intros H. destruct (decide (map_Exists (fun _ s => returns_handle h s = true) (ws_calls c))) as [He|He].
    + destruct He as (k & s & Hs & Hr). exists k. destruct s as [| | | | | | | | | | | | | | | |[h'| | |]]; try done.
      cbn in Hr. apply Z.eqb_eq in Hr as ->. done.
    + exfalso. apply H. intros k s Hs. apply negb_true_iff, not_true_iff_false. intros Hr. apply He. by exists k, s.
  - intros [k Hk] H. specialize (H k _ Hk). cbn in H. by rewrite Z.eqb_refl in H.
Qed.

Lemma ws_runs_accounts proto_text n c :
  ws_runs proto_text n c -> n < 2 ^ 32 -> crashed c = false -> exists ph own, accounts c ph own.
Proof.
  intros Hr Hn Hc. destruct (ws_runs_inv _ _ _ Hr Hn) as [_ [_ [H|H]]]; [congruence|done].
Qed.

(** When no call is on its way every subscriber is that of a handle a call returned. *)
Definition subscribers_held (c : WebSocketClient) : Prop :=
  quiet_calls c = true -> forall id, id ∈ subscribers (base c) ->
  exists h s, has_handle h c = true /\ ws_handles c !! h = Some s /\ h_id s = id /\
    h_unsubscribeQueued s = false /\ h_closedOK s = false.

Lemma quiet_subscribers c ph own : accounts c ph own -> subscribers_held c.
Proof.
  intros H Hquiet id [o Ho]%(ac_subs _ _ _ H). unfold quiet_calls in Hquiet. rewrite map_forallb_true in Hquiet.
  apply (ac_owner _ _ _ H) in Ho as [(s & Hs & Hh)|(s & p & Hs & Hp & Hl & Hid)].
  - specialize (Hquiet o s Hs). by destruct s.
  - destruct (ac_handle _ _ _ H o s Hs) as (p' & Hp' & Hsh). replace p' with p in Hsh by congruence.
    assert (p = Open) as ->.
    { destruct (by_call p) as [k|] eqn:Hby; [|by destruct p].
      destruct (ac_busy _ _ _ H o p k Hp Hby) as (t & Ht & Hw). specialize (Hquiet k t Ht). by destruct t. }
    destruct Hsh as (_ & Hq & Hc). destruct (ac_returned _ _ _ H o Open Hp eq_refl) as [k Hk].
    exists o, s. split; [apply has_handle_spec; eauto|]. done.
Qed.

(** C5. Subscribers of the base client and handles of users correspond.  In
    fewer than 2^32 steps of any schedule that does not crash: a handle a user
    has, and neither is closing nor has closed, is subscribed at the manager and
    in the map the results are sent through, as long as there is one; a handle
    that is closed is not subscribed; no two handles share a subscriber; and when
    no call is on its way every subscriber belongs to an open handle of a user,
    so a failed or interrupted [Subscribe] leaks none.  This is about the handles
    that calls have returned and the subscribers of the manager.  An entry of the map
    of subscriptions may outlive both: see [unflushed_query_leaks] in OneShot. *)
Theorem subscriptions_accounted proto_text n c :
  ws_runs proto_text n c -> n < 2 ^ 32 -> crashed c = false ->
  (forall h s, has_handle h c = true -> ws_handles c !! h = Some s -> h_locked s = false ->
     h_unsubscribeQueued s = false ->
     h_id s ∈ subscribers (base c) /\
     forall m, ws_subscriptions c = Some m -> m !! h_id s = Some h) /\
  (forall h s, ws_handles c !! h = Some s -> h_closedOK s = true -> ~ h_id s ∈ subscribers (base c)) /\
  (forall h h' s s', ws_handles c !! h = Some s -> ws_handles c !! h' = Some s' -> h_id s = h_id s' -> h = h') /\
  subscribers_held c.
Proof.
  intros Hr Hn Hcr. destruct (ws_runs_accounts _ _ _ Hr Hn Hcr) as (ph & own & H).
  split; [|split; [|split; [exact (ac_ids _ _ _ H)|]]].
  - intros h s [k Hk]%has_handle_spec Hs Hl Hq.
    destruct (ac_names _ _ _ H k _ h Hk eq_refl) as (p & Hp & Hg).
    destruct (ac_handle _ _ _ H h s Hs) as (p' & Hp' & Hsh). replace p' with p in Hsh by congruence.
    destruct Hsh as (Hl' & Hq' & _).
    assert (p = Open) as -> by (destruct p; try done; congruence). split.
    + apply (ac_subs _ _ _ H). exists h. apply (ac_owner _ _ _ H). right. by exists s, Open.
    + exact (ac_registered _ _ _ H h s Open Hs Hp).
  - intros h s Hs Hc Hin. destruct (ac_handle _ _ _ H h s Hs) as (p & Hp & (_ & _ & Hc')).
    assert (p = Closed) as -> by (destruct p; try done; congruence).
    by destruct (ac_dead _ _ _ H h s Closed Hs Hp eq_refl Hin).
  - intros Hquiet. by apply (quiet_subscribers c ph own).
Qed.

Lemma subscriptions_accounted_witness :
  (0, 1) ∈ subscribers (base sample_ws) /\
  exists h s, has_handle h sample_ws = true /\ ws_handles sample_ws !! h = Some s /\ h_id s = (0, 1) /\
    h_unsubscribeQueued s = false /\ h_closedOK s = false.
Proof.
  assert (Hin : (0, 1) ∈ subscribers (base sample_ws)) by (apply (bool_decide_unpack _); vm_compute; exact I).
  split; [exact Hin|].
  destruct (subscriptions_accounted ws_no_text _ sample_ws (ws_schedule_runs sample_events ltac:(vm_compute; reflexivity))
    ltac:(vm_compute; reflexivity) ltac:(vm_compute; reflexivity)) as (_ & _ & _ & H).
  apply H; [vm_compute; reflexivity|exact Hin].
Defined.

(** C17. The manager is told to unsubscribe at most once for a handle, and agrees.
    When a call comes to that step, no other call is at it, the handle has not
    been unsubscribed before, and the manager succeeds; from then on the
    subscriber is gone, so a flush that fails and is tried again unsubscribes no
    one else. *)
Theorem unsubscribed_once proto_text n c k h s :
  ws_runs proto_text n c -> n + 1 < 2 ^ 32 -> crashed c = false ->
  ws_calls c !! k = Some (DoUnsubscribe h) -> ws_handles c !! h = Some s ->
  snd (Unsubscribe (h_id s) (base c)) = Ok () /\
  h_unsubscribeQueued s = false /\ h_closedOK s = false /\ h_locked s = true /\
  (forall k', ws_calls c !! k' = Some (DoUnsubscribe h) -> k' = k) /\
  exists c', ws_step proto_text (RStep k Go) c = Some c' /\ (h_id s ∉ subscribers (base c')) /\
    ws_calls c' !! k = Some (ReadLatest (PublishUnsubscribe h)).
Proof.
  intros Hr Hn Hcr Hk Hs. destruct (ws_runs_inv _ _ _ Hr ltac:(lia)) as [_ [(j & Hj & Hreach) _]].
  destruct (ws_runs_accounts _ _ _ Hr ltac:(lia) Hcr) as (ph & own & H).
  pose proof (ac_works _ _ _ H k _ h _ Hk eq_refl) as Hp.
  destruct (ac_handle _ _ _ H h s Hs) as (p & Hp' & Hsh). replace p with (Unsubscribing k) in Hsh by congruence.
  destruct Hsh as (Hl & Hq & Hc).
  assert (Hqi : queries_inv j (base c)) by (apply (reachable_inv j); [done|lia]).
  destruct (Unsubscribe_subscribers j (base c) (h_id s) Hqi) as (Hok & Hsub & _).
  { apply (ac_subs _ _ _ H). exists h. apply (ac_owner _ _ _ H). right. by exists s, (Unsubscribing k). }
  split; [done|]. split; [done|]. split; [done|]. split; [done|]. split.
  - intros k' Hk'. pose proof (ac_works _ _ _ H k' _ h _ Hk' eq_refl) as Hp2. congruence.
  - unfold ws_step. rewrite Hcr, Hk. cbn [mbind option_bind call_step]. unfold do_unsubscribe. rewrite Hs. cbn [mbind option_bind].
    assert (Hm : step proto_text (EUser (OUnsubscribe (h_id s))) (ws_manager c)
      = Some (user_step (OUnsubscribe (h_id s)) (ws_manager c))) by (cbn [step]; by destruct (mx_pc (ws_manager c))).
    unfold manager_step. rewrite Hm. cbn [mbind option_bind]. rewrite Hok. eexists. split; [done|]. split.
    + cbn [ws_manager put_call ws_put_calls ws_put_manager]. rewrite user_step_client. cbn [perform].
      rewrite Hsub. set_solver.
    + cbn. by rewrite lookup_insert_eq.
Qed.

(** Two calls to close the same handle at once. *)
Definition closing_events : list ws_event :=
  sample_events ++ [RCall (CallUnsubscribe 1); RCall (CallUnsubscribe 1); RStep 2 Go].
Definition closing_ws : WebSocketClient :=
  default NewWebSocketClient (ws_play ws_no_text closing_events NewWebSocketClient).

Lemma unsubscribed_once_witness :
  ws_calls closing_ws !! 3 = Some (CallUnsubscribe 1) /\
  exists s, ws_handles closing_ws !! 1 = Some s /\
    snd (Unsubscribe (h_id s) (base closing_ws)) = Ok () /\
    exists c', ws_step ws_no_text (RStep 2 Go) closing_ws = Some c' /\ (h_id s ∉ subscribers (base c')).
Proof.
  split; [vm_compute; reflexivity|].
  eexists (mkHandle (0, 1) [ValueResult (VInt64 7)] true false false None).
  assert (Hh : ws_handles closing_ws !! 1 = Some (mkHandle (0, 1) [ValueResult (VInt64 7)] true false false None))
    by (vm_compute; reflexivity).
  split; [exact Hh|].
  destruct (unsubscribed_once ws_no_text _ closing_ws 2 1 _
    (ws_schedule_runs closing_events ltac:(vm_compute; reflexivity)) ltac:(vm_compute; reflexivity)
    ltac:(vm_compute; reflexivity) ltac:(vm_compute; reflexivity) Hh) as (Hok & _ & _ & _ & _ & c' & Hc & Hn & _).
  split; [exact Hok|]. exists c'. split; [exact Hc|exact Hn].
Defined.
