(* ===== verification/RealtimeUpdates.v ===== *)
(** * What waits for the readers of the realtime client

    The channels of the handles hold one element: the newest result, or the
    newest snapshot, of the last publication.  Which snapshot is published last
    is another matter: a schedule publishes an old one last and leaves it there.
    Another one subscribes while the client is being released, and panics. *)
From S2P Require Import Prelude GoStrings GoJson Values Results GoEncode Paths Protocol ClientMessages ServerMessages Canonical ClientState BaseClient ClientQueries ClientRequests ClientInvariant ClientSession SyncManager ManagerRun ManagerFacts RealtimeClient RealtimeFacts RealtimeInvariant RealtimeTheorems.
From Stdlib Require Import Strings.Byte.
Local Open Scope Z_scope.

(** ** The invariant *)

(** The channel of a handle that results are sent to. *)
Definition registered (c : WebSocketClient) (n : Z) (id : SubscriberID) : Prop :=
  default ∅ (ws_subscriptions c) !! id = Some n.
Definition watching (c : WebSocketClient) (n : Z) : Prop := n ∈ default ∅ (ws_watchers c).

(** At most one element, the newest of its kind. *)
Definition newest_result (c : WebSocketClient) (n : Z) (s : QuerySubscription) : Prop :=
  h_updates s = [] \/ exists x, h_updates s = [x] /\
    (registered c n (h_id s) -> forall r, QueryResults_Get (ws_latest c) (h_id s) = (r, true) -> x = r).
Definition newest_snapshot (c : WebSocketClient) (n : Z) (w : QuerySetSubscription) : Prop :=
  wt_updates w = [] \/ exists x, wt_updates w = [x] /\ (watching c n -> x = ws_latest c).

Record buffers_ok (c : WebSocketClient) : Prop := {
  bf_handles : forall n s, ws_handles c !! n = Some s -> newest_result c n s;
  bf_sets : forall n w, ws_sets c !! n = Some w -> newest_snapshot c n w
}.

(** Channels are only read, maps only lose, and the last publication stays while
    there is anyone it could be sent to. *)
Lemma buffers_frame c c' :
  (forall n s', ws_handles c' !! n = Some s' -> exists s, ws_handles c !! n = Some s /\
     h_id s' = h_id s /\ (h_updates s' = h_updates s \/ h_updates s' = [])) ->
  (forall n w', ws_sets c' !! n = Some w' -> exists w, ws_sets c !! n = Some w /\
     (wt_updates w' = wt_updates w \/ wt_updates w' = [])) ->
  (forall n id, registered c' n id -> registered c n id /\ ws_latest c' = ws_latest c) ->
  (forall n, watching c' n -> watching c n /\ ws_latest c' = ws_latest c) ->
  buffers_ok c -> buffers_ok c'.
Proof.
  intros Hh Hw Hr Hq [B1 B2]. split.
  - intros n s' Hs'. destruct (Hh n s' Hs') as (s & Hs & Hid & [Hu|Hu]); [|by left].
    destruct (B1 n s Hs) as [He|(x & He & Hx)]; [left; congruence|]. right. exists x.
    split; [congruence|]. rewrite Hid. intros [Hreg ->]%Hr. by apply Hx.
  - intros n w' Hw'. destruct (Hw n w' Hw') as (w & Hn & [Hu|Hu]); [|by left].
    destruct (B2 n w Hn) as [He|(x & He & Hx)]; [left; congruence|]. right. exists x.
    split; [congruence|]. intros [Hwat ->]%Hq. by apply Hx.
Qed.

Lemma buffers_same c c' :
  ws_handles c' = ws_handles c -> ws_sets c' = ws_sets c -> ws_subscriptions c' = ws_subscriptions c ->
  ws_watchers c' = ws_watchers c -> ws_latest c' = ws_latest c -> buffers_ok c -> buffers_ok c'.
Proof.
  intros H1 H2 H3 H4 H5. apply buffers_frame; rewrite ?H1, ?H2.
  - intros n s Hs. by exists s; auto.
  - intros n s Hs. by exists s; auto.
  - unfold registered. by rewrite H3.
  - unfold watching. by rewrite H4.
Qed.

Lemma change_handle_buffers f h c :
  (forall s, h_id (f s) = h_id s /\ (h_updates (f s) = h_updates s \/ h_updates (f s) = [])) ->
  buffers_ok c -> buffers_ok (change_handle f h c).
Proof.
  intros Hf. apply buffers_frame; try done.
  - intros n s' Hs'. cbn in Hs'. apply lookup_alter_Some in Hs' as [(-> & s & Hs & ->)|[_ Hs]]; [|eauto].
    exists s. split; [done|]. apply Hf.
  - intros n w Hw. exists w. auto.
Qed.

Lemma forget_buffers id c : buffers_ok c -> buffers_ok (forget id c).
Proof.
  apply buffers_frame; try done.
  - intros n s Hs. by exists s; auto.
  - intros n s Hs. by exists s; auto.
  - intros n id'. unfold registered. cbn. destruct (ws_subscriptions c) as [m|]; cbn; [|done].
    by intros [_ H]%lookup_delete_Some.
Qed.

Lemma finish_buffers h e c : buffers_ok c -> buffers_ok (finishUnsubscribe h e c).
Proof.
  intros H. unfold finishUnsubscribe. destruct (ws_handles c !! h); [|done].
  apply change_handle_buffers; [by intros s; auto|]. by apply forget_buffers.
Qed.

(** A publication puts the newest into every channel. *)
Lemma sendLatest_one {A : Type} (v : A) l : (length l <= 1)%nat -> sendLatest updatesCapacity v l = [v].
Proof. destruct l as [|x [|y l]]; cbn; [done|done|lia]. Qed.

Lemma newest_length c n s : newest_result c n s -> (length (h_updates s) <= 1)%nat.
Proof. intros [->|(x & -> & _)]; cbn; lia. Qed.
Lemma newest_set_length c n w : newest_snapshot c n w -> (length (wt_updates w) <= 1)%nat.
Proof. intros [->|(x & -> & _)]; cbn; lia. Qed.

Lemma publish_buffers snapshot c : buffers_ok c -> buffers_ok (publishLatest snapshot c).
Proof.
  intros [B1 B2]. split.
  - intros n s'. rewrite publish_handles. intros (s & Hs & ->)%fmap_Some.
    specialize (B1 n s Hs). pose proof (newest_length _ _ _ B1) as Hlen.
    unfold send_update, newest_result, registered. cbn.
    destruct (decide (default ∅ (ws_subscriptions c) !! h_id s = Some n)) as [Hreg|Hreg].
    + destruct (QueryResults_Get snapshot (h_id s)) as [r []] eqn:Hg; cbn.
      * right. exists r. rewrite (sendLatest_one r) by done. split; [done|]. intros _ r' Hr'. congruence.
      * destruct B1 as [He|(x & He & _)]; [by left|right]. exists x. split; [done|]. intros _ r' Hr'. congruence.
    + destruct B1 as [He|(x & He & _)]; [by left|right]. exists x. by split.
  - intros n w'. unfold publishLatest. cbn. rewrite map_lookup_imap.
    intros (w & Hw & [= <-])%bind_Some. specialize (B2 n w Hw).
    pose proof (newest_set_length _ _ _ B2) as Hlen. unfold send_snapshot, newest_snapshot, watching. cbn.
    destruct (decide (n ∈ default ∅ (ws_watchers c))) as [Hin|Hin]; cbn.
    + right. exists snapshot. by rewrite sendLatest_one.
    + destruct B2 as [He|(x & He & _)]; [by left|right]. exists x. by split.
Qed.

Lemma register_buffers k id c : buffers_ok c -> buffers_ok (register k id c).
Proof.
  intros [B1 B2]. unfold register. destruct (ws_subscriptions c) as [m|] eqn:Hm; [|by apply (buffers_same c)].
  split; cbn; [|done]. intros n s [[<- <-]|[Hne Hs]]%lookup_insert_Some.
  - unfold newest_result. cbn. destruct (ws_hasLatest c); [|by left].
    destruct (QueryResults_Get (ws_latest c) id) as [r []] eqn:Hg; [|by left].
    right. exists r. split; [done|]. intros _ r' Hr'. congruence.
  - destruct (B1 n s Hs) as [He|(x & He & Hx)]; [by left|right]. exists x. split; [done|].
    unfold registered in Hx |- *. rewrite Hm in Hx. cbn in Hx |- *.
    intros [[_ ?]|[_ Hreg]]%lookup_insert_Some; [by destruct Hne|]. by apply Hx.
Qed.

Lemma watch_buffers k c : buffers_ok c -> buffers_ok (watch k c).
Proof.
  intros [B1 B2]. unfold watch. destruct (ws_watchers c) as [m|] eqn:Hm; [|by apply (buffers_same c)].
  split; cbn; [done|]. intros n s [[<- <-]|[Hne Hs]]%lookup_insert_Some.
  - unfold newest_snapshot. cbn. destruct (ws_hasLatest c); [|by left]. right. by eexists.
  - destruct (B2 n s Hs) as [He|(x & He & Hx)]; [by left|right]. exists x. split; [done|].
    unfold watching in Hx |- *. rewrite Hm in Hx. cbn in Hx |- *.
    rewrite elem_of_union, elem_of_singleton. intros [->|Hin]; [by destruct Hne|by apply Hx].
Qed.

Lemma after_flush_buffers k f e c : buffers_ok c -> buffers_ok (after_flush k f e c).
Proof.
  intros H. destruct f as [h| |h], e as [e|]; cbn [after_flush]; try (by apply (buffers_same c)).
  - apply (buffers_same (if ws_canceled c then finishUnsubscribe h (Some e) c
       else change_handle (with_locked false) h c)); try done.
    destruct (ws_canceled c); [by apply finish_buffers|].
    apply change_handle_buffers; [by intros s; auto|done].
  - apply (buffers_same (finishUnsubscribe h None c)); try done. by apply finish_buffers.
Qed.

Lemma call_step_buffers proto_text k i s c c' :
  call_step proto_text k i s c = Some c' -> buffers_ok c -> buffers_ok c'.
Proof.
  intros Hs H. assert (Hstart : forall next i, start k i next c = Some c' -> buffers_ok c').
  { intros next i' Hst. unfold start in Hst. destruct i'; try discriminate Hst; injection Hst as <-;
      by apply (buffers_same c). }
  destruct s as [path args|op flush| |h|path args|id|op flush| |h|p|snapshot p|f|f|h e|id e| |r];
    open_call Hs; try discriminate Hs;
    try (by eapply Hstart).
  - destruct i; [|injection Hs as <-; by apply (buffers_same c)|by destruct (ws_handles c !! h)].
    destruct (ws_handles c !! h) as [hs|]; [|discriminate].
    destruct (h_locked hs); [discriminate|].
    destruct (h_closedOK hs); injection Hs as <-; [by apply (buffers_same c)|].
    apply (buffers_same (change_handle (with_locked true) h c)); try done.
    apply change_handle_buffers; [by intros t; auto|done].
  - apply bind_Some in Hs as (c1 & (m & Hm & ->)%manager_step_eq & [= <-]). by apply (buffers_same c).
  - injection Hs as <-. by apply register_buffers.
  - destruct (is_control op); [|discriminate].
    apply bind_Some in Hs as (c1 & (m & Hm & ->)%manager_step_eq & [= <-]). by apply (buffers_same c).
  - injection Hs as <-. by apply watch_buffers.
  - apply bind_Some in Hs as (hs & Hh & Hs).
    apply bind_Some in Hs as (c1 & (m & Hm & ->)%manager_step_eq & [= <-]).
    destruct (snd (Unsubscribe (h_id hs) (mx_client (ws_manager c)))); [by apply (buffers_same c)|].
    apply (buffers_same (change_handle (with_locked false) h c)); try done.
    apply change_handle_buffers; [by intros t; auto|done].
  - injection Hs as <-. by apply (buffers_same c).
  - injection Hs as <-. apply (publish_buffers snapshot) in H. destruct p as [h| |h|e]; cbn [after_publish];
      try (by apply (buffers_same (publishLatest snapshot c))).
    apply (buffers_same (change_handle with_queued h (publishLatest snapshot c))); try done.
    apply change_handle_buffers; [by intros t; auto|done].
  - destruct i; apply bind_Some in Hs as (x & Hx & [= <-]); try by apply after_flush_buffers.
    apply manager_step_eq in Hx as (m & Hm & ->). by apply (buffers_same c).
  - apply bind_Some in Hs as (x & Hx & [= <-]). by apply after_flush_buffers.
  - apply bind_Some in Hs as (hs & Hh & [= <-]). apply (buffers_same (forget (h_id hs) c)); try done.
    by apply forget_buffers.
  - apply bind_Some in Hs as (c1 & (m & Hm & ->)%manager_step_eq & [= <-]). by apply (buffers_same c).
Qed.

Lemma ws_step_buffers proto_text e c c' :
  ws_step proto_text e c = Some c' -> buffers_ok c -> buffers_ok c'.
Proof.
  intros Hs H. unfold ws_step, run, pump_take, pump_publish, QuerySubscription_Next, QuerySetSubscription_Next in Hs.
  destruct (crashed c); [discriminate|].
  destruct e as [e| | | | |s|k i|h|w|w].
  - destruct (internal e c); [|discriminate]. apply manager_step_eq in Hs as (m & Hm & ->).
    by apply (buffers_same c).
  - injection Hs as <-. by apply (buffers_same c).
  - destruct (ws_runner c); [destruct (mx_pc (ws_manager c)); try discriminate Hs|..];
      try discriminate Hs; injection Hs as <-; try (by apply (buffers_same c)).
    revert H. apply buffers_frame; cbn.
    + intros n s Hs'. by exists s; auto.
    + intros n s Hs'. by exists s; auto.
    + intros n id. unfold registered. cbn. by rewrite lookup_empty.
    + intros n. unfold watching. cbn. by intros ?%not_elem_of_empty.
  - destruct (ws_pump c); [discriminate|]. destruct (mx_results (ws_manager c)); [discriminate|].
    apply bind_Some in Hs as (c1 & (m & Hm & ->)%manager_step_eq & [= <-]). by apply (buffers_same c).
  - destruct (ws_pump c) as [snapshot|]; [|discriminate]. injection Hs as <-.
    apply (buffers_same (publishLatest snapshot c)); try done. by apply publish_buffers.
  - destruct (call_start s c); [|discriminate]. injection Hs as <-. by apply (buffers_same c).
  - apply bind_Some in Hs as (s & Hk & Hs). by eapply call_step_buffers.
  - apply bind_Some in Hs as (s & Hh & Hs). destruct (h_closedOK s || is_done c); [discriminate|].
    destruct (h_updates s) as [|x rest] eqn:Hu; [discriminate|]. injection Hs as <-.
    assert (Hrest : rest = []).
    { destruct (bf_handles _ H h s Hh) as [He|(y & He & _)]; congruence. }
    subst rest. apply change_handle_buffers; [by intros t; auto|done].
  - apply bind_Some in Hs as (s & Hh & Hs). destruct (wt_closed s || is_done c); [discriminate|].
    destruct (wt_updates s) as [|x rest] eqn:Hu; [discriminate|]. injection Hs as <-.
    assert (Hrest : rest = []).
    { destruct (bf_sets _ H w s Hh) as [He|(y & He & _)]; congruence. }
    subst rest. revert H. apply buffers_frame; cbn; try done.
    + intros n t Ht. by exists t; auto.
    + intros n t [[<- <-]|[_ Ht]]%lookup_insert_Some; [exists s|exists t]; auto.
  - injection Hs as <-. unfold QuerySetSubscription_Close.
    destruct (ws_sets c !! w) as [[u []]|] eqn:Hw; try done. revert H. apply buffers_frame; cbn; try done.
    + intros n t Ht. by exists t; auto.
    + intros n t [[<- <-]|[_ Ht]]%lookup_insert_Some; [by eexists; split; [exact Hw|left]|exists t; auto].
    + intros n. unfold watching. cbn. destruct (ws_watchers c) as [m|]; cbn; [|done].
      by intros [Hin _]%elem_of_difference.
Qed.

Lemma ws_runs_buffers proto_text n c : ws_runs proto_text n c -> buffers_ok c.
Proof.
  induction 1 as [|n c e c' Hr IH Hs]; [|by eapply ws_step_buffers].
  split; cbn; intros n s Hs; by rewrite lookup_empty in Hs.
Qed.

(** ** The theorem *)

(** C18. A reader gets the newest.  In every state of every schedule the channel
    of a handle holds at most one element; what waits in the channel of a
    subscription that results are sent to is its result in the snapshot
    published last, if that has one, and what waits for a watcher is that
    snapshot.  And a publication leaves exactly its result with every
    subscription it has one for, and itself with every watcher, whether or not
    the one before was read.  A subscription the snapshot has no result for is
    passed over, and may still read an older one. *)
Theorem readers_get_newest proto_text n c :
  ws_runs proto_text n c ->
  (forall h s, ws_handles c !! h = Some s -> newest_result c h s) /\
  (forall w s, ws_sets c !! w = Some s -> newest_snapshot c w s) /\
  (forall snapshot h s r, ws_handles c !! h = Some s -> registered c h (h_id s) ->
     QueryResults_Get snapshot (h_id s) = (r, true) ->
     h_updates <$> ws_handles (publishLatest snapshot c) !! h = Some [r]) /\
  (forall snapshot w s, ws_sets c !! w = Some s -> watching c w ->
     wt_updates <$> ws_sets (publishLatest snapshot c) !! w = Some [snapshot]).
Proof.
  intros Hr. pose proof (ws_runs_buffers _ _ _ Hr) as [B1 B2].
  split; [exact B1|]. split; [exact B2|]. split.
  - intros snapshot h s r Hs Hreg Hg. rewrite publish_handles, Hs. cbn. unfold send_update.
    rewrite decide_True by exact Hreg. rewrite Hg. cbn.
    by rewrite (sendLatest_one r) by (by eapply newest_length, B1).
  - intros snapshot w s Hs Hw. unfold publishLatest. cbn. rewrite map_lookup_imap, Hs. cbn.
    unfold send_snapshot. rewrite decide_True by exact Hw. cbn.
    by rewrite sendLatest_one by (by eapply newest_set_length, B2).
Qed.

Lemma readers_get_newest_witness :
  h_updates <$> ws_handles sample_ws !! 1 = Some [ValueResult (VInt64 7)] /\
  h_updates <$> ws_handles (publishLatest (mkQueryResults {[(0, 1)]} {[0 := ValueResult (VInt64 8)]}) sample_ws) !! 1
    = Some [ValueResult (VInt64 8)].
Proof.
  split; [vm_compute; reflexivity|].
  destruct (readers_get_newest ws_no_text _ sample_ws (ws_schedule_runs sample_events ltac:(vm_compute; reflexivity)))
    as (_ & _ & H & _).
  apply (H _ 1 (mkHandle (0, 1) [ValueResult (VInt64 7)] false false false None));
    [vm_compute; reflexivity|vm_compute; reflexivity|vm_compute; reflexivity].
Defined.

(** ** What goes wrong *)

(** [Subscribe] has passed its checks when the client is closed. *)
Definition late_events : list ws_event :=
  [RManager (ERun (Some (repeat Byte.x00 16)) 1); RCall (CallSubscribe "messages:list" GNil);
   RStep 0 Go; RStep 0 Go; RCancel; RManager (ECancel 2); RRun; RRun; RStep 0 Go].

(** It assigns to a map that has been set to nil: the program panics. *)
Lemma late_subscribe_panics :
  exists c, ws_play ws_no_text late_events NewWebSocketClient = Some c /\
    ws_calls c !! 0 = Some Panicked /\ ws_subscriptions c = None.
Proof. eexists. split; [vm_compute; reflexivity|]. split; vm_compute; reflexivity. Qed.

(** Two mutations with optimistic updates of the same query, whose snapshots reach
    the channel of results in the other order. *)
Definition optimistic (v : Z) : OptimisticUpdate :=
  USetQuery "messages:list" GNil (GInt v) (fun _ => UReturn None).
Definition optimistic_mutation (v : Z) : call :=
  CallOperation (OMutation "messages:send" GNil [WithOptimisticUpdate (Some (optimistic v))]) true.
Definition finish_mutation (k : Z) : list ws_event :=
  [RStep k Go; RStep k Go; RStep k ChannelReady; RManager EForward; RManager EForwarded; RManager (EWriter 0 WTake)].
Definition stale_events : list ws_event :=
  sample_events ++ [RCall (optimistic_mutation 5); RCall (optimistic_mutation 6);
    RStep 2 Go; RStep 2 Go; RStep 3 Go; RStep 3 Go; RManager (EPublish 1); RManager (EPublish 0)] ++
  finish_mutation 2 ++
  [RManager (EWriter 0 WNext); RManager (EWriter 0 (WSend None)); RManager (EWriter 0 WNext);
   RManager (EWriter 0 (WSend None)); RManager (EWriter 0 WNext); RStep 2 ChannelReady] ++
  finish_mutation 3 ++ [RManager (EWriter 0 WNext); RStep 3 ChannelReady; RPump; RPublish; RPump; RPublish].

(** All calls have returned and nothing waits to be published, but the client and
    its subscription show the snapshot from before the second mutation. *)
Lemma stale_snapshot_stays :
  exists c, ws_play ws_no_text stale_events NewWebSocketClient = Some c /\
    quiet_calls c = true /\ mx_results (ws_manager c) = [] /\ mx_publishing (ws_manager c) = [] /\
    ws_pump c = None /\
    QueryResults_Get (LatestResults (base c)) (0, 1) = (ValueResult (VInt64 6), true) /\
    QueryResults_Get (ws_latest c) (0, 1) = (ValueResult (VInt64 5), true) /\
    h_updates <$> ws_handles c !! 1 = Some [ValueResult (VInt64 5)].
Proof.
  eexists. split; [vm_compute; reflexivity|]. repeat (split; [vm_compute; reflexivity|]).
  vm_compute. reflexivity.
Qed.
