(* ===== verification/HttpClient.v ===== *)
(** * The HTTP client

    The model of [client_http.go], and of the part of [client_options.go] and
    [client_facade.go] about [HTTPClient]: the requests it builds, the identity
    they carry, the repetition of a request the server refuses, how the answer is
    read, and the queue that makes mutations wait for each other.

    The transport is an argument: the answer to a request may depend on all
    requests before it.  The functions take the requests made so far, and
    return them with their own added. *)
From S2P Require Import Prelude GoStrings GoJson Values Results GoEncode.
From Stdlib Require Import Ascii.
Local Open Scope Z_scope.

(** ** Requests and responses *)

(** A header is the value of its last [Set]. *)
Record http_request : Type := mkRequest {
  rq_Method : string;
  rq_URL : string;
  rq_Header : gmap string string;
  rq_Body : option json
}.

(** The members of an object are in the order of the text, for it matters when
    they are read into a struct. *)
Inductive document : Type :=
  | DObject (members : list (string * json))
  | DOther (j : json).

(** The text of a body, and the document it parses to, if it does. *)
Record http_body : Type := mkBody { bd_text : string; bd_document : option document }.

(** [rs_Body] is an error when reading the body fails. *)
Record http_response : Type := mkResponse {
  rs_StatusCode : Z;
  rs_Body : result string http_body
}.

Inductive http_error : Type :=
  | EmptyPath
  | BadArguments (e : value_error)
  | UnencodableRequest (e : json_error)
  | TokenFetchFailed (message : string)
  | TransportFailed (message : string)
  | BodyUnreadable (message : string)
  | HTTPError (StatusCode : Z) (Body : string)
  | UndecodableResponse
  | MissingValue
  | BadValue (e : value_error)
  | BadErrorData (e : value_error)
  | FunctionFailed (e : FunctionError)
  | InvalidStatus (status : string)
  | EmptyTimestamp
  | UndecodableTimestamp
  | ContextDone
  | UninitializedClient
  | UnreadyQueue.

Definition statusCodeUDFFailed : Z := 560.
Definition StatusUnauthorized : Z := 401.
Definition StatusForbidden : Z := 403.

(** ** Reading an object into a struct

    [encoding/json] matches the name of a member with the names of the fields
    exactly, or else up to case: letters are folded to upper case, and two
    letters outside ASCII fold to S and K. *)
Definition fold_letter (c : ascii) : ascii :=
  if byte_in 97 122 c then chr (code c - 32) else c.
Fixpoint fold_name (s : string) : string :=
  match s with
  | "" => ""
  | String a r =>
      match r with
      | String b r' =>
          if (code a =? 197) && (code b =? 191) then String "S" (fold_name r')
          else match r' with
          | String c r'' =>
              if (code a =? 226) && (code b =? 132) && (code c =? 170) then String "K" (fold_name r'')
              else String (fold_letter a) (fold_name r)
          | "" => String (fold_letter a) (fold_name r)
          end
      | "" => String (fold_letter a) (fold_name r)
      end
  end.

Definition struct_field (fields : list string) (key : string) : option string :=
  if decide (key ∈ fields) then Some key
  else find (fun f => bool_decide (fold_name f = fold_name key)) fields.

(** A member into a field of type [string]; [null] leaves it as it is.  [None] is
    a type error, after which decoding goes on but fails in the end. *)
Definition string_field (j : json) (old : string) : option string :=
  match j with JStr s => Some s | JNull => Some old | _ => None end.

(** A member into a [[]string] that holds none yet. *)
Definition strings_field (j : json) : option (list string) :=
  match j with
  | JNull => Some []
  | JArr l => mapM (fun x => string_field x "") l
  | _ => None
  end.

Record functionResponse : Type := mkFunctionResponse {
  rp_Status : string;
  rp_Value : option json;
  rp_ErrorMessage : string;
  rp_ErrorData : option json;
  rp_LogLines : list string
}.
Definition functionResponse_fields : list string :=
  ["status"; "value"; "errorMessage"; "errorData"; "logLines"].
Definition set_member (r : functionResponse) (m : string * json) : option functionResponse :=
  let '(mkFunctionResponse status value message data logs) := r in
  match struct_field functionResponse_fields (fst m) with
  | Some "status" => s ← string_field (snd m) status; Some (mkFunctionResponse s value message data logs)
  | Some "value" => Some (mkFunctionResponse status (Some (snd m)) message data logs)
  | Some "errorMessage" =>
      s ← string_field (snd m) message; Some (mkFunctionResponse status value s data logs)
  | Some "errorData" => Some (mkFunctionResponse status value message (Some (snd m)) logs)
  | Some "logLines" => l ← strings_field (snd m); Some (mkFunctionResponse status value message data l)
  | _ => Some r
  end.

(** [json.Unmarshal] into a struct; [null] leaves it as it is. *)
Definition unmarshal_struct {A : Type} (set : A -> string * json -> option A) (zero : A) (b : http_body)
    : option A :=
  match bd_document b with
  | Some (DObject members) => foldl (fun acc m => r ← acc; set r m) (Some zero) members
  | Some (DOther JNull) => Some zero
  | _ => None
  end.
Definition decode_functionResponse : http_body -> option functionResponse :=
  unmarshal_struct set_member (mkFunctionResponse "" None "" None []).
Definition decode_timestampResponse : http_body -> option string :=
  unmarshal_struct (fun old m =>
    match struct_field ["ts"] (fst m) with Some _ => string_field (snd m) old | None => Some old end) "".

(** ** The client *)

(** A token callback is known by a name; what it returns is an argument.  The
    fields that [mu] guards are the identity. *)
Definition UserTokenFetcher : Type := nat.
Definition token_environment : Type := UserTokenFetcher -> bool -> result string string.

Record HTTPClient : Type := mkHTTPClient {
  hc_address : string;
  hc_clientID : string;
  hc_skipDeploymentURLCheck : bool;
  hc_auth : string;
  hc_adminAuth : string;
  hc_authCallback : option UserTokenFetcher
}.
Definition with_identity (auth adminAuth : string) (cb : option UserTokenFetcher) (c : HTTPClient)
    : HTTPClient :=
  mkHTTPClient (hc_address c) (hc_clientID c) (hc_skipDeploymentURLCheck c) auth adminAuth cb.

(** [HTTPClient.SetAuth], [ClearAuth] and [setAuthCallback]. *)
Definition HTTPClient_SetAuth (token : string) (c : HTTPClient) : HTTPClient :=
  with_identity token (if decide (token = "") then hc_adminAuth c else "") None c.
Definition HTTPClient_ClearAuth (c : HTTPClient) : HTTPClient := with_identity "" "" None c.
Definition HTTPClient_setAuthCallback (fetcher : option UserTokenFetcher) (c : HTTPClient) : HTTPClient :=
  with_identity "" "" fetcher c.

(** The Authorization header, empty for none, and whether a callback gave it. *)
Definition authHeaderValue (env : token_environment) (forceRefresh : bool) (c : HTTPClient)
    : result string string * bool :=
  match hc_authCallback c with
  | Some cb =>
      (token ← env cb forceRefresh; mret (if decide (token = "") then "" else "Bearer " +:+ token), true)
  | None =>
      (mret (if decide (hc_adminAuth c = "") then
               if decide (hc_auth c = "") then "" else "Bearer " +:+ hc_auth c
             else "Convex " +:+ hc_adminAuth c), false)
  end.

Section transport.
(** The transport: [http.Client.Do], after the requests sent before. *)
Context (Do : list http_request -> http_request -> result string http_response).
Context (env : token_environment).

Definition sent_requests : Type := list http_request.

(** [POST] is the only method. *)
Definition build_request (c : HTTPClient) (endpoint authHeader : string) (body : option json)
    : http_request :=
  let header : gmap string string :=
    {["Content-Type" := "application/json"; "Convex-Client" := hc_clientID c]} in
  mkRequest "POST" endpoint
    (if decide (authHeader = "") then header else <["Authorization" := authHeader]> header) body.

(** [http.NewRequestWithContext] is taken to succeed: the method is fixed, the address is one that
    [normalizeDeploymentURL] has printed with a path behind it, and the context is not nil.  The redirects that
    [http.Client] follows are within [Do]. *)
Definition doAuthenticatedRequest (c : HTTPClient) (endpoint : string) (body : option json)
    (forceRefresh : bool) (h : sent_requests) : sent_requests * result http_error (http_response * bool) :=
  let '(authHeader, usedCallback) := authHeaderValue env forceRefresh c in
  match authHeader with
  | Err e => (h, Err (TokenFetchFailed e))
  | Ok authHeader =>
      let req := build_request c endpoint authHeader body in
      (h ++ [req], resp ← map_err TransportFailed (Do h req); mret (resp, usedCallback))
  end.

Definition doRequestWithAuthRetry (c : HTTPClient) (endpoint : string) (body : option json) (h : sent_requests)
    : sent_requests * result http_error http_response :=
  match doAuthenticatedRequest c endpoint body false h with
  | (h, Err e) => (h, Err e)
  | (h, Ok (resp, usedCallback)) =>
      if negb usedCallback
         || negb (rs_StatusCode resp =? StatusUnauthorized) && negb (rs_StatusCode resp =? StatusForbidden)
      then (h, Ok resp)
      else let '(h, r) := doAuthenticatedRequest c endpoint body true h in (h, fst <$> r)
  end.

(** The status of an answer that is read on. *)
Definition is_success (status : Z) : bool := (200 <=? status) && (status <? 300).

(** What [doFunctionRequest] makes of an answer. *)
Definition readFunctionResponse (kind : FunctionKind) (path : string) (resp : http_response)
    : result http_error Value :=
  body ← map_err BodyUnreadable (rs_Body resp);
  if negb (is_success (rs_StatusCode resp)) && negb (rs_StatusCode resp =? statusCodeUDFFailed)
  then Err (HTTPError (rs_StatusCode resp) (trim_space (bd_text body)))
  else
    match decode_functionResponse body with
    | None => Err UndecodableResponse
    | Some r =>
        if decide (rp_Status r = "success") then
          match rp_Value r with
          | None => Err MissingValue
          | Some j => map_err BadValue (ParseValueJSON j)
          end
        else if decide (rp_Status r = "error") then
          let e data hasData :=
            mkFunctionError kind path (rp_ErrorMessage r) (if (hasData : bool) then GoValue data else GNil) data
              (if hasData then Some (mkConvexError (rp_ErrorMessage r) data) else None) hasData
              (rp_LogLines r) (rs_StatusCode resp) (bd_text body) in
          match rp_ErrorData r with
          | None => Err (FunctionFailed (e VNull false))
          | Some j => data ← map_err BadErrorData (ParseValueJSON j); Err (FunctionFailed (e data true))
          end
        else Err (InvalidStatus (rp_Status r))
    end.

Definition doFunctionRequest (c : HTTPClient) (kind : FunctionKind) (path endpoint : string) (body : json)
    (h : sent_requests) : sent_requests * result http_error Value :=
  let '(h, resp) := doRequestWithAuthRetry c endpoint (Some body) h in
  (h, resp ← resp; readFunctionResponse kind path resp).

(** ** Calls *)

(** The check of the path and the encoding of the arguments. *)
Definition prepare_call (path : string) (args : goval) : result http_error wire :=
  if decide (trim_space path = "") then Err EmptyPath else map_err BadArguments (encodeArgs args).

Definition call (c : HTTPClient) (kind : FunctionKind) (path : string) (args : goval) (timestamp : string)
    (h : sent_requests) : sent_requests * result http_error Value :=
  let request :=
    encodedArgs ← prepare_call path args;
    let payload : gmap string wire :=
      {["path" := WStr path; "format" := WStr "convex_encoded_json"; "args" := WArr [encodedArgs]]} in
    body ← map_err UnencodableRequest (marshal (WObj payload));
    if bool_decide (kind = QueryKind) && negb (bool_decide (timestamp = "")) then
      body ← map_err UnencodableRequest (marshal (WObj (<["ts" := WStr timestamp]> payload)));
      mret (hc_address c +:+ "/api/query_at_ts", body)
    else mret (hc_address c +:+ "/api/" +:+ kind, body) in
  match request with
  | Err e => (h, Err e)
  | Ok (endpoint, body) => doFunctionRequest c kind path endpoint body h
  end.

(** A component path that is empty is left out. *)
Definition callAnyFunction (c : HTTPClient) (path : string) (args : goval) (componentPath : string)
    (h : sent_requests) : sent_requests * result http_error Value :=
  let request :=
    encodedArgs ← prepare_call path args;
    let payload : gmap string wire :=
      {["path" := WStr path; "format" := WStr "convex_encoded_json"; "args" := encodedArgs]} in
    map_err UnencodableRequest
      (marshal (WObj (if decide (componentPath = "") then payload
                      else <["componentPath" := WStr componentPath]> payload))) in
  match request with
  | Err e => (h, Err e)
  | Ok body => doFunctionRequest c "function" path (hc_address c +:+ "/api/function") body h
  end.

Definition QueryValue (c : HTTPClient) (path : string) (args : goval) := call c QueryKind path args "".
Definition ActionValue (c : HTTPClient) (path : string) (args : goval) := call c ActionKind path args "".

(** [MutationValue] once it has its turn, or skips the queue. *)
Definition MutationValue (c : HTTPClient) (path : string) (args : goval) := call c MutationKind path args "".

Definition readTimestamp (resp : http_response) : result http_error string :=
  body ← map_err BodyUnreadable (rs_Body resp);
  if negb (is_success (rs_StatusCode resp))
  then Err (HTTPError (rs_StatusCode resp) (trim_space (bd_text body)))
  else match decode_timestampResponse body with None => Err UndecodableTimestamp | Some ts => Ok ts end.
Definition GetTimestamp (c : HTTPClient) (h : sent_requests) : sent_requests * result http_error string :=
  let '(h, resp) := doRequestWithAuthRetry c (hc_address c +:+ "/api/query_ts") None h in
  (h, resp ← resp; readTimestamp resp).

Definition QueryAtTimestamp (c : HTTPClient) (path : string) (args : goval) (timestamp : string)
    (h : sent_requests) : sent_requests * result http_error Value :=
  if decide (trim_space timestamp = "") then (h, Err EmptyTimestamp)
  else call c QueryKind path args timestamp h.
Definition ConsistentQuery (c : HTTPClient) (path : string) (args : goval) (h : sent_requests)
    : sent_requests * result http_error Value :=
  match GetTimestamp c h with
  | (h, Err e) => (h, Err e)
  | (h, Ok timestamp) => QueryAtTimestamp c path args timestamp h
  end.

(** The same with the value as a Go value. *)
Definition as_go (r : sent_requests * result http_error Value) : sent_requests * result http_error goval :=
  (fst r, GoValue <$> snd r).
Definition HTTPClient_Query (c : HTTPClient) (path : string) (args : goval) (h : sent_requests) :=
  as_go (QueryValue c path args h).
Definition HTTPClient_Mutation (c : HTTPClient) (path : string) (args : goval) (h : sent_requests) :=
  as_go (MutationValue c path args h).
Definition HTTPClient_Action (c : HTTPClient) (path : string) (args : goval) (h : sent_requests) :=
  as_go (ActionValue c path args h).
Definition FunctionValue := callAnyFunction.
Definition HTTPClient_Function (c : HTTPClient) (path : string) (args : goval) (componentPath : string)
    (h : sent_requests) := as_go (FunctionValue c path args componentPath h).
End transport.

(** ** The mutation queue

    A channel of capacity one that holds one token: a mutation takes it before
    its request and puts it back when it returns.  A channel is its capacity and
    the number of elements it holds; [None] is nil. *)
Inductive MutationOption : Type := WithSkipMutationQueue | NilMutationOption.
Definition mutationOptionsFrom (opts : list MutationOption) : bool :=
  existsb (fun o => match o with WithSkipMutationQueue => true | NilMutationOption => false end) opts.

Definition newReadyMutationQueue : option (nat * nat) := Some (1, 1)%nat.

(** Where a call of [MutationValue] is. *)
Inductive mutation_call : Type :=
  | Entering (opts : list MutationOption)
  | AwaitTurn
  | Sending (holdsTurn : bool)
  | Refused (e : http_error)
  | Answered.

Record mutation_queue : Type := mkMutationQueue {
  mq_channel : option (nat * nat);
  mq_calls : gmap nat mutation_call
}.

(** [QCall] is a new call, with a number of its own; [QEnter] is the first part of [acquireMutationTurn], up to where it waits;
    [QCancel] and [QTake] are the two ends of the wait; [QReturn] is the answer
    to the request and the deferred release. *)
Inductive queue_event : Type :=
  | QCall (k : nat) (opts : list MutationOption)
  | QEnter (k : nat) (contextDone : bool)
  | QCancel (k : nat)
  | QTake (k : nat)
  | QReturn (k : nat).

Definition set_call (k : nat) (s : mutation_call) (q : mutation_queue) : mutation_queue :=
  mkMutationQueue (mq_channel q) (<[k := s]> (mq_calls q)).
Definition set_channel (len : nat) (q : mutation_queue) : mutation_queue :=
  mkMutationQueue ((fun '(cap, _) => (cap, len)) <$> mq_channel q) (mq_calls q).

Definition acquireMutationTurn (contextDone : bool) (q : mutation_queue) : mutation_call :=
  if contextDone then Refused ContextDone
  else match mq_channel q with
  | None => Refused UninitializedClient
  | Some (O, _) => Refused UnreadyQueue
  | Some _ => AwaitTurn
  end.

Definition queue_step (e : queue_event) (q : mutation_queue) : option mutation_queue :=
  match e with
  | QCall k opts =>
      match mq_calls q !! k with None => Some (set_call k (Entering opts) q) | Some _ => None end
  | QEnter k contextDone =>
      match mq_calls q !! k with
      | Some (Entering opts) =>
          Some (set_call k (if mutationOptionsFrom opts then Sending false
                            else acquireMutationTurn contextDone q) q)
      | _ => None
      end
  | QCancel k =>
      match mq_calls q !! k with
      | Some AwaitTurn => Some (set_call k (Refused ContextDone) q)
      | _ => None
      end
  | QTake k =>
      match mq_calls q !! k, mq_channel q with
      | Some AwaitTurn, Some (_, S len) => Some (set_call k (Sending true) (set_channel len q))
      | _, _ => None
      end
  | QReturn k =>
      match mq_calls q !! k, mq_channel q with
      | Some (Sending false), _ => Some (set_call k Answered q)
      | Some (Sending true), Some (cap, len) =>
          if (len <? cap)%nat then Some (set_call k Answered (set_channel (S len) q)) else None
      | _, _ => None
      end
  end.

Definition newMutationQueue : mutation_queue := mkMutationQueue newReadyMutationQueue ∅.

Inductive queue_runs : mutation_queue -> Prop :=
  | queue_runs_start : queue_runs newMutationQueue
  | queue_runs_step q e q' : queue_runs q -> queue_step e q = Some q' -> queue_runs q'.
