(* ===== verification/HttpTheorems.v ===== *)
(** * Properties of the HTTP client

    What a server that runs the functions answers is what the caller gets; a
    request is repeated at most once, and only with a new token; mutations wait
    for each other. *)
From S2P Require Import Prelude GoStrings GoJson Values ValueFacts ValueCodec Results GoEncode Canonical HttpClient.
Local Open Scope Z_scope.

(** ** Repeating a request *)

Definition refused (resp : http_response) : bool :=
  (rs_StatusCode resp =? StatusUnauthorized) || (rs_StatusCode resp =? StatusForbidden).

Lemma authHeader_used env force c :
  snd (authHeaderValue env force c) = bool_decide (is_Some (hc_authCallback c)).
Proof. unfold authHeaderValue. by destruct (hc_authCallback c). Qed.

Lemma doAuthenticated_cases Do env c endpoint body force h :
  (exists e, authHeaderValue env force c = (Err e, true) /\
     doAuthenticatedRequest Do env c endpoint body force h = (h, Err (TokenFetchFailed e))) \/
  (exists hdr, let used := bool_decide (is_Some (hc_authCallback c)) in
     let req := build_request c endpoint hdr body in
     authHeaderValue env force c = (Ok hdr, used) /\
     doAuthenticatedRequest Do env c endpoint body force h
     = (h ++ [req], match Do h req with Err e => Err (TransportFailed e) | Ok resp => Ok (resp, used) end)).
Proof.
  pose proof (authHeader_used env force c) as Hu. unfold doAuthenticatedRequest.
  destruct (authHeaderValue env force c) as [[hdr|e] used] eqn:Ha; cbn in Hu; subst used.
  - right. exists hdr. split; [done|]. by destruct (Do h _).
  - left. exists e. split; [|done]. unfold authHeaderValue in Ha.
    destruct (hc_authCallback c); [done|]. by destruct (decide _).
Qed.

(** C23. A request is repeated at most once.  All that is sent is the same request
    to the same address, the repetition with the token the callback gives when
    forced to refresh it; there is a repetition only when the token came from a
    callback and the server refused the first request; what the caller gets is
    the answer to the last request, and it is a refusal only when there is no
    callback or the new token was refused as well. *)
Theorem refused_request_repeated_once Do env c endpoint body h :
  exists sent, fst (doRequestWithAuthRetry Do env c endpoint body h) = h ++ sent /\
  (length sent <= 2)%nat /\
  (forall i req, sent !! i = Some req -> exists hdr,
     fst (authHeaderValue env (bool_decide (i = 1%nat)) c) = Ok hdr /\
     req = build_request c endpoint hdr body) /\
  (length sent = 2%nat -> is_Some (hc_authCallback c) /\
     exists req resp, sent !! 0%nat = Some req /\ Do h req = Ok resp /\ refused resp = true) /\
  (forall resp, snd (doRequestWithAuthRetry Do env c endpoint body h) = Ok resp ->
     exists before req, sent = before ++ [req] /\ Do (h ++ before) req = Ok resp /\
       (refused resp = true -> hc_authCallback c = None \/ length sent = 2%nat)).
Proof.
  unfold doRequestWithAuthRetry.
  destruct (doAuthenticated_cases Do env c endpoint body false h) as [(e & Ha & ->)|(hdr & Ha & ->)].
  { exists []. cbn. rewrite app_nil_r. split; [done|]. split; [lia|]. by split. }
  cbn zeta in *. set (req := build_request c endpoint hdr body) in *.
  assert (H1 : forall i r, [req] !! i = Some r -> exists hdr',
    fst (authHeaderValue env (bool_decide (i = 1%nat)) c) = Ok hdr' /\ r = build_request c endpoint hdr' body).
  { intros [|i] r Hi; [|done]. injection Hi as <-. exists hdr. rewrite bool_decide_false by done. by rewrite Ha. }
  destruct (Do h req) as [resp|e] eqn:Hd.
  2: { exists [req]. cbn. split; [done|]. split; [lia|]. by split. }
  destruct (bool_decide_reflect (is_Some (hc_authCallback c))) as [Hcb|Hcb]; cbn [negb orb].
  2: { exists [req]. cbn. split; [done|]. split; [lia|]. split; [done|]. split; [done|].
       intros r [= <-]. exists [], req. rewrite app_nil_r. split; [done|]. split; [done|]. left.
       by apply eq_None_not_Some. }
  destruct (negb (rs_StatusCode resp =? StatusUnauthorized) && negb (rs_StatusCode resp =? StatusForbidden)) eqn:Hst.
  { exists [req]. cbn. split; [done|]. split; [lia|]. split; [done|]. split; [done|].
    intros r [= <-]. exists [], req. rewrite app_nil_r. split; [done|]. split; [done|].
    unfold refused. rewrite <- negb_orb in Hst. apply negb_true_iff in Hst. congruence. }
  rewrite <- negb_orb in Hst. apply negb_false_iff in Hst.
  destruct (doAuthenticated_cases Do env c endpoint body true (h ++ [req])) as [(e & Ha' & ->)|(hdr' & Ha' & ->)].
  { exists [req]. cbn. split; [done|]. split; [lia|]. by split. }
  cbn zeta in *. set (req' := build_request c endpoint hdr' body) in *. exists [req; req']. cbn.
  rewrite <- app_assoc. split; [done|]. split; [lia|]. split.
  { intros [|[|i]] r Hi; [by apply (H1 0%nat)| |done]. injection Hi as <-. exists hdr'. rewrite bool_decide_true by done. by rewrite Ha'. }
  split; [intros _; split; [done|]; by exists req, resp|].
  intros r Hr. exists [req], req'. split; [done|].
  destruct (Do (h ++ [req]) req') as [resp'|e]; [|discriminate]. injection Hr as <-. split; [done|]. by right.
Qed.

(** ** Reading the answer *)

(** The members of a document that are read into a field. *)
Definition members_of (field : string) (ms : list (string * json)) : list json :=
  omap (fun m => if decide (struct_field functionResponse_fields (fst m) = Some field)
                 then Some (snd m) else None) ms.

Lemma members_cons field m ms :
  members_of field (m :: ms)
  = (if decide (struct_field functionResponse_fields (fst m) = Some field) then [snd m] else [])
    ++ members_of field ms.
Proof. unfold members_of. cbn [omap list_omap]. by destruct (decide _). Qed.

(** What a field holds after its member, if it has one. *)
Definition field_value {A : Type} (read : json -> A -> option A) (js : list json) (old : A) : option A :=
  match js with [] => Some old | [j] => read j old | _ => None end.

Lemma struct_field_known key f : struct_field functionResponse_fields key = Some f -> f ∈ functionResponse_fields.
Proof.
  unfold struct_field. destruct (decide _) as [Hin|_]; [by intros [= <-]|].
  intros [H _]%find_some. by apply list_elem_of_In.
Qed.

Lemma field_value_cons {A : Type} (read : json -> A -> option A) j js old v :
  field_value read (j :: js) old = Some v -> read j old = Some v /\ js = [].
Proof. by destruct js. Qed.

Definition raw_field (j : json) (_ : option json) : option (option json) := Some (Some j).
Definition logs_field (j : json) (_ : list string) : option (list string) := strings_field j.

(** A document in which every field has at most one member is read field by
    field, in whatever order the members come. *)
Lemma set_members ms : forall r s v m d l,
  field_value string_field (members_of "status" ms) (rp_Status r) = Some s ->
  field_value raw_field (members_of "value" ms) (rp_Value r) = Some v ->
  field_value string_field (members_of "errorMessage" ms) (rp_ErrorMessage r) = Some m ->
  field_value raw_field (members_of "errorData" ms) (rp_ErrorData r) = Some d ->
  field_value logs_field (members_of "logLines" ms) (rp_LogLines r) = Some l ->
  foldl (fun acc m => r ← acc; set_member r m) (Some r) ms = Some (mkFunctionResponse s v m d l).
Proof.
  induction ms as [|[k j] ms IH]; intros r s v m d l; destruct r as [s0 v0 m0 d0 l0].
  { cbn. by intros [= <-] [= <-] [= <-] [= <-] [= <-]. }
  rewrite !members_cons. cbn [fst snd foldl mbind option_bind].
  destruct (struct_field functionResponse_fields k) as [f|] eqn:Hf.
  - pose proof (struct_field_known k f Hf) as Hin. unfold functionResponse_fields in Hin.
    rewrite !elem_of_cons, elem_of_nil in Hin.
    destruct Hin as [->|[->|[->|[->|[->|[]]]]]]; cbn [rp_Status rp_Value rp_ErrorMessage rp_ErrorData rp_LogLines];
      repeat first [rewrite decide_True by done|rewrite decide_False by done]; cbn [app];
      intros H1 H2 H3 H4 H5;
      match goal with
      | H : field_value _ (_ :: _) _ = Some _ |- _ =>
          let E := fresh "E" in apply field_value_cons in H as [H E];
          unfold raw_field, logs_field in H; cbn [set_member fst snd]; rewrite Hf, ?H;
          try (injection H as <-); cbn [mbind option_bind]; apply IH;
          cbn [rp_Status rp_Value rp_ErrorMessage rp_ErrorData rp_LogLines]; by rewrite ?E
      end.
  - do 5 (destruct (decide _) as [Hc|_]; [discriminate Hc|]). cbn [app set_member fst]. rewrite Hf. intros. by apply IH.
Qed.

(** ** Calling a server *)

(** What a function does: it returns, or throws an error with a message, data if
    the error is an application's, and the lines it has logged. *)
Inductive outcome : Type :=
  | Returned (v : Value)
  | Thrown (message : string) (data : option Value) (logs : list string).
Definition sendable (v : Value) : Prop := wf_value v = true /\ utf8_value v = true.
Definition sendable_outcome (o : outcome) : Prop :=
  match o with Returned v => sendable v | Thrown _ data _ => from_option sendable True data end.

(** The request for a function: which one, with what arguments, and for a query
    possibly at which time. *)
Definition request_for (address kind : string) (ts : option string) (path : string) (args : Value)
    (req : http_request) : Prop :=
  rq_Method req = "POST" /\
  match ts with
  | None => rq_URL req = address +:+ "/api/" +:+ kind
  | Some _ => kind = QueryKind /\ rq_URL req = address +:+ "/api/query_at_ts"
  end /\
  exists m a, rq_Body req = Some (JObj m) /\ m !! "path" = Some (JStr path) /\
    m !! "format" = Some (JStr "convex_encoded_json") /\ m !! "ts" = JStr <$> ts /\
    m !! "args" = Some (JArr [a]) /\ ParseValueJSON a = Ok args.

(** The answer that reports an outcome: the members it needs, in any order, and
    any others. *)
Definition reports (o : outcome) (resp : http_response) : Prop :=
  (is_success (rs_StatusCode resp) = true \/ rs_StatusCode resp = statusCodeUDFFailed) /\
  exists text ms, rs_Body resp = Ok (mkBody text (Some (DObject ms))) /\
  match o with
  | Returned v =>
      members_of "status" ms = [JStr "success"] /\
      (exists j, MarshalValue v = Ok j /\ members_of "value" ms = [j]) /\
      members_of "errorMessage" ms = [] /\ members_of "errorData" ms = [] /\
      exists l, members_of "logLines" ms = [JArr (JStr <$> l)]
  | Thrown message data l =>
      members_of "status" ms = [JStr "error"] /\ members_of "value" ms = [] /\
      members_of "errorMessage" ms = [JStr message] /\
      match data with
      | None => members_of "errorData" ms = []
      | Some d => exists j, MarshalValue d = Ok j /\ members_of "errorData" ms = [j]
      end /\
      members_of "logLines" ms = [JArr (JStr <$> l)]
  end.

(** What the caller gets for an outcome. *)
Definition caller_gets (kind path : string) (o : outcome) (r : result http_error Value) : Prop :=
  match o with
  | Returned v => r = Ok v
  | Thrown message data logs =>
      exists status text, r = Err (FunctionFailed
        (mkFunctionError kind path message (from_option GoValue GNil data) (default VNull data)
           ((fun d => mkConvexError message d) <$> data) (bool_decide (is_Some data)) logs status text))
  end.

Lemma strings_field_logs l : strings_field (JArr (JStr <$> l)) = Some l.
Proof. cbn. induction l as [|s l IH]; [done|]. cbn in *. by rewrite IH. Qed.

Lemma report_read kind path o resp :
  sendable_outcome o -> reports o resp -> caller_gets kind path o (readFunctionResponse kind path resp).
Proof.
  intros Ho (Hst & text & ms & Hb & Hms). unfold readFunctionResponse. rewrite Hb. cbn [map_err mbind].
  assert (Hgate : negb (is_success (rs_StatusCode resp)) && negb (rs_StatusCode resp =? statusCodeUDFFailed) = false).
  { destruct Hst as [->| ->]; [done|]. by rewrite andb_comm. }
  cbn. rewrite Hgate. unfold decode_functionResponse, unmarshal_struct. cbn [bd_document bd_text].
  destruct o as [v|message data l].
  - destruct Hms as (H1 & (j & Hj & H2) & H3 & H4 & l & H5). destruct Ho as [Hwf Hutf].
    destruct (value_json_roundtrip v Hwf Hutf) as (j' & Hj' & Hp). rewrite Hj in Hj'. injection Hj' as <-.
    rewrite (set_members ms _ "success" (Some j) "" None l); rewrite ?H1, ?H2, ?H3, ?H4, ?H5; try done.
    + cbn. by rewrite Hp.
    + apply strings_field_logs.
  - destruct Hms as (H1 & H2 & H3 & H4 & H5). destruct data as [d|]; cbn [from_option sendable_outcome] in Ho.
    + destruct H4 as (j & Hj & H4). destruct Ho as [Hwf Hutf].
      destruct (value_json_roundtrip d Hwf Hutf) as (j' & Hj' & Hp). rewrite Hj in Hj'. injection Hj' as <-.
      rewrite (set_members ms _ "error" None message (Some j) l); rewrite ?H1, ?H2, ?H3, ?H4, ?H5; try done.
      * cbn. rewrite Hp. cbn. by eexists _, _.
      * apply strings_field_logs.
    + rewrite (set_members ms _ "error" None message None l); rewrite ?H1, ?H2, ?H3, ?H4, ?H5; try done.
      * cbn. by eexists _, _.
      * apply strings_field_logs.
Qed.

Lemma payload_marshal path w data :
  marshal w = Ok data ->
  map_traverse (fun _ x => marshal x)
    {["path" := WStr path; "format" := WStr "convex_encoded_json"; "args" := WArr [w]]}
  = Ok {["path" := JStr (coerce_utf8 path); "format" := JStr "convex_encoded_json"; "args" := JArr [data]]}.
Proof.
  intros Hw. apply map_traverse_insert; [done|]. apply map_traverse_insert; [done|].
  rewrite map_traverse_singleton. cbn. by rewrite Hw.
Qed.

Section server.
Context (Do : list http_request -> http_request -> result string http_response).
Context (env : token_environment) (c : HTTPClient).

(** A request that gets an answer other than a refusal is sent once. *)
Lemma answered_once endpoint body h hdr resp :
  fst (authHeaderValue env false c) = Ok hdr ->
  Do h (build_request c endpoint hdr body) = Ok resp -> refused resp = false ->
  doRequestWithAuthRetry Do env c endpoint body h = (h ++ [build_request c endpoint hdr body], Ok resp).
Proof.
  intros Ha Hd Hr. unfold doRequestWithAuthRetry.
  destruct (doAuthenticated_cases Do env c endpoint body false h) as [(e & He & _)|(hdr' & He & ->)];
    rewrite He in Ha; [done|]. injection Ha as ->. cbn zeta. rewrite Hd.
  unfold refused in Hr. rewrite <- negb_orb, Hr. by rewrite orb_true_r.
Qed.

Lemma report_not_refused o resp : reports o resp -> refused resp = false.
Proof.
  intros [[Hs| Hs] _]; unfold refused, is_success, StatusUnauthorized, StatusForbidden, statusCodeUDFFailed in *; lia.
Qed.

(** The server answers every request for a function with what the function does. *)
Context (run : string -> option string -> string -> Value -> outcome).
Context (run_ok : forall kind ts path v, sendable_outcome (run kind ts path v)).
Context (server : forall h req kind ts path v,
  request_for (hc_address c) kind ts path v req ->
  exists resp, Do h req = Ok resp /\ reports (run kind ts path v) resp).

Lemma request_served kind path endpoint body ts path' v h hdr :
  fst (authHeaderValue env false c) = Ok hdr ->
  request_for (hc_address c) kind ts path' v (build_request c endpoint hdr (Some body)) ->
  exists req r, doFunctionRequest Do env c kind path endpoint body h = (h ++ [req], r) /\
    request_for (hc_address c) kind ts path' v req /\ caller_gets kind path (run kind ts path' v) r.
Proof.
  intros Ha Hreq. destruct (server h _ _ _ _ _ Hreq) as (resp & Hd & Hrep).
  unfold doFunctionRequest.
  rewrite (answered_once endpoint (Some body) h hdr resp Ha Hd (report_not_refused _ _ Hrep)).
  eexists _, _. split; [done|]. split; [done|]. by apply report_read.
Qed.

(** C8. A call does what the function does.  The server gets one request for the
    function, whose arguments it reads as the value the realtime client would
    send for the same Go arguments, and the caller gets the value the function
    returns, or an error with the message, the data and the log lines of the one
    it throws; so for queries, mutations and actions, and for queries at a
    timestamp. *)
Theorem calls_run_functions path args v hdr h :
  fst (authHeaderValue env false c) = Ok hdr ->
  trim_space path <> "" -> syncQueryArgValue args = Ok v ->
  (forall kind, exists req r, call Do env c kind path args "" h = (h ++ [req], r) /\
     request_for (hc_address c) kind None (coerce_utf8 path) v req /\
     caller_gets kind path (run kind None (coerce_utf8 path) v) r) /\
  (forall ts, trim_space ts <> "" ->
     exists req r, QueryAtTimestamp Do env c path args ts h = (h ++ [req], r) /\
     request_for (hc_address c) QueryKind (Some (coerce_utf8 ts)) (coerce_utf8 path) v req /\
     caller_gets QueryKind path (run QueryKind (Some (coerce_utf8 ts)) (coerce_utf8 path) v) r).
Proof.
  intros Hauth Hp Hv. unfold syncQueryArgValue, valueFromWireJSON in Hv.
  apply bind_Ok in Hv as (w & Hw & Hv). apply bind_Ok in Hv as (data & Hdata%map_err_Ok & Hv).
  pose proof (payload_marshal path w data Hdata) as Hpl.
  assert (Hprep : prepare_call path args = Ok w)
    by (unfold prepare_call; rewrite decide_False by done; by rewrite Hw).
  split.
  - intros kind. unfold call. rewrite Hprep. cbn [mbind result_bind marshal]. rewrite Hpl.
    unfold mret, result_ret. cbn [map_err mbind result_bind]. rewrite andb_false_r.
    apply (request_served kind path _ _ None (coerce_utf8 path) v h hdr Hauth).
    split; [reflexivity|]. split; [reflexivity|]. eexists _, data. split; [reflexivity|].
    split; [reflexivity|]. split; [reflexivity|]. split; [reflexivity|]. split; [reflexivity|exact Hv].
  - intros ts Hts. unfold QueryAtTimestamp, call. rewrite decide_False by done. rewrite Hprep.
    cbn [mbind result_bind marshal]. rewrite Hpl.
    rewrite (map_traverse_insert _ "ts" (WStr ts) (JStr (coerce_utf8 ts)) _ _ eq_refl Hpl).
    unfold mret, result_ret. cbn [map_err mbind result_bind].
    rewrite bool_decide_true by done. rewrite bool_decide_false by (intros ->; by apply Hts).
    cbn [andb negb].
    apply (request_served QueryKind path _ _ (Some (coerce_utf8 ts)) (coerce_utf8 path) v h hdr Hauth).
    split; [reflexivity|]. split; [split; reflexivity|]. eexists _, data. split; [reflexivity|].
    split; [reflexivity|]. split; [reflexivity|]. split; [reflexivity|]. split; [reflexivity|exact Hv].
Qed.
End server.

(** A server with two functions, one of which throws. *)
Definition sample_run (kind : string) (ts : option string) (path : string) (args : Value) : outcome :=
  if decide (path = "math:fail") then Thrown "division by zero" (Some (VInt64 3)) ["dividing"]
  else Returned (VInt64 7).
Definition value_document (v : Value) : json := match MarshalValue v with Ok j => j | Err _ => JNull end.
Definition sample_answer (path : string) : http_response :=
  if decide (path = "math:fail") then
    mkResponse 560 (Ok (mkBody "failed" (Some (DObject
      [("logLines", JArr [JStr "dividing"]); ("Status", JStr "error"); ("errorMessage", JStr "division by zero");
       ("errorData", value_document (VInt64 3))]))))
  else
    mkResponse 200 (Ok (mkBody "done" (Some (DObject
      [("value", value_document (VInt64 7)); ("logLines", JArr []); ("time", JNull); ("status", JStr "success")])))).
Definition sample_transport (h : list http_request) (req : http_request) : result string http_response :=
  match rq_Body req with
  | Some (JObj m) => match m !! "path" with Some (JStr path) => Ok (sample_answer path) | _ => Err "bad request" end
  | _ => Err "bad request"
  end.
Definition sample_http : HTTPClient := mkHTTPClient "https://a.convex.cloud" "go-0.1.0" false "t" "" None.
Definition no_tokens : token_environment := fun _ _ => Err "no callback".

Lemma sample_run_ok kind ts path v : sendable_outcome (sample_run kind ts path v).
Proof. unfold sample_run. by destruct (decide _). Qed.

Lemma sample_server h req kind ts path v :
  request_for "https://a.convex.cloud" kind ts path v req ->
  exists resp, sample_transport h req = Ok resp /\ reports (sample_run kind ts path v) resp.
Proof.
  intros (_ & _ & m & a & Hb & Hp & _). exists (sample_answer path). unfold sample_transport.
  rewrite Hb, Hp. split; [done|]. unfold sample_answer, sample_run. destruct (decide _).
  - split; [by right|]. eexists _, _. split; [done|]. by eauto 10.
  - split; [by left|]. eexists _, _. split; [done|]. split; [done|]. split; [by eauto|].
    split; [done|]. split; [done|]. by exists [].
Qed.

Lemma calls_run_functions_witness :
  snd (call sample_transport no_tokens sample_http QueryKind "math:div" GNil "" []) = Ok (VInt64 7) /\
  exists status text,
    snd (call sample_transport no_tokens sample_http MutationKind "math:fail" GNil "" [])
    = Err (FunctionFailed (mkFunctionError MutationKind "math:fail" "division by zero" (GInt64 3) (VInt64 3)
        (Some (mkConvexError "division by zero" (VInt64 3))) true ["dividing"] status text)).
Proof.
  split.
  - destruct (calls_run_functions sample_transport no_tokens sample_http sample_run sample_run_ok sample_server
      "math:div" GNil (VObject ∅) "Bearer t" [] eq_refl ltac:(discriminate) eq_refl) as [H _].
    destruct (H QueryKind) as (req & r & Hc & _ & Hr). rewrite Hc. exact Hr.
  - destruct (calls_run_functions sample_transport no_tokens sample_http sample_run sample_run_ok sample_server
      "math:fail" GNil (VObject ∅) "Bearer t" [] eq_refl ltac:(discriminate) eq_refl) as [H _].
    destruct (H MutationKind) as (req & r & Hc & _ & Hr). rewrite Hc. exact Hr.
Defined.

(** ** Mutations take turns *)

Abbreviation holds_turn q k := (mq_calls q !! k = Some (Sending true)).

(** The turn is in the channel, or with one call. *)
Inductive turn_inv (q : mutation_queue) : Prop :=
  | turn_free : mq_channel q = Some (1, 1)%nat -> (forall k, ~ holds_turn q k) -> turn_inv q
  | turn_taken k : mq_channel q = Some (1, 0)%nat -> holds_turn q k ->
      (forall k', holds_turn q k' -> k' = k) -> turn_inv q.

(** A call that neither has the turn nor takes it moves on. *)
Lemma turn_other q k s t :
  turn_inv q -> mq_calls q !! k = s -> s <> Some (Sending true) -> t <> Sending true ->
  turn_inv (set_call k t q).
Proof.
  intros H Hk Hs Ht.
  assert (Hsame : forall k', holds_turn (set_call k t q) k' <-> holds_turn q k').
  { intros k'. cbn. rewrite lookup_insert. case_decide; subst; split; congruence. }
  destruct H as [Hc Hn|k' Hc Hk' Hu].
  - apply turn_free; [done|]. intros k'. rewrite Hsame. apply Hn.
  - apply (turn_taken _ k'); [done|by apply Hsame|]. intros k''. rewrite Hsame. apply Hu.
Qed.

Lemma queue_step_inv e q q' : queue_step e q = Some q' -> turn_inv q -> turn_inv q'.
Proof.
  intros Hs H. destruct e as [k opts|k done|k|k|k]; cbn [queue_step] in Hs.
  - destruct (mq_calls q !! k) eqn:Hk; [discriminate|]. injection Hs as <-. by eapply turn_other.
  - destruct (mq_calls q !! k) as [[opts| | | |]|] eqn:Hk; try discriminate Hs. injection Hs as <-.
    eapply turn_other; [done|exact Hk|done|]. destruct (mutationOptionsFrom opts); [done|].
    unfold acquireMutationTurn. destruct done; [done|]. by destruct (mq_channel q) as [[[|?] ?]|].
  - destruct (mq_calls q !! k) as [[]|] eqn:Hk; try discriminate Hs. injection Hs as <-.
    by eapply turn_other.
  - destruct (mq_calls q !! k) as [[]|] eqn:Hk; try discriminate Hs.
    destruct H as [Hc Hn|k' Hc Hk' Hu]; rewrite Hc in Hs; [|discriminate]. injection Hs as <-.
    apply (turn_taken _ k); cbn.
    + by rewrite Hc.
    + by rewrite lookup_insert_eq.
    + intros k'. rewrite lookup_insert. case_decide; [done|]. intros Hk'. by destruct (Hn k').
  - destruct (mq_calls q !! k) as [[| |[]| |]|] eqn:Hk; try discriminate Hs.
    + destruct H as [Hc Hn|k' Hc Hk' Hu]; [by destruct (Hn k)|]. rewrite Hc in Hs. injection Hs as <-.
      apply turn_free; cbn; [by rewrite Hc|]. intros k''. rewrite lookup_insert. case_decide; [done|].
      intros Hk''. rewrite (Hu k) in * by done. by specialize (Hu k'' Hk'').
    + injection Hs as <-. by eapply turn_other.
Qed.

Lemma queue_runs_inv q : queue_runs q -> turn_inv q.
Proof.
  induction 1 as [|q e q' _ IH Hs]; [|by eapply queue_step_inv].
  apply turn_free; [done|]. intros k. cbn. by rewrite lookup_empty.
Qed.

(** C24. Mutations that do not skip the queue are sent one at a time, and the
    queue never jams: a call that sends a request has returned as soon as the
    request is answered, for putting the turn back never blocks, and a call that
    waits can go on at once when no other has the turn. *)
Theorem mutations_take_turns q :
  queue_runs q ->
  (forall k k', holds_turn q k -> holds_turn q k' -> k = k') /\
  (forall k b, mq_calls q !! k = Some (Sending b) -> is_Some (queue_step (QReturn k) q)) /\
  (forall k, mq_calls q !! k = Some AwaitTurn ->
     is_Some (queue_step (QTake k) q) \/ exists k', holds_turn q k' /\ is_Some (queue_step (QReturn k') q)).
Proof.
  intros Hr%queue_runs_inv.
  assert (Hret : forall k b, mq_calls q !! k = Some (Sending b) -> is_Some (queue_step (QReturn k) q)).
  { intros k [] Hk; cbn; rewrite Hk; [|by eexists].
    destruct Hr as [_ Hn|k' Hc _ _]; [by destruct (Hn k)|]. rewrite Hc. by eexists. }
  split; [|split; [done|]].
  - intros k k' Hk Hk'. destruct Hr as [_ Hn|k0 _ _ Hu]; [by destruct (Hn k)|].
    by rewrite (Hu k Hk), (Hu k' Hk').
  - intros k Hk. destruct Hr as [Hc _|k' _ Hk' _].
    + left. cbn. rewrite Hk, Hc. by eexists.
    + right. exists k'. split; [done|]. by eapply Hret.
Qed.

(** Two mutations that wait for each other, and one that skips the queue. *)
Fixpoint queue_play (es : list queue_event) (q : mutation_queue) : option mutation_queue :=
  match es with [] => Some q | e :: rest => queue_step e q ≫= queue_play rest end.
Definition queue_schedule : list queue_event :=
    [QCall 0 []; QCall 1 [NilMutationOption]; QCall 2 [WithSkipMutationQueue]; QEnter 0 false; QEnter 1 false;
     QEnter 2 false; QTake 1].
Definition sample_queue : mutation_queue := default newMutationQueue (queue_play queue_schedule newMutationQueue).

Lemma queue_play_runs es q q' : queue_runs q -> queue_play es q = Some q' -> queue_runs q'.
Proof.
  revert q. induction es as [|e es IH]; intros q Hr Hp; cbn in Hp; [by injection Hp as <-|].
  destruct (queue_step e q) as [q1|] eqn:Hs; [|done]. by apply (IH q1); [eapply queue_runs_step|].
Qed.

Lemma mutations_take_turns_witness :
  holds_turn sample_queue 1%nat /\ (forall k, holds_turn sample_queue k -> k = 1%nat) /\
  is_Some (queue_step (QReturn 1) sample_queue).
Proof.
  assert (Hr : queue_runs sample_queue).
  { apply (queue_play_runs queue_schedule newMutationQueue); [exact queue_runs_start|]. vm_compute. reflexivity. }
  destruct (mutations_take_turns sample_queue Hr) as (H1 & H2 & _).
  assert (Hk : holds_turn sample_queue 1%nat) by (vm_compute; reflexivity).
  split; [exact Hk|]. split; [intros k H; exact (H1 k _ H Hk)|exact (H2 1%nat true Hk)].
Defined.
