(* ===== verification/GoUnicode.v ===== *)
(** * Runes

    Packages unicode and unicode/utf8, as far as the code generator uses them: the runes of
    a string and the encoding of a rune.  The classes of runes are tables of the Go
    library and so a parameter, [Unicode]; [UnicodeLaws] is what the generator
    relies on. *)
From S2P Require Import Prelude GoStrings GoJson.
From Stdlib Require Import Ascii.
Local Open Scope Z_scope.

(** ** Decoding and encoding *)

Definition RuneError : Z := 65533.

(** The runes of a string as [range] yields them, each with the bytes it comes from; a byte
    that starts no rune is a [RuneError]. *)
Fixpoint runes (s : string) : list (Z * string) :=
  match s with
  | "" => []
  | String c0 r0 =>
      if code c0 <? 128 then (code c0, String c0 "") :: runes r0
      else match r0 with
      | "" => [(RuneError, String c0 "")]
      | String c1 r1 =>
          if byte_in 194 223 c0 && cont_byte c1
          then ((code c0 - 192) * 64 + (code c1 - 128), String c0 (String c1 "")) :: runes r1
          else match r1 with
          | "" => (RuneError, String c0 "") :: runes r0
          | String c2 r2 =>
              if second3 c0 c1 && cont_byte c2
              then ((code c0 - 224) * 4096 + (code c1 - 128) * 64 + (code c2 - 128),
                    String c0 (String c1 (String c2 ""))) :: runes r2
              else match r2 with
              | "" => (RuneError, String c0 "") :: runes r0
              | String c3 r3 =>
                  if second4 c0 c1 && cont_byte c2 && cont_byte c3
                  then ((code c0 - 240) * 262144 + (code c1 - 128) * 4096 + (code c2 - 128) * 64 + (code c3 - 128),
                        String c0 (String c1 (String c2 (String c3 "")))) :: runes r3
                  else (RuneError, String c0 "") :: runes r0
              end
          end
      end
  end.

(** [utf8.DecodeRuneInString]: the rune and its size. *)
Definition decode_rune (s : string) : Z * nat :=
  match runes s with
  | [] => (RuneError, O)
  | (r, b) :: _ => (r, String.length b)
  end.

(** A Unicode scalar value. *)
Definition valid_rune (r : Z) : bool := (0 <=? r) && (r <? 55296) || (57344 <=? r) && (r <? 1114112).

(** [string(r)]. *)
Definition encode_rune (r : Z) : string :=
  if negb (valid_rune r) then replacement
  else if r <? 128 then bytes_str [r]
  else if r <? 2048 then bytes_str [192 + r / 64; 128 + r mod 64]
  else if r <? 65536 then bytes_str [224 + r / 4096; 128 + r / 64 mod 64; 128 + r mod 64]
  else bytes_str [240 + r / 262144; 128 + r / 4096 mod 64; 128 + r / 64 mod 64; 128 + r mod 64].

(** ** Classes of runes *)

Class Unicode : Type := {
  IsLetter : Z -> bool;
  IsDigit : Z -> bool;
  ToUpper : Z -> Z
}.
Class UnicodeLaws `{Unicode} : Prop := {
  letter_valid r : IsLetter r = true -> valid_rune r = true /\ r <> RuneError;
  digit_valid r : IsDigit r = true -> valid_rune r = true /\ r <> RuneError;
  letter_upper r : IsLetter r = true -> IsLetter (ToUpper r) = true;
  upper_not_lower r : IsLetter r = true -> ~ 97 <= ToUpper r <= 122;
  ascii_letter r : 0 <= r < 128 -> IsLetter r = (65 <=? r) && (r <=? 90) || (97 <=? r) && (r <=? 122);
  ascii_digit r : 0 <= r < 128 -> IsDigit r = (48 <=? r) && (r <=? 57)
}.

(** The tables without what lies beyond ASCII. *)
#[export] Instance ascii_unicode : Unicode := {
  IsLetter r := (65 <=? r) && (r <=? 90) || (97 <=? r) && (r <=? 122);
  IsDigit r := (48 <=? r) && (r <=? 57);
  ToUpper r := if (97 <=? r) && (r <=? 122) then r - 32 else r
}.
#[export] Instance ascii_laws : UnicodeLaws.
Proof.
  assert (Hr : forall r, 48 <= r <= 122 -> valid_rune r = true /\ r <> RuneError).
  { intros r Hr. unfold valid_rune, RuneError. split; [|lia]. apply orb_true_iff. left. lia. }
  split; cbn; try done.
  - intros r Hl. apply Hr. lia.
  - intros r Hd. apply Hr. lia.
  - intros r Hl. destruct ((97 <=? r) && (r <=? 122)) eqn:E; lia.
  - intros r Hl. destruct ((97 <=? r) && (r <=? 122)) eqn:E; lia.
Qed.

(** ** Facts *)

#[local] Arguments String.append !_ _ /.


Lemma runes_text s : foldr String.append "" (map snd (runes s)) = s.
Proof.
  remember (String.length s) as n eqn:Hn. revert s Hn. induction n as [n IH] using lt_wf_ind. intros s ->.
  destruct s as [|c0 r0]; [done|]. cbn [runes].
  assert (H1 : foldr String.append "" (map snd (runes r0)) = r0) by (apply (IH (String.length r0)); cbn; lia).
  destruct (code c0 <? 128); [cbn [map foldr fst snd String.append]; by rewrite H1|]. destruct r0 as [|c1 r1]; [done|].
  destruct (byte_in 194 223 c0 && cont_byte c1); [cbn [map foldr fst snd String.append]; by rewrite (IH (String.length r1)) by (cbn; lia)|].
  destruct r1 as [|c2 r2]; [cbn [map foldr fst snd String.append]; by rewrite H1|].
  destruct (second3 c0 c1 && cont_byte c2); [cbn [map foldr fst snd String.append]; by rewrite (IH (String.length r2)) by (cbn; lia)|].
  destruct r2 as [|c3 r3]; [cbn [map foldr fst snd String.append]; by rewrite H1|].
  destruct (second4 c0 c1 && cont_byte c2 && cont_byte c3); [cbn [map foldr fst snd String.append]; by rewrite (IH (String.length r3)) by (cbn; lia)|].
  cbn [map foldr fst snd String.append]. by rewrite H1.
Qed.

Ltac byte_bounds H :=
  unfold second3, second4, cont_byte, byte_in in H; rewrite ?andb_true_iff, ?orb_true_iff, ?Z.leb_le, ?Z.eqb_eq in H.
Ltac euclid := Z.to_euclidean_division_equations; lia.

(** Each length of an encoding, as the bytes that make it up. *)
Lemma runes_1 c t : 0 <= code c < 128 -> runes (String c t) = (code c, String c "") :: runes t.
Proof. intros Hc. cbn [runes]. by rewrite (proj2 (Z.ltb_lt _ _)) by lia. Qed.
Lemma runes_2 c0 c1 t :
  byte_in 194 223 c0 && cont_byte c1 = true ->
  runes (String c0 (String c1 t)) =
  ((code c0 - 192) * 64 + (code c1 - 128), String c0 (String c1 "")) :: runes t.
Proof.
  intros Hb. cbn [runes]. rewrite Hb. unfold byte_in in Hb.
  by rewrite (proj2 (Z.ltb_ge _ _)) by lia.
Qed.
Lemma not_two c0 c1 : 224 <= code c0 -> byte_in 194 223 c0 && cont_byte c1 = false.
Proof. intros Hc. unfold byte_in. lia. Qed.
Lemma runes_3 c0 c1 c2 t :
  second3 c0 c1 && cont_byte c2 = true ->
  runes (String c0 (String c1 (String c2 t))) =
  ((code c0 - 224) * 4096 + (code c1 - 128) * 64 + (code c2 - 128), String c0 (String c1 (String c2 ""))) :: runes t.
Proof.
  intros Hb. assert (224 <= code c0 <= 239) by (byte_bounds Hb; lia).
  cbn [runes]. destruct (Z.ltb_spec (code c0) 128); [lia|]. by rewrite Hb, not_two by lia.
Qed.
Lemma not_three c0 c1 c2 : 240 <= code c0 -> second3 c0 c1 && cont_byte c2 = false.
Proof. intros Hc. unfold second3, cont_byte, byte_in. lia. Qed.
Lemma runes_4 c0 c1 c2 c3 t :
  second4 c0 c1 && cont_byte c2 && cont_byte c3 = true ->
  runes (String c0 (String c1 (String c2 (String c3 t)))) =
  ((code c0 - 240) * 262144 + (code c1 - 128) * 4096 + (code c2 - 128) * 64 + (code c3 - 128),
   String c0 (String c1 (String c2 (String c3 "")))) :: runes t.
Proof.
  intros Hb. assert (240 <= code c0 <= 244) by (byte_bounds Hb; lia).
  cbn [runes]. destruct (Z.ltb_spec (code c0) 128); [lia|]. by rewrite Hb, not_three, not_two by lia.
Qed.

(** The bytes of a rune are decoded to it, whatever follows. *)
Lemma runes_encode r t : valid_rune r = true -> runes (encode_rune r +:+ t) = (r, encode_rune r) :: runes t.
Proof.
  intros Hv. unfold encode_rune. rewrite Hv. cbn [negb]. unfold valid_rune in Hv.
  destruct (r <? 128) eqn:E1.
  { unfold bytes_str. cbn [foldr String.append]. rewrite runes_1; rewrite code_chr; done || lia. }
  destruct (r <? 2048) eqn:E2.
  { unfold bytes_str. cbn [foldr String.append].
    assert (0 <= r / 64 < 32 /\ 2 <= r / 64 /\ 0 <= r mod 64 < 64) by euclid.
    rewrite runes_2 by (unfold cont_byte, byte_in; rewrite !code_chr by lia; lia).
    rewrite !code_chr by lia. do 2 f_equal. euclid. }
  destruct (r <? 65536) eqn:E3; unfold bytes_str; cbn [foldr String.append].
  - assert (0 <= r / 4096 < 16 /\ 0 <= r / 64 mod 64 < 64 /\ 0 <= r mod 64 < 64) by euclid.
    rewrite runes_3.
    + rewrite !code_chr by lia. do 2 f_equal. euclid.
    + unfold second3, cont_byte, byte_in. rewrite !code_chr by lia. euclid.
  - assert (0 <= r / 262144 < 5 /\ 0 <= r / 4096 mod 64 < 64 /\ 0 <= r / 64 mod 64 < 64 /\ 0 <= r mod 64 < 64) by euclid.
    rewrite runes_4.
    + rewrite !code_chr by lia. do 2 f_equal. euclid.
    + unfold second4, cont_byte, byte_in. rewrite !code_chr by lia. euclid.
Qed.

(** Every rune but [RuneError] is valid and comes from its encoding. *)
Definition true_rune (x : Z * string) : Prop := valid_rune (fst x) = true /\ snd x = encode_rune (fst x).

Lemma true_rune_intro r b : valid_rune r = true -> encode_rune r = b -> true_rune (r, b).
Proof. by intros ? <-. Qed.

Lemma true_rune_1 c : 0 <= code c < 128 -> true_rune (code c, String c "").
Proof.
  intros Hc. assert (Hv : valid_rune (code c) = true) by (unfold valid_rune; lia).
  apply true_rune_intro; [done|]. unfold encode_rune. rewrite Hv. cbn [negb].
  destruct (Z.ltb_spec (code c) 128); [|lia]. unfold bytes_str. cbn. by rewrite chr_code.
Qed.
Lemma true_rune_2 c0 c1 :
  byte_in 194 223 c0 && cont_byte c1 = true ->
  true_rune ((code c0 - 192) * 64 + (code c1 - 128), String c0 (String c1 "")).
Proof.
  intros Hb. byte_bounds Hb. set (r := _ + _). assert (128 <= r < 2048) by lia.
  assert (Hv : valid_rune r = true) by (unfold valid_rune; lia).
  apply true_rune_intro; [done|]. unfold encode_rune. rewrite Hv. cbn [negb].
  destruct (Z.ltb_spec r 128); [lia|]. destruct (Z.ltb_spec r 2048); [|lia]. unfold bytes_str. cbn [foldr].
  assert (192 + r / 64 = code c0 /\ 128 + r mod 64 = code c1) as [-> ->] by (unfold r; split; euclid).
  by rewrite !chr_code.
Qed.
Lemma true_rune_3 c0 c1 c2 :
  second3 c0 c1 && cont_byte c2 = true ->
  true_rune ((code c0 - 224) * 4096 + (code c1 - 128) * 64 + (code c2 - 128), String c0 (String c1 (String c2 ""))).
Proof.
  intros Hb. byte_bounds Hb. set (r := _ + _ + _). assert (2048 <= r < 65536) by lia.
  assert (Hv : valid_rune r = true).
  { unfold valid_rune. apply orb_true_iff. rewrite !andb_true_iff, !Z.leb_le, !Z.ltb_lt. lia. }
  apply true_rune_intro; [done|]. unfold encode_rune. rewrite Hv. cbn [negb].
  destruct (Z.ltb_spec r 128); [lia|]. destruct (Z.ltb_spec r 2048); [lia|].
  destruct (Z.ltb_spec r 65536); [|lia]. unfold bytes_str. cbn [foldr].
  assert (224 + r / 4096 = code c0 /\ 128 + r / 64 mod 64 = code c1 /\ 128 + r mod 64 = code c2) as (-> & -> & ->)
    by (clear Hv; unfold r; split_and!; euclid).
  by rewrite !chr_code.
Qed.
Lemma true_rune_4 c0 c1 c2 c3 :
  second4 c0 c1 && cont_byte c2 && cont_byte c3 = true ->
  true_rune ((code c0 - 240) * 262144 + (code c1 - 128) * 4096 + (code c2 - 128) * 64 + (code c3 - 128),
             String c0 (String c1 (String c2 (String c3 "")))).
Proof.
  intros Hb. byte_bounds Hb. set (r := _ + _ + _ + _). assert (65536 <= r < 1114112) by lia.
  assert (Hv : valid_rune r = true) by (unfold valid_rune; lia).
  apply true_rune_intro; [done|]. unfold encode_rune. rewrite Hv. cbn [negb].
  destruct (Z.ltb_spec r 128); [lia|]. destruct (Z.ltb_spec r 2048); [lia|].
  destruct (Z.ltb_spec r 65536); [lia|]. unfold bytes_str. cbn [foldr].
  assert (240 + r / 262144 = code c0 /\ 128 + r / 4096 mod 64 = code c1 /\ 128 + r / 64 mod 64 = code c2 /\
          128 + r mod 64 = code c3) as (-> & -> & -> & ->) by (clear Hv; unfold r; split_and!; euclid).
  by rewrite !chr_code.
Qed.

Lemma runes_true s : Forall (fun x => fst x = RuneError \/ true_rune x) (runes s).
Proof.
  remember (String.length s) as n eqn:Hn. revert s Hn. induction n as [n IH] using lt_wf_ind. intros s ->.
  destruct s as [|c0 r0]; [constructor|]. cbn [runes].
  assert (H1 : Forall (fun x => fst x = RuneError \/ true_rune x) (runes r0)) by (apply (IH (String.length r0)); cbn; lia).
  pose proof (code_range c0) as Hc. destruct (Z.ltb_spec (code c0) 128).
  { constructor; [right; apply true_rune_1; lia|done]. }
  destruct r0 as [|c1 r1]; [by repeat constructor|].
  destruct (byte_in 194 223 c0 && cont_byte c1) eqn:E2.
  { constructor; [right; by apply true_rune_2|]. apply (IH (String.length r1)); cbn; lia. }
  destruct r1 as [|c2 r2]; [constructor; [by left|done]|].
  destruct (second3 c0 c1 && cont_byte c2) eqn:E3.
  { constructor; [right; by apply true_rune_3|]. apply (IH (String.length r2)); cbn; lia. }
  destruct r2 as [|c3 r3]; [constructor; [by left|done]|].
  destruct (second4 c0 c1 && cont_byte c2 && cont_byte c3) eqn:E4.
  { constructor; [right; by apply true_rune_4|]. apply (IH (String.length r3)); cbn; lia. }
  constructor; [by left|done].
Qed.

(** True runes put together are decoded as they were. *)
Definition runes_bytes (l : list (Z * string)) : string := foldr String.append "" (map snd l).
Lemma runes_bytes_app l1 l2 : runes_bytes (l1 ++ l2) = runes_bytes l1 +:+ runes_bytes l2.
Proof. unfold runes_bytes. induction l1 as [|x l1 IH]; [done|]. cbn [map app foldr]. by rewrite IH, str_app_assoc. Qed.
Lemma runes_of_bytes l t : Forall true_rune l -> runes (runes_bytes l +:+ t) = l ++ runes t.
Proof.
  intros Hl. induction Hl as [|[r b] l [Hv Hb] _ IH]; [done|]. cbn [fst snd] in *. subst b.
  unfold runes_bytes. cbn [map foldr snd]. rewrite str_app_assoc, runes_encode by done. cbn [app]. f_equal. apply IH.
Qed.
