(* ===== verification/JsSource.v ===== *)
(** * Reading JavaScript without parsing it

    [stripCommentsAndStrings] of [internal/codegen/codegen.go] and all of
    [infer.go]: which result type the code generator gives a function by looking at
    the source of its handler.

    A slice of a string out of its bounds is a panic: [slice] returns [None] then,
    and so do the functions of [infer.go].  Indices are [nat]s; the [-1] of
    [findMatchingDelimiter] is [None]. *)
From S2P Require Import Prelude GoStrings GoRegexp.
From Stdlib Require Import Ascii.
Local Open Scope nat_scope.

(** ** Comments and strings *)

Definition newline : ascii := chr 10.
Definition quote_byte (c : ascii) : bool := Ascii.eqb c "'" || Ascii.eqb c (chr 34) || Ascii.eqb c "`".

(** The loops of [stripCommentsAndStrings], each with the one it gives way to: in
    the code, in a line comment, in a block comment and in a string.  What
    comments and strings hold becomes spaces, except for the ends of lines. *)
Fixpoint strip_code (s : string) : string :=
  match s with
  | "" => ""
  | String "/" (String "/" s) => String " " (String " " (strip_line s))
  | String "/" (String "*" s) => String " " (String " " (strip_block s))
  | String c s => if quote_byte c then String " " (strip_string c s) else String c (strip_code s)
  end
with strip_line (s : string) : string :=
  match s with
  | "" => ""
  | String c s => if Ascii.eqb c newline then String newline (strip_code s) else String " " (strip_line s)
  end
with strip_block (s : string) : string :=
  match s with
  | "" => ""
  | String "*" (String "/" s) => String " " (String " " (strip_code s))
  | String c s => String (if Ascii.eqb c newline then newline else " "%char) (strip_block s)
  end
with strip_string (quote : ascii) (s : string) : string :=
  match s with
  | "" => ""
  | String c s =>
      if Ascii.eqb c newline
      then String newline (if Ascii.eqb quote "`" then strip_string quote s else strip_code s)
      else if Ascii.eqb c "\" && negb (Ascii.eqb quote "`")
      then String " " (String " " (match s with String _ s => strip_string quote s | "" => "" end))
      else if Ascii.eqb c quote then String " " (strip_code s)
      else String " " (strip_string quote s)
  end.
Definition stripCommentsAndStrings : string -> string := strip_code.

(** ** Slices and prefixes *)

Definition slice (i j : nat) (s : string) : option string :=
  if (i <=? j) && (j <=? String.length s) then Some (text_between i j s) else None.
Definition slice_from (i : nat) (s : string) : option string := slice i (String.length s) s.

(** [strings.Index]. *)
Fixpoint index (sub s : string) : option nat :=
  if has_prefix sub s then Some 0
  else match s with
       | "" => None
       | String _ s => S <$> index sub s
       end.

(** ** Delimiters *)

Fixpoint match_delimiter (opening closing : ascii) (depth : Z) (i : nat) (s : string) : option nat :=
  match s with
  | "" => None
  | String c s =>
      if Ascii.eqb c opening then match_delimiter opening closing (depth + 1) (S i) s
      else if Ascii.eqb c closing
      then if (depth - 1 =? 0)%Z then Some i else match_delimiter opening closing (depth - 1) (S i) s
      else match_delimiter opening closing depth (S i) s
  end.
Definition findMatchingDelimiter (source : string) (openIndex : nat) (opening closing : ascii) : option nat :=
  match String.get openIndex source with
  | Some c =>
      if Ascii.eqb c opening then match_delimiter opening closing 0 openIndex (drop_bytes openIndex source) else None
  | None => None
  end.

(** ** The type of a result *)

Definition startsWithStringLiteral (original : string) : bool :=
  match original with
  | "" => false
  | String c _ => quote_byte c
  end.
Definition digit_byte : ascii -> bool := byte_in 48 57.
Definition startsWithNumberLiteral (stripped : string) : bool :=
  match stripped with
  | "" => false
  | String c s =>
      digit_byte c
      || match s with
         | "" => false
         | String next _ =>
             if Ascii.eqb c "+" || Ascii.eqb c "-" then digit_byte next || Ascii.eqb next "."
             else Ascii.eqb c "." && digit_byte next
         end
  end.

Definition trimLeadingSpace (original stripped : string) : string * string :=
  (trim_left original, trim_left stripped).

(** [""] is the type that is not known.  A parenthesis is followed into: its inside is
    shorter, so that the length of the stripped text is fuel enough. *)
Fixpoint inferExpression (fuel : nat) (original stripped : string) : option string :=
  let '(original, stripped) := trimLeadingSpace original stripped in
  if decide (stripped = "") then Some (if startsWithStringLiteral original then "string" else "")
  else if has_prefix "true" stripped || has_prefix "false" stripped then Some "bool"
  else if has_prefix "null" stripped || has_prefix "undefined" stripped then Some ""
  else if has_prefix "[" stripped
  then Some (match findMatchingDelimiter stripped 0 "[" "]" with Some _ => "[]any" | None => "" end)
  else if has_prefix "{" stripped
  then Some (match findMatchingDelimiter stripped 0 "{" "}" with Some _ => "map[string]any" | None => "" end)
  else if has_prefix "(" stripped
  then match findMatchingDelimiter stripped 0 "(" ")" with
       | None => Some ""
       | Some closeIndex =>
           inside ← slice 1 closeIndex original;
           insideStripped ← slice 1 closeIndex stripped;
           match fuel with
           | O => None
           | S fuel => inferExpression fuel inside insideStripped
           end
       end
  else if startsWithStringLiteral original then Some "string"
  else if startsWithNumberLiteral stripped then Some "float64"
  else Some "".
Definition inferExpressionType (original stripped : string) : option string :=
  inferExpression (S (String.length stripped)) original stripped.

Definition inferBlockReturnType (original stripped : string) : option string :=
  match findMatchingDelimiter stripped 0 "{" "}" with
  | None => Some ""
  | Some blockClose =>
      bodyOriginal ← slice 1 blockClose original;
      bodyStripped ← slice 1 blockClose stripped;
      match index "return" bodyStripped with
      | None => Some ""
      | Some returnIndex =>
          restOriginal ← slice_from (returnIndex + 6) bodyOriginal;
          restStripped ← slice_from (returnIndex + 6) bodyStripped;
          inferExpressionType restOriginal restStripped
      end
  end.

Definition inferHandlerResultType (original stripped : string) : option string :=
  let '(original, stripped) := trimLeadingSpace original stripped in
  if decide (stripped = "") then Some (if startsWithStringLiteral original then "string" else "")
  else if has_prefix "{" stripped then inferBlockReturnType original stripped
  else inferExpressionType original stripped.

(** The expression of the same name; its dot matches a newline too, and the star of the
    dot takes as little as it can. *)
Definition re_space (c : ascii) : bool := byte_in 9 10 c || byte_in 12 13 c || Ascii.eqb c " ".
Definition spaces : regexp := RStar true re_space.
Definition handlerPattern : regexp :=
  RSeqs [RLit "handler"; spaces; RLit ":"; spaces; ROpt (RSeq (RLit "async") spaces);
         RStar false (fun _ => true); RLit "=>"].

Definition inferResultType (original stripped : string) (callOpen : nat) : option string :=
  match findMatchingDelimiter stripped callOpen "(" ")" with
  | None => Some ""
  | Some callClose =>
      if callClose <=? callOpen then Some ""
      else
        callOriginal ← slice (callOpen + 1) callClose original;
        callStripped ← slice (callOpen + 1) callClose stripped;
        match find_index handlerPattern callStripped with
        | None => Some ""
        | Some (_, handlerEnd, _) =>
            restOriginal ← slice_from handlerEnd callOriginal;
            restStripped ← slice_from handlerEnd callStripped;
            inferHandlerResultType restOriginal restStripped
        end
  end.
