(* ===== verification/JsFacts.v ===== *)
(** * What the code generator makes of JavaScript

    The properties of JsSource: what blanking comments and strings keeps, what it does
    to a text cut into tokens, which delimiter matches, and which types are inferred. *)
From S2P Require Import Prelude GoStrings GoRegexp JsSource.
From Stdlib Require Import Ascii.
Local Open Scope nat_scope.

(** ** The four loops together *)

(** One round of each loop. *)
Lemma strip_code_cons c s :
  strip_code (String c s) =
  if Ascii.eqb c "/" && has_prefix "/" s then String " " (String " " (strip_line (drop_bytes 1 s)))
  else if Ascii.eqb c "/" && has_prefix "*" s then String " " (String " " (strip_block (drop_bytes 1 s)))
  else if quote_byte c then String " " (strip_string c s) else String c (strip_code s).
Proof.
  destruct (Ascii.eqb_spec c "/") as [->|Hne]; cbn [andb].
  - destruct s as [|d s]; [done|]. cbn [has_prefix drop_bytes].
    destruct (decide (d = "/"%char)) as [->|H1]; [by destruct s|].
    destruct (decide (d = "*"%char)) as [->|H2]; [by destruct s|].
    destruct d as [[] [] [] [] [] [] [] []]; first [done|congruence].
  - destruct c as [[] [] [] [] [] [] [] []]; first [done|congruence].
Qed.
Lemma strip_block_cons c s :
  strip_block (String c s) =
  if Ascii.eqb c "*" && has_prefix "/" s then String " " (String " " (strip_code (drop_bytes 1 s)))
  else String (if Ascii.eqb c newline then newline else " "%char) (strip_block s).
Proof.
  destruct (Ascii.eqb_spec c "*") as [->|Hne]; cbn [andb].
  - destruct s as [|d s]; [done|]. cbn [has_prefix drop_bytes].
    destruct (decide (d = "/"%char)) as [->|H1]; [by destruct s|].
    destruct d as [[] [] [] [] [] [] [] []]; first [done|congruence].
  - destruct c as [[] [] [] [] [] [] [] []]; first [done|congruence].
Qed.

(** The loop of each place. *)
Inductive place : Type := InCode | InLine | InBlock | InString (quote : ascii).
Definition strip (p : place) (s : string) : string :=
  match p with
  | InCode => strip_code s
  | InLine => strip_line s
  | InBlock => strip_block s
  | InString quote => strip_string quote s
  end.

Lemma has_prefix_one c s : has_prefix (String c "") s = true -> exists r, s = String c r.
Proof. destruct s as [|d s]; [done|]. cbn. case_decide; [subst|done]. by exists s. Qed.

(** What a place does with the text that is left: it ends, keeps a byte, blanks one, or
    blanks two at once, of which the second may be missing after a backslash. *)
Lemma strip_step p s :
  s = "" /\ strip p s = "" \/
  (exists c r, s = String c r /\ p = InCode /\ quote_byte c = false /\
     (Ascii.eqb c "/" && (has_prefix "/" r || has_prefix "*" r)) = false /\
     strip p s = String c (strip InCode r)) \/
  (exists c r q, s = String c r /\ strip p s = String newline (strip q r) /\ c = newline) \/
  (exists c r q, s = String c r /\ strip p s = String " " (strip q r)) \/
  (exists c d r q, s = String c (String d r) /\ strip p s = String " " (String " " (strip q r))) \/
  (s = "\" /\ strip p s = "  ").
Proof.
  destruct s as [|c s]; [left; by destruct p|]. right. destruct p as [| | |quote]; cbn [strip].
  - rewrite strip_code_cons.
    destruct (Ascii.eqb c "/" && has_prefix "/" s) eqn:E1.
    { apply andb_prop in E1 as [_ (r & ->)%has_prefix_one]. do 3 right. left. by exists c, "/"%char, r, InLine. }
    destruct (Ascii.eqb c "/" && has_prefix "*" s) eqn:E2.
    { apply andb_prop in E2 as [_ (r & ->)%has_prefix_one]. do 3 right. left. by exists c, "*"%char, r, InBlock. }
    destruct (quote_byte c) eqn:E3; [do 2 right; left; by exists c, s, (InString c)|].
    left. exists c, s. rewrite andb_orb_distrib_r, E1, E2. done.
  - cbn [strip_line]. destruct (Ascii.eqb_spec c newline) as [->|].
    + right. left. by exists newline, s, InCode.
    + do 2 right. left. by exists c, s, InLine.
  - rewrite strip_block_cons. destruct (Ascii.eqb c "*" && has_prefix "/" s) eqn:E1.
    { apply andb_prop in E1 as [_ (r & ->)%has_prefix_one]. do 3 right. left. by exists c, "/"%char, r, InCode. }
    destruct (Ascii.eqb_spec c newline) as [->|]; [right; left; by exists newline, s, InBlock|].
    do 2 right. left. by exists c, s, InBlock.
  - cbn [strip_string]. destruct (Ascii.eqb_spec c newline) as [->|].
    { right. left. exists newline, s, (if Ascii.eqb quote "`" then InString quote else InCode).
      by destruct (Ascii.eqb quote "`"). }
    destruct (Ascii.eqb_spec c "\") as [->|]; destruct (Ascii.eqb quote "`") eqn:Eq; cbn [negb andb].
    1,3,4: destruct (Ascii.eqb _ quote);
      [do 2 right; left; by eexists _, s, InCode|do 2 right; left; by eexists _, s, (InString quote)].
    destruct s as [|d s]; [by do 4 right|]. do 3 right. left. by exists "\"%char, d, s, (InString quote).
Qed.

(** ** Positions *)

(** Every byte keeps its place or becomes a space; an overrun of one byte is possible
    after a backslash at the end. *)
Inductive blanked : string -> string -> Prop :=
  | blanked_nil : blanked "" ""
  | blanked_over : blanked "\" "  "
  | blanked_keep c s t : blanked s t -> blanked (String c s) (String c t)
  | blanked_blank c s t : blanked s t -> blanked (String c s) (String " " t).

Lemma strip_blanked p s : blanked s (strip p s).
Proof.
  remember (String.length s) as n eqn:Hn. revert p s Hn. induction n as [n IH] using lt_wf_ind. intros p s ->.
  destruct (strip_step p s) as
    [[-> ->]|[(c & r & -> & _ & _ & _ & ->)|[(c & r & q & -> & -> & ->)|[(c & r & q & -> & ->)|
     [(c & d & r & q & -> & ->)|[-> ->]]]]]]; [constructor|constructor|constructor|constructor| |constructor].
  1-3: by eapply IH; [|done]; cbn; lia.
  do 2 constructor. eapply IH; [|done]. cbn. lia.
Qed.

Definition ends_with (c : ascii) (s : string) : bool := has_suffix (String c "") s.

Lemma blanked_length s t : blanked s t ->
  String.length t = String.length s \/ ends_with "\" s = true /\ String.length t = S (String.length s).
Proof.
  induction 1 as [| |c s t _ IH|c s t _ IH]; cbn [String.length]; [by left|by right| |].
  all: destruct IH as [->|[He ->]]; [by left|right]; split; [|done].
  all: unfold ends_with in *; apply has_suffix_split in He as [a ->]; apply (has_suffix_app (String c a)).
Qed.
Lemma blanked_get s t i : blanked s t -> i < String.length s ->
  String.get i t = String.get i s \/ String.get i t = Some " "%char.
Proof.
  intros Hb. revert i. induction Hb as [| |c s t _ IH|c s t _ IH]; intros [|i]; cbn; try lia; auto.
  all: intros Hi; apply IH; lia.
Qed.

(** C0. Blanking comments and strings moves nothing: the result is as long as
    the source, by a byte longer at most and only when the source ends in a
    backslash, and every position has the byte it had or a space. *)
Theorem strip_keeps_positions source :
  let stripped := stripCommentsAndStrings source in
  (String.length stripped = String.length source \/
   ends_with "\" source = true /\ String.length stripped = S (String.length source)) /\
  forall i, i < String.length source ->
    String.get i stripped = String.get i source \/ String.get i stripped = Some " "%char.
Proof.
  pose proof (strip_blanked InCode source) as Hb. split; [by apply blanked_length|].
  intros i Hi. by apply blanked_get.
Qed.

(** ** What is left is code *)

Definition opens_comment (c : ascii) (s : string) : bool :=
  Ascii.eqb c "/" && (has_prefix "/" s || has_prefix "*" s).
Fixpoint code_only (s : string) : bool :=
  match s with
  | "" => true
  | String c s => negb (quote_byte c) && negb (opens_comment c s) && code_only s
  end.

Lemma strip_code_head c s : exists t, strip_code (String c s) = String c t \/ strip_code (String c s) = String " " t.
Proof. rewrite strip_code_cons. repeat case_match; eexists; auto. Qed.

Lemma strip_code_only p s : code_only (strip p s) = true.
Proof.
  revert p. induction s as [s IH] using (induction_ltof1 _ String.length). unfold ltof in IH. intros p.
  assert (IH' : forall p r, String.length r < String.length s -> code_only (strip p r) = true) by eauto. clear IH.
  rename IH' into IH.
  destruct (strip_step p s) as
    [[-> ->]|[(c & r & -> & -> & Hq & Ho & ->)|[(c & r & q & -> & -> & ->)|[(c & r & q & -> & ->)|
     [(c & d & r & q & -> & ->)|[-> ->]]]]]]; [done| | | | |done].
  - cbn [code_only]. rewrite Hq, (IH InCode r) by (cbn; lia). cbn [negb andb]. rewrite andb_true_r.
    destruct (Ascii.eqb_spec c "/") as [->|Hne]; [|by unfold opens_comment; destruct (Ascii.eqb_spec c "/")].
    destruct r as [|d r]; [done|]. destruct (strip_code_head d r) as [X HX].
    unfold opens_comment. change (strip InCode (String d r)) with (strip_code (String d r)).
    destruct HX as [->| ->]; [|done]. cbn in Ho |- *. by destruct d as [[] [] [] [] [] [] [] []].
  - cbn [code_only]. by rewrite IH by (cbn; lia).
  - cbn [code_only]. by rewrite IH by (cbn; lia).
  - cbn [code_only]. by rewrite IH by (cbn; lia).
Qed.

Lemma strip_code_id s : code_only s = true -> strip_code s = s.
Proof.
  induction s as [|c s IH]; [done|]. cbn [code_only].
  intros [[Hq Ho]%andb_prop Hs]%andb_prop. apply negb_true_iff in Hq, Ho.
  unfold opens_comment in Ho. rewrite andb_orb_distrib_r in Ho. apply orb_false_iff in Ho as [E1 E2].
  by rewrite strip_code_cons, E1, E2, Hq, IH.
Qed.

(** What is left has neither comments nor strings: stripping it again changes
    nothing. *)
Theorem strip_idempotent source :
  stripCommentsAndStrings (stripCommentsAndStrings source) = stripCommentsAndStrings source.
Proof. apply strip_code_id, (strip_code_only InCode). Qed.

(** ** Tokens

    A text as JavaScript reads it: bytes of code, comments, strings with their escapes,
    and templates, here without a backquote inside. *)
Inductive piece : Type := Plain (c : ascii) | Escaped (c : ascii).
Inductive token : Type :=
  | Code (c : ascii)
  | LineComment (body : string)
  | BlockComment (body : string)
  | Quoted (quote : ascii) (pieces : list piece)
  | Template (body : string).

Definition print_piece (p : piece) : string :=
  match p with Plain c => String c "" | Escaped c => String "\" (String c "") end.
Fixpoint print_pieces (l : list piece) : string :=
  match l with [] => "" | p :: l => print_piece p +:+ print_pieces l end.
Definition print_token (t : token) : string :=
  match t with
  | Code c => String c ""
  | LineComment body => "//" +:+ body
  | BlockComment body => "/*" +:+ body +:+ "*/"
  | Quoted quote pieces => String quote (print_pieces pieces +:+ String quote "")
  | Template body => "`" +:+ body +:+ "`"
  end.
Fixpoint print_tokens (ts : list token) : string :=
  match ts with [] => "" | t :: ts => print_token t +:+ print_tokens ts end.

(** A space for each byte; the ends of lines stay. *)
Fixpoint blank (s : string) : string :=
  match s with
  | "" => ""
  | String c s => String (if Ascii.eqb c newline then newline else " "%char) (blank s)
  end.
Definition blank_token (t : token) : string :=
  match t with Code c => String c "" | _ => blank (print_token t) end.
Fixpoint blank_tokens (ts : list token) : string :=
  match ts with [] => "" | t :: ts => blank_token t +:+ blank_tokens ts end.

Definition piece_ok (quote : ascii) (p : piece) : bool :=
  match p with
  | Plain c => negb (Ascii.eqb c newline) && negb (Ascii.eqb c "\") && negb (Ascii.eqb c quote)
  | Escaped c => negb (Ascii.eqb c newline)
  end.
(** [t] is a token of its own in front of [rest]. *)
Definition token_ok (t : token) (rest : string) : bool :=
  match t with
  | Code c => negb (quote_byte c) && negb (opens_comment c rest)
  | LineComment body => lacks newline body && (bool_decide (rest = "") || has_prefix (String newline "") rest)
  | BlockComment body => negb (contains "*/" body)
  | Quoted quote pieces =>
      (Ascii.eqb quote "'" || Ascii.eqb quote (chr 34)) && forallb (piece_ok quote) pieces
  | Template body => lacks "`" body
  end.
Fixpoint tokens_ok (ts : list token) : bool :=
  match ts with
  | [] => true
  | t :: ts => token_ok t (print_tokens ts) && tokens_ok ts
  end.

#[local] Arguments String.append !_ _ /.
#[local] Arguments newline : simpl never.

Lemma blank_app a b : blank (a +:+ b) = blank a +:+ blank b.
Proof. induction a as [|c a IH]; [done|]. cbn. by rewrite IH. Qed.

Lemma strip_line_body body rest :
  lacks newline body = true -> bool_decide (rest = "") || has_prefix (String newline "") rest = true ->
  strip_line (body +:+ rest) = blank body +:+ strip_code rest.
Proof.
  intros Hb Hr. induction body as [|c body IH].
  - cbn. apply orb_true_iff in Hr as [->%bool_decide_eq_true|[r ->]%has_prefix_one]; [done|].
    cbn [strip_line]. by rewrite strip_code_cons.
  - apply lacks_cons in Hb as [Hc Hb]. cbn. destruct (Ascii.eqb_spec c newline); [done|]. by rewrite IH.
Qed.

Lemma strip_block_body body rest :
  contains "*/" body = false ->
  strip_block (body +:+ String "*" (String "/" rest)) = blank body +:+ "  " +:+ strip_code rest.
Proof.
  induction body as [|c body IH]; [done|]. intros Hb. cbn [String.append blank]. rewrite strip_block_cons.
  assert (has_prefix "*/" (String c body) = false /\ contains "*/" body = false) as [Hp Hb'].
  { cbn [contains] in Hb. by destruct (has_prefix "*/" (String c body)). }
  replace (Ascii.eqb c "*" && has_prefix "/" (body +:+ String "*" (String "/" rest))) with false.
  - by rewrite IH.
  - cbn in Hp. destruct (Ascii.eqb_spec c "*") as [->|]; [|done]. destruct body as [|d body]; [done|].
    cbn in *. by repeat case_decide.
Qed.

Lemma strip_pieces quote pieces rest :
  Ascii.eqb quote "'" || Ascii.eqb quote (chr 34) = true -> forallb (piece_ok quote) pieces = true ->
  strip_string quote (print_pieces pieces +:+ String quote rest) = blank (print_pieces pieces) +:+ " " +:+ strip_code rest.
Proof.
  intros Hq. assert (Hq' : Ascii.eqb quote "`" = false /\ Ascii.eqb quote newline = false /\ Ascii.eqb quote "\" = false).
  { by apply orb_true_iff in Hq as [->%Ascii.eqb_eq| ->%Ascii.eqb_eq]. }
  destruct Hq' as (H1 & H2 & H3).
  induction pieces as [|[c|c] pieces IH]; cbn [forallb print_pieces print_piece piece_ok].
  - intros _. cbn. by rewrite H1, H2, H3, Ascii.eqb_refl.
  - intros [[[Hn Hb]%andb_prop Hc]%andb_prop Hp]%andb_prop. apply negb_true_iff in Hn, Hb, Hc.
    cbn. rewrite H1, Hn, Hb, Hc. cbn. by rewrite IH.
  - intros [Hn%negb_true_iff Hp]%andb_prop. cbn. rewrite H1, Hn. cbn. by rewrite IH.
Qed.

Lemma strip_template body rest :
  lacks "`" body = true -> strip_string "`" (body +:+ String "`" rest) = blank body +:+ " " +:+ strip_code rest.
Proof.
  induction body as [|c body IH]; [done|]. intros [Hc Hb]%lacks_cons. cbn.
  destruct (Ascii.eqb_spec c newline) as [->|]; [by rewrite IH|].
  rewrite andb_false_r. destruct (Ascii.eqb_spec c "`"); [done|]. by rewrite IH.
Qed.

Lemma blank_quoted quote s : Ascii.eqb quote newline = false -> blank (String quote (s +:+ String quote "")) = " " +:+ blank s +:+ " ".
Proof. intros H. cbn. by rewrite blank_app, H; cbn; rewrite H. Qed.

Lemma strip_token_text ts : tokens_ok ts = true -> strip_code (print_tokens ts) = blank_tokens ts.
Proof.
  induction ts as [|t ts IH]; [done|]. cbn [tokens_ok]. intros [Ht Hts]%andb_prop. specialize (IH Hts).
  cbn [print_tokens blank_tokens].
  destruct t as [c|body|body|quote pieces|body]; cbn [token_ok print_token blank_token] in *; cbn [String.append].
  - apply andb_prop in Ht as [Hq Ho]. apply negb_true_iff in Hq, Ho.
    unfold opens_comment in Ho. rewrite andb_orb_distrib_r in Ho. apply orb_false_iff in Ho as [E1 E2].
    by rewrite strip_code_cons, E1, E2, Hq, IH.
  - apply andb_prop in Ht as [Hb Hr]. cbn. by rewrite strip_line_body, IH.
  - apply negb_true_iff in Ht. cbn. rewrite blank_app, !str_app_assoc. cbn. by rewrite strip_block_body, IH.
  - apply andb_prop in Ht as [Hq Hp]. rewrite strip_code_cons.
    assert (Ascii.eqb quote "/" = false /\ quote_byte quote = true /\ Ascii.eqb quote newline = false) as (-> & -> & Hn).
    { by apply orb_true_iff in Hq as [->%Ascii.eqb_eq| ->%Ascii.eqb_eq]. }
    rewrite blank_quoted by done. cbn. rewrite !str_app_assoc. cbn. by rewrite strip_pieces, IH.
  - rewrite blank_quoted by done. cbn. rewrite !str_app_assoc. cbn. by rewrite strip_template, IH.
Qed.

(** Where the lines of a text end. *)
Definition line_ends (s : string) : list bool := map (Ascii.eqb newline) (String.list_ascii_of_string s).
Lemma line_ends_app a b : line_ends (a +:+ b) = line_ends a ++ line_ends b.
Proof. unfold line_ends. induction a as [|c a IH]; [done|]. cbn. by rewrite IH. Qed.
Lemma blank_line_ends s : line_ends (blank s) = line_ends s.
Proof.
  unfold line_ends. induction s as [|c s IH]; [done|]. cbn. rewrite IH. f_equal.
  destruct (Ascii.eqb_spec c newline) as [->|Hne]; [done|]. symmetry. apply Ascii.eqb_neq. congruence.
Qed.
Lemma blank_tokens_line_ends ts : line_ends (blank_tokens ts) = line_ends (print_tokens ts).
Proof.
  induction ts as [|t ts IH]; [done|]. cbn [blank_tokens print_tokens]. rewrite !line_ends_app, IH. f_equal.
  destruct t; [done|..]; apply blank_line_ends.
Qed.

(** C31. Of a text made of code, comments, strings and templates, blanking leaves the code as it is
    and turns each byte of a comment, a string or a template, delimiters included, into a space,
    except the ends of lines, which stay where they are; a string ends at its quote and not at an
    escaped one, and a quote in a comment or the start of a comment in a string opens nothing.  The
    text has as many bytes as before and its lines end at the same ones.  The strings have no
    escaped end of line (of which the end of line would be lost) and the templates no backquote
    inside, escaped or not; code has no quote and starts no comment, so that a regular expression
    with either is not such a text. *)
Theorem strip_tokens ts (Hok : tokens_ok ts = true) :
  stripCommentsAndStrings (print_tokens ts) = blank_tokens ts /\
  line_ends (stripCommentsAndStrings (print_tokens ts)) = line_ends (print_tokens ts).
Proof. unfold stripCommentsAndStrings. rewrite strip_token_text by done. split; [done|]. apply blank_tokens_line_ends. Qed.

(** ** Delimiters *)

Fixpoint balance (opening closing : ascii) (s : string) : Z :=
  match s with
  | "" => 0
  | String c s => (if Ascii.eqb c opening then 1 else if Ascii.eqb c closing then -1 else 0) + balance opening closing s
  end%Z.

Section Delimiters.
Context (opening closing : ascii).

Lemma match_delimiter_spec s : forall depth i, (0 < depth)%Z ->
  match match_delimiter opening closing depth i s with
  | Some j =>
      i <= j /\ j - i < String.length s /\
      (depth + balance opening closing (take_bytes (S (j - i)) s) = 0)%Z /\
      forall k, k <= j - i -> (0 < depth + balance opening closing (take_bytes k s))%Z
  | None => forall k, (0 < depth + balance opening closing (take_bytes k s))%Z
  end.
Proof.
  induction s as [|c s IH]; intros depth i Hd; cbn [match_delimiter].
  { intros [|k]; cbn; lia. }
  set (step := if Ascii.eqb c opening then 1%Z else if Ascii.eqb c closing then (-1)%Z else 0%Z).
  assert (Hbal : forall k, balance opening closing (take_bytes (S k) (String c s)) =
                           (step + balance opening closing (take_bytes k s))%Z) by done.
  assert (Hnext : forall depth', depth' = (depth + step)%Z -> (0 < depth')%Z ->
    match match_delimiter opening closing depth' (S i) s with
    | Some j =>
        i <= j /\ j - i < String.length (String c s) /\
        (depth + balance opening closing (take_bytes (S (j - i)) (String c s)) = 0)%Z /\
        forall k, k <= j - i -> (0 < depth + balance opening closing (take_bytes k (String c s)))%Z
    | None => forall k, (0 < depth + balance opening closing (take_bytes k (String c s)))%Z
    end).
  { intros depth' -> Hd'. specialize (IH (depth + step)%Z (S i) Hd').
    destruct (match_delimiter opening closing (depth + step) (S i) s) as [j|].
    - destruct IH as (L & M & E & P). cbn [String.length]. split_and!; [lia|lia| |].
      + rewrite Hbal. replace (j - i) with (S (j - S i)) by lia. lia.
      + intros [|k] Hk; [cbn; lia|]. rewrite Hbal. specialize (P k ltac:(lia)). lia.
    - intros [|k]; [cbn; lia|]. rewrite Hbal. specialize (IH k). lia. }
  destruct (Ascii.eqb c opening) eqn:E1; [apply Hnext; unfold step; lia|].
  destruct (Ascii.eqb c closing) eqn:E2; [|apply Hnext; unfold step; lia].
  destruct (depth - 1 =? 0)%Z eqn:E3; [|apply Hnext; unfold step; lia].
  apply Z.eqb_eq in E3. split_and!; [done|cbn; lia| |].
  - rewrite Nat.sub_diag, Hbal. unfold step. cbn. destruct s; cbn; lia.
  - intros k Hk. replace k with 0 by lia. cbn. lia.
Qed.

(** The place returned is the first at which the delimiters opened since [openIndex] are all
    closed. *)
Theorem findMatchingDelimiter_spec source openIndex :
  String.get openIndex source = Some opening ->
  let level k := balance opening closing (take_bytes k (drop_bytes openIndex source)) in
  match findMatchingDelimiter source openIndex opening closing with
  | Some i =>
      openIndex < i < String.length source /\ level (S (i - openIndex)) = 0%Z /\
      forall k, 1 <= k <= i - openIndex -> (0 < level k)%Z
  | None => forall k, 1 <= k -> (0 < level k)%Z
  end.
Proof.
  intros Hget. cbv zeta. unfold findMatchingDelimiter. rewrite Hget, Ascii.eqb_refl.
  assert (exists s, drop_bytes openIndex source = String opening s /\
                         String.length source = openIndex + S (String.length s)) as (s & -> & Hlen).
  { revert source Hget. induction openIndex as [|n IH]; intros [|c source]; cbn; try done.
    - intros [= ->]. by exists source.
    - intros Hget. destruct (IH _ Hget) as (s & -> & ->). by exists s. }
  cbn [match_delimiter]. rewrite Ascii.eqb_refl.
  pose proof (match_delimiter_spec s (0 + 1) (S openIndex) ltac:(lia)) as Hspec.
  assert (Hlevel : forall k, balance opening closing (take_bytes (S k) (String opening s)) =
                             (1 + balance opening closing (take_bytes k s))%Z).
  { intros k. cbn. by rewrite Ascii.eqb_refl. }
  destruct (match_delimiter opening closing (0 + 1) (S openIndex) s) as [i|].
  - destruct Hspec as (L & M & E & P). split_and!; [lia|lia| |].
    + rewrite Hlevel. replace (i - openIndex) with (S (i - S openIndex)) by lia. lia.
    + intros [|k] Hk; [lia|]. rewrite Hlevel. apply P. lia.
  - intros [|k] Hk; [lia|]. rewrite Hlevel. apply Hspec.
Qed.
End Delimiters.

(** ** Inference *)

Lemma slice_length i j s t : slice i j s = Some t -> String.length t = j - i.
Proof.
  unfold slice. destruct (_ && _) eqn:E; [|done]. apply andb_prop in E as [H1%Nat.leb_le H2%Nat.leb_le].
  intros [= <-]. unfold text_between. rewrite take_bytes_length, drop_bytes_length. lia.
Qed.
Lemma slice_Some i j s : i <= j <= String.length s -> slice i j s = Some (text_between i j s).
Proof.
  intros [H1 H2]. unfold slice. by rewrite (proj2 (Nat.leb_le _ _) H1), (proj2 (Nat.leb_le _ _) H2).
Qed.
Lemma trim_left_length s : String.length (trim_left s) <= String.length s.
Proof.
  unfold trim_left. generalize (String.length s) at 1 as fuel. generalize space_encodings as enc.
  intros enc fuel. revert s. induction fuel as [|fuel IH]; intros s; [done|]. cbn [trim_left_fuel].
  destruct (List.find _ enc) as [e|]; [|done]. etransitivity; [apply IH|]. rewrite drop_bytes_length. lia.
Qed.

Lemma delimiter_inside opening closing s i :
  findMatchingDelimiter s 0 opening closing = Some i -> 0 < i < String.length s.
Proof.
  intros Hf. destruct (String.get 0 s) as [c|] eqn:Hg; unfold findMatchingDelimiter in Hf; rewrite Hg in Hf; [|done].
  destruct (Ascii.eqb c opening) eqn:Ec; [|done]. apply Ascii.eqb_eq in Ec. subst c.
  pose proof (findMatchingDelimiter_spec opening closing s 0 Hg) as Hs. unfold findMatchingDelimiter in Hs.
  rewrite Hg, Ascii.eqb_refl, Hf in Hs. lia.
Qed.

(** The branches of an expression but that of a parenthesis. *)
Definition infer_literal (original stripped : string) : string :=
  if decide (stripped = "") then if startsWithStringLiteral original then "string" else ""
  else if has_prefix "true" stripped || has_prefix "false" stripped then "bool"
  else if has_prefix "null" stripped || has_prefix "undefined" stripped then ""
  else if has_prefix "[" stripped
  then match findMatchingDelimiter stripped 0 "[" "]" with Some _ => "[]any" | None => "" end
  else if has_prefix "{" stripped
  then match findMatchingDelimiter stripped 0 "{" "}" with Some _ => "map[string]any" | None => "" end
  else if startsWithStringLiteral original then "string"
  else if startsWithNumberLiteral stripped then "float64"
  else "".

Lemma has_prefix_head c c' p s : has_prefix (String c p) (String c' s) = true -> c = c'.
Proof. cbn. by case_decide. Qed.

Lemma inferExpression_eq fuel original stripped :
  let o := trim_left original in
  let s := trim_left stripped in
  inferExpression fuel original stripped =
  if has_prefix "(" s
  then match findMatchingDelimiter s 0 "(" ")" with
       | None => Some ""
       | Some i =>
           inside ← slice 1 i o; insideStripped ← slice 1 i s;
           match fuel with O => None | S fuel => inferExpression fuel inside insideStripped end
       end
  else Some (infer_literal o s).
Proof.
  cbv zeta. unfold infer_literal.
  destruct fuel as [|fuel]; cbn [inferExpression trimLeadingSpace].
  all: destruct (trim_left stripped) as [|c s] eqn:E; [by rewrite decide_True by done|].
  all: rewrite (decide_False (P := String c s = "")) by done.
  all: destruct (has_prefix "(" (String c s)) eqn:Ep.
  1,3: apply has_prefix_head in Ep as <-; reflexivity.
  all: by repeat case_match.
Qed.

Definition known_types : list string := [""; "bool"; "string"; "float64"; "[]any"; "map[string]any"].

Lemma infer_literal_known original stripped : infer_literal original stripped ∈ known_types.
Proof. unfold infer_literal, known_types. repeat case_match; set_solver. Qed.

(** The fuel does not matter as soon as it is more than the length of the text. *)
Lemma inferExpression_fuel fuel : forall fuel' original stripped,
  String.length stripped < fuel -> String.length stripped < fuel' ->
  inferExpression fuel original stripped = inferExpression fuel' original stripped.
Proof.
  induction fuel as [|fuel IH]; intros [|fuel'] original stripped H1 H2; try lia.
  rewrite !inferExpression_eq. case_match; [|done]. case_match eqn:Ed; [|done].
  destruct (slice 1 n (trim_left original)) as [inside|]; [|done]. cbn [option_bind mbind].
  destruct (slice 1 n (trim_left stripped)) as [insideStripped|] eqn:Es; [|done]. cbn [option_bind mbind].
  pose proof (slice_length _ _ _ _ Es). pose proof (delimiter_inside _ _ _ _ Ed). pose proof (trim_left_length stripped).
  apply IH; lia.
Qed.

(** With nothing blanked there is no panic. *)
Lemma inferExpression_total fuel : forall s, String.length s < fuel ->
  exists t, inferExpression fuel s s = Some t /\ t ∈ known_types.
Proof.
  induction fuel as [|fuel IH]; intros s Hlen; [lia|]. rewrite inferExpression_eq.
  destruct (has_prefix "(" (trim_left s)); [|eexists; split; [done|apply infer_literal_known]].
  destruct (findMatchingDelimiter (trim_left s) 0 "(" ")") as [i|] eqn:Ed; [|exists ""; split; [done|by left]].
  pose proof (delimiter_inside _ _ _ _ Ed) as Hi. pose proof (trim_left_length s).
  rewrite slice_Some by lia. cbn [option_bind mbind]. apply IH.
  unfold text_between. rewrite take_bytes_length. lia.
Qed.

Lemma inferExpressionType_total s : exists t, inferExpressionType s s = Some t /\ t ∈ known_types.
Proof. apply inferExpression_total. lia. Qed.

Lemma index_bound sub s i : index sub s = Some i -> i + String.length sub <= String.length s.
Proof.
  revert i. induction s as [|c s IH]; intros i; cbn [index].
  - destruct (has_prefix sub "") eqn:E; [|done]. intros [= <-]. apply has_prefix_split in E as [r E].
    rewrite E, str_length_app. lia.
  - destruct (has_prefix sub (String c s)) eqn:E.
    + intros [= <-]. apply has_prefix_split in E as [r E]. rewrite E, str_length_app. lia.
    + intros (j & Hj & ->)%fmap_Some. apply IH in Hj. cbn. lia.
Qed.

Lemma inferBlock_total s : exists t, inferBlockReturnType s s = Some t /\ t ∈ known_types.
Proof.
  unfold inferBlockReturnType.
  destruct (findMatchingDelimiter s 0 "{" "}") as [i|] eqn:Ed; [|exists ""; split; [done|by left]].
  pose proof (delimiter_inside _ _ _ _ Ed) as Hi. rewrite slice_Some by lia. cbn [option_bind mbind].
  destruct (index "return" _) as [j|] eqn:Ej; [|exists ""; split; [done|by left]].
  apply index_bound in Ej. cbn [String.length] in Ej.
  unfold slice_from. rewrite slice_Some by lia. cbn [option_bind mbind]. apply inferExpressionType_total.
Qed.

Lemma inferHandler_total s : exists t, inferHandlerResultType s s = Some t /\ t ∈ known_types.
Proof.
  unfold inferHandlerResultType. cbn [trimLeadingSpace]. case_decide.
  { eexists. split; [done|]. case_match; unfold known_types; set_solver. }
  case_match; [apply inferBlock_total|apply inferExpressionType_total].
Qed.

(** When the text of the call holds neither comments nor strings, whatever the
    rest of the file holds, the inference ends with a type, one of the five
    the generator knows or none; no slice is out of range. *)
Theorem infer_total source callOpen
  (Hcode : forall callClose,
     findMatchingDelimiter (stripCommentsAndStrings source) callOpen "(" ")" = Some callClose ->
     text_between (callOpen + 1) callClose source =
     text_between (callOpen + 1) callClose (stripCommentsAndStrings source)) :
  exists t, inferResultType source (stripCommentsAndStrings source) callOpen = Some t /\ t ∈ known_types.
Proof.
  set (stripped := stripCommentsAndStrings source) in *. unfold inferResultType.
  destruct (findMatchingDelimiter stripped callOpen "(" ")") as [i|] eqn:Ed; [|exists ""; split; [done|by left]].
  destruct (i <=? callOpen) eqn:Ei; [exists ""; split; [done|by left]|]. apply Nat.leb_gt in Ei.
  assert (i < String.length stripped).
  { unfold findMatchingDelimiter in Ed. destruct (String.get callOpen stripped) as [c|] eqn:Hg; [|done].
    destruct (Ascii.eqb c "(") eqn:Ec; [|done]. apply Ascii.eqb_eq in Ec. subst c.
    pose proof (findMatchingDelimiter_spec "(" ")" stripped callOpen Hg) as Hs. unfold findMatchingDelimiter in Hs.
    rewrite Hg in Hs. cbn [Ascii.eqb Bool.eqb] in Hs. rewrite Ed in Hs. lia. }
  pose proof (blanked_length _ _ (strip_blanked InCode source)) as Hlen. fold stripped in Hlen.
  assert (String.length stripped <= S (String.length source)) by (unfold stripped, stripCommentsAndStrings in *; cbn in *; lia).
  rewrite !slice_Some by lia. cbn [option_bind mbind]. rewrite (Hcode i eq_refl).
  pose proof (find_index_spec handlerPattern (text_between (callOpen + 1) i stripped)) as Hf.
  destruct (find_index handlerPattern _) as [[[a b] caps]|]; [|exists ""; split; [done|by left]].
  unfold slice_from. rewrite slice_Some by lia. cbn [option_bind mbind]. apply inferHandler_total.
Qed.

Lemma take_bytes_prefix k a b : k <= String.length a -> take_bytes k (a +:+ b) = take_bytes k a.
Proof. revert k. induction a as [|c a IH]; intros [|k] Hk; cbn in *; [by destruct b|lia|done|]. f_equal. apply IH. lia. Qed.
Lemma take_bytes_past k a b : take_bytes (String.length a + k) (a +:+ b) = a +:+ take_bytes k b.
Proof. induction a as [|c a IH]; cbn; [done|]. f_equal. apply IH. Qed.
Lemma balance_app opening closing a b :
  balance opening closing (a +:+ b) = (balance opening closing a + balance opening closing b)%Z.
Proof. induction a as [|c a IH]; cbn; [done|]. rewrite IH. lia. Qed.

(** A pair of parentheses around an expression does not change its type. *)
Theorem infer_parentheses s rest :
  balance "(" ")" s = 0%Z -> (forall k, (0 <= balance "(" ")" (take_bytes k s))%Z) ->
  inferExpressionType (String "(" (s +:+ String ")" rest)) (String "(" (s +:+ String ")" rest)) = inferExpressionType s s.
Proof.
  intros Hbal Hpos. unfold inferExpressionType. rewrite inferExpression_eq.
  set (text := String "(" (s +:+ String ")" rest)).
  assert (trim_left text = text) as -> by reflexivity.
  replace (has_prefix "(" text) with true by reflexivity.
  assert (Hin : forall k, k <= String.length s -> (0 < balance "(" ")" (take_bytes (S k) text))%Z).
  { intros k Hk. unfold text. cbn [take_bytes balance Ascii.eqb Bool.eqb]. rewrite take_bytes_prefix by done.
    specialize (Hpos k). lia. }
  assert (Hend : balance "(" ")" (take_bytes (S (S (String.length s))) text) = 0%Z).
  { change (take_bytes _ text) with (String "(" (take_bytes (S (String.length s)) (s +:+ String ")" rest))).
    replace (S (String.length s)) with (String.length s + 1) by lia.
    rewrite take_bytes_past. cbn [balance Ascii.eqb Bool.eqb]. rewrite balance_app, Hbal. by destruct rest. }
  assert (Hlen : String.length text = S (String.length s + S (String.length rest))) by (unfold text; cbn; by rewrite str_length_app).
  pose proof (findMatchingDelimiter_spec "(" ")" text 0 eq_refl) as Hd. cbn [drop_bytes] in Hd.
  destruct (findMatchingDelimiter text 0 "(" ")") as [i|].
  - destruct Hd as (Hi & H0 & Hbefore). rewrite Nat.sub_0_r in *.
    assert (i = S (String.length s)) as ->.
    { destruct (decide (i <= String.length s)); [specialize (Hin i ltac:(done)); lia|].
      destruct (decide (i = S (String.length s))); [done|].
      specialize (Hbefore (S (S (String.length s))) ltac:(lia)). lia. }
    rewrite slice_Some by lia. cbn [option_bind mbind].
    assert (text_between 1 (S (String.length s)) text = s) as ->.
    { unfold text_between, text. cbn [drop_bytes]. rewrite Nat.sub_succ, Nat.sub_0_r. apply take_bytes_app. }
    apply inferExpression_fuel; lia.
  - specialize (Hd (S (S (String.length s))) ltac:(lia)). lia.
Qed.

(** Whatever is inferred is one of the known types. *)
Lemma inferExpression_known fuel : forall original stripped t,
  inferExpression fuel original stripped = Some t -> t ∈ known_types.
Proof.
  induction fuel as [|fuel IH]; intros original stripped t; rewrite inferExpression_eq;
    destruct (has_prefix "(" (trim_left stripped)); try (intros [= <-]; apply infer_literal_known).
  all: destruct (findMatchingDelimiter (trim_left stripped) 0 "(" ")") as [i|]; [|intros [= <-]; by left].
  all: intros (inside & _ & (insideStripped & _ & Ht)%bind_Some)%bind_Some.
  - done.
  - by eapply IH.
Qed.
Lemma infer_known original stripped callOpen t :
  inferResultType original stripped callOpen = Some t -> t ∈ known_types.
Proof.
  assert (Hnone : forall t, Some "" = Some t -> t ∈ known_types) by (intros t' [= <-]; by left).
  unfold inferResultType. destruct (findMatchingDelimiter _ _ _ _) as [i|]; [|apply Hnone].
  destruct (i <=? callOpen); [apply Hnone|].
  intros (o & _ & (s & _ & Ht)%bind_Some)%bind_Some. destruct (find_index _ _) as [[[a b] caps]|]; [|by apply Hnone].
  apply bind_Some in Ht as (o' & _ & (s' & _ & Ht)%bind_Some).
  unfold inferHandlerResultType in Ht. cbn [trimLeadingSpace] in Ht. case_decide.
  { injection Ht as <-. case_match; unfold known_types; set_solver. }
  destruct (has_prefix "{" _); [|by eapply inferExpression_known].
  unfold inferBlockReturnType in Ht. destruct (findMatchingDelimiter _ _ _ _) as [j|]; [|by apply Hnone].
  apply bind_Some in Ht as (bo & _ & (bs & _ & Ht)%bind_Some).
  destruct (index _ _); [|by apply Hnone]. apply bind_Some in Ht as (ro & _ & (rs & _ & Ht)%bind_Some).
  by eapply inferExpression_known.
Qed.

(** ** What goes wrong

    [trimLeadingSpace] trims the source and the blanked source apart, so that after a comment
    the two are no longer aligned: inside parentheses the source may run out first. *)
Definition crashing_source : string := "query({ handler: () => /*        */ (((1))) })".
Lemma comment_crashes_inference :
  inferResultType crashing_source (stripCommentsAndStrings crashing_source) 5 = None.
Proof. vm_compute. reflexivity. Qed.

(** A name that starts like a literal has the type of the literal, and what follows
    a literal does not count. *)
Definition inferred (handler : string) : option string :=
  let source := "query({ handler: () => " +:+ handler +:+ " })" in
  inferResultType source (stripCommentsAndStrings source) 5.
Lemma prefix_taken_for_literal :
  inferred "trueCount(1)" = Some "bool" /\ inferred "[1, 2].length" = Some "[]any" /\
  inferred "{ const returned = 1; return f(returned); }" = Some "".
Proof. vm_compute. split; [done|]. split; done. Qed.

(** A backslash escapes the quote of a template too, but not here: the rest of the
    template is taken for code and the code after it for a template. *)
Definition escaped_template : string := "`\`` + f('a') + `b`".
Lemma template_escape_misread :
  stripCommentsAndStrings escaped_template = "                 b ".
Proof. vm_compute. reflexivity. Qed.

(** An escape takes the byte after the backslash for a blank, whatever it is: the end of a line
    is lost, and at the end of the file there is a byte too many. *)
Lemma escapes_move_lines :
  stripCommentsAndStrings (String "'" (String "\" (String newline "'"))) = "    " /\
  stripCommentsAndStrings "'\" = "   ".
Proof. vm_compute. split; reflexivity. Qed.

Definition sample_text : list token :=
  [Code "a"; BlockComment "x*"; Quoted "'" [Plain "p"; Escaped "'"; Plain "/"]; Code "/"; Template "q'"; LineComment "'"].
Lemma strip_tokens_witness :
  tokens_ok sample_text = true /\ print_tokens sample_text = "a/*x**/'p\'/'/`q'`//'" /\
  stripCommentsAndStrings (print_tokens sample_text) = blank_tokens sample_text /\
  line_ends (stripCommentsAndStrings (print_tokens sample_text)) = line_ends (print_tokens sample_text).
Proof.
  split; [vm_compute; reflexivity|]. split; [vm_compute; reflexivity|].
  exact (strip_tokens sample_text ltac:(vm_compute; reflexivity)).
Defined.

Definition sample_source : string := "import 'x'; export const a = query({ handler: () => ([1]) })".
Lemma infer_total_witness :
  inferResultType sample_source (stripCommentsAndStrings sample_source) 34 = Some "[]any" /\
  exists t, inferResultType sample_source (stripCommentsAndStrings sample_source) 34 = Some t /\ t ∈ known_types.
Proof.
  split; [vm_compute; reflexivity|].
  exact (infer_total sample_source 34
    ltac:(intros callClose Hc; vm_compute in Hc; injection Hc as <-; vm_compute; reflexivity)).
Defined.
