(* ===== verification/CodeGen.v ===== *)
(** * The code generator

    The model of [internal/codegen/codegen.go]: names, the scan of a directory of
    functions and the text of the generated file.

    The directory is a tree; the entries of a directory come in the order of their names.
    The tables of package unicode ([Unicode]), [strconv.Quote], which reads them, and
    [format.Source] of go/format are arguments. *)
From S2P Require Import Prelude GoStrings GoJson GoRegexp GoUnicode JsSource.
From Stdlib Require Import Ascii.
Local Open Scope Z_scope.

Record functionRef : Type := mkRef {
  ref_ModulePath : string;
  ref_Name : string;
  ref_Kind : string;
  ref_VarName : string;
  ref_ResultType : string
}.
#[export] Instance functionRef_eq_dec : EqDecision functionRef.
Proof. solve_decision. Defined.

Inductive codegen_error : Type :=
  | SourceDirRequired
  | InvalidPackageName (name : string)
  | ImportPathRequired
  | SourceDirMissing
  | NotADirectory (path : string)
  | ReadFailed (reason : string)
  | InferencePanic
  | AmbiguousIdentifier (var : string) (previous next : functionRef)
  | FormatFailed (reason : string).

(** ** Names *)

Section Names.
Context `{Unicode}.

(** [strings.FieldsFunc]: the longest stretches of runes that [separator] refuses. *)
Fixpoint fields_func (separator : Z -> bool) (field : list (Z * string)) (l : list (Z * string)) : list string :=
  match l with
  | [] => match field with [] => [] | _ => [runes_bytes field] end
  | (r, b) :: l =>
      if separator r
      then match field with
           | [] => fields_func separator [] l
           | _ => runes_bytes field :: fields_func separator [] l
           end
      else fields_func separator (field ++ [(r, b)]) l
  end.

Definition separates (r : Z) : bool := negb (IsLetter r) && negb (IsDigit r).
Definition splitIdentifierParts (value : string) : list string :=
  filter (fun field => field <> "") (fields_func separates [] (runes value)).

Definition titleIdentifierPart (part : string) : string :=
  if decide (part = "") then ""
  else
    let '(r, size) := decode_rune part in
    if r =? RuneError then ""
    else if IsDigit r then "N" +:+ part
    else encode_rune (ToUpper r) +:+ drop_bytes size part.

Definition exportedVarName (modulePath functionName : string) : string :=
  let parts := splitIdentifierParts (modulePath +:+ "/" +:+ functionName) in
  let out := foldr String.append "" (map titleIdentifierPart parts) in
  let out := if decide (out = "") then "Function" else out in
  let first := fst (decode_rune out) in
  if (first =? RuneError) || negb (IsLetter first) then "Function" +:+ out else out.

Definition isGoIdentifier (value : string) : bool :=
  match runes value with
  | [] => false
  | (first, _) :: rest =>
      ((first =? 95) || IsLetter first)
      && forallb (fun x => (fst x =? 95) || IsLetter (fst x) || IsDigit (fst x)) rest
  end.
End Names.

(** ** Kinds and files *)

Definition refKind (callee : string) : string :=
  if bool_decide (callee = "query") || bool_decide (callee = "internalQuery") then "query"
  else if bool_decide (callee = "mutation") || bool_decide (callee = "internalMutation") then "mutation"
  else if bool_decide (callee = "action") || bool_decide (callee = "internalAction") then "action"
  else "".
Definition constructor (kind : string) : string :=
  if decide (kind = "query") then "NewQueryReference"
  else if decide (kind = "mutation") then "NewMutationReference"
  else if decide (kind = "action") then "NewActionReference"
  else "".

(** No rune outside ASCII has one of the letters of these extensions for its lower
    case. *)
Definition lower_byte (c : ascii) : ascii := if byte_in 65 90 c then chr (code c + 32) else c.
Fixpoint to_lower (s : string) : string :=
  match s with "" => "" | String c s => String (lower_byte c) (to_lower s) end.
Definition isSourceFile (path : string) : bool :=
  let ext := to_lower (path_ext path) in
  bool_decide (ext = ".ts") || bool_decide (ext = ".tsx") || bool_decide (ext = ".js") || bool_decide (ext = ".jsx").

(** [relative] is the path below the source directory, with slashes. *)
Definition modulePath (relative : string) : string := trim_suffix relative (path_ext relative).

(** ** The functions of a file *)

Definition identifier_start (c : ascii) : bool :=
  byte_in 65 90 c || byte_in 97 122 c || Ascii.eqb c "_" || Ascii.eqb c "$".
Definition identifier_part (c : ascii) : bool := identifier_start c || byte_in 48 57 c.
Definition re_spaces1 : regexp := RPlus re_space.
Definition re_function : regexp :=
  RAlts (RLit "query") [RLit "mutation"; RLit "action"; RLit "internalQuery"; RLit "internalMutation";
                        RLit "internalAction"].
Definition exportedFunctionPattern : regexp :=
  RSeqs [RLit "export"; re_spaces1; RLit "const"; re_spaces1;
         RGroup 1 (RSeq (RSet identifier_start) (RStar true identifier_part));
         ROpt (RSeqs [spaces; RLit ":"; spaces; RPlus (fun c => negb (Ascii.eqb c "="))]);
         spaces; RLit "="; spaces; RGroup 2 re_function; spaces; RLit "("].
Definition defaultFunctionPattern : regexp :=
  RSeqs [RLit "export"; re_spaces1; RLit "default"; re_spaces1; RGroup 1 re_function; spaces; RLit "("].

Definition group_text (n : nat) (source : string) (m : re_match) : string :=
  match group n m with Some (i, j) => text_between i j source | None => "" end.
Definition match_end (m : re_match) : nat := snd (fst m).

Definition ref_of (module data source name : string) (kind : nat) (m : re_match) : result codegen_error functionRef :=
  match inferResultType data source (match_end m - 1) with
  | Some t => Ok (mkRef module name (refKind (group_text kind source m)) "" t)
  | None => Err InferencePanic
  end.
Definition refs_of_file (module data : string) : result codegen_error (list functionRef) :=
  let source := stripCommentsAndStrings data in
  exported ← mapM (fun m => ref_of module data source (group_text 1 source m) 2 m) (find_all exportedFunctionPattern source);
  default ← mapM (fun m => ref_of module data source "default" 1 m) (find_all defaultFunctionPattern source);
  mret (exported ++ default).

(** ** The scan *)

Inductive node : Type :=
  | File (data : result string string)
  | Dir (entries : list (string * node)).

Definition skipped_dir (name : string) : bool :=
  bool_decide (name = "_generated") || bool_decide (name = "node_modules") || bool_decide (name = ".git").
Definition below (relative name : string) : string :=
  if decide (relative = "") then name else relative +:+ "/" +:+ name.

Fixpoint walk (name relative : string) (n : node) : result codegen_error (list functionRef) :=
  match n with
  | Dir entries =>
      if skipped_dir name then Ok []
      else
        (fix walk_entries (l : list (string * node)) : result codegen_error (list functionRef) :=
           match l with
           | [] => Ok []
           | (entry, n) :: l =>
               refs ← walk entry (below relative entry) n;
               more ← walk_entries l;
               mret (refs ++ more)
           end) entries
  | File data =>
      if isSourceFile relative
      then match data with
           | Ok data => refs_of_file (modulePath relative) data
           | Err e => Err (ReadFailed e)
           end
      else Ok []
  end.

Definition ref_le (x y : functionRef) : Prop :=
  if decide (ref_ModulePath x = ref_ModulePath y) then String.le (ref_Name x) (ref_Name y)
  else String.le (ref_ModulePath x) (ref_ModulePath y).
#[export] Instance ref_le_dec : RelDecision ref_le.
Proof. intros x y. unfold ref_le. case_decide; apply _. Defined.

Section Scan.
Context `{Unicode}.

Definition set_VarName (v : string) (r : functionRef) : functionRef :=
  mkRef (ref_ModulePath r) (ref_Name r) (ref_Kind r) v (ref_ResultType r).

(** The loop over the sorted references, with the map of the names given so far. *)
Fixpoint name_refs (seen : gmap string functionRef) (refs : list functionRef)
    : result codegen_error (list functionRef) :=
  match refs with
  | [] => Ok []
  | r :: refs =>
      let r := set_VarName (exportedVarName (ref_ModulePath r) (ref_Name r)) r in
      match seen !! ref_VarName r with
      | Some previous => Err (AmbiguousIdentifier (ref_VarName r) previous r)
      | None =>
          more ← name_refs (<[ref_VarName r := r]> seen) refs;
          mret (r :: more)
      end
  end.
Definition scanSourceDir (name : string) (root : node) : result codegen_error (list functionRef) :=
  refs ← walk name "" root;
  name_refs ∅ (merge_sort ref_le refs).

(** ** The generated file *)

Context (quote : string -> string) (format : string -> result string string).

Definition newline_text : string := String newline "".
Definition render_ref (r : functionRef) : string :=
  let resultType := if decide (ref_ResultType r = "") then "any" else ref_ResultType r in
  "// " +:+ ref_VarName r +:+ " references Convex function " +:+ ref_ModulePath r +:+ ":" +:+ ref_Name r +:+ "."
  +:+ newline_text
  +:+ "var " +:+ ref_VarName r +:+ " = convex." +:+ constructor (ref_Kind r) +:+ "[map[string]any, " +:+ resultType
  +:+ "](" +:+ quote (ref_ModulePath r +:+ ":" +:+ ref_Name r) +:+ ")" +:+ newline_text +:+ newline_text.
Definition render (packageName importPath : string) (refs : list functionRef) : result codegen_error string :=
  map_err FormatFailed
    (format ("// Code generated by convex-go-codegen; DO NOT EDIT." +:+ newline_text +:+ newline_text
             +:+ "package " +:+ packageName +:+ newline_text +:+ newline_text
             +:+ "import convex " +:+ quote importPath +:+ newline_text +:+ newline_text
             +:+ foldr String.append "" (map render_ref refs))).

Record Config : Type := mkConfig { SourceDir : string; PackageName : string; ImportPath : string }.

(** [root] is what is at the source directory, with its name. *)
Definition Generate (config : Config) (root : option (string * node)) : result codegen_error string :=
  if decide (trim_space (SourceDir config) = "") then Err SourceDirRequired
  else if negb (isGoIdentifier (PackageName config)) then Err (InvalidPackageName (PackageName config))
  else if decide (trim_space (ImportPath config) = "") then Err ImportPathRequired
  else match root with
       | None => Err SourceDirMissing
       | Some (_, File _) => Err (NotADirectory (SourceDir config))
       | Some (name, Dir entries) =>
           refs ← scanSourceDir name (Dir entries);
           render (PackageName config) (ImportPath config) refs
       end.

(** ** The command

    [runWithIO] of [cmd/convex-go-codegen/main.go], once the flags are parsed.  The files are
    a map from paths to contents; [faults] is what the system answers to a write on
    the standard output, to creating the directory and to writing the file; a
    write that fails leaves the file as it was. *)
Record codegen_flags : Type := mkFlags { config : Config; outPath : string; dryRun : bool; check : bool }.
Inductive command_error : Type :=
  | GenerateError (e : codegen_error)
  | OutRequired
  | OutMissing (path : string)
  | NotUpToDate (path : string)
  | SystemError (reason : string).
Record system_faults : Type := mkFaults {
  stdout_fault : option string;
  mkdir_fault : option string;
  write_fault : option string
}.
Definition system (fault : option string) : result command_error unit :=
  match fault with Some e => Err (SystemError e) | None => Ok () end.

Definition runWithIO (f : codegen_flags) (root : option (string * node)) (faults : system_faults)
    (files : gmap string string) : gmap string string * string * result command_error unit :=
  match Generate (config f) root with
  | Err e => (files, "", Err (GenerateError e))
  | Ok generated =>
      if dryRun f then (files, generated, system (stdout_fault faults))
      else if decide (outPath f = "") then (files, "", Err OutRequired)
      else if check f
      then match files !! outPath f with
           | None => (files, "", Err (OutMissing (outPath f)))
           | Some current =>
               (files, "", if decide (current = generated) then Ok () else Err (NotUpToDate (outPath f)))
           end
      else match mkdir_fault faults, write_fault faults with
           | Some e, _ => (files, "", Err (SystemError e))
           | None, Some e => (files, "", Err (SystemError e))
           | None, None => (<[outPath f := generated]> files, "", Ok ())
           end
  end.
End Scan.
