(* ===== verification/CodeGenFacts.v ===== *)
(** * What the code generator promises

    The properties of CodeGen: the names are Go identifiers, the references are
    sorted, complete and without two of one name, and the scan does not depend on
    the order of the files. *)
From S2P Require Import Prelude GoStrings GoJson GoRegexp GoUnicode JsSource JsFacts Paths CodeGen.
From Stdlib Require Import Ascii.
Local Open Scope Z_scope.

#[local] Arguments String.append !_ _ /.

(** ** Names *)

Section Names.
Context `{Unicode} `{!UnicodeLaws}.

Definition name_rune (x : Z * string) : Prop := true_rune x /\ (IsLetter (fst x) = true \/ IsDigit (fst x) = true).

Lemma name_rune_true l : Forall name_rune l -> Forall true_rune l.
Proof. intros Hl. eapply Forall_impl; [exact Hl|]. by intros x [? _]. Qed.
Lemma name_runes l : Forall name_rune l -> runes (runes_bytes l) = l.
Proof.
  intros Hl%name_rune_true. pose proof (runes_of_bytes l "" Hl) as E. by rewrite str_app_nil_r, app_nil_r in E.
Qed.
Lemma runes_bytes_nonempty x l : Forall name_rune (x :: l) -> runes_bytes (x :: l) <> "".
Proof. intros Hl E. apply name_runes in Hl. by rewrite E in Hl. Qed.

(** A field is a stretch of letters and digits. *)
Lemma fields_spec l : forall field,
  Forall (fun x => fst x = RuneError \/ true_rune x) l -> Forall name_rune field ->
  Forall (fun f => exists x l', f = runes_bytes (x :: l') /\ Forall name_rune (x :: l')) (fields_func separates field l).
Proof.
  assert (Hone : forall field, Forall name_rune field -> field <> [] ->
    exists x l', runes_bytes field = runes_bytes (x :: l') /\ Forall name_rune (x :: l')).
  { intros [|x l'] Hf Hne; [done|by exists x, l']. }
  induction l as [|[r b] l IH]; intros field Hl Hf; cbn [fields_func].
  - destruct field; [constructor|]. constructor; [by apply Hone|constructor].
  - apply Forall_cons in Hl as [Hx Hl]. destruct (separates r) eqn:Es.
    + destruct field; [by apply IH|]. constructor; [by apply Hone|by apply IH].
    + apply IH; [done|]. apply Forall_app. split; [done|]. constructor; [|constructor].
      unfold separates in Es. cbn [fst] in *.
      assert (Hc : IsLetter r = true \/ IsDigit r = true) by (destruct (IsLetter r), (IsDigit r); by auto).
      split; [|done]. destruct Hx as [->|?]; [|done].
      destruct Hc as [Hc|Hc]; [by apply letter_valid in Hc as [_ []]|by apply digit_valid in Hc as [_ []]].
Qed.

Lemma parts_spec value :
  Forall (fun f => exists x l, f = runes_bytes (x :: l) /\ Forall name_rune (x :: l)) (splitIdentifierParts value).
Proof.
  pose proof (fields_spec (runes value) [] (runes_true value) (Forall_nil_2 _)) as Hf. rewrite Forall_forall in Hf |- *.
  intros f [_ Hin]%list_elem_of_filter. by apply Hf.
Qed.

(** A word of a name: its first rune is a letter and not a lower-case one of ASCII. *)
Definition title_word (s : string) : Prop :=
  exists x l, s = runes_bytes (x :: l) /\ Forall name_rune (x :: l) /\ IsLetter (fst x) = true /\ ~ 97 <= fst x <= 122.

Lemma ascii_name_rune c :
  0 <= code c < 128 -> IsLetter (code c) = true -> name_rune (code c, String c "").
Proof. intros Hc Hl. split; [by apply true_rune_1|by left]. Qed.

Lemma title_part x l : Forall name_rune (x :: l) -> title_word (titleIdentifierPart (runes_bytes (x :: l))).
Proof.
  intros Hl. unfold titleIdentifierPart. rewrite decide_False by by apply runes_bytes_nonempty.
  unfold decode_rune. rewrite name_runes by done. destruct x as [r b].
  pose proof Hl as [[[Hv Hb] Hc] Hl']%Forall_cons. cbn [fst snd] in *.
  destruct (Z.eqb_spec r RuneError) as [->|Hne].
  { exfalso. destruct Hc as [Hc|Hc]; [by apply letter_valid in Hc as [_ []]|by apply digit_valid in Hc as [_ []]]. }
  destruct (IsDigit r) eqn:Hd.
  - assert (HN : IsLetter (code "N") = true) by (rewrite ascii_letter by (vm_compute; split; congruence); done).
    exists (code "N", "N"), ((r, b) :: l). split_and!; [done| |done|vm_compute; intros [? _]; congruence].
    constructor; [|done]. apply ascii_name_rune; [vm_compute; split; congruence|done].
  - assert (Hlt : IsLetter r = true) by (destruct Hc; [done|congruence]).
    pose proof (letter_upper _ Hlt) as Hu. exists (ToUpper r, encode_rune (ToUpper r)), l.
    split_and!; [| |done|by apply upper_not_lower].
    + unfold runes_bytes. cbn [map foldr snd]. by rewrite drop_bytes_app.
    + constructor; [|done]. split; [|by left]. split; [|done]. by apply letter_valid.
Qed.

Lemma title_words_app s t : title_word s -> t = "" \/ title_word t -> title_word (s +:+ t).
Proof.
  intros (x & l & -> & Hl & Hx) [->|(y & l' & -> & Hl' & _)].
  - rewrite str_app_nil_r. by exists x, l.
  - exists x, (l ++ y :: l'). split_and!; [by rewrite <- runes_bytes_app| |apply Hx|apply Hx].
    rewrite app_comm_cons. by apply Forall_app.
Qed.
Lemma title_words_concat ss :
  Forall title_word ss -> foldr String.append "" ss = "" \/ title_word (foldr String.append "" ss).
Proof. induction 1 as [|s ss Hs _ IH]; [by left|]. right. by apply title_words_app. Qed.

Lemma function_word : title_word "Function".
Proof.
  exists (code "F", "F"), [(code "u", "u"); (code "n", "n"); (code "c", "c"); (code "t", "t"); (code "i", "i");
                          (code "o", "o"); (code "n", "n")].
  assert (Hn : forall c, (65 <=? code c) && (code c <=? 90) || (97 <=? code c) && (code c <=? 122) = true ->
    name_rune (code c, String c "") /\ IsLetter (code c) = true).
  { intros c Hc. assert (0 <= code c < 128) by lia.
    assert (IsLetter (code c) = true) by by rewrite ascii_letter. split; [by apply ascii_name_rune|done]. }
  split_and!; [done| |by apply Hn|vm_compute; intros [? _]; congruence].
  repeat constructor; by apply Hn.
Qed.

Lemma exportedVarName_word modulePath functionName : title_word (exportedVarName modulePath functionName).
Proof.
  unfold exportedVarName. set (parts := splitIdentifierParts _). set (out := foldr String.append "" _).
  assert (Hout : title_word (if decide (out = "") then "Function" else out)).
  { destruct (title_words_concat (map titleIdentifierPart parts)) as [E|Hw].
    - apply Forall_map. eapply Forall_impl; [apply parts_spec|]. intros f (x & l & -> & Hl). by apply title_part.
    - fold out in E. rewrite E. apply function_word.
    - fold out in Hw. case_decide as E; [|done]. apply function_word. }
  set (name := if decide (out = "") then "Function" else out) in *.
  destruct ((fst (decode_rune name) =? RuneError) || negb (IsLetter (fst (decode_rune name)))); [|done].
  apply title_words_app; [apply function_word|by right].
Qed.

(** C0. Every generated name is a Go identifier, whatever the path and the
    name of the function are, and begins with a letter that is not a lower-case
    letter of ASCII, so that it is none of Go's keywords. *)
Theorem exportedVarName_identifier modulePath functionName :
  let name := exportedVarName modulePath functionName in
  isGoIdentifier name = true /\ IsLetter (fst (decode_rune name)) = true /\ ~ 97 <= fst (decode_rune name) <= 122.
Proof.
  destruct (exportedVarName_word modulePath functionName) as ([r b] & l & -> & Hl & Hx & Hlow).
  cbv zeta. unfold isGoIdentifier, decode_rune. rewrite name_runes by done. cbn [fst] in *.
  split_and!; [|done|done]. rewrite Hx, orb_true_r. cbn [andb].
  apply forallb_forall. intros y Hy%list_elem_of_In. apply Forall_cons in Hl as [_ Hl].
  rewrite Forall_forall in Hl. destruct (Hl _ Hy) as [_ [->| ->]]; by rewrite ?orb_true_r.
Qed.
End Names.

(** ** Sorting and naming *)

#[export] Instance ref_le_transitive : Transitive ref_le.
Proof.
  intros x y z. unfold ref_le.
  destruct (decide (ref_ModulePath x = ref_ModulePath y)) as [E1|E1],
    (decide (ref_ModulePath y = ref_ModulePath z)) as [E2|E2],
    (decide (ref_ModulePath x = ref_ModulePath z)) as [E3|E3]; intros A B; try congruence.
  - by transitivity (ref_Name y).
  - destruct E1. apply (anti_symm String.le); [done|]. by rewrite E3.
  - by transitivity (ref_ModulePath y).
Qed.
#[export] Instance ref_le_total : Total ref_le.
Proof.
  intros x y. unfold ref_le. destruct (decide (ref_ModulePath x = ref_ModulePath y)) as [E|E].
  - rewrite decide_True by done. apply (total String.le).
  - rewrite decide_False by done. apply (total String.le).
Qed.
Lemma ref_le_both x y : ref_le x y -> ref_le y x -> ref_ModulePath x = ref_ModulePath y /\ ref_Name x = ref_Name y.
Proof.
  unfold ref_le. destruct (decide (ref_ModulePath x = ref_ModulePath y)) as [E|E].
  - rewrite decide_True by done. intros H1 H2. split; [done|by apply (anti_symm String.le)].
  - rewrite decide_False by done. intros H1 H2. destruct E. by apply (anti_symm String.le).
Qed.

Section Naming.
Context `{Unicode}.

Definition var_of (r : functionRef) : string := exportedVarName (ref_ModulePath r) (ref_Name r).
Definition named (r : functionRef) : functionRef := set_VarName (var_of r) r.

Lemma name_refs_Ok l : forall seen out,
  name_refs seen l = Ok out ->
  out = map named l /\ NoDup (map var_of l) /\ forall v, v ∈ map var_of l -> seen !! v = None.
Proof.
  induction l as [|r l IH]; intros seen out; cbn [name_refs].
  - intros [= <-]. split_and!; [done|constructor|]. intros v Hv. by apply not_elem_of_nil in Hv.
  - fold (var_of r). fold (named r). change (ref_VarName (named r)) with (var_of r).
    destruct (seen !! var_of r) eqn:Es; [done|]. intros (more & (-> & Hnd & Hfresh)%IH & [= <-])%bind_Ok.
    split_and!; [done| |].
    + constructor; [|done]. intros Hin. apply Hfresh in Hin. by rewrite lookup_insert_eq in Hin.
    + intros v [->|Hv]%elem_of_cons; [done|]. apply Hfresh in Hv. by apply lookup_insert_None in Hv as [? _].
Qed.
Lemma name_refs_Err l : forall seen e,
  name_refs seen l = Err e ->
  exists v previous next, e = AmbiguousIdentifier v previous next /\ next ∈ map named l /\ var_of next = v /\
    (seen !! v = Some previous \/ previous ∈ map named l /\ var_of previous = v /\ ~ NoDup (map var_of l)).
Proof.
  induction l as [|r l IH]; intros seen e; cbn [name_refs]; [done|].
  fold (var_of r). fold (named r). change (ref_VarName (named r)) with (var_of r).
  destruct (seen !! var_of r) as [p|] eqn:Es.
  - intros [= <-]. exists (var_of r), p, (named r). split_and!; [done|by left|done|by left].
  - destruct (name_refs (<[var_of r := named r]> seen) l) as [more|e'] eqn:Em; [done|]. intros [= <-].
    destruct (IH _ _ Em) as (v & p & n & -> & Hn & Hv & Hp). exists v, p, n.
    split_and!; [done|by right|done|]. destruct Hp as [[[<- <-]|[_ Hp]]%lookup_insert_Some|(Hp & Hpv & Hnd)].
    + right. split_and!; [by left|done|]. intros [Hr _]%NoDup_cons. apply Hr.
      apply list_elem_of_fmap in Hn as (r' & -> & Hr'). apply list_elem_of_fmap. exists r'. by split.
    + by left.
    + right. split_and!; [by right|done|]. by intros [_ ?]%NoDup_cons.
Qed.

Lemma named_vars l : map ref_VarName (map named l) = map var_of l.
Proof. rewrite map_map. by apply map_ext. Qed.
Lemma named_sorted l : StronglySorted ref_le l -> StronglySorted ref_le (map named l).
Proof.
  induction 1 as [|r l _ IH Hr]; [constructor|]. cbn [map]. constructor; [done|].
  by apply Forall_map.
Qed.

(** One name stands for one reference. *)
Lemma same_name l x y : NoDup (map var_of l) -> x ∈ l -> y ∈ l -> var_of x = var_of y -> x = y.
Proof.
  intros Hnd Hx Hy E. apply list_elem_of_lookup in Hx as [i Hi], Hy as [j Hj].
  assert (i = j) as <-; [|congruence].
  apply (NoDup_lookup (map var_of l) i j (var_of x)); [done|by rewrite list_lookup_fmap, Hi|].
  rewrite list_lookup_fmap, Hj. cbn. by rewrite E.
Qed.

Lemma sort_refs_unique l1 l2 :
  l1 ≡ₚ l2 -> NoDup (map var_of l1) -> merge_sort ref_le l1 = merge_sort ref_le l2.
Proof.
  intros Hp Hnd. apply (StronglySorted_unique_strong ref_le).
  - intros x y Hx Hy Hxy Hyx. rewrite merge_sort_Permutation in Hx. rewrite merge_sort_Permutation, <- Hp in Hy.
    apply (same_name l1); [done..|]. unfold var_of. by destruct (ref_le_both _ _ Hxy Hyx) as [-> ->].
  - apply (StronglySorted_merge_sort ref_le).
  - apply (StronglySorted_merge_sort ref_le).
  - by rewrite !merge_sort_Permutation.
Qed.

(** C30. The scan succeeds exactly when the functions found have names of their own. The
    references are then the functions found, each once and with its name, in
    the order of module and function, and they are the same in whatever order the
    files were visited; otherwise the error names two functions with one name. *)
Theorem scan_spec name root refs (Hwalk : walk name "" root = Ok refs) :
  if decide (NoDup (map var_of refs)) then
    exists out, scanSourceDir name root = Ok out /\ out ≡ₚ map named refs /\ StronglySorted ref_le out /\
      NoDup (map ref_VarName out) /\
      forall name' root' refs', walk name' "" root' = Ok refs' -> refs' ≡ₚ refs -> scanSourceDir name' root' = Ok out
  else
    exists v p n, scanSourceDir name root = Err (AmbiguousIdentifier v p n) /\
      p ∈ map named refs /\ n ∈ map named refs /\ var_of p = v /\ var_of n = v.
Proof.
  unfold scanSourceDir. rewrite Hwalk. cbn [mbind result_bind].
  pose proof (merge_sort_Permutation ref_le refs) as Hp.
  assert (Hvars : map var_of (merge_sort ref_le refs) ≡ₚ map var_of refs) by by rewrite Hp.
  destruct (name_refs ∅ (merge_sort ref_le refs)) as [out|e] eqn:E.
  - pose proof (name_refs_Ok _ _ _ E) as (-> & Hnd & _). rewrite Hvars in Hnd. rewrite decide_True by done.
    eexists. split_and!; [done|by rewrite Hp|apply named_sorted, (StronglySorted_merge_sort ref_le)| |].
    + by rewrite named_vars, Hvars.
    + intros name' root' refs' -> Hp'. cbn [mbind result_bind].
      rewrite (sort_refs_unique refs' refs) by (by rewrite Hp' + done). by rewrite E.
  - apply name_refs_Err in E as (v & p & n & -> & Hn & Hv & [Hs|(Hpr & Hpv & Hnd)]); [by rewrite lookup_empty in Hs|].
    rewrite decide_False by by rewrite <- Hvars. exists v, p, n.
    split_and!; [done| | |done|done]; by rewrite <- Hp.
Qed.
End Naming.

(** ** The functions of a file *)

Section Matches.
Local Open Scope nat_scope.

Lemma seq_inv r1 r2 pos s caps pos2 s2 caps2 :
  Match (RSeq r1 r2) pos s caps pos2 s2 caps2 ->
  exists pos1 s1 caps1, Match r1 pos s caps pos1 s1 caps1 /\ Match r2 pos1 s1 caps1 pos2 s2 caps2.
Proof. inversion 1; subst; eauto 6. Qed.
Lemma group_inv n r pos s caps pos' s' caps' :
  Match (RGroup n r) pos s caps pos' s' caps' ->
  exists caps1, Match r pos s caps pos' s' caps1 /\ caps' = (n, (pos, pos')) :: caps1.
Proof. inversion 1; subst; eauto. Qed.
Lemma set_inv f pos s caps pos' s' caps' :
  Match (RSet f) pos s caps pos' s' caps' -> exists c, f c = true /\ s = String c s' /\ pos' = S pos /\ caps' = caps.
Proof. inversion 1; subst; eauto 6. Qed.

Fixpoint groups_free (r : regexp) : bool :=
  match r with
  | REmpty | RSet _ | RStar _ _ => true
  | RSeq r1 r2 | RAlt r1 r2 => groups_free r1 && groups_free r2
  | RGroup _ _ => false
  end.
Lemma groups_free_caps r pos s caps pos' s' caps' :
  Match r pos s caps pos' s' caps' -> groups_free r = true -> caps' = caps.
Proof.
  induction 1; cbn [groups_free]; intros Hf; try done; try (apply andb_prop in Hf as [Hf1 Hf2]); auto.
  rewrite IHMatch2 by done. auto.
Qed.

(** The text a match takes. *)
Definition taken (pos pos' : nat) (s : string) : string := take_bytes (pos' - pos) s.

Lemma star_text greedy f pos s caps pos' s' caps' :
  Match (RStar greedy f) pos s caps pos' s' caps' -> all_bytes f (taken pos pos' s) = true.
Proof.
  intros HM. remember (RStar greedy f) as r eqn:Hr. induction HM; try discriminate; injection Hr as -> ->.
  - unfold taken. rewrite Nat.sub_diag. by destruct s.
  - pose proof (Match_rest _ _ _ _ _ _ _ HM) as (L & _ & _). unfold taken in *.
    replace (pos' - pos) with (S (pos' - S pos)) by lia. cbn [take_bytes all_bytes]. by rewrite H, IHHM.
Qed.
Lemma lit_text w : forall pos s caps pos' s' caps',
  Match (RLit w) pos s caps pos' s' caps' -> s = w +:+ s' /\ pos' = pos + String.length w.
Proof.
  induction w as [|c w IH]; intros pos s caps pos' s' caps'; cbn [RLit].
  - inversion 1; subst. split; [done|cbn; lia].
  - intros (pos1 & s1 & caps1 & (c' & ->%Ascii.eqb_eq & -> & -> & ->)%set_inv & (-> & ->)%IH)%seq_inv.
    split; [done|cbn; lia].
Qed.
Lemma lit_taken w pos s caps pos' s' caps' :
  Match (RLit w) pos s caps pos' s' caps' -> taken pos pos' s = w.
Proof.
  intros (-> & ->)%lit_text. unfold taken. replace (pos + String.length w - pos) with (String.length w) by lia.
  apply take_bytes_app.
Qed.
Lemma alts_text l : forall w pos s caps pos' s' caps',
  Match (RAlts (RLit w) (map RLit l)) pos s caps pos' s' caps' -> taken pos pos' s ∈ w :: l.
Proof.
  induction l as [|w' l IH]; intros w pos s caps pos' s' caps'; cbn [map RAlts].
  - intros ->%lit_taken. by left.
  - rewrite elem_of_cons. inversion 1; subst; [left; by eapply lit_taken|right; by eapply IH].
Qed.
End Matches.

Definition callees : list string :=
  ["query"; "mutation"; "action"; "internalQuery"; "internalMutation"; "internalAction"].
Definition kinds : list string := ["query"; "mutation"; "action"].

(** An identifier of JavaScript, in ASCII. *)
Definition js_identifier (s : string) : Prop :=
  exists c t, s = String c t /\ identifier_start c = true /\ all_bytes identifier_part t = true.

Section Found.
Local Open Scope nat_scope.
Context (source : string).

Definition left_at (pos : nat) (s : string) : Prop := s = drop_bytes pos source.

Lemma left_after r pos s caps pos' s' caps' :
  Match r pos s caps pos' s' caps' -> left_at pos s -> left_at pos' s'.
Proof.
  unfold left_at. intros (L & _ & ->)%Match_rest ->. rewrite drop_bytes_drop. f_equal. lia.
Qed.

(** A piece of the pattern without groups, and what comes after it. *)
Lemma skip_piece r1 r2 pos s caps pos2 s2 caps2 :
  groups_free r1 = true -> left_at pos s -> Match (RSeq r1 r2) pos s caps pos2 s2 caps2 ->
  exists pos1 s1, left_at pos1 s1 /\ Match r2 pos1 s1 caps pos2 s2 caps2.
Proof.
  intros Hf Hs (pos1 & s1 & caps1 & H1 & H2)%seq_inv. pose proof (groups_free_caps _ _ _ _ _ _ _ H1 Hf) as ->.
  exists pos1, s1. split; [by eapply left_after|done].
Qed.
(** A group of the pattern. *)
Lemma take_group n r1 r2 pos s caps pos2 s2 caps2 :
  groups_free r1 = true -> left_at pos s -> Match (RSeq (RGroup n r1) r2) pos s caps pos2 s2 caps2 ->
  exists pos1 s1, left_at pos1 s1 /\ Match r1 pos s caps pos1 s1 caps /\ taken pos pos1 s = text_between pos pos1 source /\
    Match r2 pos1 s1 ((n, (pos, pos1)) :: caps) pos2 s2 caps2.
Proof.
  intros Hf Hs (pos1 & s1 & caps1 & (caps0 & H1 & ->)%group_inv & H2)%seq_inv.
  pose proof (groups_free_caps _ _ _ _ _ _ _ H1 Hf) as ->. exists pos1, s1.
  split_and!; [by eapply left_after|done| |done]. unfold taken, text_between. by rewrite Hs.
Qed.
Lemma last_paren pos s caps pos' s' caps' :
  left_at pos s -> Match (RLit "(") pos s caps pos' s' caps' ->
  String.get (pos' - 1) source = Some "("%char /\ caps' = caps.
Proof.
  intros Hs HM. pose proof (groups_free_caps _ _ _ _ _ _ _ HM eq_refl) as ->. apply lit_text in HM as (E & ->).
  split; [|done]. cbn [String.length]. rewrite Nat.add_sub. rewrite Hs in E. clear -E.
  revert source E. induction pos as [|pos IH]; intros [|c source] E; cbn in *; try done; [by injection E as -> _|by apply IH].
Qed.
End Found.

Ltac skip H Hs :=
  eapply skip_piece in H; [|reflexivity|exact Hs]; clear Hs; destruct H as (? & ? & Hs & H).

Lemma exported_found source m :
  m ∈ find_all exportedFunctionPattern source ->
  js_identifier (group_text 1 source m) /\ group_text 2 source m ∈ callees /\
  String.get (match_end m - 1) source = Some "("%char.
Proof.
  destruct (find_all_spec exportedFunctionPattern source) as (HF & _ & _). rewrite Forall_forall in HF.
  intros Hm%HF. destruct m as [[i j] caps]. destruct Hm as (_ & _ & HM). rewrite !Nat.sub_0_r in HM.
  assert (Hs : left_at source i (drop_bytes i source)) by done.
  unfold exportedFunctionPattern in HM. cbn [RSeqs] in HM.
  do 4 skip HM Hs. eapply take_group in HM; [|reflexivity|exact Hs]. clear Hs.
  destruct HM as (p1 & s1 & Hs & Hid & Ht1 & HM).
  do 4 skip HM Hs. eapply take_group in HM; [|reflexivity|exact Hs]. clear Hs.
  destruct HM as (p2 & s2 & Hs & Hfn & Ht2 & HM).
  skip HM Hs. apply (last_paren source) in HM as [Hp ->]; [|exact Hs].
  unfold group_text, group. cbn [snd List.find fst Nat.eqb fmap option_fmap option_map]. split_and!; [| |exact Hp].
  - rewrite <- Ht1. apply seq_inv in Hid as (q & t & c & (ch & Hch & -> & -> & ->)%set_inv & Hst).
    pose proof (Match_rest _ _ _ _ _ _ _ Hst) as (L & _ & _). apply star_text in Hst. unfold taken in *.
    match goal with |- js_identifier (take_bytes (p1 - ?q) _) =>
      replace (p1 - q)%nat with (S (p1 - S q)) by lia; by exists ch, (take_bytes (p1 - S q) t)
    end.
  - rewrite <- Ht2. by apply (alts_text (tail callees)) in Hfn.
Qed.
Lemma default_found source m :
  m ∈ find_all defaultFunctionPattern source ->
  group_text 1 source m ∈ callees /\ String.get (match_end m - 1) source = Some "("%char.
Proof.
  destruct (find_all_spec defaultFunctionPattern source) as (HF & _ & _). rewrite Forall_forall in HF.
  intros Hm%HF. destruct m as [[i j] caps]. destruct Hm as (_ & _ & HM). rewrite !Nat.sub_0_r in HM.
  assert (Hs : left_at source i (drop_bytes i source)) by done.
  unfold defaultFunctionPattern in HM. cbn [RSeqs] in HM.
  do 4 skip HM Hs. eapply take_group in HM; [|reflexivity|exact Hs]. clear Hs.
  destruct HM as (p1 & s1 & Hs & Hfn & Ht1 & HM).
  skip HM Hs. apply (last_paren source) in HM as [Hp ->]; [|exact Hs].
  unfold group_text, group. cbn [snd List.find fst Nat.eqb fmap option_fmap option_map]. split; [|exact Hp].
  rewrite <- Ht1. by apply (alts_text (tail callees)) in Hfn.
Qed.

(** ** All references *)

(** What a reference needs to be rendered. *)
Definition ref_ok (r : functionRef) : Prop :=
  js_identifier (ref_Name r) /\ ref_Kind r ∈ kinds /\ ref_ResultType r ∈ known_types.

Lemma refKind_callee callee : callee ∈ callees -> refKind callee ∈ kinds.
Proof.
  unfold callees, kinds. rewrite !elem_of_cons, elem_of_nil.
  intros [->|[->|[->|[->|[->|[->|[]]]]]]]; vm_compute; set_solver.
Qed.

Lemma ref_of_ok module data source name kind m r :
  js_identifier name -> group_text kind source m ∈ callees -> ref_of module data source name kind m = Ok r -> ref_ok r.
Proof.
  intros Hn Hk. unfold ref_of. destruct (inferResultType _ _ _) as [t|] eqn:Et; [|done]. intros [= <-].
  split_and!; [done|by apply refKind_callee|by eapply infer_known].
Qed.

Lemma mapM_Forall {E A B : Type} (f : A -> result E B) (P : B -> Prop) l k :
  mapM f l = Ok k -> (forall a b, a ∈ l -> f a = Ok b -> P b) -> Forall P k.
Proof.
  revert k. induction l as [|a l IH]; intros k; cbn.
  - intros [= <-] _. constructor.
  - intros (b & Hb & (k' & Hk' & [= <-])%bind_Ok)%bind_Ok HP. constructor.
    + apply (HP a); [by left|done].
    + apply IH; [done|]. intros a' b' Ha'. apply HP. by right.
Qed.

Lemma refs_of_file_ok module data refs : refs_of_file module data = Ok refs -> Forall ref_ok refs.
Proof.
  unfold refs_of_file. intros (exported & He & (default & Hd & [= <-])%bind_Ok)%bind_Ok. apply Forall_app. split.
  - apply (mapM_Forall _ _ _ _ He). intros m r Hm%exported_found Hr. destruct Hm as (Hn & Hk & _). by eapply ref_of_ok.
  - apply (mapM_Forall _ _ _ _ Hd). intros m r Hm%default_found Hr. destruct Hm as (Hk & _).
    eapply ref_of_ok; [|exact Hk|exact Hr]. by exists "d"%char, "efault".
Qed.

Lemma node_ind' (P : node -> Prop) :
  (forall data, P (File data)) ->
  (forall entries, (forall entry n, (entry, n) ∈ entries -> P n) -> P (Dir entries)) ->
  forall n, P n.
Proof.
  intros HF HD. fix IH 1. intros [data|entries]; [apply HF|]. apply HD.
  induction entries as [|[e n] entries IHe]; [intros entry m Hin; destruct (not_elem_of_nil _ Hin)|].
  pose proof (IH n) as Hn. intros entry m [E|Hin]%elem_of_cons; [|exact (IHe entry m Hin)].
  injection E as _ ->. exact Hn.
Qed.

Lemma walk_ok n : forall name relative refs, walk name relative n = Ok refs -> Forall ref_ok refs.
Proof.
  induction n as [data|entries IH] using node_ind'; intros name relative refs; cbn [walk].
  - destruct (isSourceFile relative); [|by intros [= <-]]. destruct data as [data|e]; [apply refs_of_file_ok|done].
  - destruct (skipped_dir name); [by intros [= <-]|].
    revert refs. induction entries as [|[entry n] entries IHe]; intros refs; [by intros [= <-]|].
    intros (r1 & H1 & (r2 & H2 & [= <-])%bind_Ok)%bind_Ok. apply Forall_app. split.
    + eapply IH; [by left|exact H1].
    + apply IHe; [|exact H2]. intros e m Hin. apply (IH e). by right.
Qed.

(** Every reference of a scan can be rendered: it is a variable with the name of a Go
    identifier that is no keyword, made by the constructor of its kind, with one of the
    known result types, for a function whose name is an identifier. *)
Theorem scan_references `{Unicode} `{!UnicodeLaws} name root refs (Hscan : scanSourceDir name root = Ok refs) :
  Forall (fun r =>
    isGoIdentifier (ref_VarName r) = true /\ ~ 97 <= fst (decode_rune (ref_VarName r)) <= 122 /\
    constructor (ref_Kind r) ∈ ["NewQueryReference"; "NewMutationReference"; "NewActionReference"] /\
    ref_ResultType r ∈ known_types /\ js_identifier (ref_Name r)) refs.
Proof.
  unfold scanSourceDir in Hscan. apply bind_Ok in Hscan as (found & Hw%walk_ok & (-> & _ & _)%name_refs_Ok).
  apply Forall_map. rewrite Forall_forall in Hw |- *. intros r Hr. rewrite merge_sort_Permutation in Hr.
  destruct (Hw _ Hr) as (Hn & Hk & Ht).
  destruct (exportedVarName_identifier (ref_ModulePath r) (ref_Name r)) as (Hi & _ & Hlow).
  split_and!; [exact Hi|exact Hlow| |exact Ht|exact Hn].
  cbn. unfold kinds in Hk. rewrite !elem_of_cons, elem_of_nil in Hk |- *. by destruct Hk as [->|[->|[->|[]]]]; auto.
Qed.

(** ** The command *)

Section Command.
Context `{Unicode} (quote : string -> string) (format : string -> result string string).

(** A file that was written passes the check, as long as the sources and the flags are the same;
    the check itself changes nothing. *)
Theorem written_file_checks f root faults files files' stdout :
  runWithIO quote format f root faults files = (files', stdout, Ok ()) -> dryRun f = false ->
  runWithIO quote format (mkFlags (config f) (outPath f) false true) root faults files' = (files', "", Ok ()).
Proof.
  unfold runWithIO. cbn [config outPath dryRun check].
  destruct (Generate quote format (config f) root) as [generated|e]; [|done]. intros Hrun Hdry. rewrite Hdry in Hrun.
  destruct (decide (outPath f = "")); [done|]. destruct (check f).
  - destruct (files !! outPath f) as [current|] eqn:E; [|done]. injection Hrun as <- _ Hc. rewrite E. by case_decide.
  - destruct (mkdir_fault faults), (write_fault faults); try done. injection Hrun as <- _.
    by rewrite lookup_insert_eq, decide_True.
Qed.

(** Only a run that is neither dry nor a check writes, only its output, and only what was
    generated. *)
Theorem command_writes_output_only f root faults files files' stdout r :
  runWithIO quote format f root faults files = (files', stdout, r) ->
  files' = files \/
  exists generated, Generate quote format (config f) root = Ok generated /\ dryRun f = false /\ check f = false /\
    r = Ok () /\ files' = <[outPath f := generated]> files.
Proof.
  unfold runWithIO. destruct (Generate quote format (config f) root) as [generated|e]; [|intros [= <- _ _]; by left].
  destruct (dryRun f); [intros [= <- _ _]; by left|]. case_decide; [intros [= <- _ _]; by left|].
  destruct (check f); [destruct (files !! outPath f); intros [= <- _ _]; by left|].
  destruct (mkdir_fault faults), (write_fault faults); intros [= <- _ <-]; [by left..|].
  right. by exists generated.
Qed.
End Command.

(** ** Examples *)

Definition sample_root : node :=
  Dir [("_generated", Dir [("api.ts", File (Ok "export const hidden = query({})"))]);
       ("jobs", Dir [("daily.ts", File (Ok "export const run: Job = internalAction({});"))]);
       ("messages.ts", File (Ok "import 'x'; export const list = query({ handler: () => ([1]) }); export default mutation({})"));
       ("notes.txt", File (Ok "export const text = query({})"))].
Definition sample_found : list functionRef :=
  [mkRef "jobs/daily" "run" "action" "" ""; mkRef "messages" "list" "query" "" "[]any";
   mkRef "messages" "default" "mutation" "" ""].
Definition sample_refs : list functionRef :=
  [mkRef "jobs/daily" "run" "action" "JobsDailyRun" ""; mkRef "messages" "default" "mutation" "MessagesDefault" "";
   mkRef "messages" "list" "query" "MessagesList" "[]any"].

Lemma scan_spec_witness :
  scanSourceDir "convex" sample_root = Ok sample_refs /\
  exists out, scanSourceDir "convex" sample_root = Ok out /\ out ≡ₚ map named sample_found.
Proof.
  split; [vm_compute; reflexivity|].
  pose proof (@scan_spec ascii_unicode "convex" sample_root sample_found ltac:(vm_compute; reflexivity)) as Hs.
  destruct (decide (NoDup (map var_of sample_found))) as [Hnd|Hnd].
  - destruct Hs as (out & Hout & Hp & _). exists out. split; [exact Hout|exact Hp].
  - exfalso. apply Hnd. apply (bool_decide_unpack _). vm_compute. exact I.
Defined.

Lemma scan_references_witness :
  Forall (fun r =>
    isGoIdentifier (ref_VarName r) = true /\ ~ 97 <= fst (decode_rune (ref_VarName r)) <= 122 /\
    constructor (ref_Kind r) ∈ ["NewQueryReference"; "NewMutationReference"; "NewActionReference"] /\
    ref_ResultType r ∈ known_types /\ js_identifier (ref_Name r)) sample_refs.
Proof. apply (@scan_references ascii_unicode ascii_laws "convex" sample_root sample_refs). vm_compute. reflexivity. Defined.

(** The whole of [Generate], with the formatting left out and a [Quote] that is
    enough for these texts. *)
Definition plain_quote (s : string) : string := String (chr 34) (s +:+ String (chr 34) "").
Definition lines (l : list string) : string := foldr (fun line rest => line +:+ newline_text +:+ rest) "" l.
Example Generate_sample :
  Generate plain_quote (fun s => Ok s) (mkConfig "convex" "api" "example.com/convex")
    (Some ("convex", Dir [("jobs.ts", File (Ok "export const run = action ({})"))])) =
  Ok (lines ["// Code generated by convex-go-codegen; DO NOT EDIT."; ""; "package api"; "";
             "import convex " +:+ plain_quote "example.com/convex"; "";
             "// JobsRun references Convex function jobs:run.";
             "var JobsRun = convex.NewActionReference[map[string]any, any](" +:+ plain_quote "jobs:run" +:+ ")"; ""]).
Proof. vm_compute. reflexivity. Qed.

(** Two files whose names differ in a byte that is no letter: the scan refuses them. *)
Example ambiguous_names :
  scanSourceDir "convex"
    (Dir [("foo-bar.ts", File (Ok "export const baz = query({})")); ("foo_bar.ts", File (Ok "export const baz = query({})"))]) =
  Err (AmbiguousIdentifier "FooBarBaz" (mkRef "foo-bar" "baz" "query" "FooBarBaz" "")
                                       (mkRef "foo_bar" "baz" "query" "FooBarBaz" "")).
Proof. vm_compute. reflexivity. Qed.

(** ** References that cannot be called

    The generator takes paths and names that the client refuses. *)
Lemma generated_path_refused :
  scanSourceDir "convex" (Dir [("admin-tools", Dir [("jobs.ts", File (Ok "export const $run = query({})"))])]) =
    Ok [mkRef "admin-tools/jobs" "$run" "query" "AdminToolsJobsRun" ""] /\
  is_ok (ParseFunctionPath "admin-tools/jobs:run") = false /\ is_ok (ParseFunctionPath "jobs:$run") = false.
Proof. vm_compute. split; [done|]. split; done. Qed.
