(* ===== verification/TypedRefs.v ===== *)
(** * Typed references

    [function_reference.go], [decodeInto] and the methods ending in [Into] of [client_http.go]: results
    decoded into a type of the caller.  What [encoding/json] does with such a type is an
    argument, [unmarshal]; the types the code generator infers have theirs here. *)
From S2P Require Import Prelude GoStrings GoBytes GoFloat GoJson Values ValueFacts Results GoEncode HttpClient JsFacts GoText.
Local Open Scope Z_scope.

(** ** Decoding through JSON *)

(** What [json.Marshal] sees in a value that [GoValue] made: its [Int64] is an integer, its [Bytes] a
    byte slice, which is nil when it is empty.  [GoValue] makes nothing of the last kinds. *)
Fixpoint go_wire (g : goval) : wire :=
  match g with
  | GNil | GPtr None | GBytes [] => WNil
  | GBool b => WBool b
  | GString s => WStr s
  | GInt64 n | GInt n | GUint n => WNumber (NumLit (int_numeral n))
  | GFloat f | GNumber f => WFloat f
  | GBytes data => WStr (b64_encode std_alphabet data)
  | GSeq l => WArr (map go_wire l)
  | GMap None => WNilObj
  | GMap (Some m) => WObj (map_fold (fun k x acc => <[k := go_wire x]> acc) ∅ m)
  | GPtr (Some x) => go_wire x
  | GJSONNumber n => WNumber n
  | GValue _ | GKeyedMap _ | GStruct _ | GOther _ => WOther ""
  end.

Inductive decode_error : Type :=
  | NilTarget
  | ResultUnmarshalable (e : json_error)
  | UnmarshalFailed (message : string).

(** [decodeInto]; a nil target is [None]. *)
Definition decodeInto {R : Type} (out : option (json -> result string R)) (result : goval)
    : Prelude.result decode_error R :=
  match out with
  | None => Err NilTarget
  | Some unmarshal =>
      data ← map_err ResultUnmarshalable (marshal (go_wire result)); map_err UnmarshalFailed (unmarshal data)
  end.

(** The type [Result] of a reference. *)
Inductive result_target : Type -> Type :=
  | TargetValue : result_target Value
  | TargetAny : result_target goval
  | Target (R : Type) (unmarshal : json -> result string R) : result_target R.
Arguments Target {R} unmarshal.

Definition decodeTypedValue {R : Type} (T : result_target R) (value : Value) : result decode_error R :=
  match T in result_target R return result decode_error R with
  | TargetValue => Ok value
  | TargetAny => Ok (GoValue value)
  | Target unmarshal => decodeInto (Some unmarshal) (GoValue value)
  end.

(** ** References *)

Record QueryReference (R : Type) : Type := mkQueryReference { qf_path : string; qf_target : result_target R }.
Record MutationReference (R : Type) : Type := mkMutationReference { mf_path : string; mf_target : result_target R }.
Record ActionReference (R : Type) : Type := mkActionReference { af_path : string; af_target : result_target R }.
Arguments mkQueryReference {R}. Arguments qf_path {R}. Arguments qf_target {R}.
Arguments mkMutationReference {R}. Arguments mf_path {R}. Arguments mf_target {R}.
Arguments mkActionReference {R}. Arguments af_path {R}. Arguments af_target {R}.

Definition NewQueryReference {R : Type} (T : result_target R) (path : string) := mkQueryReference path T.
Definition NewMutationReference {R : Type} (T : result_target R) (path : string) := mkMutationReference path T.
Definition NewActionReference {R : Type} (T : result_target R) (path : string) := mkActionReference path T.
Definition QueryReference_Kind {R : Type} (_ : QueryReference R) : FunctionKind := QueryKind.
Definition MutationReference_Kind {R : Type} (_ : MutationReference R) : FunctionKind := MutationKind.
Definition ActionReference_Kind {R : Type} (_ : ActionReference R) : FunctionKind := ActionKind.
Definition QueryReference_Path {R : Type} (r : QueryReference R) : string := qf_path r.
Definition MutationReference_Path {R : Type} (r : MutationReference R) : string := mf_path r.
Definition ActionReference_Path {R : Type} (r : ActionReference R) : string := af_path r.

Inductive reference_error (E : Type) : Type :=
  | CallFailed (e : E)
  | ResultUndecodable (e : decode_error).
Arguments CallFailed {E}. Arguments ResultUndecodable {E}.

(** Every reference decodes the value of the call behind it. *)
Definition decode_call {S E R : Type} (T : result_target R) (r : S * result E Value)
    : S * result (reference_error E) R :=
  (fst r, value ← map_err CallFailed (snd r); map_err ResultUndecodable (decodeTypedValue T value)).

(** The interface of the clients [QueryReference.Query] takes: a state and the outcome of a query. *)
Class QueryClient (S E : Type) : Type := client_QueryValue : string -> goval -> S -> S * result E Value.

Definition QueryReference_Query {S E R : Type} `{QueryClient S E} (r : QueryReference R) (args : goval) (s : S) :=
  decode_call (qf_target r) (client_QueryValue (qf_path r) args s).

Section http.
Context (Do : list http_request -> http_request -> result string http_response) (env : token_environment).

#[export] Instance http_query_client (c : HTTPClient) : QueryClient sent_requests http_error :=
  QueryValue Do env c.
Definition MutationReference_Mutation {R : Type} (r : MutationReference R) (c : HTTPClient) (args : goval)
    (h : sent_requests) := decode_call (mf_target r) (MutationValue Do env c (mf_path r) args h).
Definition ActionReference_Action {R : Type} (r : ActionReference R) (c : HTTPClient) (args : goval)
    (h : sent_requests) := decode_call (af_target r) (ActionValue Do env c (af_path r) args h).

(** *** [QueryInto], [MutationInto] and [ActionInto] *)

Definition into {R : Type} (out : option (json -> result string R)) (r : sent_requests * result http_error goval)
    : sent_requests * result (reference_error http_error) R :=
  (fst r, value ← map_err CallFailed (snd r); map_err ResultUndecodable (decodeInto out value)).
Definition QueryInto {R : Type} (c : HTTPClient) (path : string) (args : goval)
    (out : option (json -> result string R)) (h : sent_requests) := into out (HTTPClient_Query Do env c path args h).
Definition MutationInto {R : Type} (c : HTTPClient) (path : string) (args : goval)
    (out : option (json -> result string R)) (h : sent_requests) := into out (HTTPClient_Mutation Do env c path args h).
Definition ActionInto {R : Type} (c : HTTPClient) (path : string) (args : goval)
    (out : option (json -> result string R)) (h : sent_requests) := into out (HTTPClient_Action Do env c path args h).
End http.

(** ** The types of the code generator *)

(** [json.Unmarshal] into them; [null] leaves the zero value. *)
Definition mismatch {A : Type} : result string A := Err "cannot unmarshal".
Definition as_bool (j : json) : result string bool :=
  match j with JBool b => Ok b | JNull => Ok false | _ => mismatch end.
Definition as_string (j : json) : result string string :=
  match j with JStr s => Ok s | JNull => Ok "" | _ => mismatch end.
Definition float_of (n : numeral) : result string Z := match parse_float n with Some f => Ok f | None => mismatch end.
Definition as_float64 (j : json) : result string Z :=
  match j with JNum n => float_of n | JNull => Ok 0 | _ => mismatch end.

(** Into an [any] numbers become floats. *)
Fixpoint as_any (j : json) : result string goval :=
  match j with
  | JNull => Ok GNil
  | JBool b => Ok (GBool b)
  | JNum n => GFloat <$> float_of n
  | JStr s => Ok (GString s)
  | JArr l => GSeq <$> mapM as_any l
  | JObj m => (fun m => GMap (Some m)) <$> map_traverse (fun _ x => as_any x) m
  end.
Definition as_slice (j : json) : result string (option (list goval)) :=
  match j with JArr l => Some <$> mapM as_any l | JNull => Ok None | _ => mismatch end.
Definition as_map (j : json) : result string (option (gmap string goval)) :=
  match j with JObj m => Some <$> map_traverse (fun _ x => as_any x) m | JNull => Ok None | _ => mismatch end.

(** The result of a generated reference whose result type is [t], as an [any]; the empty type
    is [any] itself. *)
Definition decode_generated (t : string) (v : Value) : result decode_error goval :=
  if decide (t = "bool") then GBool <$> decodeTypedValue (Target as_bool) v
  else if decide (t = "string") then GString <$> decodeTypedValue (Target as_string) v
  else if decide (t = "float64") then GFloat <$> decodeTypedValue (Target as_float64) v
  else if decide (t = "[]any") then
    (fun l => match l with None => GNil | Some l => GSeq l end) <$> decodeTypedValue (Target as_slice) v
  else if decide (t = "map[string]any") then GMap <$> decodeTypedValue (Target as_map) v
  else decodeTypedValue TargetAny v.

(** The kind of value a type is inferred for. *)
Definition of_type (t : string) (v : Value) : bool :=
  match v with
  | VBoolean _ => bool_decide (t = "bool")
  | VString _ => bool_decide (t = "string")
  | VFloat64 _ => bool_decide (t = "float64")
  | VArray _ => bool_decide (t = "[]any")
  | VObject _ => bool_decide (t = "map[string]any")
  | _ => false
  end.
