(* ===== verification/TypedFacts.v ===== *)
(** * What typed references return

    A reference with a type the code generator infers gets the value the function returned, as far
    as that type can hold it; what is lost in it, and what cannot be decoded at all. *)
From S2P Require Import Prelude GoStrings GoBytes GoFloat GoText GoJson Values ValueFacts Results GoEncode HttpClient JsFacts TypedRefs.
From Stdlib Require Import Ascii Strings.Byte.
Local Open Scope Z_scope.

(** No float of the value is infinite or NaN. *)
Fixpoint all_finite (v : Value) : bool :=
  match v with
  | VFloat64 f => is_finite f
  | VArray l => forallb all_finite l
  | VObject m => map_forallb (fun _ x => all_finite x) m
  | _ => true
  end.

(** What is left of a value after a round of JSON: an integer is the float nearest to it, bytes are
    their text in base64, or nothing when there are none. *)
Fixpoint plain (v : Value) : goval :=
  match v with
  | VNull | VBytes [] => GNil
  | VInt64 n => GFloat (float_of_int n)
  | VFloat64 f => GFloat f
  | VBoolean b => GBool b
  | VString s => GString (coerce_utf8 s)
  | VBytes data => GString (b64_encode std_alphabet data)
  | VArray l => GSeq (map plain l)
  | VObject m => GMap (Some (map_fold (fun k x acc => <[k := plain x]> acc) ∅ m))
  end.

(** Integers and bytes are what JSON has no values for. *)
Fixpoint has_plain_kinds (v : Value) : bool :=
  match v with
  | VInt64 _ | VBytes _ => false
  | VArray l => forallb has_plain_kinds l
  | VObject m => map_forallb (fun _ x => has_plain_kinds x) m
  | _ => true
  end.

(** ** Integers as floats *)

Lemma flog2_int n : 0 < n -> flog2 n 1 = Z.log2 n.
Proof.
  intros Hn. unfold flog2. change (Z.log2 1) with 0. rewrite Z.sub_0_r.
  pose proof (Z.log2_nonneg n). pose proof (Z.log2_spec n Hn) as [H1 _].
  assert (ge_pow2 n 1 (Z.log2 n) = true) as ->; [|done].
  unfold ge_pow2. apply Z.leb_le. rewrite Z.max_l, Z.max_r by lia. lia.
Qed.

Lemma round_int_bound n : 0 <= n < 2 ^ 64 -> round_ratio n 1 < inf_bits.
Proof.
  intros Hn. unfold round_ratio. destruct (Z.eqb_spec n 0) as [_|H0]; [done|].
  rewrite flog2_int by lia. pose proof (Z.log2_nonneg n). pose proof (Z.log2_spec n ltac:(lia)) as [_ H2].
  assert (Hlog : Z.log2 n < 64) by (apply Z.log2_lt_pow2; lia). rewrite (Z.max_r (-1074)) by lia.
  set (e := Z.log2 n - 52) in *. cbv zeta.
  set (q := n * 2 ^ Z.max (- e) 0 / (1 * 2 ^ Z.max e 0)).
  assert (Hq : q < 2 ^ 53).
  { unfold q. apply Z.div_lt_upper_bound; [apply Z.mul_pos_pos; [lia|]; apply Z.pow_pos_nonneg; lia|].
    rewrite Z.mul_1_l, <- Z.pow_add_r by lia. eapply Z.lt_le_trans.
    - apply Z.mul_lt_mono_pos_r; [apply Z.pow_pos_nonneg; lia|exact H2].
    - rewrite <- Z.pow_add_r by lia. apply Z.pow_le_mono_r; lia. }
  unfold inf_bits. destruct (_ || _); lia.
Qed.

(** The numeral of an integer reads as the float nearest to it. *)
Lemma parse_int_numeral n : in_i64 n = true -> parse_float (int_numeral n) = Some (float_of_int n).
Proof.
  rewrite in_i64_spec. intros Hn. unfold parse_float, int_numeral. cbn [num_neg num_coef num_exp].
  unfold round_decimal. change (num_top (Z.abs n) 0) with (Z.abs n * 1). change (num_bot 0) with 1. rewrite Z.mul_1_r.
  pose proof (round_int_bound (Z.abs n) ltac:(lia)) as Hb. rewrite (proj2 (Z.ltb_lt _ _) Hb).
  unfold float_of_int, round_signed. rewrite Z.min_r by lia. f_equal. f_equal.
  destruct (Z.eqb_spec n 0); [by subst n|done].
Qed.

(** ** Round of JSON *)

Lemma Ok_inj {E A : Type} (a b : A) : Ok (E := E) a = Ok b -> a = b.
Proof. by intros [=]. Qed.


Definition json_view (v : Value) : wire := go_wire (GoValue v).

Lemma view_array l : json_view (VArray l) = WArr (map json_view l).
Proof. unfold json_view. cbn. by rewrite map_map. Qed.
Lemma view_object m : json_view (VObject m) = WObj (json_view <$> m).
Proof. unfold json_view. cbn. rewrite !map_fold_fmap_eq. by rewrite <- map_fmap_compose. Qed.
Lemma plain_keys_object m : plain (VObject m) = GMap (Some (plain <$> m)).
Proof. cbn. by rewrite map_fold_fmap_eq. Qed.

Lemma marshal_plain v : wf_value v = true -> all_finite v = true ->
  exists j, marshal (json_view v) = Ok j /\ as_any j = Ok (plain v).
Proof.
  induction v as [|n|f|b|s|d|l IH|m IH] using value_ind'; intros Hw Hf.
  - by exists JNull.
  - eexists. split; [reflexivity|]. cbn [as_any]. unfold float_of. by rewrite parse_int_numeral.
  - cbn in Hf, Hw. unfold json_view. cbn. rewrite Hf. eexists. split; [reflexivity|]. cbn. unfold float_of.
    by rewrite parse_format_float.
  - by eexists.
  - by eexists.
  - destruct d as [|x d]; [by exists JNull|]. eexists. split; [reflexivity|].
    change (Ok (GString (coerce_utf8 (b64_encode std_alphabet (x :: d)))) = Ok (plain (VBytes (x :: d))) :> result string goval).
    by rewrite coerce_std.
  - cbn in Hf. rewrite forallb_forall in Hf. rewrite view_array.
    assert (H : exists js, mapM marshal (map json_view l) = Ok js /\ mapM as_any js = Ok (map plain l)).
    { rewrite wf_array in Hw. induction l as [|v l IHl]; [by exists []|].
      destruct (IH v ltac:(by left)) as (j & Hj & Hp); [apply Hw; by left|apply Hf; by left|].
      destruct IHl as (js & Hjs & Hps); [intros x Hx; apply IH; by right|intros x Hx; apply Hw; by right|
        intros x Hx; apply Hf; by right|].
      exists (j :: js). cbn. rewrite Hj. cbn. rewrite Hjs, Hp. cbn. by rewrite Hps. }
    destruct H as (js & H1 & H2). exists (JArr js). cbn. rewrite H1. cbn. by rewrite H2.
  - cbn in Hf. rewrite map_forallb_true in Hf. rewrite wf_object in Hw. rewrite view_object, plain_keys_object.
    destruct (map_traverse_total (fun _ x => marshal x) (json_view <$> m)) as [js Hjs].
    { intros k w Hk. apply lookup_fmap_Some in Hk as (v & <- & Hv).
      destruct (IH k v Hv) as (j & Hj & _); [by eapply Hw|by eapply Hf|]. by eexists. }
    exists (JObj js). cbn. rewrite Hjs. split; [done|].
    assert (H : map_traverse (fun _ x => as_any x) js = Ok (plain <$> m)); [|by rewrite H].
    apply map_traverse_Ok. intros k. pose proof (map_traverse_Ok_lookup _ _ _ Hjs k) as Hk.
    rewrite lookup_fmap in Hk. destruct (js !! k) as [j|] eqn:Ej; rewrite lookup_fmap; destruct (m !! k) as [v|] eqn:Hv; cbn in Hk |- *; try done; try (by destruct Hk as (? & ? & _)).
    destruct Hk as (j1 & [= <-] & Hj). destruct (IH k v Hv) as (j' & Hj' & Hp); [by eapply Hw|by eapply Hf|].
    exists (plain v). split; [done|]. by replace j with j' by congruence.
Qed.

Lemma marshal_infinite v : all_finite v = false -> exists e, marshal (json_view v) = Err e.
Proof.
  induction v as [|n|f|b|s|d|l IH|m IH] using value_ind'; intros Hf; try discriminate Hf.
  - cbn in Hf. unfold json_view. cbn. rewrite Hf. by eexists.
  - rewrite view_array. cbn [marshal].
    assert (H : exists e, mapM marshal (map json_view l) = Err e); [|destruct H as [e ->]; by eexists].
    induction l as [|v l IHl]; [done|]. cbn in Hf. apply andb_false_iff in Hf as [Hf|Hf].
    + destruct (IH v ltac:(by left) Hf) as [e He]. exists e. cbn. by rewrite He.
    + destruct IHl as [e He]; [intros x Hx; apply IH; by right|exact Hf|].
      cbn. destruct (marshal (json_view v)) as [j|e']; cbn; [rewrite He|]; by eexists.
  - rewrite view_object. cbn [marshal].
    destruct (map_traverse _ _) as [js|e] eqn:E; [|by eexists]. exfalso.
    apply not_true_iff_false in Hf. apply Hf. cbn. apply map_forallb_true. intros k v Hv.
    pose proof (map_traverse_Ok_lookup _ _ _ E k) as Hk. rewrite lookup_fmap, Hv in Hk. cbn in Hk.
    destruct Hk as (j & _ & Hj). apply not_false_iff_true. intros Hn.
    destruct (IH k v Hv Hn) as [e He]. congruence.
Qed.

(** A value that JSON has no other values in comes back as it is. *)
Lemma plain_exact v : has_plain_kinds v = true -> utf8_value v = true -> plain v = GoValue v.
Proof.
  induction v as [|n|f|b|s|d|l IH|m IH] using value_ind'; intros Hk Hu; try done.
  - cbn in Hu |- *. f_equal. by apply utf8_ok_coerce.
  - cbn in Hk, Hu |- *. f_equal. rewrite forallb_forall in Hk, Hu. apply map_ext_in. intros x Hx.
    apply IH; [by apply list_elem_of_In|by apply Hk|by apply Hu].
  - cbn in Hk, Hu |- *. rewrite map_forallb_true in Hk, Hu. do 2 f_equal. rewrite !map_fold_fmap_eq.
    apply map_fmap_ext. intros k x Hx. by eapply IH; eauto.
Qed.

(** ** References of the code generator *)

(** C26. A generated reference whose result has the kind its type was inferred for returns that
    result: a boolean and a float as they are, a string in valid UTF-8, a list or an object with
    its members as far as JSON has values for them, so exactly what [GoValue] gives when there are
    no integers and no bytes in it.  It fails just when there is an infinity or NaN in the value. *)
Theorem generated_result_decodes t v :
  wf_value v = true -> of_type t v = true ->
  (all_finite v = true -> decode_generated t v = Ok (plain v)) /\
  (all_finite v = false -> exists e, decode_generated t v = Err (ResultUnmarshalable e)) /\
  (has_plain_kinds v = true -> utf8_value v = true -> plain v = GoValue v).
Proof.
  intros Hw Ht. split; [|split; [|apply plain_exact]].
  - intros Hf. destruct (marshal_plain v Hw Hf) as (j & Hj & Hp).
    destruct v as [|n|f|b|s|d|l|m]; try discriminate Ht; apply bool_decide_eq_true in Ht as ->;
      unfold decode_generated; cbn [decide]; repeat (rewrite decide_False by done); rewrite decide_True by done;
      unfold decodeTypedValue, decodeInto.
    all: match goal with |- context [marshal (go_wire (GoValue ?v))] => change (go_wire (GoValue v)) with (json_view v) end;
      rewrite Hj; cbn [map_err mbind result_bind].
    all: destruct j as [|b'|x|s'|l'|m']; cbn [as_any] in Hp; try discriminate Hp;
      try (destruct (float_of x) as [y|] eqn:Ey; cbn in Hp; try discriminate Hp);
      try (destruct (mapM as_any l') as [y|] eqn:Ey; cbn in Hp; try discriminate Hp);
      try (destruct (map_traverse _ m') as [y|] eqn:Ey; cbn in Hp; try discriminate Hp);
      cbn [as_float64 as_bool as_string as_slice as_map]; rewrite ?Ey;
      apply Ok_inj in Hp; cbn [map_err fmap result_fmap]; by rewrite Hp.
  - intros Hf. destruct (marshal_infinite v Hf) as [e He]. exists e.
    destruct v as [|n|f|b|s|d|l|m]; try discriminate Ht; try discriminate Hf; apply bool_decide_eq_true in Ht as ->;
      unfold decode_generated; repeat (rewrite decide_False by done); rewrite decide_True by done;
      unfold decodeTypedValue, decodeInto; unfold json_view in He; by rewrite He.
Qed.

Definition demo_result : Value := VArray [VObject {["author" := VString "Ada"; "likes" := VFloat64 (float_of_int 3)]}; VNull].
Lemma generated_result_decodes_witness : decode_generated "[]any" demo_result = Ok (GoValue demo_result).
Proof.
  destruct (generated_result_decodes "[]any" demo_result) as (H1 & _ & H3); [vm_compute; reflexivity|vm_compute; reflexivity|].
  rewrite H1 by (vm_compute; reflexivity). apply (f_equal Ok), H3; vm_compute; reflexivity.
Defined.

(** What gets lost or refused: an integer in a list is rounded, although the reference with the type
    [any] keeps it; bytes become text, and empty ones nothing; and a number that is infinite cannot
    be decoded as a [float64]. *)
Example integer_rounded :
  decode_generated "[]any" (VArray [VInt64 (2 ^ 53 + 1)]) = Ok (GSeq [GFloat (float_of_int (2 ^ 53))]) /\
  decode_generated "any" (VArray [VInt64 (2 ^ 53 + 1)]) = Ok (GSeq [GInt64 (2 ^ 53 + 1)]).
Proof. by vm_compute. Qed.
Example bytes_as_text :
  decode_generated "[]any" (VArray [VBytes [x61]; VBytes []]) = Ok (GSeq [GString "YQ=="; GNil]).
Proof. by vm_compute. Qed.
Example infinity_refused :
  decode_generated "float64" (VFloat64 inf_bits) = Err (ResultUnmarshalable (UnsupportedFloat inf_bits)).
Proof. by vm_compute. Qed.
