(* ===== verification/OneShot.v ===== *)
(** * One-shot queries

    [QueryValue] and [Query] of [subscription_client.go] and [functionResultError] of
    [subscription_handles.go]: a [Subscribe], a [Next] and a deferred [Unsubscribe] in a
    row, with the steps of every other goroutine in between; and the typed subscriptions of
    [function_reference.go]. *)
From S2P Require Import Prelude GoStrings Values Results GoEncode Protocol ClientMessages ServerMessages Canonical ClientState BaseClient ClientQueries ClientRequests ClientInvariant ClientSession SyncManager ManagerRun ManagerFacts RealtimeClient RealtimeFacts RealtimeInvariant RealtimeTheorems RealtimeUpdates TypedRefs.
From Stdlib Require Import Strings.Byte.
Local Open Scope Z_scope.

(** ** The outcome of a query *)

(** What a failed result is reported as; nil for a successful one. *)
Definition functionResultError (kind : FunctionKind) (path : string) (r : FunctionResult) : option result_error :=
  match FunctionResult_ConvexError r with
  | (Some e, true) =>
      Some (PlainError (mkFunctionError kind path (ce_message e) (GoValue (ce_data e)) (ce_data e) (Some e) true [] 0 ""))
  | _ =>
      match FunctionResult_ErrorMessage r with
      | (message, true) => Some (PlainError (mkFunctionError kind path message GNil VNull None false [] 0 ""))
      | _ => FunctionResult_Err r
      end
  end.

Inductive query_error : Type :=
  | RealtimeFailed (e : rt_error)
  | FunctionReported (e : option result_error).

(** What [QueryValue] makes of the result it has read. *)
Definition query_outcome (path : string) (r : FunctionResult) : result query_error Value :=
  match FunctionResult_Err r with
  | Some _ => Err (FunctionReported (functionResultError QueryKind path r))
  | None => Ok (fst (FunctionResult_Value r))
  end.

(** ** The steps *)

(** Where a call of [QueryValue] is: at its start, in [Subscribe] or [Next], at the deferred function or in
    it, or over.  The numbers are those of its calls and of its handle. *)
Inductive query_call : Type :=
  | QueryStart
  | QuerySubscribing (k : Z)
  | QueryReading (h : Z)
  | QueryLeaving (h : Z) (r : result query_error Value)
  | QueryCleaning (k h : Z) (r : result query_error Value)
  | QueryReturned (h : option Z) (r : result query_error Value).

(** What [Next] meets: an update, the handle closed, the client over, or the end of the context. *)
Inductive next_input : Type := NextUpdate | NextClosed | NextDone | NextContext.

Inductive query_event : Type :=
  | QWorld (e : ws_event)
  | QBegin
  | QSubscribed
  | QNext (i : next_input)
  | QLeave
  | QLeft.

(** The context of the clean-up is new: it has not ended when [Unsubscribe] looks at it first. *)
Definition ends_fresh_context (e : ws_event) (q : query_call) (c : WebSocketClient) : bool :=
  match e, q with
  | RStep k ContextEnds, QueryCleaning k' h _ =>
      (k =? k') && match ws_calls c !! k with Some (CallUnsubscribe _) => true | _ => false end
  | _, _ => false
  end.

Section steps.
Context (proto_text : proto_error -> string) (path : string) (args : goval).

Definition query_next (i : next_input) (h : Z) (c : WebSocketClient)
    : option (WebSocketClient * result query_error Value) :=
  s ← ws_handles c !! h;
  match i with
  | NextUpdate =>
      r ← head (h_updates s); c' ← ws_step proto_text (RNext h) c; Some (c', query_outcome path r)
  | NextClosed => if h_closedOK s then Some (c, Err (RealtimeFailed ErrSubscriptionClosed)) else None
  | NextDone => if is_done c then Some (c, Err (RealtimeFailed (default ErrContext (doneErr c)))) else None
  | NextContext => Some (c, Err (RealtimeFailed ErrContext))
  end.

Definition query_step (e : query_event) (s : WebSocketClient * query_call) : option (WebSocketClient * query_call) :=
  let '(c, q) := s in
  match e, q with
  | QWorld e, _ =>
      if ends_fresh_context e q c then None else c' ← ws_step proto_text e c; Some (c', q)
  | QBegin, QueryStart =>
      c' ← ws_step proto_text (RCall (CallSubscribe path args)) c; Some (c', QuerySubscribing (ws_next c))
  | QSubscribed, QuerySubscribing k =>
      match ws_calls c !! k with
      | Some (CallReturned (RetSubscription h)) => Some (c, QueryReading h)
      | Some (CallReturned (RetError e)) => Some (c, QueryReturned None (Err (RealtimeFailed e)))
      | _ => None
      end
  | QNext i, QueryReading h => '(c', r) ← query_next i h c; Some (c', QueryLeaving h r)
  | QLeave, QueryLeaving h r =>
      c' ← ws_step proto_text (RCall (CallUnsubscribe h)) c; Some (c', QueryCleaning (ws_next c) h r)
  | QLeft, QueryCleaning k h r =>
      match ws_calls c !! k with
      | Some (CallReturned _) => Some (c, QueryReturned (Some h) r)
      | _ => None
      end
  | _, _ => None
  end.

Inductive query_runs : Z -> WebSocketClient * query_call -> Prop :=
  | query_runs_start n c : ws_runs proto_text n c -> query_runs n (c, QueryStart)
  | query_runs_step n s e s' : query_runs n s -> query_step e s = Some s' -> query_runs (n + 1) s'.

Fixpoint query_play (es : list query_event) (s : WebSocketClient * query_call) : option (WebSocketClient * query_call) :=
  match es with [] => Some s | e :: es => query_step e s ≫= query_play es end.
End steps.

(** [Query]: the value as a Go value. *)
Definition WebSocketClient_Query (r : result query_error Value) : result query_error goval := GoValue <$> r.

(** ** Typed subscriptions *)

(** [QueryReference.Subscribe] is the call [Subscribe]; its handle reads typed results. *)
Definition QueryReference_Subscribe {R : Type} (r : QueryReference R) (args : goval) : call :=
  CallSubscribe (qf_path r) args.
Definition TypedQuerySubscription_result {R : Type} (T : result_target R) (result : FunctionResult)
    : Prelude.result (reference_error result_error) R :=
  match FunctionResult_Err result with
  | Some e => Err (CallFailed e)
  | None => map_err ResultUndecodable (decodeTypedValue T (fst (FunctionResult_Value result)))
  end.
Definition TypedQuerySubscription_Next {R : Type} (T : result_target R) (h : Z) (c : WebSocketClient)
    : option (WebSocketClient * Prelude.result (reference_error result_error) R) :=
  s ← ws_handles c !! h;
  result ← head (h_updates s);
  c' ← QuerySubscription_Next h c;
  Some (c', TypedQuerySubscription_result T result).
Definition TypedQuerySubscription_Unsubscribe (h : Z) : call := CallUnsubscribe h.

(** ** What stays of a subscriber *)

(** A handle whose subscriber the manager does not have any more. *)
Definition gone (h : Z) (c : WebSocketClient) : Prop :=
  exists s, ws_handles c !! h = Some s /\ h_id s ∉ subscribers (base c).

Lemma ws_step_manager proto_text e c c' : ws_step proto_text e c = Some c' -> manager_moves proto_text c c'.
Proof.
  unfold ws_step, run, pump_take, pump_publish, QuerySubscription_Next, QuerySetSubscription_Next. intros Hs.
  destruct (crashed c); [discriminate|]. destruct e as [e| | | | |s|k i|h|w|w].
  - destruct (internal e c); [|discriminate]. apply manager_step_eq in Hs as (m & Hm & ->). right. eauto.
  - injection Hs as <-. by left.
  - left. destruct (ws_runner c); [destruct (mx_pc (ws_manager c)); try discriminate Hs|..];
      try discriminate Hs; by injection Hs as <-.
  - destruct (ws_pump c); [discriminate|]. destruct (mx_results (ws_manager c)); [discriminate|].
    apply bind_Some in Hs as (c1 & (m & Hm & ->)%manager_step_eq & Hs). injection Hs as <-. right. eauto.
  - destruct (ws_pump c); [|discriminate]. injection Hs as <-. by left.
  - destruct (call_start s c); [|discriminate]. injection Hs as <-. by left.
  - apply bind_Some in Hs as (s & Hk & Hs). by eapply call_step_manager.
  - apply bind_Some in Hs as (s & Hh & Hs). destruct (h_closedOK s || is_done c); [discriminate|].
    destruct (h_updates s); [discriminate|]. injection Hs as <-. by left.
  - apply bind_Some in Hs as (s & Hh & Hs). destruct (wt_closed s || is_done c); [discriminate|].
    destruct (wt_updates s); [discriminate|]. injection Hs as <-. by left.
  - injection Hs as <-. left. unfold QuerySetSubscription_Close. by destruct (ws_sets c !! w) as [[? []]|].
Qed.

Lemma Unsubscribe_subset id c : subscribers (fst (Unsubscribe id c)) ⊆ subscribers c.
Proof.
  unfold Unsubscribe. case_decide; [|done]. repeat case_match; cbn; set_solver.
Qed.

(** An id once issued is not issued again. *)
Lemma perform_subscribers n op c id :
  queries_inv n c -> n + 1 < 2 ^ 32 -> issued c id -> id ∉ subscribers c -> id ∉ subscribers (perform op c).
Proof.
  intros Hi Hn His Hid. destruct (changes_subscribers op) eqn:Hop.
  - destruct op as [p a|id'| | | | | | | | | | ]; try discriminate Hop; cbn [perform].
    + pose proof (Subscribe_subscribers n c p a Hi Hn) as H. destruct (Subscribe p a c) as [c' [id'|e]]; cbn [fst].
      * destruct H as (Hf & -> & _). set_solver.
      * by rewrite H.
    + intros H. by apply Unsubscribe_subset in H.
  - pose proof (perform_query_part op c Hop) as Hq.
    assert (subscribers (perform op c) = subscribers c) as -> by (by injection Hq). done.
Qed.

(** *** Handles and calls *)

(** Handles stay, with their subscribers. *)
Definition ids_kept (c c' : WebSocketClient) : Prop :=
  forall h s, ws_handles c !! h = Some s -> exists s', ws_handles c' !! h = Some s' /\ h_id s' = h_id s.

#[export] Instance ids_kept_preorder : PreOrder ids_kept.
Proof.
  split; [by intros c h s Hs; exists s|]. intros c1 c2 c3 H1 H2 h s Hs.
  destruct (H1 h s Hs) as (s2 & Hs2 & <-). by apply H2.
Qed.

Lemma ids_same c c' : ws_handles c' = ws_handles c -> ids_kept c c'.
Proof. intros E h s Hs. exists s. by rewrite E. Qed.

Lemma ids_change f h c : (forall s, h_id (f s) = h_id s) -> ids_kept c (change_handle f h c).
Proof.
  intros Hf h' s Hs. cbn. destruct (decide (h = h')) as [<-|Hne].
  - exists (f s). by rewrite lookup_alter_eq, Hs.
  - exists s. by rewrite lookup_alter_ne.
Qed.

Lemma ids_publish snapshot c : ids_kept c (publishLatest snapshot c).
Proof.
  intros h s Hs. unfold publishLatest. cbn. rewrite map_lookup_imap, Hs. cbn. eexists. split; [done|].
  by destruct (send_update_same snapshot (default ∅ (ws_subscriptions c)) h s).
Qed.

Lemma ids_finish h e c : ids_kept c (finishUnsubscribe h e c).
Proof.
  unfold finishUnsubscribe. destruct (ws_handles c !! h) as [s|]; [|done].
  trans (forget (h_id s) c); [by apply ids_same|by apply ids_change].
Qed.
Lemma finish_calls h e c : ws_calls (finishUnsubscribe h e c) = ws_calls c.
Proof. unfold finishUnsubscribe. by destruct (ws_handles c !! h). Qed.

(** A step of a call sets where that call is, and keeps the others and the handles. *)
Definition only_call (k : Z) (c c' : WebSocketClient) : Prop :=
  exists x c1, c' = put_call k x c1 /\ ws_calls c1 = ws_calls c /\ ids_kept c c1.

Lemma only_call_intro k x c c1 : ws_calls c1 = ws_calls c -> ids_kept c c1 -> only_call k c (put_call k x c1).
Proof. intros. by exists x, c1. Qed.

Create HintDb one_shot.
#[export] Hint Resolve only_call_intro ids_same ids_change ids_publish ids_finish finish_calls : one_shot.

Lemma after_flush_only k f e c : only_call k c (after_flush k f e c).
Proof. destruct f, e; cbn [after_flush]; [..|destruct (ws_canceled c)|]; auto with one_shot. Qed.

Lemma after_publish_only k p snapshot c : only_call k c (after_publish k p (publishLatest snapshot c)).
Proof.
  destruct p; cbn [after_publish]; auto with one_shot. apply only_call_intro; [done|].
  trans (publishLatest snapshot c); [apply ids_publish|by apply ids_change].
Qed.

Lemma register_only k id c : ws_handles c !! ws_next c = None -> only_call k c (register k id c).
Proof.
  intros Hn. unfold register. destruct (ws_subscriptions c); [|auto with one_shot].
  apply only_call_intro; [done|]. intros h s Hs. exists s. cbn. rewrite lookup_insert_ne; [done|]. congruence.
Qed.

Lemma call_step_only proto_text k i s c c' :
  ws_handles c !! ws_next c = None -> call_step proto_text k i s c = Some c' -> only_call k c c'.
Proof.
  intros Hn Hs. assert (Hstart : forall next, start k i next c = Some c' -> only_call k c c').
  { intros next Hst. unfold start in Hst. destruct i; try discriminate Hst; injection Hst as <-; auto with one_shot. }
  destruct s as [path args|op flush| |h|path args|id|op flush| |h|p|snapshot p|f|f|h e|id e| |r];
    open_call Hs; try discriminate Hs.
  - by eapply Hstart.
  - unfold start in Hs. destruct (is_mutation op), i; try discriminate Hs; injection Hs as <-; auto with one_shot.
  - by eapply Hstart.
  - destruct i; [|injection Hs as <-; auto with one_shot|by destruct (ws_handles c !! h)].
    destruct (ws_handles c !! h) as [hs|]; [|discriminate].
    destruct (h_locked hs); [discriminate|]. destruct (h_closedOK hs); injection Hs as <-; auto with one_shot.
  - apply bind_Some in Hs as (c1 & (m & Hm & ->)%manager_step_eq & [= <-]). auto with one_shot.
  - injection Hs as <-. by apply register_only.
  - destruct (is_control op); [|discriminate].
    apply bind_Some in Hs as (c1 & (m & Hm & ->)%manager_step_eq & [= <-]). auto with one_shot.
  - injection Hs as <-. unfold watch. destruct (ws_watchers c); auto with one_shot.
  - apply bind_Some in Hs as (hs & Hh & Hs).
    apply bind_Some in Hs as (c1 & (m & Hm & ->)%manager_step_eq & [= <-]).
    destruct (snd (Unsubscribe (h_id hs) _)); [auto with one_shot|]. apply only_call_intro; [done|].
    trans (ws_put_manager m c); [by apply ids_same|by apply ids_change].
  - injection Hs as <-. auto with one_shot.
  - injection Hs as <-. apply after_publish_only.
  - destruct i; apply bind_Some in Hs as (x & Hx & [= <-]); [apply after_flush_only..|].
    apply manager_step_eq in Hx as (m & Hm & ->). auto with one_shot.
  - apply bind_Some in Hs as (x & Hx & [= <-]). apply after_flush_only.
  - apply bind_Some in Hs as (hs & Hh & [= <-]). auto with one_shot.
  - apply bind_Some in Hs as (c1 & (m & Hm & ->)%manager_step_eq & [= <-]). auto with one_shot.
Qed.

Lemma fresh_handle c ph own : accounts c ph own -> ws_handles c !! ws_next c = None /\ ws_calls c !! ws_next c = None.
Proof.
  intros H. split; apply eq_None_not_Some; intros Hs; assert (ws_next c < ws_next c) by (apply (ac_fresh _ _ _ H); auto); lia.
Qed.

(** What a step leaves of handles and calls. *)
Lemma ws_step_keeps proto_text e c c' ph own :
  accounts c ph own -> ws_step proto_text e c = Some c' ->
  ids_kept c c' /\
  forall k s, ws_calls c !! k = Some s -> (forall i, e <> RStep k i) -> ws_calls c' !! k = Some s.
Proof.
  intros H Hs. destruct (fresh_handle _ _ _ H) as [Hh Hc].
  unfold ws_step, run, pump_take, pump_publish, QuerySubscription_Next, QuerySetSubscription_Next in Hs.
  destruct (crashed c); [discriminate|].
  assert (Hsame : forall c', ws_handles c' = ws_handles c -> ws_calls c' = ws_calls c -> ids_kept c c' /\
    forall k s, ws_calls c !! k = Some s -> (forall i, e <> RStep k i) -> ws_calls c' !! k = Some s).
  { intros c1 E1 E2. split; [by apply ids_same|]. intros k s Hk _. by rewrite E2. }
  destruct e as [e| | | | |s|k i|h|w|w].
  - destruct (internal e c); [|discriminate]. apply manager_step_eq in Hs as (m & Hm & ->). by apply Hsame.
  - injection Hs as <-. by apply Hsame.
  - destruct (ws_runner c); [destruct (mx_pc (ws_manager c)); try discriminate Hs|..];
      try discriminate Hs; injection Hs as <-; by apply Hsame.
  - destruct (ws_pump c); [discriminate|]. destruct (mx_results (ws_manager c)); [discriminate|].
    apply bind_Some in Hs as (c1 & (m & Hm & ->)%manager_step_eq & Hs). injection Hs as <-. by apply Hsame.
  - destruct (ws_pump c) as [q|]; [|discriminate]. injection Hs as <-. split; [exact (ids_publish q c)|done].
  - destruct (call_start s c); [|discriminate]. injection Hs as <-. split; [by apply ids_same|].
    intros k t Hk _. cbn. rewrite lookup_insert_ne; [done|]. congruence.
  - apply bind_Some in Hs as (s & Hk & Hs). apply call_step_only in Hs as (x & c1 & -> & Hcalls & Hids); [|done].
    split; [done|]. intros k' t Hk' Hne. cbn. rewrite Hcalls, lookup_insert_ne; [done|]. intros ->. by apply (Hne i).
  - apply bind_Some in Hs as (s & _ & Hs). destruct (h_closedOK s || is_done c); [discriminate|].
    destruct (h_updates s) as [|x rest]; [discriminate|]. injection Hs as <-. split; [by apply ids_change|done].
  - apply bind_Some in Hs as (s & _ & Hs). destruct (wt_closed s || is_done c); [discriminate|].
    destruct (wt_updates s); [discriminate|]. injection Hs as <-. by apply Hsame.
  - injection Hs as <-. unfold QuerySetSubscription_Close. destruct (ws_sets c !! w) as [[? []]|]; by apply Hsame.
Qed.

(** *** A subscriber that is gone stays gone *)

Lemma ws_inv_parts n c : ws_inv n c -> n < 2 ^ 32 -> crashed c = false ->
  queries_inv n (base c) /\ exists ph own, accounts c ph own.
Proof.
  intros [(j & Hj & Hr) Ha] Hn Hc. split; [|destruct Ha as [Ha|Ha]; [congruence|done]].
  eapply (queries_inv_frame j); [done|done|]. apply (reachable_inv j); [done|lia].
Qed.

Lemma gone_step proto_text n e c c' h :
  ws_inv n c -> n + 1 < 2 ^ 32 -> ws_step proto_text e c = Some c' -> gone h c -> gone h c'.
Proof.
  intros Hi Hn Hs (s & Hh & Hid).
  assert (Hcr : crashed c = false) by (unfold ws_step in Hs; by destruct (crashed c)).
  destruct (ws_inv_parts n c Hi ltac:(lia) Hcr) as (Hq & ph & own & Ha).
  destruct (ws_step_keeps _ _ _ _ _ _ Ha Hs) as [Hids _]. destruct (Hids h s Hh) as (s' & Hs' & Es).
  exists s'. split; [done|]. rewrite Es. clear Hids Hs' Es.
  pose proof (ac_issued _ _ _ Ha h s Hh) as His.
  destruct (ws_step_manager _ _ _ _ Hs) as [->|(e' & m & Hm & ->)]; [done|].
  destruct (step_does _ _ _ _ Hm) as [->|(op & -> & _)]; [done|]. by apply (perform_subscribers n).
Qed.

(** A handle that is not live is gone. *)
Lemma dead_gone c ph own h s p : accounts c ph own -> ws_handles c !! h = Some s -> ph !! h = Some p ->
  live p = false -> p <> RolledBack -> gone h c.
Proof.
  intros Ha Hh Hp Hl Hne. exists s. split; [done|]. intros Hin.
  by destruct (ac_dead _ _ _ Ha h s p Hh Hp Hl Hin) as [? _].
Qed.

(** The first step of the deferred [Unsubscribe], and the one that comes to the manager. *)
Lemma cleanup_begins proto_text c ph own k i h c' :
  accounts c ph own -> ws_calls c !! k = Some (CallUnsubscribe h) -> i <> ContextEnds ->
  call_step proto_text k i (CallUnsubscribe h) c = Some c' ->
  ws_calls c' !! k = Some (DoUnsubscribe h) \/ gone h c.
Proof.
  intros H Hk Hi Hs. destruct (ac_names _ _ _ H k _ h Hk eq_refl) as (p & Hp & Hg).
  open_call Hs. destruct i; [|done|by destruct (ws_handles c !! h)].
  destruct (ws_handles c !! h) as [s|] eqn:Hh; [|discriminate].
  destruct (ac_handle _ _ _ H h s Hh) as (p' & Hp' & Hl & Hq & Hc). replace p' with p in * by congruence.
  destruct (h_locked s) eqn:El; [discriminate|].
  destruct (h_closedOK s) eqn:Ec.
  { right. apply (dead_gone c ph own h s p); try done; by destruct p. }
  injection Hs as <-. destruct (h_unsubscribeQueued s) eqn:Eq; [right|left].
  - apply (dead_gone c ph own h s p); try done; by destruct p.
  - cbn. by rewrite lookup_insert_eq.
Qed.

Lemma cleanup_unsubscribes proto_text n c ph own k i h c' :
  queries_inv n (base c) -> accounts c ph own -> ws_calls c !! k = Some (DoUnsubscribe h) ->
  call_step proto_text k i (DoUnsubscribe h) c = Some c' -> gone h c'.
Proof.
  intros Hq H Hk Hs. open_call Hs. apply bind_Some in Hs as (s & Hh & Hs).
  apply bind_Some in Hs as (c1 & (m & Hm & ->)%manager_step_eq & Hs). injection Hs as <-.
  pose proof (ac_works _ _ _ H k _ h _ Hk eq_refl) as Hp.
  destruct (Unsubscribe_subscribers n (base c) (h_id s) Hq) as (Hok & Hsub & _).
  { apply (ac_subs _ _ _ H). exists h. apply (ac_owner _ _ _ H). right. eexists _, _. done. }
  rewrite Hok. exists s. split; [done|]. cbn [ws_manager put_call ws_put_calls ws_put_manager].
  rewrite (user_event _ _ _ _ Hm). cbn [perform]. rewrite Hsub. set_solver.
Qed.

(** ** One-shot queries clean up *)

(** What a query tells of the update it has read: its value when there is neither a
    message nor an error with data, and otherwise a failure of the function with them. *)
Definition tells (path : string) (u : FunctionResult) (r : result query_error Value) : Prop :=
  match r, fr_convexError u with
  | Ok v, None => fr_errorMessage u = "" /\ v = fr_value u
  | Err (FunctionReported (Some (PlainError e))), Some error =>
      fe_Kind e = QueryKind /\ fe_Path e = path /\ fe_Message e = ce_message error /\
      fe_DataValue e = ce_data error /\ fe_HasData e = true /\ fe_Convex e = Some error
  | Err (FunctionReported (Some (PlainError e))), None =>
      fe_Kind e = QueryKind /\ fe_Path e = path /\ fe_Message e = fr_errorMessage u /\
      fr_errorMessage u <> "" /\ fe_HasData e = false
  | _, _ => False
  end.

Lemma query_outcome_tells path u : tells path u (query_outcome path u).
Proof.
  unfold query_outcome, tells, functionResultError, FunctionResult_Err, FunctionResult_ConvexError,
    FunctionResult_ErrorMessage, FunctionResult_Value, IsValue.
  destruct u as [v message [e|]]; cbn; [by rewrite andb_false_r|].
  rewrite andb_true_r. by destruct (bool_decide_reflect (message = "")); subst.
Qed.

(** The result is that of an error of the client, or of an update that waited for the
    reader of the handle in a state before. *)
Definition proper_result (proto_text : proto_error -> string) (path : string) (n h : Z) (r : result query_error Value)
    : Prop :=
  (exists e, r = Err (RealtimeFailed e)) \/
  exists m c s u, m <= n /\ ws_runs proto_text m c /\ ws_handles c !! h = Some s /\ h_updates s = [u] /\
    tells path u r.

Lemma proper_mono proto_text path n n' h r :
  n <= n' -> proper_result proto_text path n h r -> proper_result proto_text path n' h r.
Proof.
  intros Hn [He|(m & c & s & u & Hm & H)]; [by left|right]. exists m, c, s, u. split; [lia|done].
Qed.

(** Where the call is, and what it still has to do. *)
Definition query_inv (proto_text : proto_error -> string) (path : string) (n : Z) (c : WebSocketClient) (q : query_call)
    : Prop :=
  match q with
  | QueryStart | QuerySubscribing _ => True
  | QueryReading h => has_handle h c = true
  | QueryLeaving h r => has_handle h c = true /\ proper_result proto_text path n h r
  | QueryCleaning k h r =>
      proper_result proto_text path n h r /\
      (ws_calls c !! k = Some (CallUnsubscribe h) \/ ws_calls c !! k = Some (DoUnsubscribe h) \/ gone h c)
  | QueryReturned None r => exists e, r = Err (RealtimeFailed e)
  | QueryReturned (Some h) r => proper_result proto_text path n h r /\ gone h c
  end.

Lemma handle_kept proto_text e c c' ph own h :
  accounts c ph own -> ws_step proto_text e c = Some c' -> has_handle h c = true -> has_handle h c' = true.
Proof.
  intros Ha Hs [k Hk]%has_handle_spec. apply has_handle_spec. exists k.
  destruct (ws_step_keeps _ _ _ _ _ _ Ha Hs) as [_ Hc].
  destruct e as [| | | | | |k' i| | |]; try (by apply Hc). destruct (decide (k = k')) as [<-|Hne].
  - unfold ws_step in Hs. destruct (crashed c); [discriminate|]. by rewrite Hk in Hs.
  - apply Hc; [done|]. congruence.
Qed.

Lemma query_inv_world proto_text path n e c c' q :
  ws_inv n c -> n + 1 < 2 ^ 32 -> ends_fresh_context e q c = false ->
  ws_step proto_text e c = Some c' ->
  query_inv proto_text path n c q -> query_inv proto_text path (n + 1) c' q.
Proof.
  intros Hi Hn Hfresh Hs Hq.
  assert (Hcr : crashed c = false) by (unfold ws_step in Hs; by destruct (crashed c)).
  destruct (ws_inv_parts n c Hi ltac:(lia) Hcr) as (Hqi & ph & own & Ha).
  destruct q as [|k|h|h r|k h r|[h|] r]; cbn [query_inv] in *; try done.
  - by eapply handle_kept.
  - destruct Hq as [Hq ?]. split; [by eapply handle_kept|]. apply (proper_mono _ _ n); [lia|done].
  - destruct Hq as [Hp Hq]. split; [apply (proper_mono _ _ n); [lia|done]|].
    destruct (ws_step_keeps _ _ _ _ _ _ Ha Hs) as [_ Hc].
    assert (Hmine : (exists i, e = RStep k i) \/ forall i, e <> RStep k i).
    { destruct e as [| | | | | |k' i| | |]; try (by right). destruct (decide (k' = k)) as [->|Hne]; [left; eauto|right; congruence]. }
    destruct Hmine as [[i ->]|Hother].
    + unfold ws_step in Hs. rewrite Hcr in Hs. destruct Hq as [Hk|[Hk|Hg]].
      * rewrite Hk in Hs. cbn [mbind option_bind] in Hs.
        assert (i <> ContextEnds).
        { intros ->. cbn in Hfresh. by rewrite Z.eqb_refl, Hk in Hfresh. }
        destruct (cleanup_begins proto_text c ph own k i h c') as [Hd|Hg]; try done; [auto|].
        right. right. apply (gone_step proto_text n (RStep k i) c); try done. unfold ws_step. by rewrite Hcr, Hk.
      * rewrite Hk in Hs. cbn [mbind option_bind] in Hs. right. right. by eapply cleanup_unsubscribes.
      * right. right. apply (gone_step proto_text n (RStep k i) c); try done. unfold ws_step. by rewrite Hcr.
    + destruct Hq as [Hk|[Hk|Hg]]; [left; by apply Hc|right; left; by apply Hc|right; right; by eapply gone_step].
  - destruct Hq as [? Hq]. split; [apply (proper_mono _ _ n); [lia|done]|]. by eapply gone_step.
Qed.

(** A step of the call is one of the client, or none. *)
Lemma query_step_world proto_text path args e c q c' q' :
  query_step proto_text path args e (c, q) = Some (c', q') -> c' = c \/ exists e', ws_step proto_text e' c = Some c'.
Proof.
  destruct e as [e| | |i| |], q as [|k|h|h r|k h r|o r]; cbn [query_step]; try discriminate; intros Hs.
  all: try (destruct (ends_fresh_context _ _ _); [discriminate|]).
  all: try (apply bind_Some in Hs as (c1 & Hc & [= <- <-]); right; by eexists).
  - destruct (ws_calls c !! k) as [[| | | | | | | | | | | | | | | |[h|w|e|]]|]; try discriminate; injection Hs as <- <-; by left.
  - apply bind_Some in Hs as ([c1 r1] & Hn & [= <- <-]). unfold query_next in Hn.
    apply bind_Some in Hn as (s & _ & Hn). destruct i.
    + apply bind_Some in Hn as (x & _ & Hn). apply bind_Some in Hn as (c2 & Hc & [= <- <-]). right. by eexists.
    + destruct (h_closedOK s); [|discriminate]. injection Hn as <- <-. by left.
    + destruct (is_done c); [|discriminate]. injection Hn as <- <-. by left.
    + injection Hn as <- <-. by left.
  - destruct (ws_calls c !! k) as [[| | | | | | | | | | | | | | | |r1]|]; try discriminate; injection Hs as <- <-; by left.
Qed.

Lemma query_step_inv proto_text path args n e c q c' q' :
  (exists m, m <= n /\ ws_runs proto_text m c) -> ws_inv n c -> n + 1 < 2 ^ 32 -> crashed c = false ->
  query_inv proto_text path n c q -> query_step proto_text path args e (c, q) = Some (c', q') ->
  query_inv proto_text path (n + 1) c' q'.
Proof.
  intros (j & Hj & Hw) Hi Hn Hcr Hq Hs.
  destruct (ws_inv_parts n c Hi ltac:(lia) Hcr) as (Hqi & ph & own & Ha).
  destruct e as [e| | |i| |]; cbn [query_step] in Hs.
  - destruct (ends_fresh_context e q c) eqn:Hf; [discriminate|].
    apply bind_Some in Hs as (c1 & Hc & [= <- <-]). by eapply query_inv_world.
  - destruct q; try discriminate. apply bind_Some in Hs as (c1 & Hc & [= <- <-]). done.
  - destruct q as [|k|h|h r|k h r|o r]; try discriminate.
    destruct (ws_calls c !! k) as [[| | | | | | | | | | | | | | | |[h|w|e|]]|] eqn:Hk; try discriminate;
      injection Hs as <- <-; [apply has_handle_spec; by exists k|by eexists].
  - destruct q as [|k|h|h r|k h r|o r]; try discriminate.
    apply bind_Some in Hs as ([c1 r1] & Hn' & [= <- <-]). unfold query_next in Hn'.
    apply bind_Some in Hn' as (s & Hh & Hn'). cbn [query_inv] in *. destruct i.
    + apply bind_Some in Hn' as (x & Hx & Hn'). apply bind_Some in Hn' as (c2 & Hc & [= <- <-]).
      split; [by eapply handle_kept|]. right. exists j, c, s, x.
      assert (h_updates s = [x]) by (destruct (bf_handles _ (ws_runs_buffers _ _ _ Hw) h s Hh) as [E|(y & E & _)];
        rewrite E in Hx |- *; [done|by injection Hx as ->]).
      split; [lia|]. split; [done|]. split; [done|]. split; [done|apply query_outcome_tells].
    + destruct (h_closedOK s); [|discriminate]. injection Hn' as <- <-. split; [done|by left; eexists].
    + destruct (is_done c); [|discriminate]. injection Hn' as <- <-. split; [done|by left; eexists].
    + injection Hn' as <- <-. split; [done|by left; eexists].
  - destruct q as [|k|h|h r|k h r|o r]; try discriminate. apply bind_Some in Hs as (c1 & Hc & [= <- <-]).
    destruct Hq as [Hh Hp]. cbn [query_inv]. split; [apply (proper_mono _ _ n); [lia|done]|]. left.
    unfold ws_step in Hc. rewrite Hcr in Hc. destruct (call_start _ c); [|discriminate]. injection Hc as <-.
    cbn. by rewrite lookup_insert_eq.
  - destruct q as [|k|h|h r|k h r|o r]; try discriminate.
    destruct Hq as [Hp [Hk|[Hk|Hg]]]; [by rewrite Hk in Hs|by rewrite Hk in Hs|].
    destruct (ws_calls c !! k) as [[| | | | | | | | | | | | | | | |r1]|]; try discriminate.
    injection Hs as <- <-. split; [apply (proper_mono _ _ n); [lia|done]|done].
Qed.

Lemma query_runs_inv proto_text path args n s : query_runs proto_text path args n s -> n < 2 ^ 32 ->
  (exists m, m <= n /\ ws_runs proto_text m (fst s)) /\
  (crashed (fst s) = false -> query_inv proto_text path n (fst s) (snd s)).
Proof.
  induction 1 as [n c Hr|n [c q] e [c' q'] Hr IH Hs]; intros Hn; cbn [fst snd].
  { split; [by exists n|done]. }
  destruct IH as [(m & Hm & Hw) Hq]; [lia|]. cbn [fst snd] in *. split.
  - destruct (query_step_world _ _ _ _ _ _ _ _ Hs) as [->|[e' He]].
    + exists m. split; [lia|done].
    + exists (m + 1). split; [lia|]. by eapply ws_runs_step.
  - intros Hcr'. assert (Hi : ws_inv n c).
    { destruct (ws_runs_inv _ _ _ Hw ltac:(lia)) as [_ [(j & Hj & Hre) Ha]]. split; [|done]. exists j. split; [lia|done]. }
    assert (Hcr : crashed c = false).
    { destruct (query_step_world _ _ _ _ _ _ _ _ Hs) as [->|[e' He]]; [done|].
      unfold ws_step in He. by destruct (crashed c). }
    eapply query_step_inv; try done; [by exists m|by apply Hq].
Qed.


Lemma query_play_runs proto_text path args n es s s' :
  query_runs proto_text path args n s -> query_play proto_text path args es s = Some s' ->
  query_runs proto_text path args (n + Z.of_nat (length es)) s'.
Proof.
  revert n s. induction es as [|e es IH]; intros n s Hr Hp; cbn [query_play length] in *.
  - injection Hp as <-. by rewrite Z.add_0_r.
  - destruct (query_step proto_text path args e s) as [s1|] eqn:Hs; [|done]. cbn in Hp.
    replace (n + Z.of_nat (S (length es))) with ((n + 1) + Z.of_nat (length es)) by lia.
    apply (IH _ s1); [by eapply query_runs_step|done].
Qed.

(** A query that is answered, and whose clean-up is written. *)
Definition answered_query : list query_event :=
  [QBegin] ++ (QWorld <$> (subscribe_steps 0 ++ [RStep 0 ChannelReady] ++
  (RManager <$> [ERun (Some (repeat Byte.x00 16)) 1; EPrepare ws_no_callback; EDial None 2; EGreet 3 None 4;
    EForward; EForwarded; EWriter 0 WTake; EWriter 0 WNext; EWriter 0 (WSend None); EWriter 0 WNext;
    EWriter 0 WTake; EWriter 0 WNext]) ++
  [RStep 0 ChannelReady; RManager (ERead first_answer 5); RPump; RPublish])) ++
  [QSubscribed; QNext NextUpdate; QLeave] ++ (QWorld <$> [RStep 2 Go; RStep 2 Go; RStep 2 Go; RStep 2 Go]).
(** The flush of the clean-up runs out of time. *)
Definition unflushed_query : list query_event := answered_query ++ [QWorld (RStep 2 ContextEnds); QLeft].
Definition unflushed_end : WebSocketClient * query_call :=
  default (NewWebSocketClient, QueryStart)
    (query_play ws_no_text "messages:list" GNil unflushed_query (NewWebSocketClient, QueryStart)).


(** But the entry of the subscription in the map of the client stays, and nobody has the handle to take
    it out. *)
Lemma unflushed_query_leaks :
  snd unflushed_end = QueryReturned (Some 1) (Ok (VInt64 7)) /\
  ws_subscriptions (fst unflushed_end) = Some {[(0, 1) := 1]}.
Proof. by vm_compute. Qed.
