(* ===== verification/Maint.v ===== *)
(** * The checks of the maintenance command

    [bench.go], [release.go], [tracked_files.go], [integration.go] and the coverage check of
    [main.go] in [cmd/convex-go-maint]: what the checks compute from the texts they read.
    Files, git and the environment are arguments here; MaintCommands has the commands. *)
From S2P Require Import Prelude GoStrings GoFloat GoText GoFiles GoFlag GoUrl GoRegexp.
From stdpp Require Import pretty.
From Stdlib Require Import Ascii.
Local Open Scope Z_scope.

#[local] Arguments String.append !_ _ /.

(** ** Errors *)

(** A failure of [compareBenchmarkOutputs], as data. *)
Inductive bench_failure : Type :=
  | MissingBenchmark (name : string)
  | Regression (name label : string) (percent limit : Z).

Inductive maint_error : Type :=
  | InvalidBenchmarkLine (line : string)
  | InvalidMetric (field line : string) (e : num_error)
  | MissingMetric (line : string)
  | NoBenchmarks
  | BenchFailures (failures : list bench_failure)
  | MissingModeLine
  | InvalidCoverageLine (line : string)
  | InvalidStatements (line : string) (e : num_error)
  | InvalidCount (line : string) (e : num_error)
  | NoStatements
  | CoverageBelow (total minimum : Z)
  | VersionRequired
  | InvalidReleaseVersion (version : string)
  | VersionConstMissing (path : string)
  | VersionMismatch (declared version : string)
  | ChangelogSectionMissing (version : string)
  | ChangelogSectionEmpty (version : string)
  | TagExists (tag : string)
  | BenchPathsRequired
  | NegativeRegression
  | OutRequired
  | DestinationInsideRepository (dest repo : string)
  | NotADirectory (path : string)
  | DestinationNotEmpty (path : string)
  | NoTrackedFiles
  | ExportFailed (file : string) (e : os_error)
  | Unformatted (n : nat)
  | EnvMissing (name : string)
  | EnvInvalidURL (name : string) (e : url_error)
  | EnvScheme (name : string)
  | EnvHost (name : string)
  | EnvRequires (name other : string)
  | ExpectationsRequire (name : string)
  | UnknownSubcommand (name : string)
  | ErrHelp
  | FlagFailed (e : flag_error)
  | FileFailed (path : string) (e : os_error)
  | GitFailed (args : list string) (reason : string)
  | GofmtFailed (reason : string)
  | StdoutFailed (reason : string).

(** ** Benchmarks *)

Record benchmarkMetrics : Type := mkMetrics { NsPerOp : Z; BytesPerOp : Z; AllocsPerOp : Z }.

(** The suffix [-8] that the number of processors leaves on a name. *)
Definition normalizeBenchmarkName (name : string) : string :=
  match cut_last "-" name with
  | Some (front, back) => if negb (String.eqb back "") && all_bytes is_dec back then front else name
  | None => name
  end.

(** The loop over the pairs of a value and a unit. *)
Fixpoint read_metrics (line : string) (ns bytes allocs : option Z) (l : list string)
    : result maint_error (option Z * option Z * option Z) :=
  match l with
  | field :: unit :: rest =>
      value ← map_err (InvalidMetric field line) (ParseFloat field);
      if decide (unit = "ns/op") then read_metrics line (Some value) bytes allocs rest
      else if decide (unit = "B/op") then read_metrics line ns (Some value) allocs rest
      else if decide (unit = "allocs/op") then read_metrics line ns bytes (Some value) rest
      else read_metrics line ns bytes allocs rest
  | _ => Ok (ns, bytes, allocs)
  end.

Definition parseBenchmarkLine (line : string) : result maint_error (string * benchmarkMetrics) :=
  let fs := fields line in
  if (length fs <? 8)%nat then Err (InvalidBenchmarkLine line)
  else
    let name := normalizeBenchmarkName (default "" (head fs)) in
    '(ns, bytes, allocs) ← read_metrics line None None None (drop 2 fs);
    match ns, bytes, allocs with
    | Some ns, Some bytes, Some allocs => Ok (name, mkMetrics ns bytes allocs)
    | _, _, _ => Err (MissingMetric line)
    end.

Fixpoint benchmark_lines (benchmarks : gmap string benchmarkMetrics) (l : list string)
    : result maint_error (gmap string benchmarkMetrics) :=
  match l with
  | [] => Ok benchmarks
  | raw :: l =>
      let line := trim_space raw in
      if has_prefix "Benchmark" line then
        '(name, metrics) ← parseBenchmarkLine line;
        benchmark_lines (<[name := metrics]> benchmarks) l
      else benchmark_lines benchmarks l
  end.
Definition parseBenchmarkOutput (body : string) : result maint_error (gmap string benchmarkMetrics) :=
  benchmarks ← benchmark_lines ∅ (lines body);
  if decide (benchmarks = ∅) then Err NoBenchmarks else Ok benchmarks.

Definition float_100 : Z := 0x4059000000000000.
Definition regressionPercent (oldValue newValue : Z) : Z :=
  if f_eq oldValue 0 then (if f_eq newValue 0 then 0 else float_100)
  else f_div (f_mul (f_sub newValue oldValue) float_100) oldValue.

(** The three metrics of a benchmark, in the order of the report. *)
Definition metric_pairs (old new : benchmarkMetrics) : list (string * Z * Z) :=
  [("ns/op", NsPerOp old, NsPerOp new); ("B/op", BytesPerOp old, BytesPerOp new);
   ("allocs/op", AllocsPerOp old, AllocsPerOp new)].

Definition metric_failures (name : string) (maxRegression : Z) (old new : benchmarkMetrics)
    : list bench_failure :=
  omap (fun '(label, o, n) =>
          let regression := regressionPercent o n in
          if f_lt maxRegression regression then Some (Regression name label regression maxRegression) else None)
    (metric_pairs old new).
Definition metric_reports (old new : benchmarkMetrics) : list string :=
  map (fun '(label, o, n) => label +:+ " " +:+ format_1f true (regressionPercent o n) +:+ "%") (metric_pairs old new).

Definition report_line (name : string) (maxRegression : Z) (old new : benchmarkMetrics) : string :=
  let status := match metric_failures name maxRegression old new with
                | [] => "within budget" | _ => "over budget" end in
  name +:+ ": " +:+ join_text ", " (metric_reports old new) +:+ " (" +:+ status +:+ ")".

Section bench.
(** The order in which [range] goes over a map. *)
Context (range : gmap string benchmarkMetrics -> list string).

Definition bench_names (benchmarks : gmap string benchmarkMetrics) : list string :=
  merge_sort String.le (range benchmarks).

(** One name of the baseline: its lines in the report and its failures. *)
Definition compare_one (maxRegression : Z) (olds news : gmap string benchmarkMetrics) (name : string)
    : list string * list bench_failure :=
  match olds !! name, news !! name with
  | Some old, Some new =>
      ([report_line name maxRegression old new], metric_failures name maxRegression old new)
  | _, _ => ([], [MissingBenchmark name])
  end.

Definition compare_benchmarks (maxRegression : Z) (olds news : gmap string benchmarkMetrics)
    : list string * list bench_failure :=
  let rows := map (compare_one maxRegression olds news) (bench_names olds) in
  let added := filter (fun name => olds !! name = None) (range news) in
  (concat (map fst rows) ++ map (fun name => name +:+ ": new benchmark in candidate output") added,
   concat (map snd rows)).

(** The report, and the error. *)
Definition compareBenchmarkOutputs (oldBody newBody : string) (maxRegression : Z)
    : string * option maint_error :=
  match parseBenchmarkOutput oldBody with
  | Err e => ("", Some e)
  | Ok olds =>
      match parseBenchmarkOutput newBody with
      | Err e => ("", Some e)
      | Ok news =>
          let '(reportLines, failures) := compare_benchmarks maxRegression olds news in
          (join_text (String (chr 10) "") reportLines,
           match failures with [] => None | _ => Some (BenchFailures failures) end)
      end
  end.
End bench.

(** ** Coverage *)

(** The loop over the lines; the sums are of float64. *)
Fixpoint coverage_lines (covered total : Z) (l : list string) : result maint_error (Z * Z) :=
  match l with
  | [] => Ok (covered, total)
  | raw :: l =>
      let line := trim_space raw in
      if decide (line = "") then coverage_lines covered total l
      else match fields line with
           | [_; stmts; hits] =>
               numStmts ← map_err (InvalidStatements line) (Atoi stmts);
               count ← map_err (InvalidCount line) (Atoi hits);
               let total := f_add total (float_of_int numStmts) in
               let covered := if 0 <? count then f_add covered (float_of_int numStmts) else covered in
               coverage_lines covered total l
           | _ => Err (InvalidCoverageLine line)
           end
  end.
Definition parseCoverageProfile (body : string) : result maint_error Z :=
  match lines body with
  | [] => Err MissingModeLine
  | mode :: rest =>
      if has_prefix "mode: " mode then
        '(covered, total) ← coverage_lines 0 0 rest;
        if f_eq total 0 then Err NoStatements else Ok (f_div (f_mul covered float_100) total)
      else Err MissingModeLine
  end.

Definition float_10 : Z := 0x4024000000000000.
Definition roundCoveragePercent (value : Z) : Z := f_div (Round (f_mul value float_10)) float_10.

(** [runCoverageCheck] once the profile is read: what it prints. *)
Definition coverage_check (profile : string) (minimum : Z) : result maint_error string :=
  total ← parseCoverageProfile profile;
  let displayTotal := roundCoveragePercent total in
  let displayMinimum := roundCoveragePercent minimum in
  if f_lt displayTotal displayMinimum then Err (CoverageBelow displayTotal displayMinimum)
  else Ok ("coverage " +:+ format_1f false displayTotal +:+ "% meets minimum " +:+ format_1f false displayMinimum
           +:+ "%" +:+ String (chr 10) "").

(** ** Releases *)

Definition version_byte (c : ascii) : bool :=
  is_dec c || byte_in 65 90 c || byte_in 97 122 c || Ascii.eqb c "." || Ascii.eqb c "-".
Definition digits_re : regexp := RPlus is_dec.

(** The expressions of [releaseVersionPattern], whose anchors are the ends of the text,
    and of [versionConstPattern]. *)
Definition releaseVersionPattern : regexp :=
  RSeqs [digits_re; RLit "."; digits_re; RLit "."; digits_re; ROpt (RSeq (RLit "-") (RPlus version_byte))].
Definition quote_text : string := String (chr 34) "".
Definition versionConstPattern : regexp :=
  RSeqs [RLit ("const Version = " +:+ quote_text); RGroup 1 (RPlus (fun c => negb (code c =? 34))); RLit quote_text].

(** [MatchString] of an expression between [^] and [$]. *)
Definition matches_whole (r : regexp) (s : string) : bool :=
  match match_at r 0 s [] (fun _ rest _ => if decide (rest = "") then Some () else None) with
  | Some _ => true
  | None => false
  end.

(** The version and its tag. *)
Definition normalizeReleaseVersion (version : string) : result maint_error (string * string) :=
  let normalized := trim_prefix (trim_space version) "v" in
  if matches_whole releaseVersionPattern normalized then Ok (normalized, "v" +:+ normalized)
  else Err (InvalidReleaseVersion version).

(** [readVersionConstant], once the file is read. *)
Definition version_constant (path body : string) : result maint_error string :=
  match find_index versionConstPattern body ≫= group 1 with
  | Some (i, j) => Ok (text_between i j body)
  | None => Err (VersionConstMissing path)
  end.

(** The line that opens the section of a version. *)
Definition opens_section (version line : string) : bool :=
  has_prefix "## " line &&
  let rest := trim_prefix line "## " in
  String.eqb rest version || has_prefix (version +:+ " ") rest || has_prefix (version +:+ " -") rest.

(** The lines of the section, if there is one; [inSection] once it has begun. *)
Fixpoint section_lines (version : string) (inSection : bool) (l : list string) : option (list string) :=
  match l with
  | [] => if inSection then Some [] else None
  | raw :: l =>
      let line := trim_right_byte (chr 13) raw in
      if inSection then
        if has_prefix "## " line then Some [] else cons line <$> section_lines version true l
      else section_lines version (opens_section version line) l
  end.
Definition extractChangelogNotes (body version : string) : result maint_error string :=
  match section_lines version false (lines body) with
  | None => Err (ChangelogSectionMissing version)
  | Some collected =>
      let notes := trim_space (join_text (String (chr 10) "") collected) in
      if decide (notes = "") then Err (ChangelogSectionEmpty version) else Ok notes
  end.

(** ** Tracked files *)

Definition parseNULSeparated (body : string) : list string :=
  filter (fun part => part <> "") (split_on (chr 0) body).

(** ** Examples *)

Definition nl (l : list string) : string := join_with (chr 10) l.
Example release_examples :
  (normalizeReleaseVersion " v1.20.3-rc.1 ", is_ok (normalizeReleaseVersion "1.2"), is_ok (normalizeReleaseVersion "1.2.3-"),
   version_constant "f" (nl ["package x"; "const Version = " +:+ quote_text +:+ "0.1.0" +:+ quote_text]),
   extractChangelogNotes (nl ["# Log"; "## 0.2.0 - now"; ""; "- new"; "## 0.1.0"; "- old"]) "0.2.0") =
  (Ok ("1.20.3-rc.1", "v1.20.3-rc.1"), false, false, Ok "0.1.0", Ok "- new").
Proof. vm_compute. reflexivity. Qed.
Example bench_example :
  compareBenchmarkOutputs (fun m => map fst (map_to_list m))
    "BenchmarkA-8 10 100 ns/op 8 B/op 2 allocs/op" "BenchmarkA-4 10 150 ns/op 8 B/op 2 allocs/op" 0x4039000000000000 =
  ("BenchmarkA: ns/op +50.0%, B/op +0.0%, allocs/op +0.0% (over budget)",
   Some (BenchFailures [Regression "BenchmarkA" "ns/op" 0x4049000000000000 0x4039000000000000])).
Proof. vm_compute. reflexivity. Qed.
Example coverage_example :
  coverage_check (nl ["mode: set"; "f.go:1.1,2.2 3 1"; "f.go:3.1,4.2 1 0"; ""]) 0x4056800000000000 =
  Err (CoverageBelow 0x4052C00000000000 0x4056800000000000).
Proof. vm_compute. reflexivity. Qed.
