(* ===== verification/MaintCommands.v ===== *)
(** * The maintenance command

    [main.go], [export.go], [integration.go] and the rest of [tracked_files.go] in
    [cmd/convex-go-maint]: the subcommands, from their arguments to the files and the output they
    leave.  git, gofmt, the environment and what goes wrong in the system are
    arguments. *)
From S2P Require Import Prelude GoStrings GoFloat GoText GoFiles GoFlag GoUrl GoRegexp Maint.
From stdpp Require Import pretty.
From Stdlib Require Import Ascii.
Local Open Scope Z_scope.

(** ** Commands

    A command changes the files and appends to the standard output; it may fail, with what
    it did before. *)
Record system : Type := mkSystem { sy_files : gmap (list string) file_node; sy_out : string }.
Definition command (A : Type) : Type := system -> system * result maint_error A.

#[export] Instance command_ret : MRet command := fun A a s => (s, Ok a).
#[export] Instance command_bind : MBind command :=
  fun A B k m s => match m s with (s, Ok a) => k a s | (s, Err e) => (s, Err e) end.

Definition fail {A : Type} (e : maint_error) : command A := fun s => (s, Err e).
Definition lift {A : Type} (r : result maint_error A) : command A := fun s => (s, r).
Definition ask {A : Type} (f : gmap (list string) file_node -> result maint_error A) : command A :=
  fun s => (s, f (sy_files s)).
Definition change (mk : os_error -> maint_error)
    (f : gmap (list string) file_node -> gmap (list string) file_node * result os_error unit) : command unit :=
  fun s => let '(fs, r) := f (sy_files s) in (mkSystem fs (sy_out s), map_err mk r).
Fixpoint each {A : Type} (f : A -> command unit) (l : list A) : command unit :=
  match l with [] => mret () | x :: l => _ ← f x; each f l end.

Definition line (s : string) : string := s +:+ String (chr 10) "".

Record outside : Type := mkOutside {
  cwd : string;
  faults : system_faults;
  umask : Z;
  stdout_fault : option string;
  range : gmap string benchmarkMetrics -> list string;
  (* git, in a directory: commands that only look, and commands that change files *)
  git_query : gmap (list string) file_node -> list string -> list string -> result string string;
  git_change : gmap (list string) file_node -> list string -> list string ->
    gmap (list string) file_node * result string unit;
  (* what gofmt writes to its standard output and error, and how it ends *)
  gofmt : gmap (list string) file_node -> list string -> list string -> string * string * result string unit;
  getenv : string -> string;
  ip_literal : string -> option string
}.

Section commands.
Context (w : outside).

Definition resolve (path : string) : list string := components (Abs (cwd w) path).

Definition print (text : string) : command unit :=
  fun s => match stdout_fault w with
           | Some e => (s, Err (StdoutFailed e))
           | None => (mkSystem (sy_files s) (sy_out s +:+ text), Ok ())
           end.
Definition read_file (path : string) : command string :=
  ask (fun fs => map_err (FileFailed path)
                   (if decide (path = "") then Err NotExist else ReadFile (faults w) fs (resolve path))).

Definition with_flags (formal : gmap string flag_value) (args : list string)
    (k : gmap string flag_value -> command unit) : command unit :=
  match parse_flags formal args with
  | Ok (fs, _) => k fs
  | Err HelpRequested => fail ErrHelp
  | Err e => fail (FlagFailed e)
  end.

(** ** Tracked files *)

Definition gitTrackedFiles (repo : string) (patterns : list string) : command (list string) :=
  let args := ["ls-files"; "-z"; "--"] ++ patterns in
  output ← ask (fun fs => map_err (GitFailed args) (git_query w fs (resolve repo) args));
  mret (parseNULSeparated output).
Definition trackedGoFiles (repo : string) : command (list string) := gitTrackedFiles repo ["*.go"].

(** ** fmt-check *)

Definition gofmt_output (r : string * string * result string unit) : result maint_error (list string) :=
  let '(out, err, e) := r in
  match e with
  | Err reason => Err (GofmtFailed (if decide (err = "") then reason else trim_space err))
  | Ok _ => let output := trim_space out in if decide (output = "") then Ok [] else Ok (fields output)
  end.
Definition listUnformattedFiles (repo : string) (files : list string) : command (list string) :=
  match files with
  | [] => mret []
  | _ => ask (fun fs => gofmt_output (gofmt w fs (resolve repo) ("-l" :: files)))
  end.
Definition fmt_check (fs : gmap string flag_value) : command unit :=
  let repo := flag_text fs "repo" in
  files ← trackedGoFiles repo;
  unformatted ← listUnformattedFiles repo files;
  match unformatted with
  | [] => print (line "gofmt check passed")
  | _ => _ ← each (fun path => print (line path)) unformatted; fail (Unformatted (length unformatted))
  end.
Definition runFmtCheck (args : list string) : command unit :=
  with_flags {["repo" := FlagString "."]} args fmt_check.

(** ** coverage-check and bench-compare *)

Definition runCoverageCheck (args : list string) : command unit :=
  with_flags {["coverprofile" := FlagString "coverage.out"; "min" := FlagFloat (float_of_int 90)]} args (fun fs =>
    profile ← read_file (flag_text fs "coverprofile");
    text ← lift (coverage_check profile (flag_float fs "min"));
    print text).

Definition bench_compare (fs : gmap string flag_value) : command unit :=
  let oldPath := flag_text fs "old" in
  let newPath := flag_text fs "new" in
  let maxRegression := flag_float fs "max-regression" in
  if decide (trim_space oldPath = "" \/ trim_space newPath = "") then fail BenchPathsRequired
  else if f_lt maxRegression 0 then fail NegativeRegression
  else
    oldBody ← read_file oldPath;
    newBody ← read_file newPath;
    let '(report, err) := compareBenchmarkOutputs (range w) oldBody newBody maxRegression in
    _ ← (if decide (report = "") then mret () else print (line report));
    match err with None => mret () | Some e => fail e end.
Definition runBenchCompare (args : list string) : command unit :=
  with_flags {["old" := FlagString ""; "new" := FlagString ""; "max-regression" := FlagFloat (float_of_int 25)]}
    args bench_compare.

(** ** release-check *)

Definition ensureTagDoesNotExist (repo tag : string) : command unit :=
  let args := ["tag"; "-l"; tag] in
  output ← ask (fun fs => map_err (GitFailed args) (git_query w fs (resolve repo) args));
  if decide (trim_space output = "") then mret () else fail (TagExists tag).
Definition readVersionConstant (path : string) : command string :=
  body ← read_file path; lift (version_constant path body).

Definition release_check (fs : gmap string flag_value) : command unit :=
  let repo := flag_text fs "repo" in
  let versionFile := flag_text fs "version-file" in
  let changelog := flag_text fs "changelog" in
  let notesOut := flag_text fs "notes-out" in
  if decide (trim_space (flag_text fs "version") = "") then fail VersionRequired
  else
    '(normalizedVersion, tagName) ← lift (normalizeReleaseVersion (flag_text fs "version"));
    versionValue ← readVersionConstant (path_Join repo versionFile);
    if decide (versionValue = normalizedVersion) then
      changelogBody ← read_file (path_Join repo changelog);
      notes ← lift (extractChangelogNotes changelogBody normalizedVersion);
      _ ← ensureTagDoesNotExist repo tagName;
      _ ← (if decide (notesOut = "") then mret ()
           else change (FileFailed notesOut) (WriteFile (faults w) (umask w) (resolve notesOut) (line notes) 420));
      print (line ("validated release " +:+ tagName +:+ " using " +:+ versionFile +:+ " and " +:+ changelog))
    else fail (VersionMismatch versionValue normalizedVersion).
Definition runReleaseCheck (args : list string) : command unit :=
  with_flags {["repo" := FlagString "."; "version" := FlagString ""; "version-file" := FlagString "client_options.go";
               "changelog" := FlagString "CHANGELOG.md"; "notes-out" := FlagString ""]} args release_check.

(** ** export-snapshot *)

Definition sameOrNestedPath (path root : string) : bool :=
  let rel := Rel root path in
  String.eqb rel "." || (negb (String.eqb rel "..") && negb (has_prefix "../" rel)).

Definition prepareExportDestination (destRoot : string) (force : bool) : command unit :=
  let k := components destRoot in
  stat ← ask (fun fs => Ok (Stat (faults w) fs k));
  match stat with
  | Err NotExist => change (FileFailed destRoot) (MkdirAll (faults w) k)
  | Err e => fail (FileFailed destRoot e)
  | Ok (FileNode _ _) => fail (NotADirectory destRoot)
  | Ok DirNode =>
      entries ← ask (fun fs => map_err (FileFailed destRoot) (ReadDir (faults w) fs k));
      match entries with
      | [] => mret ()
      | _ =>
          if force then
            _ ← change (FileFailed destRoot) (RemoveAll (faults w) k);
            change (FileFailed destRoot) (MkdirAll (faults w) k)
          else fail (DestinationNotEmpty destRoot)
      end
  end.

Definition copyFile (mk : os_error -> maint_error) (source target : list string) : command unit :=
  data ← ask (fun fs => map_err mk (ReadFile (faults w) fs source));
  info ← ask (fun fs => map_err mk (Stat (faults w) fs source));
  _ ← change mk (MkdirAll (faults w) (removelast target));
  change mk (WriteFile (faults w) (umask w) target data (match info with FileNode _ perm => perm | DirNode => 0 end)).

Definition exportTrackedFiles (repoRoot destRoot : string) (files : list string) : command unit :=
  each (fun rel => copyFile (ExportFailed rel) (components (join_path repoRoot rel))
                     (components (join_path destRoot rel))) files.

Definition runGitCommand (dir : string) (args : list string) : command unit :=
  fun s => let '(fs, r) := git_change w (sy_files s) (components dir) args in
           (mkSystem fs (sy_out s), map_err (GitFailed args) r).
Definition initializeSnapshotRepo (destRoot initialBranch commitMessage : string) : command unit :=
  _ ← runGitCommand destRoot ["init"; "-b"; initialBranch];
  _ ← runGitCommand destRoot ["add"; "."];
  runGitCommand destRoot
    ["-c"; "user.name=convex-go-maint"; "-c"; "user.email=convex-go-maint@local.invalid";
     "commit"; "--no-gpg-sign"; "-m"; commitMessage].

Definition export_snapshot (fs : gmap string flag_value) : command unit :=
  let out := flag_text fs "out" in
  if decide (trim_space out = "") then fail OutRequired
  else
    let repoRoot := Abs (cwd w) (flag_text fs "repo") in
    let destRoot := Abs (cwd w) out in
    if sameOrNestedPath destRoot repoRoot then fail (DestinationInsideRepository destRoot repoRoot)
    else
      _ ← prepareExportDestination destRoot (flag_set fs "force");
      files ← gitTrackedFiles repoRoot [];
      match files with
      | [] => fail NoTrackedFiles
      | _ =>
          _ ← exportTrackedFiles repoRoot destRoot files;
          _ ← (if flag_set fs "git-init"
               then initializeSnapshotRepo destRoot (flag_text fs "initial-branch") (flag_text fs "commit-message")
               else mret ());
          _ ← print (line ("exported " +:+ pretty (Z.of_nat (length files)) +:+ " tracked file(s) to " +:+ destRoot));
          if flag_set fs "git-init" then print (line "initialized fresh git repository") else mret ()
      end.
Definition runExportSnapshot (args : list string) : command unit :=
  with_flags {["repo" := FlagString "."; "out" := FlagString ""; "force" := FlagBool false;
               "git-init" := FlagBool false; "initial-branch" := FlagString "main";
               "commit-message" := FlagString "Initial public snapshot"]} args export_snapshot.

(** ** integration-env-check *)

Definition env_url (name : string) : result maint_error unit :=
  let deploymentURL := trim_space (getenv w name) in
  if decide (deploymentURL = "") then Err (EnvMissing name)
  else match Parse (ip_literal w) deploymentURL with
  | Err e => Err (EnvInvalidURL name e)
  | Ok parsed =>
      if negb (bool_decide (Scheme parsed = "http")) && negb (bool_decide (Scheme parsed = "https"))
      then Err (EnvScheme name)
      else if decide (Host parsed = "") then Err (EnvHost name) else Ok ()
  end.
Definition integration_env_check (fs : gmap string flag_value) : command unit :=
  let env name := trim_space (getenv w (flag_text fs name)) in
  let authEnv := flag_text fs "auth-env" in
  _ ← lift (env_url (flag_text fs "url-env"));
  let authToken := env "auth-env" in
  let refreshAuthToken := env "refresh-auth-env" in
  let expected := negb (String.eqb (env "expected-subject-env") "") || negb (String.eqb (env "expected-issuer-env") "")
                  || negb (String.eqb (env "expected-token-identifier-env") "") in
  if negb (String.eqb refreshAuthToken "") && String.eqb authToken "" then
    fail (EnvRequires (flag_text fs "refresh-auth-env") authEnv)
  else if String.eqb authToken "" && expected then fail (ExpectationsRequire authEnv)
  else
    _ ← print ("validated " +:+ flag_text fs "url-env");
    _ ← (if String.eqb authToken "" then mret () else print (" with optional " +:+ authEnv));
    _ ← (if String.eqb refreshAuthToken "" then mret () else print (" and optional " +:+ flag_text fs "refresh-auth-env"));
    _ ← (if expected then print " plus auth identity expectations" else mret ());
    print (line "").
Definition runIntegrationEnvCheck (args : list string) : command unit :=
  with_flags {["url-env" := FlagString "CONVEX_URL"; "auth-env" := FlagString "CONVEX_AUTH_TOKEN";
               "refresh-auth-env" := FlagString "CONVEX_AUTH_REFRESH_TOKEN";
               "expected-subject-env" := FlagString "CONVEX_AUTH_EXPECTED_SUBJECT";
               "expected-issuer-env" := FlagString "CONVEX_AUTH_EXPECTED_ISSUER";
               "expected-token-identifier-env" := FlagString "CONVEX_AUTH_EXPECTED_TOKEN_IDENTIFIER"]}
    args integration_env_check.

(** ** The command *)

Definition runWithIO (args : list string) : command unit :=
  match args with
  | [] => fail ErrHelp
  | name :: args =>
      if decide (name = "fmt-check") then runFmtCheck args
      else if decide (name = "coverage-check") then runCoverageCheck args
      else if decide (name = "bench-compare") then runBenchCompare args
      else if decide (name = "export-snapshot") then runExportSnapshot args
      else if decide (name = "integration-env-check") then runIntegrationEnvCheck args
      else if decide (name = "release-check") then runReleaseCheck args
      else if decide (name ∈ ["-h"; "--help"; "help"]) then fail ErrHelp
      else fail (UnknownSubcommand name)
  end.

(** [run]: the exit status. *)
Definition run (args : list string) (s : system) : system * Z :=
  match runWithIO args s with
  | (s, Ok _) | (s, Err ErrHelp) => (s, 0)
  | (s, Err _) => (s, 1)
  end.
End commands.
