(* ===== verification/MaintFiles.v ===== *)
(** * Exporting a snapshot

    What [export-snapshot] does to the files: which it leaves alone, whatever happens, and what
    it has written when it succeeds. *)
From S2P Require Import Prelude GoStrings GoFloat GoText GoFiles GoFlag GoUrl Maint MaintCommands.
From Stdlib Require Import Ascii.
Local Open Scope Z_scope.

#[local] Arguments String.append !_ _ /.

(** ** Where the destination is *)

(** A path of names that begins with a name is no way up. *)
Lemma down_not_up d rest : plain_name d = true ->
  let rel := join_with "/" (d :: rest) in
  String.eqb rel ".." = false /\ has_prefix "../" rel = false.
Proof.
  intros Hd rel. destruct (join_head d rest) as (r & Hr & Hcase). unfold rel. rewrite Hr. clear Hr rel.
  apply andb_true_iff in Hd as [Hne%negb_true_iff%bool_decide_eq_false Hl].
  destruct d as [|c1 d]; [set_solver|]. destruct d as [|c2 d].
  - assert (c1 <> "."%char) by (intros ->; set_solver). cbn. rewrite decide_False by congruence.
    destruct (Ascii.eqb_spec c1 "."); [done|]. by destruct Hcase as [->|[r' ->]].
  - destruct d as [|c3 d].
    + assert (~ (c1 = "." /\ c2 = "."))%char by (intros [-> ->]; set_solver). cbn.
      destruct (Ascii.eqb_spec c1 "."), (Ascii.eqb_spec c2 "."); subst; try tauto;
        repeat case_decide; try tauto; by destruct Hcase as [->|[r' ->]].
    + assert (c3 <> "/"%char) by (apply lacks_cons in Hl as [_ Hl]; apply lacks_cons in Hl as [_ Hl]; by apply lacks_cons in Hl as [? _]).
      cbn. destruct (Ascii.eqb c1 "."), (Ascii.eqb c2 "."); (split; [done|]); repeat case_decide; congruence.
Qed.

Lemma up_is_up (up down : list string) : up <> [] ->
  let rel := join_with "/" (map (fun _ => "..") up ++ down) in
  String.eqb rel "." = false /\ (String.eqb rel ".." = true \/ has_prefix "../" rel = true).
Proof.
  destruct up as [|u up]; [done|]. intros _. cbn [map app].
  destruct (join_head ".." (map (fun _ => "..") up ++ down)) as (r & -> & [->|[r' ->]]); cbn; [by split; [|left]|].
  split; [done|]. right. done.
Qed.

Lemma sameOrNestedPath_spec p r : plain p -> plain r ->
  sameOrNestedPath (absolute p) (absolute r) = true <-> r `prefix_of` p.
Proof.
  intros Hp Hr. unfold sameOrNestedPath, Rel. rewrite !components_absolute by done.
  destruct (drop_common r p) as [up down] eqn:E. destruct up as [|u up].
  - destruct (drop_common_spec _ _ _ _ E) as (l & -> & ->). rewrite app_nil_r. split; [|].
    + intros _. by exists down.
    + intros _. destruct down as [|d down]; [done|]. cbn [map app].
      apply Forall_app in Hp as [_ Hp]. apply Forall_cons in Hp as [Hd _].
      destruct (down_not_up d down Hd) as [-> ->]. by rewrite orb_true_r.
  - split.
    + intros H. exfalso. destruct (up_is_up (u :: up) down) as [H1 H2]; [done|].
      set (rel := join_with "/" (map (fun _ => "..") (u :: up) ++ down)) in H1, H2.
      change (String.eqb rel "." || negb (String.eqb rel "..") && negb (has_prefix "../" rel) = true) in H.
      rewrite H1 in H. cbn [orb] in H. apply andb_true_iff in H as [Ha Hb].
      apply negb_true_iff in Ha, Hb. destruct H2; congruence.
    + intros [t ->]. by rewrite drop_common_prefix in E.
Qed.

Create HintDb leaves.

(** ** What a command leaves alone *)

(** Outside the directory [d] nothing changes, but directories on the way to it may be made. *)
Definition same_outside (d : list string) (fs fs' : gmap (list string) file_node) : Prop :=
  forall k, below d k = false ->
    fs' !! k = fs !! k \/ (fs !! k = None /\ fs' !! k = Some DirNode /\ k `prefix_of` d).
Definition leaves {A : Type} (d : list string) (m : command A) : Prop :=
  forall s s' r, m s = (s', r) -> same_outside d (sy_files s) (sy_files s').

#[export] Instance same_outside_preorder d : PreOrder (same_outside d).
Proof.
  split; [by left|]. intros f1 f2 f3 H1 H2 k Hk.
  destruct (H1 k Hk) as [E1|(E1 & E2 & E3)], (H2 k Hk) as [F1|(F1 & F2 & F3)]; try (left; congruence); right;
    split_and!; congruence || done.
Qed.

Lemma leaves_same {A : Type} (d : list string) (m : command A) : (forall s s' r, m s = (s', r) -> sy_files s' = sy_files s) -> leaves d m.
Proof. intros H s s' r Hm k Hk. left. by rewrite (H _ _ _ Hm). Qed.
Lemma leaves_ret {A : Type} (d : list string) (a : A) : leaves d (mret a).
Proof. apply leaves_same. by intros s s' r [= <- _]. Qed.
Lemma leaves_fail {A : Type} (d : list string) e : leaves d (fail (A := A) e).
Proof. apply leaves_same. by intros s s' r [= <- _]. Qed.
Lemma leaves_lift {A : Type} (d : list string) (x : result maint_error A) : leaves d (lift x).
Proof. apply leaves_same. by intros s s' r [= <- _]. Qed.
Lemma leaves_ask {A : Type} (d : list string) (f : gmap (list string) file_node -> result maint_error A) : leaves d (ask f).
Proof. apply leaves_same. by intros s s' r [= <- _]. Qed.
Lemma leaves_print w d text : leaves d (print w text).
Proof. apply leaves_same. unfold print. intros s s' r. by destruct (stdout_fault w); intros [= <- _]. Qed.
Lemma leaves_bind {A B : Type} (d : list string) (m : command A) (k : A -> command B) :
  leaves d m -> (forall a, leaves d (k a)) -> leaves d (m ≫= k).
Proof.
  intros Hm Hk s s' r. unfold mbind, command_bind. destruct (m s) as [s1 [a|e]] eqn:E.
  - intros H. trans (sy_files s1); [by eapply Hm|by eapply Hk].
  - intros [= <- _]. by eapply Hm.
Qed.
Lemma leaves_each {A : Type} (d : list string) (f : A -> command unit) l : (forall x, leaves d (f x)) -> leaves d (each f l).
Proof. intros Hf. induction l as [|x l IH]; [apply leaves_ret|]. cbn. apply leaves_bind; auto. Qed.
Lemma leaves_change d mk f :
  (forall fs, same_outside d fs (fst (f fs))) -> leaves d (change mk f).
Proof.
  intros Hf s s' r. unfold change. specialize (Hf (sy_files s)). destruct (f (sy_files s)). by intros [= <- _].
Qed.

#[export] Hint Resolve leaves_ret leaves_fail leaves_lift leaves_ask leaves_print leaves_bind leaves_each
  leaves_change : leaves.

Lemma RemoveAll_outside flt d fs : same_outside d fs (fst (RemoveAll flt d fs)).
Proof. intros k Hk. left. by apply RemoveAll_elsewhere. Qed.

Lemma below_prefix d k k' : below d k' = false -> d `prefix_of` k -> k' = k -> False.
Proof. intros Hb Hp ->. apply below_spec in Hp. congruence. Qed.

Lemma WriteFile_outside flt um d k data perm fs :
  d `prefix_of` k -> same_outside d fs (fst (WriteFile flt um k data perm fs)).
Proof. intros Hd k' Hk. left. apply WriteFile_elsewhere. intros He. by eapply below_prefix. Qed.

(** Directories on the way to something in [d] are on the way to [d] or in it. *)
Lemma MkdirAll_outside flt d k fs :
  d `prefix_of` k -> same_outside d fs (fst (MkdirAll flt k fs)).
Proof.
  intros Hd k' Hk. destruct (fs !! k') as [n|] eqn:E; [left; by apply MkdirAll_keeps|].
  destruct (fst (MkdirAll flt k fs) !! k') as [n|] eqn:E'; [|by left].
  apply MkdirAll_new in E' as [?|[-> Hp]]; [congruence|]. right. split_and!; [done..|].
  destruct (prefix_weak_total k' d k Hp Hd) as [H|H]; [done|]. exfalso. apply below_spec in H. rewrite Hk in H. discriminate H.
Qed.

#[export] Hint Resolve RemoveAll_outside WriteFile_outside MkdirAll_outside : leaves.

(** ** The export leaves everything else alone *)

Section export.
Context (w : outside).

(** What is known of git.  It lists relative paths of names, none of them that of its own
    directory. *)
Definition names_of (f : string) : list string := split_on "/" f.
Definition git_lists_names : Prop := forall fs k out,
  git_query w fs k ["ls-files"; "-z"; "--"] = Ok out ->
  Forall (fun f => plain (names_of f) /\ ".git" ∉ names_of f) (parseNULSeparated out).

(** [git init] in a directory makes or completes its [.git], unless a file is there, which
    may name a repository elsewhere; when it succeeds the directory is the top of a
    repository.  In such a directory [git add] and [git commit] change [.git] alone, and it
    stays one: no hook, and no variable of the environment, sends them elsewhere.  What they
    do in other directories, where git looks for a repository further up, is not said. *)
Definition git_dir (d : list string) : list string := d ++ [".git"].
Definition only_below (d : list string) (fs fs' : gmap (list string) file_node) : Prop :=
  forall k, below d k = false -> fs' !! k = fs !! k.
Definition no_git_file (d : list string) (fs : gmap (list string) file_node) : Prop :=
  forall data perm, fs !! git_dir d <> Some (FileNode data perm).
Definition works_on_repository (args : list string) : Prop :=
  (exists paths, args = "add" :: paths) \/
  exists name email options,
    args = ["-c"; "user.name=" +:+ name; "-c"; "user.email=" +:+ email; "commit"] ++ options.
Record git_repositories (repository : gmap (list string) file_node -> list string -> Prop) : Prop := {
  git_init fs k branch fs' r : no_git_file k fs -> git_change w fs k ["init"; "-b"; branch] = (fs', r) ->
    only_below (git_dir k) fs fs' /\ (r = Ok () -> repository fs' k);
  git_works fs k args fs' r : repository fs k -> works_on_repository args -> git_change w fs k args = (fs', r) ->
    only_below (git_dir k) fs fs' /\ repository fs' k
}.

#[export] Instance only_below_preorder d : PreOrder (only_below d).
Proof. split; [by intros f k|]. intros f1 f2 f3 H1 H2 k Hk. by rewrite H2, H1. Qed.

Lemma below_git d k : below (git_dir d) k = true -> below d k = true.
Proof. rewrite !below_spec. intros [r ->]. exists (".git" :: r). unfold git_dir. by rewrite <- app_assoc. Qed.

Lemma only_git_outside d fs fs' : only_below (git_dir d) fs fs' -> same_outside d fs fs'.
Proof.
  intros H k Hk. left. apply H. apply not_true_iff_false. intros Hg%below_git. congruence.
Qed.

Lemma names_join f : plain (names_of f) -> exists r, plain r /\ r <> [] /\ f = join_with "/" r /\ names_of f = r.
Proof.
  intros Hf. exists (names_of f). split; [done|]. split; [apply split_on_nonempty|].
  split; [|done]. unfold names_of. by rewrite join_split.
Qed.

Lemma joined_components l f : plain l -> plain (names_of f) ->
  components (join_path (absolute l) f) = l ++ names_of f.
Proof.
  intros Hl Hf. destruct (names_join f Hf) as (r & Hr & Hne & -> & ->).
  rewrite join_absolute by done. apply components_absolute. by apply Forall_app.
Qed.

Lemma prepare_leaves d force : plain d -> leaves d (prepareExportDestination w (absolute d) force).
Proof.
  intros Hd. unfold prepareExportDestination. rewrite components_absolute by done.
  apply leaves_bind; [apply leaves_ask|]. intros [[data perm|]|[]]; try apply leaves_fail;
    [|apply leaves_change; intros fs; by apply MkdirAll_outside].
  apply leaves_bind; [apply leaves_ask|]. intros [|e es]; [apply leaves_ret|].
  destruct force; [|apply leaves_fail]. apply leaves_bind.
  - apply leaves_change. intros fs. apply RemoveAll_outside.
  - intros []. apply leaves_change. intros fs. by apply MkdirAll_outside.
Qed.

Lemma copy_leaves d mk src r : r <> [] -> leaves d (copyFile w mk src (d ++ r)).
Proof.
  intros Hr. unfold copyFile. apply leaves_bind; [apply leaves_ask|]. intros data.
  apply leaves_bind; [apply leaves_ask|]. intros info. apply leaves_bind.
  - apply leaves_change. intros fs. apply MkdirAll_outside. rewrite removelast_app by done. by eexists.
  - intros []. apply leaves_change. intros fs. apply WriteFile_outside. by eexists.
Qed.

Lemma export_files_leaves repo d files :
  plain d -> Forall (fun f => plain (names_of f)) files -> leaves d (exportTrackedFiles w repo (absolute d) files).
Proof.
  intros Hd. unfold exportTrackedFiles. induction 1 as [|f files Hf Hfs IH]; [apply leaves_ret|]. cbn [each].
  apply leaves_bind; [|done]. rewrite joined_components by done. apply copy_leaves, split_on_nonempty.
Qed.

(** A fresh repository is made in its own directory. *)
Lemma init_inside repository d b m s s' r :
  plain d -> git_repositories repository -> no_git_file d (sy_files s) ->
  initializeSnapshotRepo w (absolute d) b m s = (s', r) -> only_below (git_dir d) (sy_files s) (sy_files s').
Proof.
  intros Hd [Hinit Hwork] Hno. unfold initializeSnapshotRepo, mbind, command_bind, runGitCommand.
  rewrite components_absolute by done.
  destruct (git_change w (sy_files s) d ["init"; "-b"; b]) as [f1 [[]|e]] eqn:E1;
    destruct (Hinit _ _ _ _ _ Hno E1) as [H1 Hrep]; cbn [map_err sy_files]; [|by intros [= <- _]].
  destruct (git_change w f1 d ["add"; "."]) as [f2 r2] eqn:E2.
  destruct (Hwork _ _ _ _ _ (Hrep eq_refl) ltac:(left; eauto) E2) as [H2 Hrep2].
  destruct r2 as [[]|e]; cbn [map_err sy_files]; [|intros [= <- _]; by trans f1].
  match goal with |- context [git_change w f2 d ?args] => destruct (git_change w f2 d args) as [f3 r3] eqn:E3 end.
  destruct (Hwork _ _ _ _ _ Hrep2 ltac:(right; exists "convex-go-maint", "convex-go-maint@local.invalid"; eauto) E3)
    as [H3 _].
  intros [= <- _]. trans f2; [by trans f1|done].
Qed.

(** What git answers passes through a command. *)
Lemma tracked_names repo s s' files : git_lists_names ->
  gitTrackedFiles w repo [] s = (s', Ok files) ->
  s' = s /\ Forall (fun f => plain (names_of f)) files /\ Forall (fun f => ".git" ∉ names_of f) files /\
  exists out, git_query w (sy_files s) (resolve w repo) ["ls-files"; "-z"; "--"] = Ok out /\ files = parseNULSeparated out.
Proof.
  intros Hg. unfold gitTrackedFiles. cbn [app]. unfold mbind, command_bind, ask.
  destruct (git_query w _ _ _) as [out|e] eqn:E; [|done]. cbn. intros [= <- <-].
  split; [done|]. apply Hg, Forall_and in E as E'. destruct E' as [E1 E2]. split; [done|]. split; [done|]. by exists out.
Qed.

(** ** What a successful export has written *)

(** Every node is in a directory. *)
Definition tree (fs : gmap (list string) file_node) : Prop :=
  forall k x, is_Some (fs !! (k ++ [x])) -> fs !! k = Some DirNode.

Lemma tree_prefix fs k r : tree fs -> is_Some (fs !! (k ++ r)) -> is_Some (fs !! k).
Proof.
  intros Ht. induction r as [|x r IH] using rev_ind; [by rewrite app_nil_r|].
  rewrite app_assoc. intros H%Ht. apply IH. by rewrite H.
Qed.

(** No files below a directory. *)
Definition no_files (d : list string) (fs : gmap (list string) file_node) : Prop :=
  forall k n, below d k = true -> fs !! k = Some n -> n = DirNode.

Lemma no_files_mkdir d flt k fs : no_files d fs -> no_files d (fst (MkdirAll flt k fs)).
Proof. intros Hn k' n Hb H. apply MkdirAll_new in H as [H|[-> _]]; [by eapply Hn|done]. Qed.

Lemma change_Ok mk f s s' : change mk f s = (s', Ok ()) -> f (sy_files s) = (sy_files s', Ok ()).
Proof. unfold change. destruct (f (sy_files s)) as [fs [[]|e]]; by intros [= <-]. Qed.

Lemma prepare_empty d force s s' : plain d -> tree (sy_files s) ->
  prepareExportDestination w (absolute d) force s = (s', Ok ()) -> no_files d (sy_files s').
Proof.
  intros Hd Ht. unfold prepareExportDestination. rewrite components_absolute by done.
  unfold mbind, command_bind, ask at 1, Stat, guarded.
  destruct (fault (faults w) (SysStat d)); [done|]. unfold lookup_node.
  destruct (sy_files s !! d) as [[data perm|]|] eqn:E; [done| |].
  - unfold ask, ReadDir, guarded. destruct (fault (faults w) (SysReadDir d)); [done|]. cbn.
    destruct (filter _ _) as [|e es] eqn:Hes.
    + intros [= <-] k n [r ->]%below_spec Hn. destruct r as [|x r]; [rewrite app_nil_r in Hn; congruence|]. exfalso.
      assert (His : is_Some (sy_files s !! (d ++ [x]))).
      { apply (tree_prefix _ _ r Ht). rewrite <- app_assoc. eauto. }
      destruct His as [m Hm]. apply (not_elem_of_nil (d ++ [x])). rewrite <- Hes. apply list_elem_of_filter. split.
      * unfold child_of. rewrite take_app_length. rewrite bool_decide_true by done.
        rewrite length_app. cbn. apply Nat.eqb_eq. lia.
      * apply list_elem_of_fmap. exists (d ++ [x], m). split; [done|]. by apply elem_of_map_to_list.
    + destruct force; [|done]. destruct (change _ _ s) as [s1 [[]|e']] eqn:E1; [|done].
      apply change_Ok in E1. intros H%change_Ok.
      assert (Hgone : no_files d (sy_files s1)).
      { intros k n Hb Hk. exfalso. unfold RemoveAll in E1. destruct (fault (faults w) (SysRemove d)); [done|].
        injection E1 as E1. rewrite <- E1 in Hk. apply map_lookup_filter_Some in Hk as [_ Hk]. cbn in Hk. congruence. }
      pose proof (no_files_mkdir d (faults w) d _ Hgone) as Hn. by rewrite H in Hn.
  - destruct (through_file (sy_files s) d); [done|]. intros H%change_Ok.
    assert (Hno : no_files d (sy_files s)).
    { intros k n [r ->]%below_spec Hk. exfalso.
      assert (is_Some (sy_files s !! d)) as [m Hm] by (eapply tree_prefix; eauto). congruence. }
    pose proof (no_files_mkdir d (faults w) d _ Hno) as Hn. by rewrite H in Hn.
Qed.

(** Apart from one location, the same files. *)
Definition same_files_but (t : list string) (fs fs' : gmap (list string) file_node) : Prop :=
  forall k data perm, k <> t -> fs' !! k = Some (FileNode data perm) <-> fs !! k = Some (FileNode data perm).

Lemma MkdirAll_same_files flt k fs t : same_files_but t fs (fst (MkdirAll flt k fs)).
Proof.
  intros k' data perm _. split; [|apply MkdirAll_keeps]. intros H.
  by apply MkdirAll_new in H as [?|[? _]].
Qed.

Lemma copy_written mk src t s s' : copyFile w mk src t s = (s', Ok ()) ->
  same_files_but t (sy_files s) (sy_files s') /\
  exists data perm p, sy_files s !! src = Some (FileNode data perm) /\ sy_files s' !! t = Some (FileNode data p).
Proof.
  unfold copyFile. unfold mbind, command_bind, ask.
  destruct (ReadFile (faults w) (sy_files s) src) as [data|e] eqn:Er; [|done]. cbn [map_err].
  destruct (Stat (faults w) (sy_files s) src) as [info|e]; [|done]. cbn [map_err].
  destruct (change mk (MkdirAll _ _) s) as [s1 [[]|e]] eqn:E1; [|done]. apply change_Ok in E1. intros E2%change_Ok.
  split.
  - pose proof (MkdirAll_same_files (faults w) (removelast t) (sy_files s) t) as H. rewrite E1 in H. cbn [fst] in H.
    intros k d p Hk. rewrite <- (H k d p Hk).
    pose proof (WriteFile_elsewhere (faults w) (umask w) t data
      (match info with FileNode _ perm => perm | DirNode => 0 end) (sy_files s1) k Hk) as Hw.
    rewrite E2 in Hw. cbn [fst] in Hw. by rewrite Hw.
  - destruct (WriteFile_written _ _ _ _ _ _ _ E2) as [p Hp].
    unfold ReadFile, guarded in Er. destruct (fault (faults w) (SysRead src)); [done|].
    apply bind_Ok in Er as (n & Hn & Er). destruct n as [data' perm|]; [|done]. injection Er as ->.
    exists data, perm, p. split; [|done]. unfold lookup_node in Hn. by destruct (sy_files s !! src); [injection Hn as ->|].
Qed.

(** Two directories neither of which is in the other have nothing in common. *)
Lemma disjoint_dirs (d q k k' : list string) : ~ d `prefix_of` q -> ~ q `prefix_of` d ->
  d `prefix_of` k -> q `prefix_of` k' -> k' <> k.
Proof. intros H1 H2 Hd Hq ->. destruct (prefix_weak_total d q k Hd Hq); tauto. Qed.

(** ** The export leaves the rest alone *)

(** The tracked files do not touch the directory of git. *)
Lemma export_no_git q d files : plain d ->
  Forall (fun f => plain (names_of f)) files -> Forall (fun f => ".git" ∉ names_of f) files -> forall s s',
  no_git_file d (sy_files s) -> exportTrackedFiles w (absolute q) (absolute d) files s = (s', Ok ()) ->
  no_git_file d (sy_files s').
Proof.
  intros Hd Hp Hn. induction files as [|f files IH]; intros s s' Hno; cbn [exportTrackedFiles each]; [by intros [= <-]|].
  apply Forall_cons in Hp as [Hf Hp], Hn as [Hgf Hn].
  unfold mbind at 1, command_bind at 1. rewrite (joined_components d f) by done.
  destruct (copyFile _ _ _ _ s) as [s1 [[]|e]] eqn:E; [|done]. apply copy_written in E as [Hsame _].
  apply IH; [done|done|]. intros data perm Hg. apply (Hno data perm). apply Hsame; [|done].
  intros He. unfold git_dir in He. apply app_inv_head in He. rewrite <- He in Hgf. set_solver.
Qed.

(** C27. [export-snapshot] changes nothing outside the destination, whether it succeeds or fails.
    Everything that is not in the destination, files and directories, is as it was, but that the
    directories on the way to it have been made when they were missing; a repository that the
    destination is in is not touched, even with [-git-init].  Known of git is that its list holds
    relative names, that [git init] in a directory without a file [.git] changes its [.git] alone
    and makes a repository, and that [git add] and [git commit] at the top of a repository change
    its [.git] alone; nothing is known of [git add] anywhere else. *)
Theorem export_leaves_rest repository fs s s' r :
  path_is_abs (cwd w) = true -> git_lists_names -> git_repositories repository -> tree (sy_files s) ->
  export_snapshot w fs s = (s', r) ->
  same_outside (resolve w (flag_text fs "out")) (sy_files s) (sy_files s').
Proof.
  intros Hcwd Hl Hg Ht. unfold resolve. destruct (Abs_absolute (cwd w) (flag_text fs "out") Hcwd) as (d & Hd & Ed).
  destruct (Abs_absolute (cwd w) (flag_text fs "repo") Hcwd) as (q & Hq & Eq).
  rewrite Ed, components_absolute by done. unfold export_snapshot. rewrite Ed, Eq.
  case_decide; [by intros [= <- _]|]. destruct (sameOrNestedPath _ _); [by intros [= <- _]|].
  unfold mbind at 1, command_bind at 1. destruct (prepareExportDestination _ _ _ s) as [s1 r1] eqn:E1.
  pose proof (prepare_leaves d _ Hd s s1 _ E1) as H1. destruct r1 as [[]|e]; [|by intros [= <- _]].
  pose proof (prepare_empty d _ s s1 Hd Ht E1) as Hempty.
  unfold mbind at 1, command_bind at 1. destruct (gitTrackedFiles w (absolute q) [] s1) as [s2 [files|e]] eqn:E2.
  2: { intros [= <- _]. assert (s2 = s1) as ->; [|done].
       revert E2. unfold gitTrackedFiles, mbind, command_bind, ask. destruct (map_err _ _); intros [=]. done. }
  destruct (tracked_names _ _ _ _ Hl E2) as (-> & Hf & Hgf & _). destruct files as [|f files]; [by intros [= <- _]|].
  unfold mbind at 1, command_bind at 1. destruct (exportTrackedFiles _ _ _ _ s1) as [s3 r3] eqn:E3.
  pose proof (export_files_leaves (absolute q) d _ Hd Hf s1 s3 _ E3) as H3. intros H4.
  trans (sy_files s1); [done|]. destruct r3 as [[]|e]; [|by injection H4 as <- _].
  trans (sy_files s3); [done|]. assert (Hno : no_git_file d (sy_files s3)).
  { apply (export_no_git q d (f :: files) Hd Hf Hgf s1); [|done]. intros data perm Hk.
    apply Hempty in Hk; [done|]. apply below_spec. by eexists. }
  revert H4. unfold mbind at 1, command_bind at 1. destruct (flag_set fs "git-init").
  - destruct (initializeSnapshotRepo _ _ _ _ s3) as [s4 r4] eqn:E4.
    pose proof (init_inside repository d _ _ s3 s4 _ Hd Hg Hno E4) as Hin. apply only_git_outside in Hin.
    intros H4. trans (sy_files s4); [done|]. destruct r4 as [[]|e]; [|by injection H4 as <- _].
    revert H4. apply leaves_bind; [apply leaves_print|]. intros []. apply leaves_print.
  - cbn [mret command_ret]. apply leaves_bind; [apply leaves_print|]. intros []. apply leaves_ret.
Qed.

Section copy.
Context (q d : list string) (Hq : plain q) (Hd : plain d) (Hdq : ~ d `prefix_of` q) (Hqd : ~ q `prefix_of` d).

Definition exported (orig fs : gmap (list string) file_node) (f : string) : Prop :=
  exists data perm p, orig !! (q ++ names_of f) = Some (FileNode data perm) /\
    fs !! (d ++ names_of f) = Some (FileNode data p).
Definition same_sources (orig fs : gmap (list string) file_node) : Prop :=
  forall k data perm, q `prefix_of` k -> fs !! k = Some (FileNode data perm) <-> orig !! k = Some (FileNode data perm).

(** The loop, after the files [before]. *)
Lemma export_loop orig files : forall before s s',
  Forall (fun f => plain (names_of f)) files ->
  same_sources orig (sy_files s) -> Forall (exported orig (sy_files s)) before ->
  (forall k data p, below d k = true -> sy_files s !! k = Some (FileNode data p) ->
     exists f, f ∈ before /\ k = d ++ names_of f) ->
  exportTrackedFiles w (absolute q) (absolute d) files s = (s', Ok ()) ->
  Forall (exported orig (sy_files s')) (before ++ files) /\
  (forall k data p, below d k = true -> sy_files s' !! k = Some (FileNode data p) ->
     exists f, f ∈ before ++ files /\ k = d ++ names_of f).
Proof.
  induction files as [|f files IH]; intros before s s' Hfs Hsrc Hbefore Honly; cbn [exportTrackedFiles each].
  { intros [= <-]. rewrite app_nil_r. done. }
  apply Forall_cons in Hfs as [Hf Hfs]. rewrite !joined_components by done.
  unfold mbind at 1, command_bind at 1. destruct (copyFile _ _ _ _ s) as [s1 [[]|e]] eqn:E; [|done].
  apply copy_written in E as (Hsame & data & perm & p & Hread & Hwritten).
  replace (before ++ f :: files) with ((before ++ [f]) ++ files) by (by rewrite <- app_assoc).
  apply IH; [done| | |].
  - intros k data' perm' Hk. rewrite <- (Hsrc k data' perm' Hk). apply Hsame.
    eapply disjoint_dirs; [exact Hdq|exact Hqd|by eexists|done].
  - apply Forall_app. split.
    + eapply Forall_impl; [exact Hbefore|]. intros g (dg & pg & pg' & Ho & Hg).
      destruct (decide (d ++ names_of g = d ++ names_of f)) as [Heq|Hne].
      * assert (names_of g = names_of f) as En by (by apply app_inv_head in Heq).
        exists data, perm, p. rewrite En. split; [|done]. apply Hsrc; [by eexists|done].
      * exists dg, pg, pg'. split; [done|]. by apply Hsame.
    + constructor; [|constructor]. exists data, perm, p. split; [|done]. apply Hsrc; [by eexists|done].
  - intros k data' p' Hb Hk. destruct (decide (k = d ++ names_of f)) as [->|Hne].
    + exists f. split; [|done]. apply elem_of_app. right. by constructor.
    + apply Hsame in Hk; [|done]. destruct (Honly k data' p' Hb Hk) as (g & Hg & ->). exists g.
      split; [|done]. apply elem_of_app. by left.
Qed.
End copy.

(** What follows the copies: a repository, when it is asked for, and the texts. *)
Lemma export_rest repository d flags (text : string) s s' :
  plain d -> git_repositories repository -> no_git_file d (sy_files s) ->
  (_ ← (if flag_set flags "git-init"
        then initializeSnapshotRepo w (absolute d) (flag_text flags "initial-branch") (flag_text flags "commit-message")
        else mret ());
   _ ← print w text;
   if flag_set flags "git-init" then print w (line "initialized fresh git repository") else mret ()) s = (s', Ok ()) ->
  only_below (git_dir d) (sy_files s) (sy_files s') /\
  (flag_set flags "git-init" = false -> sy_files s' = sy_files s).
Proof.
  intros Hd Hg Hno. unfold mbind, command_bind, mret, command_ret, print.
  destruct (flag_set flags "git-init").
  - destruct (initializeSnapshotRepo _ _ _ _ s) as [s4 [[]|e]] eqn:E4; [|done].
    pose proof (init_inside repository d _ _ s s4 _ Hd Hg Hno E4) as Hin.
    destruct (stdout_fault w); [done|]. by intros [= <-].
  - destruct (stdout_fault w); [done|]. by intros [= <-].
Qed.

(** C28. A successful export is a copy.  When the repository is not inside the destination: every
    file git lists once the destination is prepared is at the destination with the contents it had
    in the repository; the destination holds no other files, but for those in its [.git] when
    [-git-init] is set; and the repository is as it was.  What is known of git is as for
    [export_leaves_rest]. *)
Theorem export_copies repository fs s s' :
  path_is_abs (cwd w) = true -> git_lists_names -> git_repositories repository -> tree (sy_files s) ->
  let d := resolve w (flag_text fs "out") in
  let q := resolve w (flag_text fs "repo") in
  ~ d `prefix_of` q ->
  export_snapshot w fs s = (s', Ok ()) ->
  exists prepared out files, files <> [] /\
    git_query w prepared q ["ls-files"; "-z"; "--"] = Ok out /\ files = parseNULSeparated out /\
    same_sources q (sy_files s) prepared /\
    Forall (exported q d (sy_files s) (sy_files s')) files /\
    (forall k data p, below d k = true -> sy_files s' !! k = Some (FileNode data p) ->
       (exists f, f ∈ files /\ k = d ++ names_of f) \/
       flag_set fs "git-init" = true /\ below (git_dir d) k = true) /\
    same_sources q (sy_files s) (sy_files s').
Proof.
  intros Hcwd Hl Hg Ht. unfold resolve. destruct (Abs_absolute (cwd w) (flag_text fs "out") Hcwd) as (d & Hd & Ed).
  destruct (Abs_absolute (cwd w) (flag_text fs "repo") Hcwd) as (q & Hq & Eq).
  rewrite Ed, Eq, !components_absolute by done. cbv zeta. intros Hdq. unfold export_snapshot. rewrite Ed, Eq.
  case_decide; [done|]. destruct (sameOrNestedPath _ _) eqn:Hnest; [done|].
  assert (Hqd : ~ q `prefix_of` d).
  { intros Hp. apply (sameOrNestedPath_spec d q Hd Hq) in Hp. congruence. }
  assert (Hout : forall k, q `prefix_of` k -> below d k = false).
  { intros k Hk. apply not_true_iff_false. intros Hp%below_spec. destruct (prefix_weak_total d q k Hp Hk); tauto. }
  assert (Hsame : forall f1 f2, same_outside d f1 f2 -> same_sources q f1 f2).
  { intros f1 f2 Ho k data perm Hk. destruct (Ho k (Hout k Hk)) as [->|(E & -> & _)]; [done|]. rewrite E. by split. }
  unfold mbind at 1, command_bind at 1.
  destruct (prepareExportDestination w (absolute d) (flag_set fs "force") s) as [s1 [[]|e]] eqn:E1; [|done].
  pose proof (prepare_empty d _ s s1 Hd Ht E1) as Hempty.
  pose proof (prepare_leaves d (flag_set fs "force") Hd s s1 _ E1) as Hleave.
  unfold mbind at 1, command_bind at 1.
  destruct (gitTrackedFiles w (absolute q) [] s1) as [s2 [files|e]] eqn:E2; [|done].
  destruct (tracked_names _ _ _ _ Hl E2) as (-> & Hf & Hgf & out & Hgit & Hfiles). unfold resolve in Hgit.
  assert (Abs (cwd w) (absolute q) = absolute q) as Eabs by (by apply clean_absolute_id).
  rewrite Eabs, components_absolute in Hgit by done.
  destruct files as [|f files]; [done|]. unfold mbind at 1, command_bind at 1.
  destruct (exportTrackedFiles _ _ _ _ s1) as [s3 [[]|e]] eqn:E3; [|done]. intros E4.
  assert (Hno : no_git_file d (sy_files s3)).
  { apply (export_no_git q d (f :: files) Hd Hf Hgf s1); [|done]. intros data perm Hk.
    apply Hempty in Hk; [done|]. apply below_spec. by eexists. }
  destruct (export_rest repository d fs _ s3 s' Hd Hg Hno E4) as [Hgitonly Hplain].
  destruct (export_loop q d Hq Hd Hdq Hqd (sy_files s) (f :: files) [] s1 s3) as [Hall Honly];
    [done|by apply Hsame|constructor| |done|].
  { intros k data p Hb Hk. by apply Hempty in Hk. }
  exists (sy_files s1), out, (f :: files). split; [done|]. split; [done|]. split; [done|]. split; [by apply Hsame|].
  split; [|split].
  - cbn [app] in Hall. apply Forall_forall. intros g Hin. rewrite Forall_forall in Hall.
    destruct (Hall g Hin) as (data & perm & p & H1 & H2). exists data, perm, p. split; [done|].
    rewrite Hgitonly; [done|]. apply not_true_iff_false. intros [r Hr]%below_spec.
    unfold git_dir in Hr. rewrite <- app_assoc in Hr. apply app_inv_head in Hr.
    rewrite Forall_forall in Hgf. apply (Hgf g Hin). rewrite Hr. set_solver.
  - intros k data p Hb Hk. destruct (below (git_dir d) k) eqn:Hbg.
    + destruct (flag_set fs "git-init"); [by right|]. rewrite Hplain in Hk by done. left. by eapply Honly.
    + rewrite Hgitonly in Hk by done. left. by eapply Honly.
  - intros k data perm Hk. rewrite <- (Hsame _ _ Hleave k data perm Hk).
    rewrite <- (Hsame _ _ (export_files_leaves (absolute q) d (f :: files) Hd Hf s1 s3 _ E3) k data perm Hk).
    by apply (Hsame _ _ (only_git_outside _ _ _ Hgitonly)).
Qed.
(** The one thing a refused destination does not cover: with [-force] and a destination that the
    repository is inside, nothing of the repository is left, and the command fails. *)
Lemma export_removes_repository fs s s' r :
  path_is_abs (cwd w) = true -> git_lists_names -> tree (sy_files s) -> (forall c, fault (faults w) c = None) ->
  trim_space (flag_text fs "out") <> "" ->
  let d := resolve w (flag_text fs "out") in
  let q := resolve w (flag_text fs "repo") in
  d `prefix_of` q -> d <> q -> is_Some (sy_files s !! q) -> flag_set fs "force" = true ->
  export_snapshot w fs s = (s', r) ->
  (forall k, q `prefix_of` k -> sy_files s' !! k = None) /\ exists e, r = Err e.
Proof.
  intros Hcwd Hl Ht Hf Hout. unfold resolve. destruct (Abs_absolute (cwd w) (flag_text fs "out") Hcwd) as (d & Hd & Ed).
  destruct (Abs_absolute (cwd w) (flag_text fs "repo") Hcwd) as (q & Hq & Eq).
  rewrite Ed, Eq, !components_absolute by done. cbv zeta. intros [[|x t] ->] Hne Hroot Hforce; [by rewrite app_nil_r in Hne|].
  unfold export_snapshot. rewrite Ed, Eq, Hforce, decide_False by done.
  destruct (sameOrNestedPath _ _) eqn:Hnest.
  { exfalso. apply sameOrNestedPath_spec in Hnest as [r' Hr]; [|done..]. apply (f_equal length) in Hr.
    rewrite !length_app in Hr. cbn in Hr. lia. }
  assert (Hx : is_Some (sy_files s !! (d ++ [x]))).
  { apply (tree_prefix _ _ t Ht). by rewrite <- app_assoc. }
  pose proof (Ht d x Hx) as Hdir. destruct Hx as [m Hm].
  unfold mbind at 1, command_bind at 1. destruct (prepareExportDestination w (absolute d) true s) as [s1 r1] eqn:E1.
  assert (Hgone : forall k, (d ++ x :: t) `prefix_of` k -> sy_files s1 !! k = None).
  { revert E1. unfold prepareExportDestination. rewrite components_absolute by done.
    unfold mbind, command_bind, ask at 1, Stat, guarded, lookup_node. rewrite Hf, Hdir.
    unfold ask, ReadDir, guarded. rewrite Hf. cbn [map_err].
    destruct (filter _ _) as [|e es] eqn:Hes.
    - exfalso. apply (not_elem_of_nil (d ++ [x])). rewrite <- Hes. apply list_elem_of_filter. split.
      + unfold child_of. rewrite take_app_length, bool_decide_true by done. rewrite length_app. cbn. apply Nat.eqb_eq. lia.
      + apply list_elem_of_fmap. exists (d ++ [x], m). split; [done|]. by apply elem_of_map_to_list.
    - unfold change, RemoveAll. rewrite Hf. cbn [map_err sy_files].
      set (left := filter _ _). intros E1 k Hk. destruct (sy_files s1 !! k) as [n|] eqn:En; [|done]. exfalso.
      assert (s1 = mkSystem (fst (MkdirAll (faults w) d left)) (sy_out s)) as ->.
      { destruct (MkdirAll (faults w) d left). by injection E1. }
      assert (Hb : below d k = true).
      { apply below_spec. destruct Hk as [u ->]. exists (x :: t ++ u). by rewrite <- !app_assoc. }
      apply MkdirAll_new in En as [En|[_ Hp]].
      + apply map_lookup_filter_Some in En as [_ En]. cbn in En. congruence.
      + destruct Hk as [u ->], Hp as [v Hv]. apply (f_equal length) in Hv. rewrite !length_app in Hv. cbn in Hv. lia. }
  destruct r1 as [[]|e]; [|intros [= <- <-]; by eauto].
  unfold mbind at 1, command_bind at 1. destruct (gitTrackedFiles w (absolute (d ++ x :: t)) [] s1) as [s2 r2] eqn:E2.
  destruct r2 as [files|e].
  - destruct (tracked_names _ _ _ _ Hl E2) as (-> & Hfs & _).
    destruct files as [|f files]; [intros [= <- <-]; by eauto|]. apply Forall_cons in Hfs as [Hfn _].
    unfold mbind at 1, command_bind at 1. cbn [exportTrackedFiles each]. rewrite !joined_components by done.
    unfold mbind at 1, command_bind at 1, copyFile at 1. unfold mbind at 1, command_bind at 1, ask at 1.
    unfold ReadFile, guarded, lookup_node. rewrite Hf, (Hgone ((d ++ x :: t) ++ names_of f)) by (by eexists).
    intros [= <- <-]. by eauto.
  - revert E2. unfold gitTrackedFiles, mbind, command_bind, ask. destruct (map_err _ _); intros [=]; subst.
    intros [= <- <-]. by eauto.
Qed.
End export.

(** ** Concrete systems *)

Definition nul_text (l : list string) : string := join_with (chr 0) l.
#[export] Instance file_node_eq : EqDecision file_node.
Proof. solve_decision. Defined.
(** A git: it lists [files]; [init] makes a [.git] with a file in it, and other commands write to
    the one of the directory or the next one further up. *)
Definition git_top (fs : gmap (list string) file_node) (k : list string) : option (list string) :=
  last (filter (fun p => fs !! git_dir p = Some DirNode) (map (fun n => take n k) (seq 0 (S (length k))))).
Definition small_git_change (fs : gmap (list string) file_node) (k args : list string)
    : gmap (list string) file_node * result string unit :=
  match args with
  | ["init"; "-b"; branch] =>
      match fs !! git_dir k with
      | Some (FileNode _ _) => (fs, Err "invalid gitfile format")
      | _ => (<[git_dir k ++ ["HEAD"] := FileNode ("ref: refs/heads/" +:+ branch) 420]> (<[git_dir k := DirNode]> fs), Ok ())
      end
  | _ =>
      match git_top fs k with
      | Some p => (<[git_dir p ++ ["index"] := FileNode "index" 420]> fs, Ok ())
      | None => (fs, Err "not a git repository")
      end
  end.
Definition plain_git (files : list string) (dir : string) : outside :=
  mkOutside dir (mkFaults (fun _ => None) (fun _ => false)) 18 None (fun m => map fst (map_to_list m))
    (fun _ _ _ => Ok (nul_text files)) small_git_change (fun _ _ _ => ("", "", Ok ()))
    (fun _ => "") (fun _ => None).
Definition has_git (fs : gmap (list string) file_node) (k : list string) : Prop := fs !! git_dir k = Some DirNode.
Definition demo_git : outside := plain_git ["go.mod"; "cmd/main.go"] "/w/repo".
Definition demo_files : gmap (list string) file_node :=
  list_to_map [([], DirNode); (["w"], DirNode); (["w"; "repo"], DirNode);
               (["w"; "repo"; "go.mod"], FileNode "module m" 420); (["w"; "repo"; "cmd"], DirNode);
               (["w"; "repo"; "cmd"; "main.go"], FileNode "package main" 420);
               (["w"; "repo"; "secret"], FileNode "k" 384); (["w"; "old"], FileNode "o" 420)].
Definition demo_flags (out : string) (force : bool) : gmap string flag_value :=
  {["repo" := FlagString "."; "out" := FlagString out; "force" := FlagBool force; "git-init" := FlagBool false;
    "initial-branch" := FlagString "main"; "commit-message" := FlagString "m"]}.
Definition demo_system : system := mkSystem demo_files "".

Lemma tree_check fs :
  forallb (fun kv => match kv.1 with [] => true | _ => bool_decide (fs !! removelast kv.1 = Some DirNode) end)
    (map_to_list fs) = true -> tree fs.
Proof.
  intros Hall k x [n Hn]. assert (H : (k ++ [x], n) ∈ map_to_list fs) by (by apply elem_of_map_to_list).
  rewrite forallb_forall in Hall. specialize (Hall (k ++ [x], n)).
  rewrite <- list_elem_of_In in Hall. specialize (Hall H). cbn [fst] in Hall.
  destruct (k ++ [x]) eqn:E; [by destruct k|]. rewrite <- E, removelast_last in Hall. by apply bool_decide_eq_true in Hall.
Qed.
Lemma demo_lists_names : git_lists_names demo_git.
Proof. intros fs k out [= <-]. apply Forall_and. split; [by repeat constructor|]. repeat constructor; set_solver. Qed.

Lemma git_dir_below k r : below (git_dir k) (git_dir k ++ r) = true.
Proof. apply below_spec. by eexists. Qed.
Lemma only_below_insert d k n fs : below d k = true -> only_below d fs (<[k := n]> fs).
Proof. intros Hb k' Hk. rewrite lookup_insert_ne; [done|]. intros ->. congruence. Qed.

Lemma demo_repositories : git_repositories demo_git has_git.
Proof.
  split.
  - intros fs k branch fs' r Hno. cbn. destruct (fs !! git_dir k) as [[data perm|]|] eqn:E; [by destruct (Hno data perm)|..];
      intros [= <- <-]; (split; [|intros _; unfold has_git; rewrite lookup_insert_ne, lookup_insert_eq; [done|];
        intros H%(f_equal length); rewrite length_app in H; cbn in H; lia]).
    all: trans (<[git_dir k := DirNode]> fs); apply only_below_insert; [|apply git_dir_below];
      rewrite <- (app_nil_r (git_dir k)) at 2; apply git_dir_below.
  - intros fs k args fs' r Hrep Hargs. assert (git_top fs k = Some k) as Htop.
    { unfold git_top. rewrite seq_S, map_app, filter_app, last_app. cbn [map plus]. rewrite firstn_all.
      rewrite filter_cons_True by exact Hrep. done. }
    assert (small_git_change fs k args = (<[git_dir k ++ ["index"] := FileNode "index" 420]> fs, Ok ())) as Hc.
    { destruct Hargs as [[paths ->]|(n & e & options & ->)]; cbn; by rewrite Htop. }
    change (git_change demo_git fs k args) with (small_git_change fs k args). rewrite Hc. intros [= <- <-].
    split; [apply only_below_insert, git_dir_below|]. unfold has_git.
    rewrite lookup_insert_ne; [exact Hrep|]. intros H%(f_equal length). rewrite length_app in H. cbn in H. lia.
Qed.

(** The destination exists already, is in a repository, and is emptied; a fresh repository is made in
    it.  The file of the source that is not tracked stays behind. *)
Definition demo_full : system :=
  mkSystem (<[["w"; "out"] := DirNode]> (<[["w"; "out"; "x"] := FileNode "x" 420]>
    (<[["w"; ".git"] := DirNode]> (<[["w"; ".git"; "HEAD"] := FileNode "ref: refs/heads/dev" 420]> demo_files)))) "".
Lemma demo_full_tree : tree (sy_files demo_full).
Proof. apply tree_check. vm_compute. reflexivity. Qed.
Definition demo_flags_init (out : string) : gmap string flag_value :=
  <["git-init" := FlagBool true]> (demo_flags out true).

Lemma export_leaves_rest_witness :
  same_outside ["w"; "out"] (sy_files demo_full) (sy_files (fst (export_snapshot demo_git (demo_flags_init "../out") demo_full))) /\
  sy_files (fst (export_snapshot demo_git (demo_flags_init "../out") demo_full)) !! ["w"; "out"; ".git"; "HEAD"]
  = Some (FileNode "ref: refs/heads/main" 420).
Proof.
  split; [|vm_compute; reflexivity].
  apply (export_leaves_rest demo_git has_git (demo_flags_init "../out") demo_full _
           (snd (export_snapshot demo_git (demo_flags_init "../out") demo_full))).
  - reflexivity.
  - apply demo_lists_names.
  - apply demo_repositories.
  - apply demo_full_tree.
  - apply surjective_pairing.
Defined.

Lemma export_copies_witness :
  exists files, files <> [] /\
    Forall (exported ["w"; "repo"] ["w"; "out"] (sy_files demo_full)
              (sy_files (fst (export_snapshot demo_git (demo_flags_init "/w/out") demo_full)))) files.
Proof.
  destruct (export_copies demo_git has_git (demo_flags_init "/w/out") demo_full
              (fst (export_snapshot demo_git (demo_flags_init "/w/out") demo_full)))
    as (prepared & out & files & H1 & _ & _ & _ & H2 & _).
  - reflexivity.
  - apply demo_lists_names.
  - apply demo_repositories.
  - apply demo_full_tree.
  - intros H. apply below_spec in H. by vm_compute in H.
  - rewrite (surjective_pairing (export_snapshot _ _ _)). f_equal.
  - exists files. by split.
Defined.

(** The repository [/w/repo] exported into [/w]. *)
Example export_into_parent :
  let '(s, r) := export_snapshot demo_git (demo_flags "/w" true) demo_system in
  map fst (map_to_list (sy_files s)) = [["w"]; []] /\ r = Err (ExportFailed "go.mod" NotExist).
Proof. vm_compute. by split. Qed.
