(* ===== verification/MaintFacts.v ===== *)
(** * What the checks of the maintenance command decide

    The verdict of [bench-compare], from what the output of [go test -bench] says; the sums of
    [coverage-check], which are exact; and what [release-check] has made sure of. *)
From S2P Require Import Prelude GoStrings GoFloat GoText FloatFacts GoFiles GoFlag GoUrl GoRegexp Maint MaintCommands.
From Stdlib Require Import Ascii.
Local Open Scope Z_scope.

#[local] Arguments String.append !_ _ /.

(** ** Benchmarks *)

(** *** What an output says *)

(** A name with a number behind it, and the name that counts. *)
Definition numbered (head base : string) : Prop :=
  exists digits, digits <> "" /\ all_bytes is_dec digits = true /\ head = base +:+ String "-" digits.
Definition counts_as (head name : string) : Prop :=
  numbered head name \/ (~ exists base, numbered head base) /\ name = head.

(** The pairs of a value and a unit; the last value of a unit. *)
Fixpoint pairs (l : list string) : list (string * string) :=
  match l with value :: unit :: rest => (value, unit) :: pairs rest | _ => [] end.
Definition last_value (unit : string) (l : list (string * string)) (v : Z) : Prop :=
  exists before text after, l = before ++ (text, unit) :: after /\ ParseFloat text = Ok v /\
    Forall (fun p => snd p <> unit) after.

(** A line gives a benchmark its three metrics. *)
Definition says (line name : string) (m : benchmarkMetrics) : Prop :=
  exists head count rest, fields line = head :: count :: rest /\ (6 <= length rest)%nat /\ counts_as head name /\
    Forall (fun p => is_ok (ParseFloat (fst p)) = true) (pairs rest) /\
    last_value "ns/op" (pairs rest) (NsPerOp m) /\ last_value "B/op" (pairs rest) (BytesPerOp m) /\
    last_value "allocs/op" (pairs rest) (AllocsPerOp m).

(** The lines about benchmarks, and what they say of one: the last line about it counts. *)
Definition bench_rows (body : string) : list string :=
  filter (fun line => has_prefix "Benchmark" line = true) (map trim_space (lines body)).
Definition readable (body : string) : Prop :=
  bench_rows body <> [] /\ Forall (fun line => exists name m, says line name m) (bench_rows body).
Definition told_last (rows : list string) (name : string) (m : benchmarkMetrics) : Prop :=
  exists before line after, rows = before ++ line :: after /\ says line name m /\
    Forall (fun l => forall m', ~ says l name m') after.
Definition measured (body : string) : string -> benchmarkMetrics -> Prop := told_last (bench_rows body).

(** *** Reading a line *)

Lemma digits_lack_dash s : all_bytes is_dec s = true -> lacks "-" s = true.
Proof.
  induction s as [|c s IH]; [done|]. change (is_dec c && all_bytes is_dec s = true -> lacks "-" (String c s) = true).
  intros [Hc Hs]%andb_true_iff. apply lacks_cons. split; [by intros ->|by apply IH].
Qed.

Lemma counts_as_spec head name : counts_as head name <-> name = normalizeBenchmarkName head.
Proof.
  unfold normalizeBenchmarkName, counts_as.
  assert (Hcut : forall base, numbered head base -> exists digits, cut_last "-" head = Some (base, digits) /\
    digits <> "" /\ all_bytes is_dec digits = true).
  { intros base (digits & Hne & Hd & ->). exists digits. split; [|done]. by apply cut_last_app, digits_lack_dash. }
  destruct (cut_last "-" head) as [[front back]|] eqn:E.
  - apply cut_last_Some in E as [-> Hl]. destruct (String.eqb_spec back "") as [->|Hne]; cbn [negb andb].
    + split; [intros [(d & [= <- <-] & ? & _)%Hcut|[_ ?]]; done|intros ->]. right. split; [|done].
      by intros (base & (d & [= <- <-] & ? & _)%Hcut).
    + destruct (all_bytes is_dec back) eqn:Hd.
      * split; [intros [(d & [= <- <-] & _)%Hcut|[Hno _]]; [done|]|intros ->; left; by exists back].
        destruct Hno. exists front, back. done.
      * split; [intros [(d & [= <- <-] & _ & ?)%Hcut|[_ ?]]; [congruence|done]|intros ->]. right. split; [|done].
        intros (base & (d & [= <- <-] & _ & ?)%Hcut). congruence.
  - split; [intros [(d & ? & _)%Hcut|[_ ?]]; [congruence|done]|intros ->]. right. split; [|done].
    by intros (base & (d & ? & _)%Hcut).
Qed.

(** The last value of a unit, or else [default]. *)
Definition latest (unit : string) (default : option Z) (l : list (string * string)) : option Z :=
  fold_left (fun v p => if decide (snd p = unit) then match ParseFloat (fst p) with Ok x => Some x | Err _ => v end else v)
    l default.

Lemma read_metrics_spec line l : forall ns bytes allocs r,
  read_metrics line ns bytes allocs l = Ok r <->
  Forall (fun p => is_ok (ParseFloat (fst p)) = true) (pairs l) /\
  r = (latest "ns/op" ns (pairs l), latest "B/op" bytes (pairs l), latest "allocs/op" allocs (pairs l)).
Proof.
  enough (H : forall n l, (length l <= n)%nat -> forall ns bytes allocs r,
    read_metrics line ns bytes allocs l = Ok r <->
    Forall (fun p => is_ok (ParseFloat (fst p)) = true) (pairs l) /\
    r = (latest "ns/op" ns (pairs l), latest "B/op" bytes (pairs l), latest "allocs/op" allocs (pairs l)))
    by (by eapply H).
  clear l. induction n as [|n IH]; intros [|v [|u l]] Hl ns bytes allocs r; cbn [length] in Hl; try lia;
    cbn [read_metrics pairs]; try (split; [intros [= <-]; by split|by intros [_ ->]]).
  rewrite Forall_cons. cbn [fst]. destruct (ParseFloat v) as [x|e] eqn:Hv; cbn [map_err mbind result_bind is_ok].
  2: { split; [done|]. by intros [[? _] _]. }
  unfold latest. cbn [fold_left snd fst]. rewrite Hv.
  repeat case_decide; subst; try done; rewrite IH by lia; unfold latest; naive_solver.
Qed.

Lemma latest_value unit l v : Forall (fun p => is_ok (ParseFloat (fst p)) = true) l ->
  latest unit None l = Some v <-> last_value unit l v.
Proof.
  unfold latest, last_value. induction l as [|[t u] l IH] using rev_ind; intros Hok.
  - split; [done|]. by intros ([|] & ? & ? & ? & _).
  - apply Forall_app in Hok as [Hok Ht]. specialize (IH Hok). apply Forall_cons in Ht as [Ht _].
    rewrite fold_left_app. cbn [fold_left fst snd] in *. destruct (decide (u = unit)) as [->|Hne].
    + destruct (ParseFloat t) as [x|] eqn:Hp; [|done]. split.
      * intros [= <-]. by exists l, t, [].
      * intros (before & text & after & E & Hv & Ha). destruct after as [|p after] using rev_ind.
        { apply app_inj_tail in E as [_ [= ->]]. congruence. }
        rewrite app_comm_cons, app_assoc in E. apply app_inj_tail in E as [_ <-].
        apply Forall_app in Ha as [_ Ha]. by apply Forall_cons in Ha as [? _].
    + rewrite IH. split.
      * intros (before & text & after & -> & Hv & Ha). exists before, text, (after ++ [(t, u)]).
        rewrite <- app_assoc. split; [done|]. split; [done|]. apply Forall_app. split; [done|]. by repeat constructor.
      * intros (before & text & after & E & Hv & Ha). destruct after as [|p after _] using rev_ind.
        { apply app_inj_tail in E as [_ [= _ ->]]. done. }
        rewrite app_comm_cons, app_assoc in E. apply app_inj_tail in E as [-> _].
        apply Forall_app in Ha as [Ha _]. by exists before, text, after.
Qed.

Lemma pairs_value unit l v : last_value unit (pairs l) v -> Forall (fun p => is_ok (ParseFloat (fst p)) = true) (pairs l) ->
  latest unit None (pairs l) = Some v.
Proof. intros Hv Hok. by apply latest_value. Qed.

Lemma parse_line_spec line name m : parseBenchmarkLine line = Ok (name, m) <-> says line name m.
Proof.
  unfold parseBenchmarkLine, says. destruct (fields line) as [|h [|c rest]] eqn:E;
    try (cbn; split; [done|by intros (? & ? & ? & [=] & _)]).
  change (length (h :: c :: rest) <? 8)%nat with (length rest <? 6)%nat. 
  change (drop 2 (h :: c :: rest)) with rest. change (default "" (head (h :: c :: rest))) with h.
  destruct (Nat.ltb_spec (length rest) 6) as [Hl|Hl].
  { split; [done|]. intros (? & ? & ? & [= <- <- <-] & ? & _). lia. }
  split.
  - destruct (read_metrics line None None None rest) as [r|e] eqn:Hr; [|done]. apply read_metrics_spec in Hr as [Hok ->].
    cbn [mbind result_bind]. destruct (latest "ns/op" None (pairs rest)) as [ns|] eqn:Hns; [|done].
    destruct (latest "B/op" None (pairs rest)) as [bytes|] eqn:Hb; [|done].
    destruct (latest "allocs/op" None (pairs rest)) as [allocs|] eqn:Ha; [|done]. intros [= <- <-].
    exists h, c, rest. rewrite counts_as_spec. cbn [NsPerOp BytesPerOp AllocsPerOp]. split_and!; [done..| | |];
      by apply latest_value.
  - intros (? & ? & ? & [= <- <- <-] & _ & Hname & Hok & Hns & Hb & Ha). apply counts_as_spec in Hname as ->.
    assert (read_metrics line None None None rest = Ok (Some (NsPerOp m), Some (BytesPerOp m), Some (AllocsPerOp m))) as ->.
    { apply read_metrics_spec. split; [done|]. by rewrite (pairs_value _ _ _ Hns), (pairs_value _ _ _ Hb), (pairs_value _ _ _ Ha). }
    by destruct m.
Qed.

Lemma says_once line name m name' m' : says line name m -> says line name' m' -> name' = name /\ m' = m.
Proof. rewrite <- !parse_line_spec. intros -> [= -> ->]. done. Qed.

(** *** Reading an output *)

Definition quiet (name : string) (rows : list string) : Prop := Forall (fun l => forall m', ~ says l name m') rows.

Lemma told_last_cons row rows name m :
  told_last (row :: rows) name m <-> told_last rows name m \/ says row name m /\ quiet name rows.
Proof.
  unfold told_last. split.
  - intros ([|r before] & line & after & [= -> ->] & Hs & Ha); [by right|]. left. by exists before, line, after.
  - intros [(before & line & after & -> & Hs & Ha)|[Hs Ha]]; [by exists (row :: before), line, after|].
    by exists [], row, rows.
Qed.

Lemma quiet_cons name row rows : quiet name (row :: rows) <-> (forall m, ~ says row name m) /\ quiet name rows.
Proof. apply Forall_cons. Qed.

Definition rows_of (l : list string) : list string :=
  filter (fun line => has_prefix "Benchmark" line = true) (map trim_space l).
Definition said (rows : list string) : Prop := Forall (fun line => exists name m, says line name m) rows.

Lemma benchmark_lines_spec l : forall acc ms, benchmark_lines acc l = Ok ms ->
  said (rows_of l) /\ forall name m, ms !! name = Some m <->
    told_last (rows_of l) name m \/ acc !! name = Some m /\ quiet name (rows_of l).
Proof.
  unfold rows_of. induction l as [|raw l IH]; intros acc ms; cbn [benchmark_lines map].
  { intros [= <-]. split; [constructor|]. intros name m. split; [right; by split; [|constructor]|].
    by intros [([|] & ? & ? & ? & _)|[? _]]. }
  rewrite filter_cons. destruct (has_prefix "Benchmark" (trim_space raw)); [rewrite decide_True by done|
    rewrite decide_False by done; apply IH].
  destruct (parseBenchmarkLine (trim_space raw)) as [[name m]|e] eqn:Hp; [|done]. apply parse_line_spec in Hp.
  cbn [mbind result_bind]. intros [Hs H]%IH. split; [apply Forall_cons; by split; [exists name, m|]|].
  intros name' m'. rewrite H, told_last_cons, quiet_cons. destruct (decide (name' = name)) as [->|Hne].
  - rewrite lookup_insert_eq. split; [intros [?|[[= <-] ?]]; auto|].
    intros [[?|[Hm ?]]|(_ & Hno & _)]; [by left| |by destruct (Hno m)]. destruct (says_once _ _ _ _ _ Hp Hm) as [_ ->]. by right.
  - rewrite lookup_insert_ne by done. split; [intros [?|[? ?]]; [auto|]|].
    + right. split_and!; [done| |done]. intros m'' Hm. by destruct (says_once _ _ _ _ _ Hp Hm).
    + intros [[?|[Hm ?]]|(? & _ & ?)]; [auto| |auto]. by destruct (says_once _ _ _ _ _ Hp Hm).
Qed.

Lemma benchmark_lines_said l : forall acc, said (rows_of l) -> exists ms, benchmark_lines acc l = Ok ms.
Proof.
  unfold rows_of. induction l as [|raw l IH]; intros acc; cbn [benchmark_lines map]; [by eexists|].
  rewrite filter_cons. destruct (has_prefix "Benchmark" (trim_space raw)); [rewrite decide_True by done|
    rewrite decide_False by done; apply IH].
  intros [(name & m & Hs) Hl]%Forall_cons. apply parse_line_spec in Hs as ->. by apply IH.
Qed.

Lemma said_tells rows : said rows -> rows <> [] -> exists name m, told_last rows name m.
Proof.
  intros Hs Hne. destruct rows as [|r rows] using rev_ind; [done|]. apply Forall_app in Hs as [_ Hs].
  apply Forall_cons in Hs as [(name & m & Hs) _]. exists name, m, rows, r, []. by repeat constructor.
Qed.

(** An output is read when every line about a benchmark can be and there is one; what is read is
    the last thing said of each. *)
Lemma parse_output_spec body ms : parseBenchmarkOutput body = Ok ms ->
  readable body /\ forall name m, ms !! name = Some m <-> measured body name m.
Proof.
  unfold parseBenchmarkOutput. destruct (benchmark_lines ∅ (lines body)) as [ms'|e] eqn:E; [|done].
  apply benchmark_lines_spec in E as [Hs H]. cbn [mbind result_bind]. case_decide as Hz; [done|]. intros [= <-].
  assert (Hm : forall name m, ms' !! name = Some m <-> measured body name m).
  { intros name m. rewrite H, lookup_empty. unfold measured. naive_solver. }
  split; [|done]. split; [|done]. intros Hr. destruct Hz. apply map_eq. intros name. rewrite lookup_empty.
  apply eq_None_not_Some. intros [m Hl%Hm]. unfold measured in Hl. rewrite Hr in Hl. by destruct Hl as ([|] & ? & ? & ? & _).
Qed.

Lemma readable_parses body : readable body -> exists ms, parseBenchmarkOutput body = Ok ms.
Proof.
  intros [Hne Hs]. unfold parseBenchmarkOutput. destruct (benchmark_lines_said (lines body) ∅ Hs) as [ms E]. rewrite E.
  cbn [mbind result_bind]. case_decide as Hz; [|by eexists]. apply benchmark_lines_spec in E as [_ H].
  destruct (said_tells _ Hs Hne) as (name & m & Ht).
  assert (ms !! name = Some m) as Hl by (apply H; by left). by rewrite Hz, lookup_empty in Hl.
Qed.

(** *** The limit *)

(** A metric got worse by more than [limit] percent: from zero, any other value is worse by a
    hundred percent; otherwise the growth counts in percent of the old value.  Numbers are of
    float64, and a comparison with no number is false. *)
Definition regressed (limit old new : Z) : Prop :=
  if f_eq old 0 then f_eq new 0 = false /\ f_lt limit (float_of_int 100) = true
  else f_lt limit (f_div (f_mul (f_sub new old) (float_of_int 100)) old) = true.
Definition any_regressed (limit : Z) (old new : benchmarkMetrics) : Prop :=
  regressed limit (NsPerOp old) (NsPerOp new) \/ regressed limit (BytesPerOp old) (BytesPerOp new) \/
  regressed limit (AllocsPerOp old) (AllocsPerOp new).

(** The limit the command accepts is not negative. *)
Lemma regression_fails limit old new : f_lt limit 0 = false ->
  f_lt limit (regressionPercent old new) = true <-> regressed limit old new.
Proof.
  intros Hl. unfold regressionPercent, regressed, float_100.
  assert (float_of_int 100 = 0x4059000000000000) as -> by (by vm_compute).
  destruct (f_eq old 0); [|done]. destruct (f_eq new 0); [rewrite Hl; by split; [|intros [? _]]|].
  split; [done|by intros [_ ?]].
Qed.

Lemma metric_failures_nil name limit old new : f_lt limit 0 = false ->
  metric_failures name limit old new = [] <-> ~ any_regressed limit old new.
Proof.
  intros Hl. trans (Forall (fun '(_, o, n) => f_lt limit (regressionPercent o n) = false) (metric_pairs old new)).
  - unfold metric_failures. generalize (metric_pairs old new). intros l.
    induction l as [|[[label o] n] l IH]; cbn; [by split; [constructor|]|].
    rewrite Forall_cons, <- IH. destruct (f_lt limit (regressionPercent o n)); [split; [intros H; discriminate H|intros [H _]; discriminate H]|].
    by split; [|intros [_ ?]].
  - unfold metric_pairs, any_regressed. rewrite !Forall_cons, Forall_nil, <- !(regression_fails limit) by done.
    clear. generalize (f_lt limit (regressionPercent (NsPerOp old) (NsPerOp new))),
      (f_lt limit (regressionPercent (BytesPerOp old) (BytesPerOp new))),
      (f_lt limit (regressionPercent (AllocsPerOp old) (AllocsPerOp new))). intros [] [] []; intuition congruence.
Qed.

(** On integers the verdict is the one of exact arithmetic. *)
Lemma regressed_integers limit old new :
  0 <= limit < 2 ^ 45 -> 0 <= old < 2 ^ 46 -> 0 <= new < 2 ^ 46 -> limit * old < 2 ^ 52 ->
  regressed (float_of_int limit) (float_of_int old) (float_of_int new) <->
  if old =? 0 then new <> 0 /\ limit < 100 else limit * old < 100 * (new - old).
Proof.
  intros Hp Ho Hn Hpo. unfold regressed. rewrite !float_of_int_zero by lia.
  destruct (Z.eqb_spec old 0) as [->|Hne].
  - rewrite bool_decide_true, bool_decide_eq_false by done.
    pose proof (f_lt_quotient limit 100 1 ltac:(lia) ltac:(lia) ltac:(lia) ltac:(lia)) as Hq.
    assert (f_div (float_of_int 100) (float_of_int 1) = float_of_int 100) as E by (by vm_compute).
    rewrite E in Hq. rewrite Hq, Z.ltb_lt. lia.
  - rewrite bool_decide_false by done. rewrite f_sub_exact, f_mul_signed, f_lt_quotient by lia. rewrite Z.ltb_lt. lia.
Qed.

(** *** The comparison *)

(** A map is gone over in some order, which may be another one each time. *)
Definition ranges (range : gmap string benchmarkMetrics -> list string) : Prop :=
  forall m, range m ≡ₚ map fst (map_to_list m).

Lemma ranges_keys range m name : ranges range -> name ∈ range m <-> is_Some (m !! name).
Proof.
  intros Hr. rewrite (Hr m), list_elem_of_fmap. split.
  - intros ([k v] & -> & H%elem_of_map_to_list). by eexists.
  - intros [v Hv]. exists (name, v). split; [done|]. by apply elem_of_map_to_list.
Qed.

(** The names of the baseline are in the same order each time. *)
Lemma bench_names_order range range' m : ranges range -> ranges range' -> bench_names range m = bench_names range' m.
Proof.
  intros H H'. apply (StronglySorted_unique String.le).
  - apply (StronglySorted_merge_sort String.le).
  - apply (StronglySorted_merge_sort String.le).
  - unfold bench_names. rewrite !merge_sort_Permutation. by rewrite (H m), (H' m).
Qed.

Lemma concat_nil {A : Type} (ls : list (list A)) : concat ls = [] <-> Forall (fun l => l = []) ls.
Proof.
  induction ls as [|l ls IH]; cbn; [by split; [constructor|]|]. rewrite Forall_cons, <- IH.
  destruct l; cbn; naive_solver.
Qed.

Section bench.
Context (range : gmap string benchmarkMetrics -> list string) (Hrange : ranges range).
Context (limit : Z) (Hlimit : f_lt limit 0 = false).

(** What the comparison accepts, of the two outputs as texts. *)
Definition no_worse (oldBody newBody : string) : Prop :=
  readable oldBody /\ readable newBody /\
  forall name old, measured oldBody name old ->
    exists new, measured newBody name new /\ ~ any_regressed limit old new.

Lemma compare_passes olds news :
  snd (compare_benchmarks range limit olds news) = [] <->
  forall name old, olds !! name = Some old ->
    exists new, news !! name = Some new /\ ~ any_regressed limit old new.
Proof.
  unfold compare_benchmarks. cbn [snd]. rewrite concat_nil, !Forall_fmap, Forall_forall. unfold bench_names, compose.
  setoid_rewrite merge_sort_Permutation. setoid_rewrite (ranges_keys range olds _ Hrange). unfold compare_one. split.
  - intros H name old Ho. specialize (H name ltac:(by eexists)). rewrite Ho in H.
    destruct (news !! name) as [new|]; [|done]. exists new. split; [done|]. by apply metric_failures_nil in H.
  - intros H name [old Ho]. destruct (H name old Ho) as (new & Hn & Hw). rewrite Ho, Hn. cbn [snd].
    by apply metric_failures_nil.
Qed.

Lemma compare_accepts oldBody newBody :
  snd (compareBenchmarkOutputs range oldBody newBody limit) = None <-> no_worse oldBody newBody.
Proof.
  unfold compareBenchmarkOutputs, no_worse. destruct (parseBenchmarkOutput oldBody) as [olds|e] eqn:Ho.
  2: { split; [done|]. intros ([ms E]%readable_parses & _). congruence. }
  destruct (parseBenchmarkOutput newBody) as [news|e] eqn:Hn.
  2: { split; [done|]. intros (_ & [ms E]%readable_parses & _). congruence. }
  apply parse_output_spec in Ho as [Hro Ho], Hn as [Hrn Hn]. pose proof (compare_passes olds news) as Hp.
  setoid_rewrite Ho in Hp. setoid_rewrite Hn in Hp.
  destruct (compare_benchmarks range limit olds news) as [report failures]. cbn [snd] in *.
  destruct failures; [split; [by intros _; split_and!; [..|apply Hp]|done]|].
  split; [done|]. intros (_ & _ & H). by apply Hp in H.
Qed.

End bench.

Definition key_range (m : gmap string benchmarkMetrics) : list string := map fst (map_to_list m).
Definition row (name metrics : string) : string := name +:+ " 10 " +:+ metrics.
Definition old_bench : string := row "BenchmarkA-8" "100 ns/op 8 B/op 2 allocs/op".
Definition new_bench : string :=
  nl [row "BenchmarkA-4" "125 ns/op 8 B/op 2 allocs/op"; row "BenchmarkB" "1 ns/op 0 B/op 0 allocs/op"].


(** A metric that is no number got no worse, and none got worse when the limit is none. *)
Lemma nan_within limit old new : is_nan new = true -> f_eq old 0 = false -> ~ regressed limit old new.
Proof.
  intros Hn Ho. unfold regressed. rewrite Ho.
  unfold f_sub, f_add. rewrite Hn. cbn [orb]. change (is_nan nan_bits) with true.
  unfold f_mul. change (is_nan nan_bits) with true. cbn [orb]. unfold f_div. change (is_nan nan_bits) with true. cbn [orb].
  unfold f_lt. change (is_nan nan_bits) with true. by rewrite andb_false_r.
Qed.
Lemma nan_limit limit old new : is_nan limit = true -> ~ any_regressed limit old new.
Proof.
  intros Hn. unfold any_regressed, regressed, f_lt. rewrite Hn. cbn [negb andb].
  intros [H|[H|H]]; (case_match; [by destruct H|done]).
Qed.

Example nan_passes :
  snd (compareBenchmarkOutputs key_range (row "BenchmarkA" "100 ns/op 8 B/op 2 allocs/op")
         (row "BenchmarkA" "NaN ns/op 8 B/op 2 allocs/op") 0x4039000000000000) = None.
Proof. vm_compute. reflexivity. Qed.
(** With one processor go test leaves no suffix, and a number of the name itself is taken off: the
    two benchmarks are one. *)
Example names_merged :
  (fun m => map fst (map_to_list m)) <$>
    (match parseBenchmarkOutput (nl [row "BenchmarkGet/size-10" "1 ns/op 0 B/op 0 allocs/op";
                                     row "BenchmarkGet/size-100" "9 ns/op 0 B/op 0 allocs/op"]) with
     | Ok m => Some m | Err _ => None end) = Some ["BenchmarkGet/size"].
Proof. vm_compute. reflexivity. Qed.

(** ** Coverage *)

(** The blocks of a profile: the statements of each, and how often it was run. *)
Fixpoint coverage_blocks (l : list string) : result maint_error (list (Z * Z)) :=
  match l with
  | [] => Ok []
  | raw :: l =>
      let line := trim_space raw in
      if decide (line = "") then coverage_blocks l
      else match fields line with
           | [_; stmts; hits] =>
               n ← map_err (InvalidStatements line) (Atoi stmts);
               count ← map_err (InvalidCount line) (Atoi hits);
               blocks ← coverage_blocks l;
               Ok ((n, count) :: blocks)
           | _ => Err (InvalidCoverageLine line)
           end
  end.
Fixpoint statements (blocks : list (Z * Z)) : Z :=
  match blocks with [] => 0 | (n, _) :: blocks => n + statements blocks end.
Definition run_blocks (blocks : list (Z * Z)) : list (Z * Z) := filter (fun b => 0 < snd b) blocks.

Lemma statements_nonneg blocks : Forall (fun b => 0 <= fst b) blocks -> 0 <= statements blocks.
Proof. induction 1 as [|[n c] blocks H _ IH]; cbn [statements fst] in *; lia. Qed.
Lemma run_blocks_le blocks : Forall (fun b => 0 <= fst b) blocks -> 0 <= statements (run_blocks blocks) <= statements blocks.
Proof.
  induction 1 as [|[n c] blocks H _ IH]; [by cbn|]. unfold run_blocks in *. rewrite filter_cons. cbn [snd fst] in *.
  case_decide; cbn [statements]; lia.
Qed.

Lemma coverage_lines_sums l : forall blocks a b, coverage_blocks l = Ok blocks ->
  Forall (fun b => 0 <= fst b) blocks -> 0 <= a -> 0 <= b -> a + statements blocks < 2 ^ 53 -> b + statements blocks < 2 ^ 53 ->
  coverage_lines (float_of_int a) (float_of_int b) l =
  Ok (float_of_int (a + statements (run_blocks blocks)), float_of_int (b + statements blocks)).
Proof.
  induction l as [|raw l IH]; intros blocks a b; cbn [coverage_blocks coverage_lines]; cbv zeta.
  { intros [= <-] _ _ _ _ _. cbn. by rewrite !Z.add_0_r. }
  destruct (decide (trim_space raw = "")) as [Hblank|Hblank]; [by apply IH|].
  destruct (fields (trim_space raw)) as [|x1 [|x2 [|x3 [|x4 more]]]]; try done.
  destruct (Atoi x2) as [n|e2]; [|done]. destruct (Atoi x3) as [c|e3]; [|done]. cbn [map_err mbind result_bind].
  destruct (coverage_blocks l) as [rest|]; [|done]. cbn [mbind result_bind]. intros [= <-] [Hn Hb]%Forall_cons Ha Hb0.
  cbn [fst statements] in *. intros H1 H2. pose proof (statements_nonneg rest Hb).
  rewrite (f_add_exact b n) by lia. unfold run_blocks. rewrite filter_cons. cbn [snd].
  destruct (Z.ltb_spec 0 c) as [Hc|Hc].
  - rewrite decide_True by done. rewrite f_add_exact by lia. rewrite (IH rest) by (done || lia).
    cbn [statements]. unfold run_blocks.
    by rewrite !Z.add_assoc.
  - rewrite decide_False by lia. rewrite (IH rest) by (done || lia). unfold run_blocks. by rewrite !Z.add_assoc.
Qed.

Lemma coverage_lines_error l e : forall a b, coverage_blocks l = Err e -> coverage_lines a b l = Err e.
Proof.
  induction l as [|raw l IH]; intros a b; cbn [coverage_blocks coverage_lines]; cbv zeta; [done|].
  destruct (decide (trim_space raw = "")) as [Hblank|Hblank]; [by apply IH|].
  destruct (fields (trim_space raw)) as [|x1 [|x2 [|x3 [|x4 more]]]]; try by intros [= ->].
  destruct (Atoi x2) as [n|e2]; cbn [map_err mbind result_bind]; [|by intros [= ->]].
  destruct (Atoi x3) as [c|e3]; cbn [map_err mbind result_bind]; [|by intros [= ->]].
  destruct (coverage_blocks l) as [rest|e'] eqn:E; [done|]. cbn [mbind result_bind]. intros [= ->]. by apply IH.
Qed.

(** The percentage of [coverage-check] is the float64 nearest to the exact one: as long as a
    hundred times the number of statements is below 2^53, no rounding of the sums shows.  A
    profile with a line that is none is refused with the first such line. *)
Theorem coverage_percent mode rest body :
  lines body = mode :: rest -> has_prefix "mode: " mode = true ->
  match coverage_blocks rest with
  | Err e => parseCoverageProfile body = Err e
  | Ok blocks =>
      Forall (fun b => 0 <= fst b) blocks -> 100 * statements blocks < 2 ^ 53 ->
      parseCoverageProfile body =
        if decide (statements blocks = 0) then Err NoStatements
        else Ok (round_signed false (100 * statements (run_blocks blocks)) (statements blocks))
  end.
Proof.
  intros Hl Hm. unfold parseCoverageProfile. rewrite Hl, Hm.
  destruct (coverage_blocks rest) as [blocks|e] eqn:E; [|by rewrite (coverage_lines_error _ _ _ _ E)].
  intros Hb Hlim. pose proof (run_blocks_le blocks Hb).
  change (coverage_lines 0 0 rest) with (coverage_lines (float_of_int 0) (float_of_int 0) rest).
  rewrite (coverage_lines_sums rest blocks 0 0) by (done || lia). cbn [mbind result_bind].
  rewrite !Z.add_0_l, float_of_int_zero by lia. case_bool_decide as H0.
  - by rewrite decide_True.
  - rewrite decide_False by done. change float_100 with (float_of_int 100).
    rewrite f_mul_signed by lia. rewrite f_div_signed by lia. do 2 f_equal. lia.
Qed.

Definition demo_profile : string := nl ["mode: set"; "f.go:1.1,2.2 3 1"; "f.go:3.1,4.2 1 0"; ""].
Lemma coverage_percent_witness : parseCoverageProfile demo_profile = Ok 0x4052C00000000000.
Proof.
  assert (E : coverage_blocks ["f.go:1.1,2.2 3 1"; "f.go:3.1,4.2 1 0"; ""] = Ok [(3, 1); (1, 0)]) by (vm_compute; reflexivity).
  pose proof (coverage_percent "mode: set" ["f.go:1.1,2.2 3 1"; "f.go:3.1,4.2 1 0"; ""] demo_profile
                ltac:(vm_compute; reflexivity) ltac:(vm_compute; reflexivity)) as H.
  rewrite E in H. rewrite H; [vm_compute; reflexivity|repeat constructor; cbn; lia|vm_compute; reflexivity].
Defined.

(** ** Releases *)

Definition is_heading (line : string) : bool := has_prefix "## " line.
(** [collected] is the section of a version: the lines after its heading, which is the first one for
    that version, up to the next heading. *)
Definition section_of (version : string) (body : list string) (collected : list string) : Prop :=
  exists before heading after, body = before ++ heading :: collected ++ after /\
    opens_section version heading = true /\ Forall (fun l => opens_section version l = false) before /\
    Forall (fun l => is_heading l = false) collected /\
    (after = [] \/ exists h rest, after = h :: rest /\ is_heading h = true).

Lemma section_lines_open version l collected : section_lines version true l = Some collected ->
  exists after, map (trim_right_byte (chr 13)) l = collected ++ after /\
    Forall (fun l => is_heading l = false) collected /\
    (after = [] \/ exists h rest, after = h :: rest /\ is_heading h = true).
Proof.
  revert collected. induction l as [|raw l IH]; intros collected; cbn [section_lines map]; cbv zeta.
  { intros [= <-]. exists []. split_and!; [done|constructor|by left]. }
  destruct (has_prefix "## " (trim_right_byte (chr 13) raw)) eqn:E.
  - intros [= <-]. eexists. split_and!; [reflexivity|constructor|]. right. by eexists _, _.
  - intros (rest & Hr & ->)%fmap_Some. destruct (IH rest Hr) as (after & -> & Hf & Ha).
    exists after. split_and!; [done|by constructor|done].
Qed.

Lemma section_lines_spec version l collected : section_lines version false l = Some collected ->
  section_of version (map (trim_right_byte (chr 13)) l) collected.
Proof.
  induction l as [|raw l IH]; [done|]. cbn [section_lines map]; cbv zeta.
  destruct (opens_section version (trim_right_byte (chr 13) raw)) eqn:E.
  - intros (after & -> & Hf & Ha)%section_lines_open. exists [], (trim_right_byte (chr 13) raw), after. by split_and!.
  - intros (before & h & after & -> & Hh & Hb & Hf & Ha)%IH.
    exists (trim_right_byte (chr 13) raw :: before), h, after. split_and!; [done|done|by constructor|done..].
Qed.

Lemma extract_notes body version notes : extractChangelogNotes body version = Ok notes ->
  notes <> "" /\ exists collected, section_of version (map (trim_right_byte (chr 13)) (lines body)) collected /\
    notes = trim_space (join_text (String (chr 10) "") collected).
Proof.
  unfold extractChangelogNotes. destruct (section_lines _ _ _) as [collected|] eqn:E; [|done]. cbv zeta.
  case_decide; [done|]. intros [= <-]. split; [done|]. exists collected. split; [|done]. by apply section_lines_spec.
Qed.

Section release.
Context (w : outside).

Definition file_text (fs : gmap (list string) file_node) (path : string) (body : string) : Prop :=
  ReadFile (faults w) fs (resolve w path) = Ok body.

Lemma read_file_Ok path s s' body : read_file w path s = (s', Ok body) -> s' = s /\ file_text (sy_files s) path body.
Proof. unfold read_file, ask, file_text. case_decide; [done|]. destruct (ReadFile _ _ _); by intros [= <- <-]. Qed.

(** Only the file of the notes has changed. *)
Definition notes_written (notesOut notes : string) (s s' : system) : Prop :=
  (notesOut = "" /\ sy_files s' = sy_files s) \/
  (notesOut <> "" /\ (exists p, sy_files s' !! resolve w notesOut = Some (FileNode (line notes) p)) /\
   forall k, k <> resolve w notesOut -> sy_files s' !! k = sy_files s !! k).

Lemma print_files text s s' : print w text s = (s', Ok ()) -> sy_files s' = sy_files s.
Proof. unfold print. destruct (stdout_fault w); by intros [= <-]. Qed.

(** A step of a command that succeeds. *)
Lemma bind_steps {A B : Type} (m : command A) (k : A -> command B) s s' b :
  (m ≫= k) s = (s', Ok b) -> exists s1 a, m s = (s1, Ok a) /\ k a s1 = (s', Ok b).
Proof. unfold mbind, command_bind. destruct (m s) as [s1 [a|e]]; [by eexists _, _|done]. Qed.
Lemma lift_steps {A : Type} (r : result maint_error A) s s' a : lift r s = (s', Ok a) -> s' = s /\ r = Ok a.
Proof. by intros [= <- ->]. Qed.

(** A release that [release-check] has validated is one: the version has the form of a semantic
    version, the version constant of the source is that version, the change log has a section
    for it that is not empty, git has no tag for it; and nothing but the file asked for the
    notes has changed, which holds the lines of that section. *)
Theorem release_validated fs s s' :
  release_check w fs s = (s', Ok ()) ->
  let repo := flag_text fs "repo" in
  let version := trim_prefix (trim_space (flag_text fs "version")) "v" in
  exists source changelog tags collected,
    matches_whole releaseVersionPattern version = true /\
    file_text (sy_files s) (path_Join repo (flag_text fs "version-file")) source /\
    version_constant (path_Join repo (flag_text fs "version-file")) source = Ok version /\
    file_text (sy_files s) (path_Join repo (flag_text fs "changelog")) changelog /\
    section_of version (map (trim_right_byte (chr 13)) (lines changelog)) collected /\
    trim_space (join_text (String (chr 10) "") collected) <> "" /\
    git_query w (sy_files s) (resolve w repo) ["tag"; "-l"; "v" +:+ version] = Ok tags /\ trim_space tags = "" /\
    notes_written (flag_text fs "notes-out") (trim_space (join_text (String (chr 10) "") collected)) s s'.
Proof.
  unfold release_check. case_decide; [done|]. cbv zeta.
  intros (s1 & [v tag] & (-> & Hv)%lift_steps & H1)%bind_steps.
  unfold normalizeReleaseVersion in Hv. destruct (matches_whole _ _) eqn:Hm in Hv; [|done]. injection Hv as <- <-.
  apply bind_steps in H1 as (s2 & value & Hread & H2).
  unfold readVersionConstant in Hread.
  apply bind_steps in Hread as (s3 & source & [-> Hsource]%read_file_Ok & [-> Hconst]%lift_steps).
  case_decide as Hvalue; [|done]. subst value.
  apply bind_steps in H2 as (s4 & changelog & [-> Hlog]%read_file_Ok & H3).
  apply bind_steps in H3 as (s5 & notes & [-> Hnotes]%lift_steps & H4).
  apply extract_notes in Hnotes as (Hne & collected & Hsec & ->).
  apply bind_steps in H4 as (s6 & [] & Htag & H5). unfold ensureTagDoesNotExist in Htag.
  apply bind_steps in Htag as (s7 & tags & Hquery & Hblank). unfold ask in Hquery.
  destruct (git_query _ _ _ _) as [out|] eqn:Hgit in Hquery; [|done]. injection Hquery as <- <-.
  destruct (decide (trim_space out = "")) as [Htags|Htags]; [|done]. injection Hblank as <-.
  apply bind_steps in H5 as (s8 & [] & Hwrite & Hprint%print_files).
  exists source, changelog, out, collected. split_and!; try done. unfold notes_written. rewrite Hprint.
  destruct (decide (flag_text fs "notes-out" = "")) as [Hout|Hout]; [left; split; [done|]; by injection Hwrite as <-|right]. split; [done|].
  unfold change in Hwrite. destruct (WriteFile _ _ _ _ _ _) as [files r] eqn:E in Hwrite.
  injection Hwrite as <- Hr. cbn [sy_files]. destruct r as [[]|]; [|done]. split.
  - by eapply WriteFile_written.
  - intros k Hk. pose proof (WriteFile_elsewhere (faults w) (umask w) (resolve w (flag_text fs "notes-out"))
      (line (trim_space (join_text (String (chr 10) "") collected))) 420 (sy_files s) k Hk) as Hw. by rewrite E in Hw.
Qed.
End release.

Definition demo_release : outside :=
  mkOutside "/r" (mkFaults (fun _ => None) (fun _ => false)) 18 None (fun m => map fst (map_to_list m))
    (fun _ _ _ => Ok "") (fun fs _ _ => (fs, Ok ())) (fun _ _ _ => ("", "", Ok ())) (fun _ => "") (fun _ => None).
Definition release_files : gmap (list string) file_node :=
  list_to_map [([], DirNode); (["r"], DirNode);
               (["r"; "v.go"], FileNode ("const Version = " +:+ quote_text +:+ "1.2.0" +:+ quote_text) 420);
               (["r"; "LOG.md"], FileNode (nl ["## 1.2.0 - now"; "- new"; "## 1.1.0"; "- old"]) 420)].
Definition release_flags : gmap string flag_value :=
  {["repo" := FlagString "."; "version" := FlagString "v1.2.0"; "version-file" := FlagString "v.go";
    "changelog" := FlagString "LOG.md"; "notes-out" := FlagString "notes.md"]}.

Lemma release_validated_witness :
  exists s', release_check demo_release release_flags (mkSystem release_files "") = (s', Ok ()) /\
    exists collected, notes_written demo_release "notes.md"
      (trim_space (join_text (String (chr 10) "") collected)) (mkSystem release_files "") s'.
Proof.
  assert (Hr : snd (release_check demo_release release_flags (mkSystem release_files "")) = Ok ())
    by (vm_compute; reflexivity).
  destruct (release_check demo_release release_flags (mkSystem release_files "")) as [s' r] eqn:E. cbn [snd] in Hr. subst r.
  exists s'. split; [done|].
  destruct (release_validated demo_release release_flags (mkSystem release_files "") s' E)
    as (_ & _ & _ & collected & _ & _ & _ & _ & _ & _ & _ & _ & Hw).
  exists collected. exact Hw.
Defined.
Example release_notes :
  sy_files (fst (release_check demo_release release_flags (mkSystem release_files ""))) !! ["r"; "notes.md"]
  = Some (FileNode (line "- new") 420).
Proof. vm_compute. reflexivity. Qed.
