(* ===== verification/Facade.v ===== *)
(** * The facade

    The model of [client_options.go], of [client_facade.go] and
    [subscription_options.go], and of [auth_callback.go]: the options of a new
    client, the identity that the HTTP client, the facade and the realtime client
    hold, and the realtime client that the first subscription creates.

    A claim of an identity is a dynamic JSON value whose numbers are float64;
    [None] is a nil map of claims.  Of the realtime client the facade sees the base
    client of its manager and whether it is over: a method changes the base
    client at once ([do_operation] of RealtimeClient) and then waits for its
    flush, which succeeds or not. *)
From S2P Require Import Prelude GoStrings GoBytes GoJson Values Results Protocol ClientMessages Canonical ClientState BaseClient ClientInvariant SyncManager HttpClient GoUrl Addresses.
From Stdlib Require Import Strings.Byte.
Local Open Scope Z_scope.

Definition Version : string := "0.1.0".

Inductive facade_error : Type :=
  | NilHTTPClient
  | EmptyHTTPClientID
  | TooManyIdentities
  | IdentityUnencodable (e : json_error)
  | RealtimeOptionRefused (e : option_error)
  | RealtimeOver
  | RealtimeRefused (e : client_error)
  | RealtimeNotFlushed
  | TokenCallbackFailed (message : string)
  | AddressRefused (e : address_error).

(** ** Identities *)

Definition UserIdentityAttributes : Type := gmap string wire.

(** The credentials after [Convex ] in the header of an admin. *)
Definition encodeAdminAuth (token : string) (actingAs : list (option UserIdentityAttributes))
    : result facade_error string :=
  match actingAs with
  | [] | None :: _ => Ok token
  | [Some attrs] =>
      _ ← map_err IdentityUnencodable (marshal (WObj attrs));
      Ok (token +:+ ":" +:+ b64_encode std_alphabet (String.list_byte_of_string (json_text (WObj attrs))))
  | Some _ :: _ => Err TooManyIdentities
  end.

(** For the realtime client the claims go through JSON; those it cannot read are
    left out. *)
Definition syncIdentity (attrs : option UserIdentityAttributes) : option SyncUserIdentityAttributes :=
  attrs ← attrs;
  match marshal (WObj attrs) with
  | Err _ => None
  | Ok data => match Identity_UnmarshalJSON data with Ok i => Some i | Err _ => None end
  end.
Definition syncIdentityAttributes (actingAs : list (option UserIdentityAttributes))
    : list SyncUserIdentityAttributes := omap syncIdentity actingAs.

(** [adaptUserTokenFetcher], on what the callbacks return. *)
Definition adaptUserTokenFetcher (env : token_environment) : auth_environment :=
  fun cb forceRefresh =>
    match env cb forceRefresh with
    | Err e => Err (AuthCallbackFailed e)
    | Ok token => Ok (if decide (token = "") then NoAuthToken else UserAuthToken token)
    end.

(** ** The realtime client *)

Record realtime_client : Type := mkRealtime { rt_client : Client; rt_over : bool }.

(** A [WebSocketOption] is an option of the manager. *)
Inductive WebSocketOption : Type :=
  | WithWebSocketClientID (clientID : string)
  | WithWebSocketReconnectBackoff (backoff : Z)
  | WithWebSocketInactivityTimeout (timeout : Z)
  | withWebSocketDialer (isNil : bool).
Definition managerOption (o : WebSocketOption) : Option :=
  match o with
  | WithWebSocketClientID clientID => WithClientID clientID
  | WithWebSocketReconnectBackoff backoff => WithReconnectBackoff backoff
  | WithWebSocketInactivityTimeout timeout => WithInactivityTimeout timeout
  | withWebSocketDialer isNil => WithDialer isNil
  end.

(** [NewWebSocketClient] with the options of the facade, for a deployment URL that [WebSocketURL]
    accepts, as it does every URL [NewClient] accepts (both_clients_one_host in Addresses). *)
Definition realtime_new (opts : list WebSocketOption) : result facade_error realtime_client :=
  settings ← map_err RealtimeOptionRefused
    (applyOptions (WithClientID ("go-" +:+ Version) :: map managerOption opts) defaultSettings);
  Ok (mkRealtime (st_client settings) false).

(** [setAuth] and its siblings: [flushed] is how the flush ends, if there is
    one. *)
Definition realtime_control (operate : Client -> Client * result client_error unit) (flushed : bool)
    (rt : realtime_client) : realtime_client * result facade_error unit :=
  if rt_over rt then (rt, Err RealtimeOver)
  else
    let '(c, r) := operate (rt_client rt) in
    (mkRealtime c false,
     _ ← map_err RealtimeRefused r; if flushed then Ok () else Err RealtimeNotFlushed).

Definition realtime_setAuth (token : string) := realtime_control (SetAuth token).
Definition realtime_setAdminAuth (token : string) (actingAs : list (option UserIdentityAttributes)) :=
  realtime_control (SetAdminAuth token (syncIdentityAttributes actingAs)).
Definition realtime_clearAuth := realtime_control ClearAuth.
Definition realtime_setAuthCallback (env : token_environment) (fetcher : option UserTokenFetcher) :=
  realtime_control (SetAuthCallback (adaptUserTokenFetcher env) (Callback <$> fetcher)).

(** ** The client *)

Record Facade : Type := mkFacade {
  fc_http : HTTPClient;
  fc_realtime : option realtime_client;
  fc_webSocketOptions : list WebSocketOption;
  fc_authToken : string;
  fc_adminAuthToken : string;
  fc_adminActingAs : list (option UserIdentityAttributes);
  fc_authCallback : option UserTokenFetcher
}.
Definition fc_put_http (v : HTTPClient) (f : Facade) : Facade :=
  mkFacade v (fc_realtime f) (fc_webSocketOptions f) (fc_authToken f) (fc_adminAuthToken f)
    (fc_adminActingAs f) (fc_authCallback f).
Definition fc_put_realtime (v : option realtime_client) (f : Facade) : Facade :=
  mkFacade (fc_http f) v (fc_webSocketOptions f) (fc_authToken f) (fc_adminAuthToken f)
    (fc_adminActingAs f) (fc_authCallback f).
Definition fc_put_options (v : list WebSocketOption) (f : Facade) : Facade :=
  mkFacade (fc_http f) (fc_realtime f) v (fc_authToken f) (fc_adminAuthToken f)
    (fc_adminActingAs f) (fc_authCallback f).
Definition fc_put_identity (token admin : string) (actingAs : list (option UserIdentityAttributes))
    (cb : option UserTokenFetcher) (f : Facade) : Facade :=
  mkFacade (fc_http f) (fc_realtime f) (fc_webSocketOptions f) token admin actingAs cb.

(** [HTTPClient.SetAdminAuth]. *)
Definition HTTPClient_SetAdminAuth (token : string) (actingAs : list (option UserIdentityAttributes))
    (c : HTTPClient) : result facade_error HTTPClient :=
  adminAuth ← encodeAdminAuth token actingAs;
  Ok (with_identity (if decide (adminAuth = "") then hc_auth c else "") adminAuth None c).

(** *** Options *)

(** The options of [NewClient]; of [WithHTTPClient] it is said whether the client
    is nil. *)
Inductive client_option : Type :=
  | WithHTTPClient (isNil : bool)
  | WithHTTPClientID (clientID : string)
  | WithAuth (token : string)
  | WithAdminAuth (token : string) (actingAs : list (option UserIdentityAttributes))
  | WithSkipDeploymentURLCheck
  | RealtimeOption (o : WebSocketOption)
  | NilOption.

Definition applyHTTPOption (o : client_option) (c : HTTPClient) : result facade_error HTTPClient :=
  match o with
  | WithHTTPClient isNil => if isNil : bool then Err NilHTTPClient else Ok c
  | WithHTTPClientID id =>
      if decide (trim_space id = "") then Err EmptyHTTPClientID
      else Ok (mkHTTPClient (hc_address c) id (hc_skipDeploymentURLCheck c) (hc_auth c) (hc_adminAuth c)
                 (hc_authCallback c))
  | WithAuth token => Ok (with_identity token (hc_adminAuth c) (hc_authCallback c) c)
  | WithAdminAuth token actingAs =>
      adminAuth ← encodeAdminAuth token actingAs;
      Ok (with_identity (hc_auth c) adminAuth (hc_authCallback c) c)
  | WithSkipDeploymentURLCheck =>
      Ok (mkHTTPClient (hc_address c) (hc_clientID c) true (hc_auth c) (hc_adminAuth c) (hc_authCallback c))
  | RealtimeOption _ | NilOption => Ok c
  end.
Definition applyClientOption (o : client_option) (f : Facade) : result facade_error Facade :=
  match o with
  | WithHTTPClientID id => Ok (fc_put_options (fc_webSocketOptions f ++ [WithWebSocketClientID id]) f)
  | WithAuth token => Ok (fc_put_identity token "" [] (fc_authCallback f) f)
  | WithAdminAuth token actingAs =>
      _ ← encodeAdminAuth token actingAs; Ok (fc_put_identity "" token actingAs (fc_authCallback f) f)
  | RealtimeOption o => Ok (fc_put_options (fc_webSocketOptions f ++ [o]) f)
  | WithHTTPClient _ | WithSkipDeploymentURLCheck | NilOption => Ok f
  end.

(** [for _, opt := range opts], which stops at the first error. *)
Fixpoint apply_all {A B : Type} (apply : A -> B -> result facade_error B) (os : list A) (b : B)
    : result facade_error B :=
  match os with [] => Ok b | o :: rest => b ← apply o b; apply_all apply rest b end.

(** [NewHTTPClient] and [NewClient]. *)
Definition NewHTTPClient (ip_literal : string -> option string) (deploymentURL : string) (opts : list client_option)
    : result facade_error HTTPClient :=
  c ← apply_all applyHTTPOption opts (mkHTTPClient "" ("go-" +:+ Version) false "" "" None);
  address ← map_err AddressRefused
    (normalizeDeploymentURL ip_literal deploymentURL (hc_skipDeploymentURLCheck c));
  Ok (mkHTTPClient address (hc_clientID c) (hc_skipDeploymentURLCheck c) (hc_auth c) (hc_adminAuth c)
        (hc_authCallback c)).
Definition NewClient (ip_literal : string -> option string) (deploymentURL : string) (opts : list client_option)
    : result facade_error Facade :=
  http ← NewHTTPClient ip_literal deploymentURL opts;
  apply_all applyClientOption opts (mkFacade http None [] "" "" [] None).

(** *** The realtime client, on first use *)

(** What [realtime] reads under the lock, and what it does with it: a new
    realtime client with this identity.  [Close] on an error leaves nothing. *)
Definition realtime_settings (f : Facade) := (fc_webSocketOptions f, fc_authCallback f, fc_adminAuthToken f,
  fc_adminActingAs f, fc_authToken f).
Definition realtime_start (env : token_environment)
    (settings : list WebSocketOption * option UserTokenFetcher * string * list (option UserIdentityAttributes) * string)
    : result facade_error realtime_client :=
  let '(opts, authCallback, adminAuthToken, adminActingAs, authToken) := settings in
  rt ← realtime_new opts;
  let '(rt, r) :=
    match authCallback with
    | Some cb => realtime_setAuthCallback env (Some cb) true rt
    | None =>
        if negb (bool_decide (adminAuthToken = "")) then realtime_setAdminAuth adminAuthToken adminActingAs true rt
        else if negb (bool_decide (authToken = "")) then realtime_setAuth authToken true rt
        else (rt, Ok ())
    end in
  _ ← r; Ok rt.

(** When another call has installed one in the meantime, the new one is closed. *)
Definition realtime_install (rt : realtime_client) (f : Facade) : Facade :=
  match fc_realtime f with Some _ => f | None => fc_put_realtime (Some rt) f end.

(** [realtime], when no other call comes between. *)
Definition Client_realtime (env : token_environment) (f : Facade) : Facade * result facade_error unit :=
  match fc_realtime f with
  | Some _ => (f, Ok ())
  | None =>
      match realtime_start env (realtime_settings f) with
      | Err e => (f, Err e)
      | Ok rt => (realtime_install rt f, Ok ())
      end
  end.

Definition Client_Close (f : Facade) : Facade := fc_put_realtime None f.

(** *** The identity *)

(** A method of the realtime client, if there is one. *)
Definition on_realtime (act : realtime_client -> realtime_client * result facade_error unit) (f : Facade)
    : Facade * result facade_error unit :=
  match fc_realtime f with
  | None => (f, Ok ())
  | Some rt => let '(rt, r) := act rt in (fc_put_realtime (Some rt) f, r)
  end.

Definition SetAuthContext (token : string) (flushed : bool) (f : Facade) : Facade * result facade_error unit :=
  let f := fc_put_http (HTTPClient_SetAuth token (fc_http f)) f in
  let f := fc_put_identity token "" [] None f in
  on_realtime (realtime_setAuth token flushed) f.

Definition ClearAuthContext (flushed : bool) (f : Facade) : Facade * result facade_error unit :=
  let f := fc_put_http (HTTPClient_ClearAuth (fc_http f)) f in
  let f := fc_put_identity "" "" [] None f in
  on_realtime (realtime_clearAuth flushed) f.

Definition SetAdminAuthContext (token : string) (actingAs : list (option UserIdentityAttributes))
    (flushed : bool) (f : Facade) : Facade * result facade_error unit :=
  match HTTPClient_SetAdminAuth token actingAs (fc_http f) with
  | Err e => (f, Err e)
  | Ok http =>
      let f := fc_put_identity "" token actingAs None (fc_put_http http f) in
      on_realtime (realtime_setAdminAuth token actingAs flushed) f
  end.

(** With a realtime client it is that which calls the callback. *)
Definition SetAuthCallbackContext (env : token_environment) (fetcher : option UserTokenFetcher)
    (flushed : bool) (f : Facade) : Facade * result facade_error unit :=
  let '(f, r) :=
    match fc_realtime f, fetcher with
    | Some _, _ => on_realtime (realtime_setAuthCallback env fetcher flushed) f
    | None, Some cb => (f, map_err TokenCallbackFailed ((fun _ => ()) <$> env cb false))
    | None, None => (f, Ok ())
    end in
  match r with
  | Err e => (f, Err e)
  | Ok _ =>
      let f := fc_put_http (HTTPClient_setAuthCallback fetcher (fc_http f)) f in
      (fc_put_identity "" "" [] fetcher f, Ok ())
  end.
