(* ===== verification/FacadeTheorems.v ===== *)
(** * Properties of the facade

    The HTTP client and the realtime client act for the same caller, whatever
    methods are called in a row; and the uses for which they do not. *)
From S2P Require Import Prelude GoStrings GoBytes GoFloat GoJson Values Results Protocol ClientMessages ServerMessages ProtocolFacts Canonical CanonicalFacts MessageDecode ClientState BaseClient ClientQueries ClientRequests ClientInvariant SyncManager HttpClient GoUrl Addresses Facade.
Local Open Scope Z_scope.

(** ** The identity of the base client *)

Definition changes_identity (op : operation) : bool :=
  match op with
  | OSetAuth _ | OSetAdminAuth _ _ | OClearAuth | OSetAuthCallback _ _ => true
  | _ => false
  end.

Lemma remember_action_fetcher id r c : authFetcher (rememberActionResult id r c) = authFetcher c.
Proof. by destruct (rememberActionResult_eq id r c) as (? & ? & _ & ->). Qed.

Lemma complete_fetcher id c : authFetcher (fst (completeMutationRequest id c)) = authFetcher c.
Proof.
  unfold completeMutationRequest. destruct (requests c !! id) as [r|]; [|done].
  destruct (r_hasResult r); [|done]. cbn [fst].
  by destruct (rememberMutationResult_eq id (r_result r) c) as (? & ? & _ & ->).
Qed.

Lemma fold_fetcher {A : Type} (f : Client -> A -> Client) l c :
  (forall c x, authFetcher (f c x) = authFetcher c) -> authFetcher (fold_left f l c) = authFetcher c.
Proof. intros H. revert c. induction l as [|x l IH]; intros c; [done|]. cbn. by rewrite IH, H. Qed.

Lemma recompute_fetcher c : authFetcher (fst (recomputeOptimisticResults c)) = authFetcher c.
Proof. unfold recomputeOptimisticResults. by destruct (optimisticResultsWith c None). Qed.

Lemma observe_fetcher ts c : authFetcher (observeTimestamp ts c) = authFetcher c.
Proof. unfold observeTimestamp. by destruct (maxObservedTimestamp c); [case_match|]. Qed.

Lemma receive_fetcher msg c : authFetcher (fst (ReceiveMessage msg c)) = authFetcher c.
Proof.
  destruct msg as [[m|m|m|m|m|e|]|]; cbn [ReceiveMessage]; try done.
  - unfold receiveTransition. destruct (decide _); [|done].
    match goal with |- context [recomputeOptimisticResults ?x] =>
      pose proof (recompute_fetcher x) as H; destruct (recomputeOptimisticResults x) as [c' []] end;
      cbn [fst] in *; rewrite H; unfold completeMutationsThrough;
      rewrite fold_fetcher by (intros; apply complete_fetcher); rewrite observe_fetcher; cbn [authFetcher set_remoteVersion];
      apply fold_fetcher; intros c0 [u|f|i]; cbn; unfold set_server_result; by try case_match.
  - unfold receiveMutationResponse.
    assert (H : authFetcher (fst (updateRequestFromMutationResponse m c)) = authFetcher c).
    { unfold updateRequestFromMutationResponse. destruct (requests c !! mr_RequestID m) as [r|]; [|by case_decide].
      destruct (decide _); [|done]. set (c1 := set_requests _ c). destruct (negb _); [|by destruct (mr_TS m)].
      pose proof (complete_fetcher (mr_RequestID m) c1) as H1.
      destruct (completeMutationRequest (mr_RequestID m) c1) as [c2 []]; [|exact H1].
      by rewrite recompute_fetcher. }
    destruct (updateRequestFromMutationResponse m c) as [c' []]; [|exact H]. cbn [fst] in *.
    destruct (mr_TS m); by rewrite ?observe_fetcher.
  - unfold updateRequestFromActionResponse. destruct (requests c !! ar_RequestID m); [|done].
    destruct (decide _); [|done]. cbn. apply remember_action_fetcher.
Qed.

Lemma refresh_fetcher env c : authFetcher (fst (RefreshAuthForReconnect env c)) = authFetcher c.
Proof. unfold RefreshAuthForReconnect. destruct (authFetcher c) eqn:H; [|done]. by destruct (call_fetcher env a true). Qed.

Lemma restart_fetcher env c : authFetcher (fst (RestartForReconnect env c)) = authFetcher c.
Proof.
  unfold RestartForReconnect. set (c0 := set_remoteVersion _ _). set (c1 := cancelPendingActionsForReconnect c0).
  assert (H1 : authFetcher c1 = authFetcher c).
  { unfold c1, cancelPendingActionsForReconnect. rewrite fold_fetcher; [done|].
    intros c2 id. cbn. apply remember_action_fetcher. }
  assert (H2 : authFetcher (fst (match authFetcher c1 with
      Some _ => RefreshAuthForReconnect env c1 | None => (c1, Ok ()) end)) = authFetcher c).
  { destruct (authFetcher c1) eqn:Hf; [|cbn; congruence]. rewrite refresh_fetcher. congruence. }
  destruct (match authFetcher c1 with Some _ => _ | None => _ end) as [c2 []]; cbn [fst] in *; [|done].
  by destruct (0 <? length (replayQueryAdds c2))%nat.
Qed.

(** Only the four methods of the identity change who the base client acts for. *)
Lemma perform_fetcher op c : changes_identity op = false -> authFetcher (perform op c) = authFetcher c.
Proof.
  intros Hop. destruct op as [p a|id| |t|t i| |env f|env|p a o|p a|env|msg]; try done; cbn [perform].
  - unfold Subscribe. destruct (canonicalQuery p a) as [[[p' l] tok]|]; [|done]. by destruct (queries c !! tok).
  - unfold Unsubscribe. destruct (decide _); [|done]. destruct (queryIDToToken _ !! _) as [tok|]; [|done].
    destruct (queries _ !! tok) as [q|]; [|done]. by destruct (1 <? q_numSubscribers q).
  - unfold PopNextMessage. by destruct (outgoing c).
  - apply refresh_fetcher.
  - unfold Mutation, mutation. destruct (canonicalRequest p a) as [[p' l]|]; [|done].
    destruct (syncMutationOptionsFrom o); [|done]. by destruct (optimisticResultsWith c _).
  - unfold Action. by destruct (canonicalRequest p a) as [[p' l]|].
  - apply restart_fetcher.
  - apply receive_fetcher.
Qed.

(** ** Who the clients act for *)

(** The claims that are strings. *)
Definition member (claims : gmap string json) (key : string) : string :=
  match claims !! key with Some (JStr s) => s | _ => "" end.
(** Who the claims name: the token identifier, or one of the issuer and the subject. *)
Definition named (claims : gmap string json) : string :=
  let issuer := member claims "issuer" in
  let subject := member claims "subject" in
  if bool_decide (member claims "tokenIdentifier" = "") then
    if bool_decide (issuer = "") || bool_decide (subject = "") then "" else issuer +:+ "|" +:+ subject
  else member claims "tokenIdentifier".

(** The credentials of an admin key that acts as an identity or as itself. *)
Definition credentials (key : string) (identity : option UserIdentityAttributes) : string :=
  match identity with
  | None => key
  | Some claims =>
      key +:+ ":" +:+ b64_encode std_alphabet (String.list_byte_of_string (json_text (WObj claims)))
  end.
(** The realtime client sends the same claims, with the name among them, or none. *)
Definition announces (sent : option SyncUserIdentityAttributes) (identity : option UserIdentityAttributes) : Prop :=
  match sent, identity with
  | None, None => True
  | Some i, Some claims => exists docs, marshal (WObj claims) = Ok (JObj docs) /\ named docs <> "" /\
      Identity_MarshalJSON i = Ok (JObj (<["tokenIdentifier" := JStr (named docs)]> docs))
  | _, _ => False
  end.

(** The identities to act as that both clients can tell: the claims name someone; and
    no identity follows one that is nil. *)
Definition whole (actingAs : list (option UserIdentityAttributes)) : bool :=
  match actingAs with
  | [Some claims] =>
      match marshal (WObj claims) with Ok (JObj docs) => negb (bool_decide (named docs = "")) | _ => true end
  | None :: rest => forallb (fun a => match a with None => true | Some _ => false end) rest
  | _ => true
  end.

Lemma marshal_utf8 w j : marshal w = Ok j -> utf8_json j = true.
Proof.
  revert j. induction w as [|b|s|n|f|l IH|m IH| |t] using wire_ind'; intros j Hj; cbn in Hj;
    try (by injection Hj as <-); try discriminate Hj.
  - injection Hj as <-. cbn. apply utf8_ok_coerce, coerce_idem.
  - destruct n as [n|t]; [by injection Hj as <-|]. case_decide; [by injection Hj as <-|discriminate].
  - destruct (is_finite f); [by injection Hj as <-|discriminate].
  - apply bind_Ok in Hj as (k & Hk%mapM_Ok & [= <-]). cbn. apply forallb_forall.
    intros x Hx%list_elem_of_In%list_elem_of_lookup. destruct Hx as [i Hi].
    destruct (Forall2_lookup_r _ _ _ _ _ Hk Hi) as (y & Hy & Hx). eapply (IH y); [by eapply list_elem_of_lookup_2|exact Hx].
  - apply bind_Ok in Hj as (k & Hk & [= <-]). cbn. apply map_forallb_true. intros x d Hd.
    rewrite map_traverse_Ok in Hk. specialize (Hk x). rewrite Hd in Hk.
    destruct (m !! x) as [y|] eqn:Hy; [|done]. destruct Hk as (d' & [= <-] & Hd'). by apply (IH x y Hy).
Qed.

Lemma named_claims docs :
  let claim k := (claimString (Some (decode_any <$> docs)) k).1 in
  forall k, claim k = member docs k.
Proof.
  intros claim k. unfold claim, claimString, member. cbn. rewrite lookup_fmap.
  by destruct (docs !! k) as [[| | |x| |]|].
Qed.

Lemma member_utf8 docs k : utf8_json (JObj docs) = true -> utf8_ok (member docs k) = true.
Proof. intros Hu. rewrite <- named_claims. by apply claim_utf8. Qed.

(** The identity that is read from the claims. *)
Lemma announced (claims : UserIdentityAttributes) docs :
  marshal (WObj claims) = Ok (JObj docs) -> named docs <> "" ->
  exists i, syncIdentity (Some claims) = Some i /\ announces (Some (with_derived_token i)) (Some claims).
Proof.
  intros Hm Hn. pose proof (marshal_utf8 _ _ Hm) as Hu.
  unfold syncIdentity. cbn [mbind option_bind]. rewrite Hm. unfold Identity_UnmarshalJSON. cbn [decodeRawMap mbind result_bind].
  rewrite !named_claims. unfold named in Hn.
  assert (Hgo : forall tok, tok = named docs -> exists i,
    Some (mkIdentity tok (member docs "issuer") (member docs "subject") (Some (decode_any <$> docs))) = Some i /\
    announces (Some (with_derived_token i)) (Some claims)).
  { intros tok ->. eexists. split; [done|]. unfold with_derived_token. cbn [TokenIdentifier Issuer Subject Claims].
    rewrite (bool_decide_eq_false_2 (named docs = "")) by done. cbn [andb announces]. exists docs. split; [done|]. split; [done|].
    rewrite identity_written; [|done|done|by rewrite named_claims..].
    unfold json_string. rewrite (proj1 (utf8_ok_coerce _)); [done|]. unfold named.
    repeat case_bool_decide; cbn; try done; try (by apply member_utf8); repeat apply utf8_ok_app; by try apply member_utf8. }
  destruct (decide (member docs "tokenIdentifier" = "")) as [Ht|Ht].
  - rewrite (bool_decide_true _ Ht) in Hn.
    destruct (bool_decide_reflect (member docs "issuer" = "")) as [|Hi]; [done|].
    destruct (bool_decide_reflect (member docs "subject" = "")) as [|Hj]; [done|]. cbn [orb] in Hn.
    rewrite (bool_decide_true _ Hi), (bool_decide_true _ Hj). cbn [andb]. apply Hgo. unfold named, derived_token.
    by rewrite (bool_decide_true _ Ht), (bool_decide_false _ Hi), (bool_decide_false _ Hj).
  - apply Hgo. unfold named. by rewrite (bool_decide_false _ Ht).
Qed.

(** Who the realtime client acts as is who the credentials say. *)
Lemma credentials_announced key actingAs s :
  encodeAdminAuth key actingAs = Ok s -> whole actingAs = true ->
  exists identity, s = credentials key identity /\
    announces (with_derived_token <$> head (syncIdentityAttributes actingAs)) identity.
Proof.
  destruct actingAs as [|[claims|] [|b l]]; cbn [encodeAdminAuth whole]; try done.
  - intros [= <-] _. by exists None.
  - intros (j & Hj & [= <-])%bind_Ok Hw. apply map_err_Ok in Hj.
    assert (exists docs, j = JObj docs) as [docs ->] by (cbn in Hj; apply bind_Ok in Hj as (d & _ & [= <-]); eauto).
    rewrite Hj in Hw. apply negb_true_iff, bool_decide_eq_false in Hw.
    destruct (announced claims docs Hj Hw) as (i & Hi & Ha). exists (Some claims). split; [done|].
    unfold syncIdentityAttributes.
    change (omap syncIdentity [Some claims]) with (match syncIdentity (Some claims) with Some i => [i] | None => [] end).
    rewrite Hi. exact Ha.
  - intros [= <-] _. by exists None.
  - intros [= <-] Hw. exists None. split; [done|].
    assert (syncIdentityAttributes (None :: b :: l) = []) as ->; [|done].
    cbn [whole] in Hw. revert Hw. generalize (b :: l). intros l'. unfold syncIdentityAttributes.
    change (omap syncIdentity (None :: l')) with (omap syncIdentity l').
    induction l' as [|[x|] l' IH]; [done|done|exact IH].
Qed.

(** What the realtime client announces, and the header that says the same. *)
Definition fetched (env : auth_environment) (force : bool) (f : option AuthTokenFetcher)
    : result client_error AuthToken :=
  match f with None => Ok NoAuthToken | Some f => call_fetcher env f force end.
Definition same_caller (header : result string string) (token : result client_error AuthToken) : Prop :=
  match token with
  | Err _ => is_ok header = false
  | Ok t =>
      (at_TokenType t = AuthTokenNone /\ header = Ok "") \/
      (at_TokenType t = AuthTokenUser /\ header = Ok ("Bearer " +:+ at_Value t)) \/
      (at_TokenType t = AuthTokenAdmin /\ exists identity,
         header = Ok ("Convex " +:+ credentials (at_Value t) identity) /\ announces (at_ActingAs t) identity)
  end.

(** The fetcher a realtime client of the facade has. *)
Definition facade_fetcher (f : Facade) : option AuthTokenFetcher :=
  match fc_authCallback f with
  | Some cb => Some (Callback cb)
  | None =>
      if decide (fc_adminAuthToken f = "") then
        if decide (fc_authToken f = "") then None else Some (FixedToken (UserAuthToken (fc_authToken f)))
      else Some (FixedToken (AdminAuthToken (fc_adminAuthToken f) (syncIdentityAttributes (fc_adminActingAs f))))
  end.

Record http_agrees (c : HTTPClient) (f : Facade) : Prop := {
  ha_callback : hc_authCallback c = fc_authCallback f;
  ha_user : hc_auth c = fc_authToken f;
  ha_admin : encodeAdminAuth (fc_adminAuthToken f) (fc_adminActingAs f) = Ok (hc_adminAuth c);
  ha_plain : fc_adminAuthToken f = "" -> hc_adminAuth c = "";
  ha_whole : whole (fc_adminActingAs f) = true
}.
Record agrees (f : Facade) : Prop := {
  ag_http : http_agrees (fc_http f) f;
  ag_realtime rt : fc_realtime f = Some rt -> rt_over rt = false ->
    authFetcher (rt_client rt) = facade_fetcher f
}.

Lemma append_nonempty (s t : string) : t <> "" -> s +:+ t <> "".
Proof. by destruct s. Qed.

Lemma encodeAdminAuth_nonempty token actingAs s :
  token <> "" -> encodeAdminAuth token actingAs = Ok s -> s <> "".
Proof.
  intros Ht. unfold encodeAdminAuth.
  destruct actingAs as [|[a|] [|b l]]; try (by intros [= <-]); try done.
  intros (x & _ & [= <-])%bind_Ok. by destruct token.
Qed.

(** A client whose fields agree acts for the same caller as a realtime client with
    the fetcher of the facade. *)
Lemma agrees_same_caller c f env force :
  http_agrees c f ->
  same_caller (fst (authHeaderValue env force c)) (fetched (adaptUserTokenFetcher env) force (facade_fetcher f)).
Proof.
  intros [H1 H2 H3 H4 H5]. unfold authHeaderValue, facade_fetcher. rewrite H1.
  destruct (fc_authCallback f) as [cb|]; cbn [fetched call_fetcher].
  - unfold adaptUserTokenFetcher. destruct (env cb force) as [t|e]; [|done]. cbn.
    destruct (decide (t = "")); [by left|by right; left].
  - destruct (decide (fc_adminAuthToken f = "")) as [Ha|Ha]; cbn [fst].
    + rewrite (decide_True _ _ (H4 Ha)), H2.
      destruct (decide (fc_authToken f = "")); cbn [fetched call_fetcher]; [by left|by right; left].
    + rewrite decide_False by (by eapply encodeAdminAuth_nonempty). right; right. split; [done|].
      destruct (credentials_announced _ _ _ H3 H5) as (identity & -> & Hid). by exists identity.
Qed.

(** ** The methods keep the agreement *)

(** A method in use: [FOver] is the end of the realtime client by itself,
    [FOperation] an operation of its base client that is none of the others. *)
Inductive facade_op : Type :=
  | FSetAuth (token : string) (flushed : bool)
  | FClearAuth (flushed : bool)
  | FSetAdminAuth (token : string) (actingAs : list (option UserIdentityAttributes)) (flushed : bool)
  | FSetAuthCallback (env : token_environment) (fetcher : option UserTokenFetcher) (flushed : bool)
  | FRealtime (env : token_environment)
  | FClose
  | FOver
  | FOperation (op : operation).
Definition on_live (g : realtime_client -> realtime_client) (f : Facade) : Facade :=
  fc_put_realtime (g <$> fc_realtime f) f.
Definition perform_facade (o : facade_op) (f : Facade) : Facade :=
  match o with
  | FSetAuth token flushed => fst (SetAuthContext token flushed f)
  | FClearAuth flushed => fst (ClearAuthContext flushed f)
  | FSetAdminAuth token actingAs flushed => fst (SetAdminAuthContext token actingAs flushed f)
  | FSetAuthCallback env fetcher flushed => fst (SetAuthCallbackContext env fetcher flushed f)
  | FRealtime env => fst (Client_realtime env f)
  | FClose => Client_Close f
  | FOver => on_live (fun rt => mkRealtime (rt_client rt) true) f
  | FOperation op =>
      if changes_identity op then f
      else on_live (fun rt => mkRealtime (perform op (rt_client rt)) (rt_over rt)) f
  end.

(** The uses the theorem is about: tokens are not empty, identities to act as are
    whole, and a callback that is installed on a running realtime client is flushed. *)
Definition ordinary (o : facade_op) : bool :=
  match o with
  | FSetAuth token _ => negb (bool_decide (token = ""))
  | FSetAdminAuth token actingAs _ => negb (bool_decide (token = "")) && whole actingAs
  | FSetAuthCallback _ _ flushed => flushed
  | _ => true
  end.

Lemma realtime_control_fetcher operate flushed rt :
  rt_over (fst (realtime_control operate flushed rt)) = rt_over rt /\
  (rt_over rt = false ->
   rt_client (fst (realtime_control operate flushed rt)) = fst (operate (rt_client rt))).
Proof.
  unfold realtime_control. destruct (rt_over rt) eqn:Ho; [done|].
  by destruct (operate (rt_client rt)).
Qed.

(** Methods that change the fields before the realtime client. *)
Lemma on_realtime_agrees operate flushed f :
  http_agrees (fc_http f) f ->
  (forall c, authFetcher (fst (operate c)) = facade_fetcher f) ->
  agrees (fst (on_realtime (realtime_control operate flushed) f)).
Proof.
  intros Hh Hop. unfold on_realtime. destruct (fc_realtime f) as [rt|] eqn:Hrt.
  - destruct (realtime_control_fetcher operate flushed rt) as [H1 H2].
    destruct (realtime_control operate flushed rt) as [rt' r]. cbn [fst] in *. split.
    + by destruct Hh.
    + cbn. intros ? [= <-] Ho. rewrite H2 by congruence. apply Hop.
  - split; [done|]. cbn. congruence.
Qed.

Lemma start_fetcher env f rt :
  realtime_start env (realtime_settings f) = Ok rt -> rt_over rt = false /\ authFetcher (rt_client rt) = facade_fetcher f.
Proof.
  unfold realtime_start, realtime_settings. intros (rt0 & H0 & H)%bind_Ok.
  assert (Hnew : rt0 = mkRealtime New false).
  { unfold realtime_new in H0. apply bind_Ok in H0 as (st & Hst%map_err_Ok & [= <-]).
    assert (Hc : forall os s s', applyOptions (map managerOption os) s = Ok s' -> st_client s' = st_client s).
    { induction os as [|o os IH]; intros s s'; cbn; [by intros [= <-]|].
      intros (s1 & H1 & H2)%bind_Ok. rewrite (IH _ _ H2).
      destruct o as [id|d|d|b]; cbn in H1; [case_decide| | |destruct b]; try destruct (_ <? _); try destruct (_ <=? _);
        try discriminate H1; by injection H1 as <-. }
    cbn [applyOptions] in Hst. apply bind_Ok in Hst as (s1 & H1 & H2). by injection H1 as <-; rewrite (Hc _ _ _ H2). }
  subst rt0. unfold facade_fetcher. destruct (fc_authCallback f) as [cb|].
  - unfold realtime_setAuthCallback, realtime_control in H. cbn [rt_over rt_client SetAuthCallback fmap option_fmap option_map call_fetcher] in H.
    destruct (adaptUserTokenFetcher env cb false) as [t|e]; cbn in H; [|discriminate]. injection H as <-. done.
  - destruct (decide (fc_adminAuthToken f = "")) as [Ha|Ha].
    + rewrite (bool_decide_true _ Ha) in H. destruct (decide (fc_authToken f = "")) as [Hu|Hu].
      * rewrite (bool_decide_true _ Hu) in H. by injection H as <-.
      * rewrite (bool_decide_false _ Hu) in H. by injection H as <-.
    + rewrite (bool_decide_false _ Ha) in H. by injection H as <-.
Qed.

Lemma perform_agrees o f : ordinary o = true -> agrees f -> agrees (perform_facade o f).
Proof.
  intros Ho [Hh Hr]. destruct o as [t fl|fl|t a fl|env cb fl|env| | |op]; cbn [perform_facade ordinary] in *.
  - apply negb_true_iff, bool_decide_eq_false in Ho. apply on_realtime_agrees.
    + by split; cbn; rewrite ?decide_False by done.
    + intros c. unfold facade_fetcher. cbn. rewrite decide_True by done. by rewrite decide_False.
  - apply on_realtime_agrees; [by split|done].
  - apply andb_true_iff in Ho as [Ho%negb_true_iff%bool_decide_eq_false Hw]. unfold SetAdminAuthContext, HTTPClient_SetAdminAuth.
    destruct (encodeAdminAuth t a) as [s|e] eqn:Hs; cbn [mbind result_bind fst]; [|by split].
    apply on_realtime_agrees.
    + split; cbn; try done. by rewrite decide_False by (by eapply encodeAdminAuth_nonempty).
    + intros c. unfold facade_fetcher. cbn. by rewrite decide_False.
  - subst fl. unfold SetAuthCallbackContext, on_realtime. destruct (fc_realtime f) as [rt|] eqn:Hrt.
    + unfold realtime_setAuthCallback, realtime_control. destruct (rt_over rt) eqn:Hov.
      { cbn. split; [by destruct Hh|]. cbn. intros ? [= <-]. congruence. }
      destruct cb as [cb|]; cbn [SetAuthCallback fmap option_fmap option_map call_fetcher].
      * destruct (adaptUserTokenFetcher env cb false) as [t|e]; cbn.
        -- split; [by split|]. cbn. by intros ? [= <-] _.
        -- split; [by destruct Hh|]. cbn. intros ? [= <-] _. exact (Hr rt eq_refl Hov).
      * cbn. split; [by split|]. cbn. by intros ? [= <-] _.
    + destruct cb as [cb|].
      * destruct (env cb false); cbn; (split; [first [done|by split]|]); cbn; rewrite Hrt; by intros ? [=].
      * cbn. split; [by split|]. cbn. rewrite Hrt. by intros ? [=].
  - unfold Client_realtime. destruct (fc_realtime f) as [rt|] eqn:Hrt;
      [by split; cbn; rewrite ?Hrt|].
    destruct (realtime_start env (realtime_settings f)) as [rt|e] eqn:Hs; [|by split; cbn; rewrite ?Hrt].
    cbn. unfold realtime_install. rewrite Hrt. split; [by destruct Hh|]. cbn. intros ? [= <-] _.
    by destruct (start_fetcher env f rt Hs).
  - split; [by destruct Hh|]. cbn. done.
  - split; [by destruct Hh|]. cbn. intros rt. destruct (fc_realtime f); [|done]. by intros [= <-].
  - destruct (changes_identity op) eqn:Hop; [by split|]. split; [by destruct Hh|]. cbn. intros rt.
    destruct (fc_realtime f) as [rt0|] eqn:Hrt; [|done]. intros [= <-]. cbn. intros Hov.
    rewrite perform_fetcher by done. by apply Hr.
Qed.

(** ** New clients *)

Definition identity_option (o : client_option) : bool :=
  match o with WithAuth _ | WithAdminAuth _ _ => true | _ => false end.

(** One option for the identity at most, no empty admin key, and a whole identity to
    act as. *)
Fixpoint ordinary_options (os : list client_option) : bool :=
  match os with
  | [] => true
  | o :: rest =>
      match o with WithAdminAuth token actingAs => negb (bool_decide (token = "")) && whole actingAs | _ => true end
      && (if identity_option o then forallb (fun o => negb (identity_option o)) rest
          else ordinary_options rest)
  end.

Definition blank (c : HTTPClient) (f : Facade) : Prop :=
  hc_auth c = "" /\ hc_adminAuth c = "" /\ hc_authCallback c = None /\
  fc_authToken f = "" /\ fc_adminAuthToken f = "" /\ fc_adminActingAs f = [] /\ fc_authCallback f = None.

Lemma blank_agrees c f : blank c f -> http_agrees c f.
Proof. intros (H1 & H2 & H3 & H4 & H5 & H6 & H7). split; try congruence; by rewrite ?H2, ?H5, H6. Qed.

(** An option that is not about the identity leaves it alone. *)
Lemma other_option o c f c' f' :
  identity_option o = false -> applyHTTPOption o c = Ok c' -> applyClientOption o f = Ok f' ->
  (hc_auth c', hc_adminAuth c', hc_authCallback c') = (hc_auth c, hc_adminAuth c, hc_authCallback c) /\
  (fc_authToken f', fc_adminAuthToken f', fc_adminActingAs f', fc_authCallback f')
  = (fc_authToken f, fc_adminAuthToken f, fc_adminActingAs f, fc_authCallback f).
Proof.
  destruct o as [b|id|t|t a| |o|]; intros Hi H1 H2; try discriminate Hi; cbn in H1, H2.
  - destruct b; [discriminate|]. by injection H1 as <-; injection H2 as <-.
  - case_decide; [discriminate|]. by injection H1 as <-; injection H2 as <-.
  - by injection H1 as <-; injection H2 as <-.
  - by injection H1 as <-; injection H2 as <-.
  - by injection H1 as <-; injection H2 as <-.
Qed.

Lemma other_agrees o c f c' f' :
  identity_option o = false -> applyHTTPOption o c = Ok c' -> applyClientOption o f = Ok f' ->
  (http_agrees c f -> http_agrees c' f') /\ (blank c f -> blank c' f').
Proof.
  intros Hi H1 H2. destruct (other_option o c f c' f' Hi H1 H2) as [[= E1 E2 E3] [= E4 E5 E6 E7]].
  split.
  - intros [A1 A2 A3 A4 A5]. split; rewrite ?E1, ?E2, ?E3, ?E4, ?E5, ?E6, ?E7; done.
  - unfold blank. by rewrite E1, E2, E3, E4, E5, E6, E7.
Qed.

Lemma identity_agrees o c f c' f' :
  match o with WithAdminAuth token actingAs => negb (bool_decide (token = "")) && whole actingAs | _ => true end = true ->
  identity_option o = true -> applyHTTPOption o c = Ok c' -> applyClientOption o f = Ok f' ->
  blank c f -> http_agrees c' f'.
Proof.
  intros Ht Hi H1 H2 (B1 & B2 & B3 & B4 & B5 & B6 & B7).
  destruct o as [b|id|t|t a| |o|]; try discriminate Hi; cbn in H1, H2.
  - injection H1 as <-. injection H2 as <-. split; cbn; rewrite ?B2, ?B3, ?B7; done.
  - destruct (encodeAdminAuth t a) as [s|e] eqn:Hs; [|discriminate]. cbn in H1, H2.
    injection H1 as <-. injection H2 as <-. apply andb_true_iff in Ht as [Ht%negb_true_iff%bool_decide_eq_false Hw].
    split; cbn; rewrite ?B1, ?B3, ?B7; done.
Qed.

Lemma options_agree os : forall c f c' f',
  apply_all applyHTTPOption os c = Ok c' -> apply_all applyClientOption os f = Ok f' ->
  (forallb (fun o => negb (identity_option o)) os = true -> http_agrees c f -> http_agrees c' f') /\
  (ordinary_options os = true -> blank c f -> http_agrees c' f').
Proof.
  induction os as [|o os IH]; intros c f c' f' H1 H2; cbn in H1, H2.
  { injection H1 as <-. injection H2 as <-. split; [done|intros _; apply blank_agrees]. }
  apply bind_Ok in H1 as (c1 & Hc & H1). apply bind_Ok in H2 as (f1 & Hf & H2).
  destruct (IH c1 f1 c' f' H1 H2) as [IH1 IH2]. cbn [forallb ordinary_options].
  destruct (identity_option o) eqn:Hi; cbn [negb andb].
  - split; [done|]. intros [Ht Ho]%andb_true_iff Hb. apply IH1; [done|].
    by apply (identity_agrees o c f).
  - destruct (other_agrees o c f c1 f1 Hi Hc Hf) as [A1 A2]. split; [by auto|].
    intros [_ Ho]%andb_true_iff Hb. by apply IH2; [|apply A2].
Qed.

Lemma apply_all_http os : forall f f',
  apply_all applyClientOption os f = Ok f' -> fc_http f' = fc_http f /\ fc_realtime f' = fc_realtime f.
Proof.
  induction os as [|o os IH]; intros f f' H; cbn in H; [by injection H as <-|].
  apply bind_Ok in H as (f1 & Hf & H). destruct (IH _ _ H) as [-> ->].
  destruct o as [b|id|t|t a| |o|]; cbn in Hf; try by injection Hf as <-.
  apply bind_Ok in Hf as (s & _ & Hf). by injection Hf as <-.
Qed.

Lemma NewClient_agrees lit address os f :
  NewClient lit address os = Ok f -> ordinary_options os = true -> agrees f.
Proof.
  unfold NewClient, NewHTTPClient. intros H Ho. apply bind_Ok in H as (http & Hh & H).
  apply bind_Ok in Hh as (c & Hc & (a & _ & [= <-])%bind_Ok). destruct (apply_all_http os _ _ H) as [Eh Er].
  destruct (options_agree os _ _ c f Hc H) as [_ Ha]. split.
  - rewrite Eh. destruct (Ha Ho); [by unfold blank|]. by split.
  - rewrite Er. intros ? [=].
Qed.

(** One identity.  After any calls of the facade in a row, from any new
    client, the header of an HTTP request names the caller that a live realtime
    client announces, with the token of the same callback or the same token; and
    so will the realtime client that the next subscription creates.  The options
    give at most one identity, tokens are not empty, identities to act as are whole, and installing a callback
    on a live realtime client ends with its flush. *)
Theorem one_identity lit address os f ops env force :
  NewClient lit address os = Ok f -> ordinary_options os = true ->
  forallb ordinary ops = true ->
  let f' := fold_left (fun f o => perform_facade o f) ops f in
  (forall rt, fc_realtime f' = Some rt -> rt_over rt = false ->
     same_caller (fst (authHeaderValue env force (fc_http f')))
       (fetched (adaptUserTokenFetcher env) force (authFetcher (rt_client rt)))) /\
  (forall env' rt, realtime_start env' (realtime_settings f') = Ok rt ->
     same_caller (fst (authHeaderValue env force (fc_http f')))
       (fetched (adaptUserTokenFetcher env) force (authFetcher (rt_client rt)))).
Proof.
  intros Hf Hos Hops f'.
  assert (H : agrees f').
  { unfold f'. pose proof (NewClient_agrees _ _ _ _ Hf Hos) as Ha. clear Hf f'. revert f Ha.
    induction ops as [|o ops IH]; intros f Ha; [done|]. cbn in *. apply andb_true_iff in Hops as [Ho Hops].
    apply IH; [done|]. by apply perform_agrees. }
  destruct H as [Hh Hr]. split.
  - intros rt Hrt Ho. rewrite (Hr rt Hrt Ho). by apply agrees_same_caller.
  - intros env' rt Hs. destruct (start_fetcher env' f' rt Hs) as [_ ->]. by apply agrees_same_caller.
Qed.

(** A client that acts as an identity, starts its realtime part and then gets a
    callback. *)
Definition sample_claims : UserIdentityAttributes := {["issuer" := WStr "i"; "subject" := WStr "s"]}.
Definition sample_tokens : token_environment := fun cb force => Ok (if force then "fresh" else "cached").
Definition sample_ops : list facade_op :=
  [FRealtime sample_tokens; FOperation (OSubscribe "messages:list" GNil);
   FSetAuthCallback sample_tokens (Some 3%nat) true].
Definition sample_facade : Facade :=
  match NewClient no_literal "https://a.convex.cloud" [WithHTTPClientID "me"; WithAdminAuth "key" [Some sample_claims]] with
  | Ok f => f
  | Err _ => mkFacade (mkHTTPClient "" "" false "" "" None) None [] "" "" [] None
  end.

Lemma one_identity_witness :
  let f' := fold_left (fun f o => perform_facade o f) sample_ops sample_facade in
  fst (authHeaderValue sample_tokens true (fc_http f')) = Ok "Bearer fresh" /\
  (forall rt, fc_realtime f' = Some rt -> rt_over rt = false ->
     same_caller (Ok "Bearer fresh") (fetched (adaptUserTokenFetcher sample_tokens) true (authFetcher (rt_client rt)))) /\
  exists rt, fc_realtime f' = Some rt /\ rt_over rt = false.
Proof.
  split; [vm_compute; reflexivity|]. split.
  - intros rt Hrt Ho.
    exact (proj1 (one_identity no_literal "https://a.convex.cloud"
      [WithHTTPClientID "me"; WithAdminAuth "key" [Some sample_claims]] sample_facade sample_ops sample_tokens true
      ltac:(vm_compute; reflexivity) ltac:(vm_compute; reflexivity) ltac:(vm_compute; reflexivity)) rt Hrt Ho).
  - eexists. split; [vm_compute; reflexivity|reflexivity].
Defined.

(** ** Two identities *)

Definition new_facade (os : list client_option) : Facade :=
  match NewClient no_literal "https://a.convex.cloud" os with Ok f => f | Err _ => sample_facade end.
Definition http_header (f : Facade) : result string string := fst (authHeaderValue sample_tokens false (fc_http f)).
Definition next_fetcher (f : Facade) : option AuthTokenFetcher :=
  match realtime_start sample_tokens (realtime_settings f) with
  | Ok rt => authFetcher (rt_client rt)
  | Err _ => None
  end.

(** With both options the HTTP client is the admin and the realtime client the
    user. *)
Lemma two_options_two_identities :
  let f := new_facade [WithAdminAuth "key" []; WithAuth "token"] in
  http_header f = Ok "Convex key" /\ next_fetcher f = Some (FixedToken (UserAuthToken "token")).
Proof. split; vm_compute; reflexivity. Qed.

(** An empty token takes the admin key from the realtime client alone. *)
Lemma empty_token_keeps_admin :
  let f := fst (SetAuthContext "" true (new_facade [WithAdminAuth "key" []])) in
  http_header f = Ok "Convex key" /\ next_fetcher f = None.
Proof. split; vm_compute; reflexivity. Qed.

(** Claims without a token identifier, or an issuer and a subject: HTTP requests
    act as the identity, the realtime client as the admin itself. *)
Lemma incomplete_claims_dropped :
  let claims : UserIdentityAttributes := {["subject" := WStr "s"]} in
  encodeAdminAuth "key" [Some claims] = Ok "key:eyJzdWJqZWN0IjoicyJ9" /\
  at_ActingAs (AdminAuthToken "key" (syncIdentityAttributes [Some claims])) = None.
Proof. split; vm_compute; reflexivity. Qed.

(** An identity after a nil one: HTTP requests act as the admin itself, the realtime
    client as the identity. *)
Lemma identity_after_nil :
  let claims : UserIdentityAttributes := {["tokenIdentifier" := WStr "t"]} in
  encodeAdminAuth "key" [None; Some claims] = Ok "key" /\
  TokenIdentifier <$> at_ActingAs (AdminAuthToken "key" (syncIdentityAttributes [None; Some claims])) = Some "t".
Proof. split; vm_compute; reflexivity. Qed.

(** A call of [SetAuth] while the first subscription creates the realtime
    client, after it has read the settings: the realtime client never hears of
    the token. *)
Lemma identity_lost_in_race :
  let f := new_facade [] in
  let settings := realtime_settings f in
  let f := fst (SetAuthContext "token" true f) in
  match realtime_start sample_tokens settings with
  | Err _ => False
  | Ok rt =>
      let f := realtime_install rt f in
      http_header f = Ok "Bearer token" /\
      option_map (fun rt => authFetcher (rt_client rt)) (fc_realtime f) = Some None
  end.
Proof. vm_compute. split; reflexivity. Qed.

(** A callback whose flush fails is installed on the realtime client alone. *)
Lemma unflushed_callback_half_installed :
  let f := fst (Client_realtime sample_tokens (new_facade [WithAuth "token"])) in
  let '(f, r) := SetAuthCallbackContext sample_tokens (Some 1%nat) false f in
  r = Err RealtimeNotFlushed /\ http_header f = Ok "Bearer token" /\
  option_map (fun rt => authFetcher (rt_client rt)) (fc_realtime f) = Some (Some (Callback 1)).
Proof. vm_compute. split; [reflexivity|split; reflexivity]. Qed.
