(* ===== verification/FacadeObservers.v ===== *)
(** * The observers of the facade's connection state

    The model of [client_connection_state.go], [connection_state.go] and
    [subscription_connection_state.go].  The facade keeps observers of its own,
    whose callbacks it attaches to the manager of one realtime client after
    another; a realtime client is a number, and [os_boxes] has the connection
    state of each one's manager.  The callback an observer attaches is known by the
    observer's id.

    The methods are taken one after another: each runs to its end, the calls of
    callbacks it makes included. *)
From S2P Require Import Prelude GoStrings SyncManager.
Local Open Scope Z_scope.

(** ** State *)

(** [obs_attached] stands for [unsubscribe]: the realtime client and the id there. *)
Record connectionStateObserver : Type := mkObserver {
  obs_attached : option (Z * Z);
  obs_last : option ConnectionState;
  obs_attaching : bool
}.

Record observers : Type := mkObservers {
  os_map : gmap Z connectionStateObserver;
  os_next : Z;
  os_realtime : option Z;
  os_boxes : gmap Z StateBox;
  os_nextRealtime : Z;
  os_told : list (Z * ConnectionState)
}.
Definition put_map (v : gmap Z connectionStateObserver) (o : observers) : observers :=
  mkObservers v (os_next o) (os_realtime o) (os_boxes o) (os_nextRealtime o) (os_told o).
Definition put_realtime (v : option Z) (o : observers) : observers :=
  mkObservers (os_map o) (os_next o) v (os_boxes o) (os_nextRealtime o) (os_told o).
Definition put_boxes (v : gmap Z StateBox) (o : observers) : observers :=
  mkObservers (os_map o) (os_next o) (os_realtime o) v (os_nextRealtime o) (os_told o).
Definition tell (id : Z) (state : ConnectionState) (o : observers) : observers :=
  mkObservers (os_map o) (os_next o) (os_realtime o) (os_boxes o) (os_nextRealtime o)
    (os_told o ++ [(id, state)]).

Definition newObservers : observers := mkObservers ∅ 0 None ∅ 0 [].

#[export] Instance ConnectionState_eq_dec : EqDecision ConnectionState.
Proof. solve_decision. Defined.

Definition disconnectedConnectionState : ConnectionState :=
  mkConnectionState ConnectionPhaseDisconnected false 0 0 0.

(** [Client.ConnectionState]. *)
Definition Client_ConnectionState (o : observers) : ConnectionState :=
  match n ← os_realtime o; os_boxes o !! n with
  | Some box => connectionState box
  | None => disconnectedConnectionState
  end.

(** ** Operations *)

(** A state that is the last one already is not told again. *)
Definition forwardConnectionState (id : Z) (state : ConnectionState) (o : observers) : observers :=
  match os_map o !! id with
  | None => o
  | Some ob =>
      if decide (obs_last ob = Some state) then o
      else tell id state
             (put_map (<[id := mkObserver (obs_attached ob) (Some state) (obs_attaching ob)]> (os_map o)) o)
  end.

(** The three parts of [attachConnectionStateObserver]: under the lock, at the
    manager, which makes the first call, and under the lock again. *)
Definition attach_begin (id : Z) (o : observers) : option observers :=
  match os_map o !! id with
  | Some (mkObserver None last false) => Some (put_map (<[id := mkObserver None last true]> (os_map o)) o)
  | _ => None
  end.
Definition attach_manager (id n : Z) (o : observers) : observers * option Z :=
  match os_boxes o !! n with
  | None => (o, None)
  | Some box =>
      let '(box', sub, _) := SubscribeToConnectionState (Some (Z.to_nat id)) box in
      (forwardConnectionState id (connectionState box) (put_boxes (<[n := box']> (os_boxes o)) o), sub)
  end.
Definition detach (attached : option (Z * Z)) (o : observers) : observers :=
  match attached with
  | Some (n, sub) => put_boxes (alter (forgetSubscriber sub) n (os_boxes o)) o
  | None => o
  end.
Definition attach_end (id n : Z) (sub : option Z) (o : observers) : observers :=
  let unsubscribe := (fun s => (n, s)) <$> sub in
  match os_map o !! id with
  | None => detach unsubscribe o
  | Some (mkObserver (Some existing) last _) =>
      detach unsubscribe
        (detach (Some existing) (put_map (<[id := mkObserver (Some existing) last false]> (os_map o)) o))
  | Some (mkObserver None last _) => put_map (<[id := mkObserver unsubscribe last false]> (os_map o)) o
  end.
Definition attachConnectionStateObserver (id n : Z) (o : observers) : observers :=
  match attach_begin id o with
  | None => o
  | Some o => let '(o, sub) := attach_manager id n o in attach_end id n sub o
  end.

(** The loop over the observers that are not attached; Go's order of a map is
    not fixed, here it is that of [map_to_list]. *)
Definition attachConnectionStateObservers (n : Z) (o : observers) : observers :=
  fold_left (fun o id => attachConnectionStateObserver id n o)
    (map fst (map_to_list (filter (fun kv => obs_attaching (snd kv) = false /\ obs_attached (snd kv) = None) (os_map o)))) o.

Definition clearConnectionStateObserverAttachments (o : observers) : observers :=
  put_map ((fun ob => mkObserver None (obs_last ob) false) <$> os_map o) o.

(** [Client.SubscribeToConnectionState] with a callback, in two parts: the
    registration under the lock, which reads the realtime client, and the calls
    after it; then the function it returns. *)
Definition subscribe_register (o : observers) : observers * (Z * option Z) :=
  let id := os_next o in
  (mkObservers (<[id := mkObserver None None false]> (os_map o)) (u64 (id + 1)) (os_realtime o)
     (os_boxes o) (os_nextRealtime o) (os_told o),
   (id, os_realtime o)).
Definition subscribe_finish (id : Z) (realtime : option Z) (o : observers) : observers :=
  let o := forwardConnectionState id (Client_ConnectionState o) o in
  match realtime with Some n => attachConnectionStateObserver id n o | None => o end.
Definition Client_SubscribeToConnectionState (o : observers) : observers * Z :=
  let '(o, (id, realtime)) := subscribe_register o in (subscribe_finish id realtime o, id).
Definition unsubscribeObserver (id : Z) (o : observers) : observers :=
  match os_map o !! id with
  | None => o
  | Some ob => detach (obs_attached ob) (put_map (delete id (os_map o)) o)
  end.

(** A change of the manager's state, with the calls of its observers. *)
Definition realtime_change (n : Z) (change : StateBox -> StateBox * list notification) (o : observers)
    : observers :=
  match os_boxes o !! n with
  | None => o
  | Some box =>
      let '(box, calls) := change box in
      fold_left (fun o call => forwardConnectionState (Z.of_nat (fst call)) (snd call) o) calls
        (put_boxes (<[n := box]> (os_boxes o)) o)
  end.

(** The end of [Client.realtime], with the state the new client's manager has come
    to by then, and [Close], in which the manager disconnects. *)
Definition install_realtime (state : ConnectionState) (o : observers) : observers :=
  match os_realtime o with
  | Some _ => o
  | None =>
      let n := os_nextRealtime o in
      attachConnectionStateObservers n
        (mkObservers (os_map o) (os_next o) (Some n) (<[n := mkStateBox state ∅ 0]> (os_boxes o)) (n + 1) (os_told o))
  end.
Definition close_realtime (now : Z) (o : observers) : observers :=
  match os_realtime o with
  | None => o
  | Some n =>
      clearConnectionStateObserverAttachments (realtime_change n (markDisconnected now) (put_realtime None o))
  end.

Inductive observer_op : Type :=
  | BSubscribe
  | BUnsubscribe (id : Z)
  | BInstall (state : ConnectionState)
  | BChange (update : ConnectionState -> ConnectionState) (now : Z)
  | BClose (now : Z).
Definition observe (b : observer_op) (o : observers) : observers :=
  match b with
  | BSubscribe => fst (Client_SubscribeToConnectionState o)
  | BUnsubscribe id => unsubscribeObserver id o
  | BInstall state => install_realtime state o
  | BChange update now =>
      match os_realtime o with
      | Some n => realtime_change n (updateConnectionState update now) o
      | None => o
      end
  | BClose now => close_realtime now o
  end.
