(* ===== verification/ObserverTheorems.v ===== *)
(** * Observers of the facade follow the connection

    What an observer of FacadeObservers has been told: the invariant [following] of
    the facade's maps and of the connection states under them, and the property
    [observers_follow]. *)
From S2P Require Import Prelude GoStrings SyncManager FacadeObservers.
Local Open Scope Z_scope.

(** ** What was told *)

Definition told_to (id : Z) (told : list (Z * ConnectionState)) : list ConnectionState :=
  map snd (filter (fun call => fst call = id) told).
Definition never_twice {A : Type} (l : list A) : Prop :=
  forall i a, l !! i = Some a -> l !! S i <> Some a.

Lemma never_twice_nil {A : Type} : never_twice (@nil A).
Proof. intros i a [=]. Qed.
Lemma never_twice_snoc {A : Type} (l : list A) a :
  never_twice l -> last l <> Some a -> never_twice (l ++ [a]).
Proof.
  intros Hl Hlast i b Hi [Hs|[Hlen [Hn <-]%list_lookup_singleton_Some]]%lookup_app_Some.
  - rewrite lookup_app_l in Hi by (apply lookup_lt_Some in Hs; lia). exact (Hl _ _ Hi Hs).
  - rewrite lookup_app_l in Hi by lia. apply Hlast. rewrite last_lookup.
    by replace (pred (length l)) with i by lia.
Qed.

Lemma told_to_app id told1 told2 : told_to id (told1 ++ told2) = told_to id told1 ++ told_to id told2.
Proof. unfold told_to. by rewrite filter_app, map_app. Qed.
Lemma told_to_one id j state : told_to id [(j, state)] = if decide (j = id) then [state] else [].
Proof. unfold told_to. by destruct (decide (j = id)); [rewrite filter_cons_True|rewrite filter_cons_False]. Qed.

(** [lasts] is what the observers believe they were told last. *)
Definition lasts (o : observers) : gmap Z (option ConnectionState) := obs_last <$> os_map o.
Record told_right (ls : gmap Z (option ConnectionState)) (told : list (Z * ConnectionState)) (k : Z) : Prop :=
  mkToldRight {
    right_twice : forall id, never_twice (told_to id told);
    right_last : forall id last', ls !! id = Some last' -> last (told_to id told) = last';
    right_new : forall id, k <= id -> told_to id told = []
  }.

Lemma told_right_delete ls told k id : told_right ls told k -> told_right (delete id ls) told k.
Proof.
  intros [Ht Hl Hn]. split; [done| |done].
  intros j l' Hj. apply lookup_delete_Some in Hj as [_ Hj]. eauto.
Qed.
Lemma told_right_register ls told k : told_right ls told k -> told_right (<[k := None]> ls) told (k + 1).
Proof.
  intros [Ht Hl Hn]. split; [done| |intros id Hid; apply Hn; lia].
  intros id l' [[<- <-]|[_ Hid]]%lookup_insert_Some; [by rewrite Hn by lia|eauto].
Qed.
Lemma told_right_tell ls told k id l state :
  told_right ls told k -> ls !! id = Some l -> id < k ->
  told_right (<[id := Some state]> ls) (told ++ (if decide (l = Some state) then [] else [(id, state)])) k.
Proof.
  intros [Ht Hl Hn] Hid Hk. destruct (decide (l = Some state)) as [->|Hne].
  - rewrite app_nil_r, insert_id by done. done.
  - split.
    + intros j. rewrite told_to_app, told_to_one. destruct (decide (id = j)) as [<-|]; [|by rewrite app_nil_r].
      apply never_twice_snoc; [done|]. by rewrite (Hl _ _ Hid).
    + intros j l' Hj. rewrite told_to_app, told_to_one.
      apply lookup_insert_Some in Hj as [[<- <-]|[Hj Hj']].
      * rewrite decide_True by done. apply last_snoc.
      * rewrite decide_False, app_nil_r by done. eauto.
    + intros j Hj. rewrite told_to_app, told_to_one, decide_False by lia. by rewrite app_nil_r, Hn.
Qed.

(** ** The operations, in closed form *)

Definition set_last (state : ConnectionState) (ob : connectionStateObserver) : connectionStateObserver :=
  mkObserver (obs_attached ob) (Some state) (obs_attaching ob).
Definition news (last' : option ConnectionState) (id : Z) (state : ConnectionState) : list (Z * ConnectionState) :=
  if decide (last' = Some state) then [] else [(id, state)].

Lemma forward_eq id state o ob :
  os_map o !! id = Some ob ->
  forwardConnectionState id state o =
  mkObservers (<[id := set_last state ob]> (os_map o)) (os_next o) (os_realtime o) (os_boxes o)
    (os_nextRealtime o) (os_told o ++ news (obs_last ob) id state).
Proof.
  intros Hid. unfold forwardConnectionState, news, set_last. rewrite Hid.
  destruct (decide (obs_last ob = Some state)) as [E|]; [|done].
  rewrite app_nil_r, insert_id; [by destruct o|]. rewrite Hid. destruct ob; cbn in *. by subst.
Qed.
Lemma forward_none id state o : os_map o !! id = None -> forwardConnectionState id state o = o.
Proof. intros Hid. unfold forwardConnectionState. by rewrite Hid. Qed.

Lemma attach_eq id n o last' box :
  os_map o !! id = Some (mkObserver None last' false) -> os_boxes o !! n = Some box ->
  let sub := nextConnectionStateSubscriberID box in
  attachConnectionStateObserver id n o =
  mkObservers (<[id := mkObserver (Some (n, sub)) (Some (connectionState box)) false]> (os_map o)) (os_next o)
    (os_realtime o)
    (<[n := mkStateBox (connectionState box) (<[sub := Z.to_nat id]> (connectionStateSubscribers box)) (u64 (sub + 1))]>
       (os_boxes o))
    (os_nextRealtime o) (os_told o ++ news last' id (connectionState box)).
Proof.
  intros Hid Hbox. cbv zeta. unfold attachConnectionStateObserver, attach_begin. rewrite Hid.
  unfold attach_manager. cbn [os_boxes put_map]. rewrite Hbox. cbn [SubscribeToConnectionState].
  erewrite forward_eq by (cbn; apply lookup_insert_eq). unfold attach_end. cbn.
  rewrite lookup_insert_eq. cbn. unfold put_map. cbn. by rewrite !insert_insert_eq.
Qed.

(** ** The invariant *)

(** The facade's own data. *)
Record sound (o : observers) : Prop := mkSound {
  sound_ids : forall id ob, os_map o !! id = Some ob -> 0 <= id < os_next o;
  sound_size : Z.of_nat (size (os_map o)) <= os_next o;
  sound_told : told_right (lasts o) (os_told o) (os_next o)
}.

(** Every observer but those of [waiting] is a subscriber of the manager of [n], once, and
    was told its state; the manager has no other subscribers. *)
Record linked (waiting : list Z) (n : Z) (box : StateBox) (o : observers) : Prop := mkLinked {
  linked_box : os_boxes o !! n = Some box;
  linked_room : 0 <= nextConnectionStateSubscriberID box /\
                nextConnectionStateSubscriberID box + Z.of_nat (length waiting) <= os_next o;
  linked_sub : forall s cb, connectionStateSubscribers box !! s = Some cb ->
    s < nextConnectionStateSubscriberID box /\
    exists ob, os_map o !! Z.of_nat cb = Some ob /\ obs_attached ob = Some (n, s);
  linked_ob : forall id ob, os_map o !! id = Some ob ->
    obs_attaching ob = false /\
    if decide (id ∈ waiting) then obs_attached ob = None
    else exists s, obs_attached ob = Some (n, s) /\ connectionStateSubscribers box !! s = Some (Z.to_nat id) /\
                   obs_last ob = Some (connectionState box)
}.

Definition idle (ob : connectionStateObserver) : Prop :=
  obs_attached ob = None /\ obs_attaching ob = false /\
  exists state, obs_last ob = Some state /\ cs_Phase state = ConnectionPhaseDisconnected.

Record following (o : observers) : Prop := mkFollowing {
  following_sound : sound o;
  following_live :
    match os_realtime o with
    | Some n => exists box, linked [] n box o
    | None => forall id ob, os_map o !! id = Some ob -> idle ob
    end
}.

Lemma lasts_insert id ob o ms : ms = os_map o ->
  obs_last <$> <[id := ob]> ms = <[id := obs_last ob]> (lasts o).
Proof. intros ->. apply fmap_insert. Qed.
Lemma lasts_lookup id ob o : os_map o !! id = Some ob -> lasts o !! id = Some (obs_last ob).
Proof. intros Hid. unfold lasts. by rewrite lookup_fmap, Hid. Qed.

Lemma size_update {A : Type} (m : gmap Z A) id x y : m !! id = Some x -> size (<[id := y]> m) = size m.
Proof. intros Hid. rewrite map_size_insert. by rewrite Hid. Qed.

(** Telling one observer keeps the facade's data sound, whatever happens to its
    attachment. *)
Lemma tell_sound id ob ob' state o next' rt bs k :
  sound o -> os_map o !! id = Some ob -> obs_last ob' = Some state -> next' = os_next o ->
  sound (mkObservers (<[id := ob']> (os_map o)) next' rt bs k (os_told o ++ news (obs_last ob) id state)).
Proof.
  intros [Hids Hsize Htold] Hid Hlast ->. split; cbn.
  - intros j x [[<- <-]|[_ Hj]]%lookup_insert_Some; eauto.
  - by rewrite (size_update _ _ _ _ Hid).
  - unfold lasts. cbn. rewrite (lasts_insert id ob' o) by done. rewrite Hlast.
    apply told_right_tell; [done|by apply lasts_lookup|]. apply (Hids _ _ Hid).
Qed.

Lemma attach_linked id W n box o :
  sound o -> os_next o < 2 ^ 64 -> linked (id :: W) n box o -> id ∉ W -> is_Some (os_map o !! id) ->
  let o' := attachConnectionStateObserver id n o in
  sound o' /\ os_next o' = os_next o /\ os_realtime o' = os_realtime o /\ dom (os_map o') = dom (os_map o) /\
  exists box', linked W n box' o'.
Proof.
  intros Ho Hmax [Hbox [Hr1 Hr2] Hsub Hob] HW [ob Hid]. cbn [length] in Hr2.
  destruct (Hob _ _ Hid) as [Hatt Hnone]. rewrite decide_True in Hnone by left.
  destruct ob as [att last' atg]. cbn in Hatt, Hnone. subst.
  cbv zeta. rewrite (attach_eq _ _ _ _ _ Hid Hbox). cbn.
  split; [exact (tell_sound id _ (mkObserver _ _ false) (connectionState box) o _ _ _ _ Ho Hid eq_refl eq_refl)|].
  split_and!; [done|done|by apply dom_insert_lookup_L; rewrite Hid|].
  eexists. split; cbn.
  - apply lookup_insert_eq.
  - cbn. unfold u64. rewrite wrap_small by lia. lia.
  - cbn. unfold u64. rewrite wrap_small by lia.
    intros s cb [[<- <-]|[Hs Hcb]]%lookup_insert_Some.
    + split; [lia|]. eexists. rewrite Z2Nat.id by apply (sound_ids _ Ho _ _ Hid). split; [apply lookup_insert_eq|done].
    + destruct (Hsub _ _ Hcb) as (Hlt & ob & Hob' & Hatt'). split; [lia|].
      exists ob. rewrite lookup_insert_ne; [done|]. intros ->. rewrite Hid in Hob'. by injection Hob' as <-.
  - cbn. intros j ob [[<- <-]|[Hj Hjob]]%lookup_insert_Some.
    + split; [done|]. rewrite decide_False by done. eexists. split_and!; [done|apply lookup_insert_eq|done].
    + destruct (Hob _ _ Hjob) as [Ha Hb]. split; [done|].
      destruct (decide (j ∈ W)) as [HjW|HjW]; [by rewrite decide_True in Hb by (by right)|].
      rewrite decide_False in Hb by (by rewrite elem_of_cons; intros [?|?]).
      destruct Hb as (s & Hs1 & Hs2 & Hs3). exists s. split_and!; [done| |done].
      rewrite lookup_insert_ne; [done|]. destruct (Hsub _ _ Hs2). lia.
Qed.

Lemma attach_all_linked W n : forall box o,
  sound o -> os_next o < 2 ^ 64 -> linked W n box o -> NoDup W -> (forall id, id ∈ W -> id ∈ dom (os_map o)) ->
  let o' := fold_left (fun o id => attachConnectionStateObserver id n o) W o in
  sound o' /\ os_next o' = os_next o /\ os_realtime o' = os_realtime o /\ exists box', linked [] n box' o'.
Proof.
  induction W as [|id W IH]; intros box o Ho Hmax Hl Hnd Hdom; [by eauto|].
  apply NoDup_cons in Hnd as [HW Hnd]. cbn [fold_left].
  assert (Hid : id ∈ dom (os_map o)) by (apply Hdom; by left). apply elem_of_dom in Hid.
  destruct (attach_linked id W n box o Ho Hmax Hl HW Hid) as (Ho' & Hn & Hrt & Hd & box' & Hl').
  rewrite <- Hn, <- Hrt. apply (IH box'); [done|lia|done|done|].
  intros j Hj. rewrite Hd. apply Hdom. by right.
Qed.

(** A round of calls with one state. *)
Definition tell_all (state : ConnectionState) (cbs : list nat) (o : observers) : observers :=
  fold_left (fun o call => forwardConnectionState (Z.of_nat (fst call)) (snd call) o)
    (map (fun cb => (cb, state)) cbs) o.

Lemma forward_sound id state o : sound o -> sound (forwardConnectionState id state o).
Proof.
  intros Ho. destruct (os_map o !! id) as [ob|] eqn:Hid; [|by rewrite forward_none].
  rewrite (forward_eq _ _ _ _ Hid). by apply tell_sound with (state := state).
Qed.
Lemma forward_frame id state o :
  let o' := forwardConnectionState id state o in
  os_next o' = os_next o /\ os_realtime o' = os_realtime o /\ os_boxes o' = os_boxes o.
Proof. unfold forwardConnectionState. repeat case_match; done. Qed.
Lemma forward_map id state o j :
  os_map (forwardConnectionState id state o) !! j =
  (if decide (j = id) then set_last state else (fun ob => ob)) <$> os_map o !! j.
Proof.
  destruct (os_map o !! id) as [ob|] eqn:Hid.
  - rewrite (forward_eq _ _ _ _ Hid). cbn. destruct (decide (j = id)) as [->|Hj].
    + by rewrite lookup_insert_eq, Hid.
    + rewrite lookup_insert_ne by done. by rewrite option_fmap_id.
  - rewrite (forward_none _ _ _ Hid). destruct (decide (j = id)) as [->|Hj]; [by rewrite Hid|by rewrite option_fmap_id].
Qed.

Lemma set_last_twice state ob : set_last state (set_last state ob) = set_last state ob.
Proof. done. Qed.

Lemma tell_all_spec state cbs : forall o, sound o ->
  let o' := tell_all state cbs o in
  sound o' /\ os_next o' = os_next o /\ os_realtime o' = os_realtime o /\ os_boxes o' = os_boxes o /\
  forall j, os_map o' !! j =
            (if decide (j ∈ map Z.of_nat cbs) then set_last state else (fun ob => ob)) <$> os_map o !! j.
Proof.
  induction cbs as [|cb cbs IH]; intros o Ho.
  { split_and!; try done. intros j. cbn. by rewrite option_fmap_id. }
  destruct (forward_frame (Z.of_nat cb) state o) as (Hn & Hrt & Hb).
  destruct (IH (forwardConnectionState (Z.of_nat cb) state o)) as (Ho' & Hn' & Hrt' & Hb' & Hm).
  { by apply forward_sound. }
  unfold tell_all. cbn [map fold_left fst snd]. fold (tell_all state cbs (forwardConnectionState (Z.of_nat cb) state o)).
  split_and!; [done|congruence|congruence|congruence|].
  intros j. rewrite Hm, forward_map. destruct (os_map o !! j) as [ob|]; [|done].
  cbn [fmap option_fmap option_map map]. f_equal.
  destruct (decide (j = Z.of_nat cb)) as [->|Hj].
  - rewrite (decide_True (P := Z.of_nat cb ∈ _ :: _)) by left. by destruct (decide _).
  - destruct (decide (j ∈ map Z.of_nat cbs)) as [Hin|Hin].
    + by rewrite decide_True by (by right).
    + by rewrite decide_False by (rewrite elem_of_cons; tauto).
Qed.

(** ** A change of the manager's state *)

Lemma update_cases change now box :
  let update := updateConnectionState change now box in
  update = (box, []) \/
  exists next,
    update = (mkStateBox next (connectionStateSubscribers box) (nextConnectionStateSubscriberID box),
              map (fun cb => (cb, next)) (map snd (map_to_list (connectionStateSubscribers box)))).
Proof.
  cbv zeta. unfold updateConnectionState. destruct (connectionStateEqual _ _); [by left|].
  right. eexists. by rewrite map_map.
Qed.

Lemma change_linked change now n box o :
  sound o -> linked [] n box o ->
  let o' := realtime_change n (updateConnectionState change now) o in
  sound o' /\ os_next o' = os_next o /\ os_realtime o' = os_realtime o /\
  linked [] n (fst (updateConnectionState change now box)) o'.
Proof.
  intros Ho Hl. pose proof Hl as [Hbox Hroom Hsub Hob]. cbv zeta. unfold realtime_change. rewrite Hbox.
  destruct (update_cases change now box) as [E|[next E]]; rewrite E; cbn [fst].
  - cbn. destruct o as [ms k rt bs nr told]. cbn in *. unfold put_boxes. cbn.
    rewrite insert_id by done. done.
  - set (cbs := map snd _). change (fold_left _ _ ?o) with (tell_all next cbs o).
    match goal with |- context [tell_all next cbs ?x] => set (o1 := x) end.
    assert (Ho1 : sound o1) by (by destruct Ho; split).
    destruct (tell_all_spec next cbs o1 Ho1) as (Ho' & Hn & Hrt & Hb & Hm).
    split_and!; [done|by rewrite Hn|by rewrite Hrt|]. split; cbn.
    + rewrite Hb. apply lookup_insert_eq.
    + by rewrite Hn.
    + intros s cb Hcb. destruct (Hsub _ _ Hcb) as (Hlt & ob & Hin & Hatt). split; [done|].
      rewrite Hm. cbn. rewrite Hin. eexists. split; [done|]. by destruct (decide _).
    + intros id ob. rewrite Hm. cbn. intros (ob0 & Hin & ->)%fmap_Some.
      destruct (Hob _ _ Hin) as [Ha Hs]. rewrite decide_False in Hs by apply not_elem_of_nil.
      destruct Hs as (s & Hs1 & Hs2 & Hs3).
      rewrite decide_True.
      * split; [done|]. rewrite decide_False by apply not_elem_of_nil. by exists s.
      * rewrite <- (Z2Nat.id id) by apply (sound_ids _ Ho _ _ Hin).
        apply list_elem_of_fmap_2. apply (list_elem_of_fmap_2 snd _ (s, Z.to_nat id)). by apply elem_of_map_to_list.
Qed.

Lemma disconnected_phase now box :
  cs_Phase (connectionState (fst (markDisconnected now box))) = ConnectionPhaseDisconnected.
Proof.
  unfold markDisconnected, updateConnectionState. cbn [cs_Phase]. rewrite decide_False by done.
  destruct (connectionStateEqual _ _) eqn:E; [|done].
  unfold connectionStateEqual in E. repeat apply andb_prop in E as [E _]. by apply bool_decide_eq_true in E.
Qed.

(** ** The operations keep the invariant *)

(** What an operation has to show: [k] more ids may have been given out. *)
Definition keeps (o o' : observers) : Prop := following o' /\ os_next o <= os_next o' <= os_next o + 1.

Lemma put_realtime_sound rt o : sound o -> sound (put_realtime rt o).
Proof. by intros [? ? ?]. Qed.
Lemma put_boxes_sound bs o : sound o -> sound (put_boxes bs o).
Proof. by intros [? ? ?]. Qed.
Lemma detach_sound attached o : sound o -> sound (detach attached o).
Proof. destruct attached as [[n s]|]; [apply put_boxes_sound|done]. Qed.

Lemma unregistered o : sound o -> os_map o !! os_next o = None.
Proof.
  intros Ho. destruct (os_map o !! os_next o) eqn:E; [|done].
  apply (sound_ids _ Ho) in E. lia.
Qed.

Lemma register_sound o :
  sound o -> os_next o + 1 < 2 ^ 64 -> sound (fst (subscribe_register o)).
Proof.
  intros Ho Hmax. pose proof (unregistered _ Ho) as Hnew. destruct Ho as [Hids Hsize Htold].
  assert (0 <= os_next o) by lia.
  unfold subscribe_register, u64. rewrite wrap_small by lia.
  split; cbn.
  - intros id ob [[<- <-]|[_ Hid]]%lookup_insert_Some; [lia|]. specialize (Hids _ _ Hid). lia.
  - rewrite map_size_insert_None by done. lia.
  - unfold lasts. cbn. rewrite (lasts_insert _ _ o) by done. by apply told_right_register.
Qed.

Lemma forward_linked_waiting id W n box state o :
  linked W n box o -> id ∈ W -> linked W n box (forwardConnectionState id state o).
Proof.
  intros [Hbox Hroom Hsub Hob] HW. destruct (forward_frame id state o) as (Hn & _ & Hb).
  split; [by rewrite Hb|by rewrite Hn| |].
  - intros s cb Hcb. destruct (Hsub _ _ Hcb) as (Hlt & ob & Hin & Hatt). split; [done|].
    rewrite forward_map, Hin. eexists. split; [done|]. by destruct (decide _).
  - intros j ob. rewrite forward_map. intros (ob0 & Hin & ->)%fmap_Some.
    destruct (Hob _ _ Hin) as [Ha Hs]. destruct (decide (j = id)) as [->|Hj]; [|done].
    split; [done|]. by rewrite decide_True in Hs |- *.
Qed.

Lemma register_linked n box o :
  sound o -> os_next o + 1 < 2 ^ 64 -> linked [] n box o ->
  linked [os_next o] n box (fst (subscribe_register o)).
Proof.
  intros Ho Hmax [Hbox Hroom Hsub Hob]. pose proof (sound_size _ Ho) as Hs. cbn in Hroom.
  unfold subscribe_register, u64. rewrite wrap_small by lia. split; cbn; [done|lia| |].
  - intros s cb Hcb. destruct (Hsub _ _ Hcb) as (Hlt & ob & Hin & Hatt). split; [done|].
    exists ob. split; [|done]. rewrite lookup_insert_ne; [done|]. apply (sound_ids _ Ho) in Hin. lia.
  - intros id ob [[<- <-]|[Hne Hin]]%lookup_insert_Some; [by rewrite decide_True by left|].
    destruct (Hob _ _ Hin) as [Ha Hb]. split; [done|].
    rewrite decide_False in Hb by apply not_elem_of_nil.
    rewrite decide_False; [done|]. intros ->%list_elem_of_singleton. done.
Qed.

Lemma subscribe_keeps o :
  following o -> os_next o + 1 < 2 ^ 64 -> keeps o (fst (Client_SubscribeToConnectionState o)).
Proof.
  intros [Ho Hlive] Hmax. pose proof (sound_size _ Ho) as Hs.
  pose proof (register_sound _ Ho Hmax) as Ho1.
  assert (Hn1 : os_next (fst (subscribe_register o)) = os_next o + 1).
  { unfold subscribe_register, u64. by rewrite wrap_small by lia. }
  unfold Client_SubscribeToConnectionState. destruct (subscribe_register o) as [o1 [id rt]] eqn:Hr.
  assert (id = os_next o /\ rt = os_realtime o /\ os_realtime o1 = os_realtime o /\
          os_map o1 = <[id := mkObserver None None false]> (os_map o)) as (-> & -> & Hrt & Hm1)
    by (by injection Hr as <- <- <-).
  cbn [fst] in *. unfold subscribe_finish.
  set (state := Client_ConnectionState o1). set (o2 := forwardConnectionState _ state o1).
  assert (Ho2 : sound o2) by by apply forward_sound.
  destruct (forward_frame (os_next o) state o1) as (Hn2 & Hrt2 & _). fold o2 in Hn2, Hrt2.
  destruct (os_realtime o) as [n|] eqn:Hrt0.
  - destruct Hlive as [box Hl]. pose proof (register_linked _ _ _ Ho Hmax Hl) as Hl1. rewrite Hr in Hl1.
    destruct (attach_linked (os_next o) [] n box o2) as (Ho3 & Hn3 & Hrt3 & _ & box' & Hl3);
      [done|lia| |apply not_elem_of_nil| |].
    { apply forward_linked_waiting; [done|by left]. }
    { unfold o2. rewrite forward_map, Hm1, lookup_insert_eq. by eexists. }
    split; [|lia]. split; [done|]. rewrite Hrt3, Hrt2, Hrt. by exists box'.
  - split; [|lia]. split; [done|]. rewrite Hrt2, Hrt. intros id ob. unfold o2. rewrite forward_map, Hm1.
    intros (ob0 & [[<- <-]|[Hne Hin]]%lookup_insert_Some & ->)%fmap_Some.
    + rewrite decide_True by done. split_and!; [done|done|]. eexists. split; [done|].
      unfold state, Client_ConnectionState. by rewrite Hrt.
    + rewrite decide_False by congruence. eauto.
Qed.

Lemma delete_sound id o : sound o -> sound (put_map (delete id (os_map o)) o).
Proof.
  intros [Hids Hsize Htold]. split; cbn.
  - intros j ob [_ Hj]%lookup_delete_Some. eauto.
  - pose proof (map_subseteq_size _ _ (delete_subseteq (os_map o) id)). lia.
  - unfold lasts. cbn. rewrite fmap_delete. by apply told_right_delete.
Qed.

Lemma unsubscribe_keeps id o : following o -> keeps o (unsubscribeObserver id o).
Proof.
  intros [Ho Hlive]. unfold unsubscribeObserver.
  destruct (os_map o !! id) as [ob|] eqn:Hid; [|by split; [split|lia]].
  assert (Hs : sound (detach (obs_attached ob) (put_map (delete id (os_map o)) o)))
    by by apply detach_sound, delete_sound.
  destruct (os_realtime o) as [n|] eqn:Hrt.
  - destruct Hlive as [box [Hbox Hroom Hsub Hob]].
    destruct (Hob _ _ Hid) as [Ha Hb]. rewrite decide_False in Hb by apply not_elem_of_nil.
    destruct Hb as (s & Hs1 & Hs2 & Hs3). rewrite Hs1 in Hs |- *. cbn [detach] in Hs |- *.
    split; [|cbn; lia]. split; [done|]. cbn. rewrite Hrt. exists (forgetSubscriber s box). split; cbn.
    + by rewrite lookup_alter_eq, Hbox.
    + done.
    + intros s' cb [Hne Hcb]%lookup_delete_Some. destruct (Hsub _ _ Hcb) as (Hlt & ob' & Hin & Hatt).
      split; [done|]. exists ob'. rewrite lookup_delete_ne; [done|]. intros ->. congruence.
    + intros j ob' [Hne Hin]%lookup_delete_Some. destruct (Hob _ _ Hin) as [Ha' Hb'].
      split; [done|]. rewrite decide_False in Hb' |- * by apply not_elem_of_nil.
      destruct Hb' as (s' & Hs1' & Hs2' & Hs3'). exists s'. split_and!; [done| |done].
      rewrite lookup_delete_ne; [done|]. intros ->.
      pose proof (sound_ids _ Ho _ _ Hid). pose proof (sound_ids _ Ho _ _ Hin).
      rewrite Hs2 in Hs2'. injection Hs2' as E. lia.
  - destruct (Hlive _ _ Hid) as (Hatt & _ & _). rewrite Hatt in Hs |- *. cbn [detach] in Hs |- *.
    split; [|cbn; lia]. split; [done|]. cbn. rewrite Hrt. intros j ob' [_ Hin]%lookup_delete_Some. eauto.
Qed.

Lemma install_keeps state o :
  following o -> os_next o < 2 ^ 64 -> keeps o (install_realtime state o).
Proof.
  intros [Ho Hlive] Hmax. unfold install_realtime.
  destruct (os_realtime o) as [n|] eqn:Hrt; [by split; [split; [|rewrite Hrt]|lia]|].
  set (n := os_nextRealtime o). match goal with |- context [attachConnectionStateObservers n ?x] => set (o1 := x) end.
  assert (Ho1 : sound o1) by (by destruct Ho; split).
  unfold attachConnectionStateObservers.
  rewrite map_filter_id by (intros id ob Hid; cbn; by destruct (Hlive _ _ Hid) as (? & ? & _)).
  set (W := map fst (map_to_list (os_map o1))).
  assert (Hin : forall id, id ∈ W <-> is_Some (os_map o1 !! id)).
  { intros id. unfold W. rewrite list_elem_of_fmap. split.
    - intros ([j ob] & -> & Hj%elem_of_map_to_list). by eexists.
    - intros [ob Hob]. exists (id, ob). by rewrite elem_of_map_to_list. }
  destruct (attach_all_linked W n (mkStateBox state ∅ 0) o1) as (Ho2 & Hn2 & Hrt2 & box' & Hl).
  - done.
  - done.
  - split; cbn.
    + apply lookup_insert_eq.
    + pose proof (sound_size _ Ho). unfold W. rewrite length_map, length_map_to_list. cbn. lia.
    + intros s cb. by rewrite lookup_empty.
    + intros id ob Hid. destruct (Hlive _ _ Hid) as (Hatt & Hatg & _). split; [done|].
      rewrite decide_True; [done|]. apply Hin. by eexists.
  - apply NoDup_fst_map_to_list.
  - intros id Hid%Hin. by apply elem_of_dom.
  - split; [|rewrite Hn2; cbn; lia]. split; [done|]. rewrite Hrt2. by exists box'.
Qed.

Lemma clear_sound o : sound o -> sound (clearConnectionStateObserverAttachments o).
Proof.
  intros [Hids Hsize Htold]. unfold clearConnectionStateObserverAttachments. split; cbn.
  - intros id ob. rewrite lookup_fmap. intros (ob0 & Hid & _)%fmap_Some. eauto.
  - by rewrite map_size_fmap.
  - unfold lasts in *. cbn. by rewrite <- map_fmap_compose.
Qed.

Lemma close_keeps now o : following o -> keeps o (close_realtime now o).
Proof.
  intros [Ho Hlive]. unfold close_realtime.
  destruct (os_realtime o) as [n|] eqn:Hrt; [|by split; [split; [|rewrite Hrt]|lia]].
  destruct Hlive as [box Hl].
  assert (Hl1 : linked [] n box (put_realtime None o)) by (by destruct Hl; split).
  unfold markDisconnected.
  destruct (change_linked (fun s => mkConnectionState ConnectionPhaseDisconnected (cs_HasEverConnected s)
      (cs_ConnectionCount s) (cs_ConnectionRetries s) (cs_LastChange s)) now n box (put_realtime None o)
      (put_realtime_sound _ _ Ho) Hl1) as (Ho2 & Hn2 & Hrt2 & Hl2).
  split; [|cbn; cbn in Hn2; lia]. split; [by apply clear_sound|]. cbn. rewrite Hrt2. cbn.
  intros id ob. rewrite lookup_fmap. intros (ob0 & Hid & ->)%fmap_Some.
  destruct (linked_ob _ _ _ _ Hl2 _ _ Hid) as [_ Hb]. rewrite decide_False in Hb by apply not_elem_of_nil.
  destruct Hb as (s & _ & _ & Hlast). split_and!; [done|done|]. eexists. split; [exact Hlast|].
  apply disconnected_phase.
Qed.

Lemma observe_keeps b o : following o -> os_next o + 1 < 2 ^ 64 -> keeps o (observe b o).
Proof.
  intros Ho Hmax. destruct b as [|id|state|change now|now]; cbn [observe].
  - by apply subscribe_keeps.
  - by apply unsubscribe_keeps.
  - apply install_keeps; [done|lia].
  - destruct (os_realtime o) as [n|] eqn:Hrt; [|by split; [|lia]].
    destruct Ho as [Ho Hlive]. rewrite Hrt in Hlive. destruct Hlive as [box Hl].
    destruct (change_linked change now n box o Ho Hl) as (Ho' & Hn & Hrt' & Hl').
    split; [|lia]. split; [done|]. rewrite Hrt', Hrt. by eexists.
  - by apply close_keeps.
Qed.

Lemma new_following : following newObservers.
Proof.
  split; [split; cbn|cbn].
  - intros id ob. by rewrite lookup_empty.
  - by rewrite map_size_empty.
  - split; [intros id; apply never_twice_nil|intros id l; unfold lasts; cbn; by rewrite fmap_empty, lookup_empty|done].
  - intros id ob. by rewrite lookup_empty.
Qed.

Lemma history_following ops : forall o,
  following o -> os_next o + Z.of_nat (length ops) < 2 ^ 64 ->
  let o' := fold_left (fun o b => observe b o) ops o in
  following o' /\ os_next o' <= os_next o + Z.of_nat (length ops).
Proof.
  induction ops as [|b ops IH]; intros o Ho Hmax; cbn [fold_left length] in *; [split; [done|lia]|].
  destruct (observe_keeps b o Ho) as [Ho' Hn]; [lia|]. destruct (IH _ Ho'); [lia|]. split; [done|lia].
Qed.

(** ** Observers that have unsubscribed *)

Definition quiet (id : Z) (o o' : observers) : Prop :=
  os_map o !! id = None -> os_map o' !! id = None /\ told_to id (os_told o') = told_to id (os_told o).

Lemma quiet_refl id o : quiet id o o.
Proof. by intros ?. Qed.
Lemma quiet_trans id o1 o2 o3 : quiet id o1 o2 -> quiet id o2 o3 -> quiet id o1 o3.
Proof. intros H1 H2 [Hm Ht]%H1. destruct (H2 Hm) as [Hm' Ht']. split; congruence. Qed.
Lemma quiet_fold {A : Type} (f : observers -> A -> observers) id l : forall o,
  (forall o a, quiet id o (f o a)) -> quiet id o (fold_left f l o).
Proof.
  induction l as [|a l IH]; intros o Hf; [apply quiet_refl|].
  eapply quiet_trans; [apply Hf|by apply IH].
Qed.
Lemma quiet_forward id j state o : quiet id o (forwardConnectionState j state o).
Proof.
  intros Hid. destruct (os_map o !! j) as [ob|] eqn:Hj; [|by rewrite forward_none].
  rewrite forward_map, Hid. split; [by destruct (decide _)|].
  rewrite (forward_eq _ _ _ _ Hj). cbn [os_told]. unfold news. rewrite told_to_app.
  destruct (decide _); [by rewrite app_nil_r|].
  rewrite told_to_one, decide_False by congruence. by rewrite app_nil_r.
Qed.
Lemma quiet_detach id attached o : quiet id o (detach attached o).
Proof. by destruct attached as [[n s]|]. Qed.
Lemma quiet_put_map id ob j o : is_Some (os_map o !! j) -> quiet id o (put_map (<[j := ob]> (os_map o)) o).
Proof.
  intros [x Hj] Hid. split; [|done]. cbn. rewrite lookup_insert_ne; congruence.
Qed.
Lemma quiet_attach id j n o : quiet id o (attachConnectionStateObserver j n o).
Proof.
  unfold attachConnectionStateObserver, attach_begin.
  destruct (os_map o !! j) as [[[att|] last' [|]]|] eqn:Hj; try apply quiet_refl.
  eapply quiet_trans; [apply (quiet_put_map id (mkObserver None last' true) j); by eexists|].
  set (o1 := put_map _ o). destruct (attach_manager j n o1) as [o2 sub] eqn:Hm.
  assert (H2 : quiet id o1 o2).
  { unfold attach_manager in Hm. destruct (os_boxes o1 !! n) as [box|].
    - cbn [SubscribeToConnectionState] in Hm. injection Hm as <- <-.
      match goal with |- quiet _ _ (forwardConnectionState _ _ ?x) => apply (quiet_trans _ _ x) end;
        [done|apply quiet_forward].
    - injection Hm as <- <-. apply quiet_refl. }
  eapply quiet_trans; [exact H2|]. unfold attach_end.
  destruct (os_map o2 !! j) as [[[att|] l atg]|] eqn:Hj2; [| |apply quiet_detach].
  - eapply quiet_trans; [apply quiet_put_map; by eexists|].
    eapply quiet_trans; apply quiet_detach.
  - apply quiet_put_map. by eexists.
Qed.
Lemma quiet_change id n change o : quiet id o (realtime_change n change o).
Proof.
  unfold realtime_change. destruct (os_boxes o !! n) as [box|]; [|apply quiet_refl].
  destruct (change box) as [box' calls]. apply (quiet_trans _ _ (put_boxes (<[n := box']> (os_boxes o)) o)); [done|].
  apply quiet_fold. intros ? ?. apply quiet_forward.
Qed.

Lemma observe_op_quiet id b o : id < os_next o -> quiet id o (observe b o).
Proof.
  intros Hid. destruct b as [|j|state|change now|now]; cbn [observe].
  - unfold Client_SubscribeToConnectionState.
    destruct (subscribe_register o) as [o1 [j rt]] eqn:Hr. injection Hr as <- <- <-. cbn [fst].
    match goal with |- quiet _ _ (subscribe_finish _ _ ?x) => set (o1 := x) end.
    assert (quiet id o o1) by (intros Hnone; split; [|done]; cbn; rewrite lookup_insert_ne by lia; done).
    eapply quiet_trans; [done|]. unfold subscribe_finish.
    eapply quiet_trans; [apply quiet_forward|]. destruct (os_realtime o); [apply quiet_attach|apply quiet_refl].
  - unfold unsubscribeObserver. destruct (os_map o !! j) as [ob|]; [|apply quiet_refl].
    eapply quiet_trans; [|apply quiet_detach]. intros Hnone. split; [|done]. cbn.
    apply lookup_delete_None. by right.
  - unfold install_realtime. destruct (os_realtime o) as [n|]; [apply quiet_refl|].
    apply (quiet_trans _ _ (mkObservers (os_map o) (os_next o) (Some (os_nextRealtime o))
      (<[os_nextRealtime o := mkStateBox state ∅ 0]> (os_boxes o)) (os_nextRealtime o + 1) (os_told o))); [done|].
    apply quiet_fold. intros ? ?. apply quiet_attach.
  - destruct (os_realtime o); [apply quiet_change|apply quiet_refl].
  - unfold close_realtime. destruct (os_realtime o) as [n|]; [|apply quiet_refl].
    eapply (quiet_trans _ _ (put_realtime None o)); [done|].
    eapply quiet_trans; [apply quiet_change|]. intros Hnone. split; [|done]. cbn. by rewrite lookup_fmap, Hnone.
Qed.

Lemma history_quiet id ops : forall o,
  following o -> os_next o + Z.of_nat (length ops) < 2 ^ 64 -> id < os_next o ->
  quiet id o (fold_left (fun o b => observe b o) ops o).
Proof.
  induction ops as [|b ops IH]; intros o Ho Hmax Hid; [apply quiet_refl|]. cbn [length] in Hmax.
  destruct (observe_keeps b o Ho) as [Ho' Hn]; [lia|].
  eapply quiet_trans; [by apply observe_op_quiet|]. apply IH; [done|lia|lia].
Qed.

(** ** The properties *)

Definition history (ops : list observer_op) : observers := fold_left (fun o b => observe b o) ops newObservers.

Lemma linked_once n box o :
  sound o -> linked [] n box o ->
  map snd (map_to_list (connectionStateSubscribers box)) ≡ₚ map (fun kv => Z.to_nat (fst kv)) (map_to_list (os_map o)).
Proof.
  intros Ho [Hbox Hroom Hsub Hob]. apply NoDup_Permutation.
  - apply (NoDup_fmap_2_strong snd); [|apply NoDup_map_to_list].
    intros [s cb] [s' cb'] Hs%elem_of_map_to_list Hs'%elem_of_map_to_list. cbn. intros <-.
    destruct (Hsub _ _ Hs) as (_ & ob & H1 & H2), (Hsub _ _ Hs') as (_ & ob' & H1' & H2'). congruence.
  - apply (NoDup_fmap_2_strong (fun kv => Z.to_nat (fst kv))); [|apply NoDup_map_to_list].
    intros [i ob] [i' ob'] Hi%elem_of_map_to_list Hi'%elem_of_map_to_list. cbn. intros E.
    pose proof (sound_ids _ Ho _ _ Hi). pose proof (sound_ids _ Ho _ _ Hi').
    assert (i = i') as <- by lia. congruence.
  - intros cb. rewrite !list_elem_of_fmap. split.
    + intros ([s cb'] & -> & Hs%elem_of_map_to_list). destruct (Hsub _ _ Hs) as (_ & ob & Hin & _).
      exists (Z.of_nat cb', ob). cbn. rewrite Nat2Z.id. split; [done|]. by apply elem_of_map_to_list.
    + intros ([id ob] & -> & Hin%elem_of_map_to_list). destruct (Hob _ _ Hin) as [_ Hb].
      rewrite decide_False in Hb by apply not_elem_of_nil. destruct Hb as (s & _ & Hs & _).
      exists (s, Z.to_nat id). split; [done|]. by apply elem_of_map_to_list.
Qed.

(** C20. Whatever is subscribed, unsubscribed, connected and closed in a row:
    while there is a realtime client, every observer of the facade is
    subscribed to its manager exactly once and nobody else is, and the last
    state an observer was told is the state [ConnectionState] returns; without
    one the last state told is a disconnected one.  No observer is told the same
    state twice in a row. *)
Theorem observers_follow ops (Hmax : Z.of_nat (length ops) < 2 ^ 64) :
  let o := history ops in
  (forall id, is_Some (os_map o !! id) -> exists state,
     last (told_to id (os_told o)) = Some state /\
     match os_realtime o with
     | Some _ => state = Client_ConnectionState o
     | None => cs_Phase state = ConnectionPhaseDisconnected
     end) /\
  (forall n, os_realtime o = Some n -> exists box, os_boxes o !! n = Some box /\
     map snd (map_to_list (connectionStateSubscribers box))
       ≡ₚ map (fun kv => Z.to_nat (fst kv)) (map_to_list (os_map o))) /\
  forall id, never_twice (told_to id (os_told o)).
Proof.
  cbv zeta. destruct (history_following ops newObservers new_following) as [[Ho Hlive] _]; [cbn; lia|].
  fold (history ops) in Ho, Hlive. split_and!.
  - intros id [ob Hid]. destruct (os_realtime (history ops)) as [n|] eqn:Hrt.
    + destruct Hlive as [box [Hbox _ _ Hob]]. destruct (Hob _ _ Hid) as [_ Hb].
      rewrite decide_False in Hb by apply not_elem_of_nil. destruct Hb as (s & _ & _ & Hlast).
      exists (connectionState box). rewrite <- Hlast. split; [by apply (right_last _ _ _ (sound_told _ Ho)), lasts_lookup|].
      unfold Client_ConnectionState. rewrite Hrt. cbn. by rewrite Hbox.
    + destruct (Hlive _ _ Hid) as (_ & _ & state & Hlast & Hp). exists state. split; [|done].
      rewrite <- Hlast. by apply (right_last _ _ _ (sound_told _ Ho)), lasts_lookup.
  - intros n Hrt. rewrite Hrt in Hlive. destruct Hlive as [box Hl]. exists box.
    split; [apply Hl|by apply (linked_once n)].
  - intros id. apply (right_twice _ _ _ (sound_told _ Ho)).
Qed.

(** An observer that has unsubscribed is not called again. *)
Theorem unsubscribed_observer_silent ops id ops' :
  Z.of_nat (length ops + S (length ops')) < 2 ^ 64 -> id < os_next (history ops) ->
  told_to id (os_told (history (ops ++ BUnsubscribe id :: ops'))) = told_to id (os_told (history ops)).
Proof.
  intros Hmax Hid. unfold history at 1. rewrite fold_left_app. fold (history ops).
  cbn [fold_left observe].
  destruct (history_following ops newObservers new_following) as [Ho Hn]; [cbn; lia|].
  fold (history ops) in Ho, Hn. cbn [os_next newObservers] in Hn.
  destruct (unsubscribe_keeps id _ Ho) as [Ho' Hn'].
  assert (Hgone : os_map (unsubscribeObserver id (history ops)) !! id = None /\
                  os_told (unsubscribeObserver id (history ops)) = os_told (history ops)).
  { unfold unsubscribeObserver. destruct (os_map (history ops) !! id) as [ob|] eqn:E; [|done].
    destruct (obs_attached ob) as [[n s]|]; cbn; split; try done; apply lookup_delete_eq. }
  destruct Hgone as [Hgone Htold].
  destruct (history_quiet id ops' (unsubscribeObserver id (history ops))) as [_ Hq]; [done|lia|lia|done|].
  rewrite Hq. by rewrite Htold.
Qed.

Definition connecting : ConnectionState := mkConnectionState ConnectionPhaseConnecting false 0 0 0.
Definition connect (s : ConnectionState) : ConnectionState :=
  mkConnectionState ConnectionPhaseConnected true (cs_ConnectionCount s + 1) (cs_ConnectionRetries s) (cs_LastChange s).
Definition sample_history : list observer_op :=
  [BSubscribe; BInstall connecting; BSubscribe; BChange connect 7; BSubscribe; BUnsubscribe 0; BClose 9;
   BInstall connecting; BChange connect 11].

Lemma observers_follow_witness :
  let o := history sample_history in
  told_to 1 (os_told o) =
    [connecting; mkConnectionState "Connected" true 1 0 7; mkConnectionState "Disconnected" true 1 0 9; connecting;
     mkConnectionState "Connected" true 1 0 11] /\
  os_map o !! 0 = None /\
  exists state, last (told_to 1 (os_told o)) = Some state /\ state = Client_ConnectionState o.
Proof.
  split; [vm_compute; reflexivity|]. split; [vm_compute; reflexivity|].
  exact (proj1 (observers_follow sample_history ltac:(vm_compute; reflexivity)) 1
    ltac:(vm_compute; eexists; reflexivity)).
Defined.

(** ** An observer that is lost

    [SubscribeToConnectionState] reads the realtime client and leaves the lock; a
    [Close] before it attaches the observer finds nothing to detach.  The observer
    stays attached to the manager that is gone, and the next realtime client
    passes it over. *)
Lemma observer_lost_in_race :
  let o := history [BInstall connecting] in
  let '(o, (id, realtime)) := subscribe_register o in
  let o := observe (BClose 9) o in
  let o := subscribe_finish id realtime o in
  let o := observe (BChange connect 11) (observe (BInstall connecting) o) in
  cs_Phase (Client_ConnectionState o) = "Connected" /\
  (fun s => cs_Phase s) <$> last (told_to id (os_told o)) = Some "Disconnected".
Proof. vm_compute. split; reflexivity. Qed.
