(* ===== verification/FacadeCalls.v ===== *)
(** * The calls of the facade

    The methods of [client_facade.go] that pass a call on: to the HTTP client, or to the realtime client
    once [realtime] has made sure there is one; and where the requests they send go. *)
From S2P Require Import Prelude GoStrings GoJson Values Results GoEncode ClientState BaseClient SyncManager HttpClient HttpTheorems TypedRefs Addresses Facade.
Local Open Scope Z_scope.

(** ** Methods over HTTP *)

Section calls.
Context (Do : list http_request -> http_request -> result string http_response) (env : token_environment).

Definition DeploymentURL (f : Facade) : string := hc_address (fc_http f).
Definition Client_Query (f : Facade) := HTTPClient_Query Do env (fc_http f).
Definition Client_Mutation (f : Facade) := HTTPClient_Mutation Do env (fc_http f).
Definition Client_Action (f : Facade) := HTTPClient_Action Do env (fc_http f).
Definition Client_QueryValue (f : Facade) := QueryValue Do env (fc_http f).
Definition Client_MutationValue (f : Facade) := MutationValue Do env (fc_http f).
Definition Client_ActionValue (f : Facade) := ActionValue Do env (fc_http f).
Definition Client_QueryInto {R : Type} (f : Facade) := QueryInto (R := R) Do env (fc_http f).
Definition Client_MutationInto {R : Type} (f : Facade) := MutationInto (R := R) Do env (fc_http f).
Definition Client_ActionInto {R : Type} (f : Facade) := ActionInto (R := R) Do env (fc_http f).
Definition Client_Function (f : Facade) := HTTPClient_Function Do env (fc_http f).
Definition Client_FunctionValue (f : Facade) := FunctionValue Do env (fc_http f).
Definition Client_GetTimestamp (f : Facade) := GetTimestamp Do env (fc_http f).
Definition Client_QueryAtTimestamp (f : Facade) := QueryAtTimestamp Do env (fc_http f).
Definition Client_ConsistentQuery (f : Facade) := ConsistentQuery Do env (fc_http f).

(** A typed query takes the facade as well as the HTTP client. *)
#[export] Instance facade_query_client (f : Facade) : QueryClient sent_requests http_error := Client_QueryValue f.

(** The calls as data, and the requests sent after one. *)
Inductive facade_call : Type :=
  | FCQuery (path : string) (args : goval)
  | FCMutation (path : string) (args : goval)
  | FCAction (path : string) (args : goval)
  | FCFunction (path : string) (args : goval) (componentPath : string)
  | FCGetTimestamp
  | FCQueryAtTimestamp (path : string) (args : goval) (timestamp : string)
  | FCConsistentQuery (path : string) (args : goval).
Definition requests_of (m : facade_call) (f : Facade) (h : sent_requests) : sent_requests :=
  match m with
  | FCQuery path args => fst (Client_QueryValue f path args h)
  | FCMutation path args => fst (Client_MutationValue f path args h)
  | FCAction path args => fst (Client_ActionValue f path args h)
  | FCFunction path args componentPath => fst (Client_FunctionValue f path args componentPath h)
  | FCGetTimestamp => fst (Client_GetTimestamp f h)
  | FCQueryAtTimestamp path args timestamp => fst (Client_QueryAtTimestamp f path args timestamp h)
  | FCConsistentQuery path args => fst (Client_ConsistentQuery f path args h)
  end.

(** The methods that return Go values or decode into a target send what these do. *)
Lemma go_methods_send f path args h componentPath {R : Type} (out : option (json -> result string R)) :
  fst (Client_Query f path args h) = requests_of (FCQuery path args) f h /\
  fst (Client_Mutation f path args h) = requests_of (FCMutation path args) f h /\
  fst (Client_Action f path args h) = requests_of (FCAction path args) f h /\
  fst (Client_Function f path args componentPath h) = requests_of (FCFunction path args componentPath) f h /\
  fst (Client_QueryInto f path args out h) = requests_of (FCQuery path args) f h /\
  fst (Client_MutationInto f path args out h) = requests_of (FCMutation path args) f h /\
  fst (Client_ActionInto f path args out h) = requests_of (FCAction path args) f h.
Proof. done. Qed.

(** ** Methods over the realtime client *)

(** [Subscribe] of the realtime client, when no other call comes between: a subscription whose flush
    fails is taken back. *)
Definition realtime_Subscribe (path : string) (args : goval) (flushed : bool) (rt : realtime_client)
    : realtime_client * result facade_error SubscriberID :=
  if rt_over rt then (rt, Err RealtimeOver)
  else
    match Subscribe path args (rt_client rt) with
    | (c, Err e) => (mkRealtime c false, Err (RealtimeRefused e))
    | (c, Ok id) =>
        if flushed then (mkRealtime c false, Ok id)
        else (mkRealtime (fst (Unsubscribe id c)) false, Err RealtimeNotFlushed)
    end.
Definition realtime_WatchAll (rt : realtime_client) : realtime_client * result facade_error unit :=
  (rt, if rt_over rt then Err RealtimeOver else Ok ()).

(** [realtime] first, then the method of what it returns. *)
Definition with_realtime {A : Type} (act : realtime_client -> realtime_client * result facade_error A) (f : Facade)
    : Facade * option (result facade_error A) :=
  match Client_realtime env f with
  | (f, Err e) => (f, Some (Err e))
  | (f, Ok _) =>
      match fc_realtime f with
      | None => (f, None)
      | Some rt => let '(rt, r) := act rt in (fc_put_realtime (Some rt) f, Some r)
      end
  end.
Definition Client_Subscribe (path : string) (args : goval) (flushed : bool) := with_realtime (realtime_Subscribe path args flushed).
Definition Client_WatchAll := with_realtime realtime_WatchAll.
End calls.

(** [SetAuth] and its siblings without a context: the error of the flush is not reported. *)
Definition Client_SetAuth (token : string) (flushed : bool) (f : Facade) : Facade := fst (SetAuthContext token flushed f).
Definition Client_ClearAuth (flushed : bool) (f : Facade) : Facade := fst (ClearAuthContext flushed f).
Definition Client_SetAdminAuth := SetAdminAuthContext.
Definition Client_SetAuthCallback := SetAuthCallbackContext.

(** ** The fast path of [realtime]

    It looks for a realtime client outside the lock and reads it inside: [realtime_check] and
    [realtime_reuse], the client that is returned without an error, nil as [None]. *)
Definition realtime_check (f : Facade) : bool := bool_decide (is_Some (fc_realtime f)).
Definition realtime_reuse (f : Facade) : option realtime_client := fc_realtime f.

(** When nobody comes between, there is a client after [realtime] and so the methods do not meet nil. *)
Lemma with_realtime_some {A : Type} env (act : realtime_client -> realtime_client * result facade_error A) f :
  is_Some (snd (with_realtime env act f)).
Proof.
  unfold with_realtime, Client_realtime. destruct (fc_realtime f) as [rt|] eqn:E.
  - rewrite E. destruct (act rt). by eexists.
  - destruct (realtime_start _ _) as [rt|e]; [|by eexists]. unfold realtime_install. rewrite E. cbn.
    destruct (act rt). by eexists.
Qed.

(** A [Close] between the two, and [Subscribe] calls a method of nil. *)
Lemma realtime_nil_after_close f : realtime_check f = true -> realtime_reuse (Client_Close f) = None.
Proof. done. Qed.

(** ** Where requests go *)

(** A request to the deployment, with the header of the client's identity. *)
Definition to_deployment (env : token_environment) (c : HTTPClient) (req : http_request) : Prop :=
  rq_Method req = "POST" /\
  (exists endpoint, endpoint ∈ ["query"; "mutation"; "action"; "function"; "query_at_ts"; "query_ts"] /\
     rq_URL req = hc_address c +:+ "/api/" +:+ endpoint) /\
  exists force header, fst (authHeaderValue env force c) = Ok header /\
    rq_Header req !! "Authorization" = (if decide (header = "") then None else Some header).

(** What is sent after [h]. *)
Definition sends (P : http_request -> Prop) (h h' : sent_requests) : Prop := exists sent, h' = h ++ sent /\ Forall P sent.

#[export] Instance sends_preorder P : PreOrder (sends P).
Proof.
  split; [intros h; exists []; by rewrite app_nil_r|]. intros h1 h2 h3 (s & -> & Hs) (t & -> & Ht).
  exists (s ++ t). rewrite app_assoc. split; [done|]. by apply Forall_app.
Qed.

Section requests.
Context (Do : list http_request -> http_request -> result string http_response) (env : token_environment) (c : HTTPClient).

Lemma built_to_deployment endpoint force header body :
  endpoint ∈ ["query"; "mutation"; "action"; "function"; "query_at_ts"; "query_ts"] ->
  fst (authHeaderValue env force c) = Ok header ->
  to_deployment env c (build_request c (hc_address c +:+ "/api/" +:+ endpoint) header body).
Proof.
  intros He Hh. split; [done|]. split; [by exists endpoint|]. exists force, header. split; [done|].
  unfold build_request. cbn. case_decide; [done|]. by rewrite lookup_insert_eq.
Qed.

Lemma authenticated_sends endpoint body force h :
  endpoint ∈ ["query"; "mutation"; "action"; "function"; "query_at_ts"; "query_ts"] ->
  sends (to_deployment env c) h
    (fst (doAuthenticatedRequest Do env c (hc_address c +:+ "/api/" +:+ endpoint) body force h)).
Proof.
  intros He. destruct (doAuthenticated_cases Do env c (hc_address c +:+ "/api/" +:+ endpoint) body force h)
    as [(e & Ha & ->)|(hdr & Ha & ->)]; [done|]. cbn. eexists. split; [done|]. constructor; [|constructor].
  apply (built_to_deployment _ force); [done|]. by rewrite Ha.
Qed.

Lemma retry_sends endpoint body h :
  endpoint ∈ ["query"; "mutation"; "action"; "function"; "query_at_ts"; "query_ts"] ->
  sends (to_deployment env c) h (fst (doRequestWithAuthRetry Do env c (hc_address c +:+ "/api/" +:+ endpoint) body h)).
Proof.
  intros He. unfold doRequestWithAuthRetry. pose proof (authenticated_sends endpoint body false h He) as H1.
  destruct (doAuthenticatedRequest _ _ _ _ _ false h) as [h1 [[resp used]|e]]; cbn [fst] in H1; [|exact H1].
  destruct (_ || _); [exact H1|]. pose proof (authenticated_sends endpoint body true h1 He) as H2.
  destruct (doAuthenticatedRequest _ _ _ _ _ true h1) as [h2 r]. cbn [fst] in *. by trans h1.
Qed.

Lemma function_sends kind path endpoint body h :
  endpoint ∈ ["query"; "mutation"; "action"; "function"; "query_at_ts"; "query_ts"] ->
  sends (to_deployment env c) h (fst (doFunctionRequest Do env c kind path (hc_address c +:+ "/api/" +:+ endpoint) body h)).
Proof.
  intros He. unfold doFunctionRequest. pose proof (retry_sends endpoint (Some body) h He) as H.
  destruct (doRequestWithAuthRetry _ _ _ _ _ h). exact H.
Qed.

Lemma call_sends kind path args timestamp h : kind ∈ [QueryKind; MutationKind; ActionKind] ->
  sends (to_deployment env c) h (fst (call Do env c kind path args timestamp h)).
Proof.
  intros Hk. unfold call. destruct (prepare_call path args) as [w|e]; cbn [mbind result_bind]; [|done].
  destruct (map_err UnencodableRequest (marshal (WObj {["path" := WStr path; "format" := WStr "convex_encoded_json"; "args" := WArr [w]]})))
    as [body|e]; cbn [mbind result_bind]; [|done].
  destruct (bool_decide (kind = QueryKind) && _).
  - destruct (map_err UnencodableRequest _) as [body'|e]; cbn [mbind result_bind mret result_ret]; [|done].
    apply (function_sends kind path "query_at_ts"). set_solver.
  - cbn [mret result_ret]. apply (function_sends kind path kind).
    unfold QueryKind, MutationKind, ActionKind in Hk. set_solver.
Qed.
End requests.

(** C21. Whatever the facade is asked over HTTP, each request it sends, a repeated one included, goes to
    the deployment's own address, under [/api/], and carries the credentials of the facade's client or
    none: no call sends them elsewhere. *)
Theorem requests_stay_home Do env m f h :
  sends (to_deployment env (fc_http f)) h (requests_of Do env m f h).
Proof.
  destruct m as [path args|path args|path args|path args componentPath| |path args timestamp|path args]; cbn [requests_of].
  - apply call_sends. set_solver.
  - apply call_sends. set_solver.
  - apply call_sends. set_solver.
  - unfold Client_FunctionValue, FunctionValue, callAnyFunction. destruct (prepare_call path args); cbn [mbind result_bind]; [|done].
    destruct (map_err UnencodableRequest _); [|done]. apply (function_sends _ _ _ _ _ "function"). set_solver.
  - unfold Client_GetTimestamp, GetTimestamp. pose proof (retry_sends Do env (fc_http f) "query_ts" None h ltac:(set_solver)) as H.
    destruct (doRequestWithAuthRetry _ _ _ _ _ h). exact H.
  - unfold Client_QueryAtTimestamp, QueryAtTimestamp. case_decide; [done|]. apply call_sends. set_solver.
  - unfold Client_ConsistentQuery, ConsistentQuery, GetTimestamp.
    pose proof (retry_sends Do env (fc_http f) "query_ts" None h ltac:(set_solver)) as H.
    destruct (doRequestWithAuthRetry _ _ _ _ _ h) as [h1 resp]. cbn [fst] in H.
    destruct (resp ≫= readTimestamp) as [timestamp|e]; [|exact H]. trans h1; [exact H|].
    unfold QueryAtTimestamp. case_decide; [done|]. apply call_sends. set_solver.
Qed.
