(* ===== verification/SharedClaims.v ===== *)
(** * Claims in memory

    The facade keeps the claims of an identity after [SetAdminAuthContext] has returned, and the
    caller keeps the maps it has passed.  [cloneUserIdentityAttributes] of [client_options.go] over a
    memory of maps and arrays: the copy has maps of its own, so that claims without maps and slices
    inside stay what they were, whatever the caller writes; the values inside are shared. *)
From S2P Require Import Prelude GoStrings GoBytes GoJson Values Results Protocol ClientMessages ClientState BaseClient HttpClient Facade FacadeTheorems.
Local Open Scope Z_scope.

(** ** Memory *)

(** A dynamic value: one that cannot be changed in place, or a map or an array at an address. *)
Inductive shared : Type :=
  | Constant (w : wire)
  | MapAt (l : Z)
  | SliceAt (l : Z).
Inductive stored : Type :=
  | StoredMap (m : gmap string shared)
  | StoredArray (a : list shared).
Record memory : Type := mkMemory { mem_at : gmap Z stored; mem_next : Z }.

Definition map_at (l : Z) (m : memory) : gmap string shared :=
  match mem_at m !! l with Some (StoredMap x) => x | _ => ∅ end.
Definition new_map (x : gmap string shared) (m : memory) : memory :=
  mkMemory (<[mem_next m := StoredMap x]> (mem_at m)) (mem_next m + 1).

(** What a value is at a moment; [None] if it holds itself, deeper than [depth]. *)
Fixpoint view (depth : nat) (m : memory) (v : shared) : option wire :=
  match depth, v with
  | _, Constant w => Some w
  | O, _ => None
  | S depth, MapAt l =>
      match mem_at m !! l with
      | Some (StoredMap x) =>
          if map_forallb (fun _ v => bool_decide (is_Some (view depth m v))) x
          then Some (WObj (omap (view depth m) x)) else None
      | _ => None
      end
  | S depth, SliceAt l =>
      match mem_at m !! l with
      | Some (StoredArray a) => WArr <$> mapM (view depth m) a
      | _ => None
      end
  end.

(** [UserIdentityAttributes] is a map, or nil; what it holds at a moment. *)
Definition attributes : Type := option Z.
Definition claims (depth : nat) (m : memory) (a : attributes) : option (option UserIdentityAttributes) :=
  match a with
  | None => Some None
  | Some l => match view (S depth) m (MapAt l) with Some (WObj x) => Some (Some x) | _ => None end
  end.

(** ** The copy *)

(** [for key, value := range attrs { clone[key] = value }]. *)
Definition copied (attrs : gmap string shared) : gmap string shared :=
  map_fold (fun key value clone => <[key := value]> clone) ∅ attrs.
Fixpoint cloneUserIdentityAttributes (actingAs : list attributes) (m : memory) : list attributes * memory :=
  match actingAs with
  | [] => ([], m)
  | None :: rest => let '(out, m) := cloneUserIdentityAttributes rest m in (None :: out, m)
  | Some l :: rest =>
      let clone := mem_next m in
      let '(out, m) := cloneUserIdentityAttributes rest (new_map (copied (map_at l m)) m) in
      (Some clone :: out, m)
  end.

(** What the caller does with the memory: assignments to members and elements, and new maps. *)
Inductive write : Type :=
  | SetMember (l : Z) (key : string) (v : shared)
  | DeleteMember (l : Z) (key : string)
  | SetElement (l : Z) (i : nat) (v : shared)
  | NewMap (x : gmap string shared).
Definition written_at (w : write) : option Z :=
  match w with SetMember l _ _ | DeleteMember l _ | SetElement l _ _ => Some l | NewMap _ => None end.
Definition do_write (w : write) (m : memory) : memory :=
  match w with
  | SetMember l key v => mkMemory (<[l := StoredMap (<[key := v]> (map_at l m))]> (mem_at m)) (mem_next m)
  | DeleteMember l key => mkMemory (<[l := StoredMap (delete key (map_at l m))]> (mem_at m)) (mem_next m)
  | SetElement l i v =>
      match mem_at m !! l with
      | Some (StoredArray a) => mkMemory (<[l := StoredArray (<[i := v]> a)]> (mem_at m)) (mem_next m)
      | _ => m
      end
  | NewMap x => new_map x m
  end.

(** ** The copy is the same *)

Definition in_use (m : memory) : Prop := forall l, is_Some (mem_at m !! l) -> l < mem_next m.
Definition kept (m m' : memory) : Prop := mem_at m ⊆ mem_at m' /\ mem_next m <= mem_next m'.

Lemma copied_same attrs : copied attrs = attrs.
Proof.
  unfold copied. apply (map_fold_weak_ind (fun r x => r = x)); [done|]. by intros k v x r _ ->.
Qed.

Lemma map_at_Some l x m : mem_at m !! l = Some (StoredMap x) -> map_at l m = x.
Proof. unfold map_at. by intros ->. Qed.

#[export] Instance kept_preorder : PreOrder kept.
Proof. split; [by split|]. intros m1 m2 m3 [S1 N1] [S2 N2]. split; [by etrans|lia]. Qed.

Lemma new_map_kept x m : in_use m -> kept m (new_map x m) /\ in_use (new_map x m).
Proof.
  intros Hm. split; [split; cbn; [|lia]|].
  - apply insert_subseteq. destruct (mem_at m !! mem_next m) eqn:E; [|done].
    assert (mem_next m < mem_next m) by (apply Hm; by eexists). lia.
  - intros l. cbn. intros [y [[<- _]|[_ Hl]]%lookup_insert_Some]; [lia|].
    enough (l < mem_next m) by lia. apply Hm. by eexists.
Qed.

Lemma view_kept depth m m' : kept m m' -> forall v w, view depth m v = Some w -> view depth m' v = Some w.
Proof.
  intros [Hm _]. induction depth as [|depth IH]; intros [c|l|l] w; cbn; try done.
  - destruct (mem_at m !! l) as [[x|a]|] eqn:Hl; try done. rewrite (lookup_weaken _ _ _ _ Hl Hm).
    destruct (map_forallb _ x) eqn:Hx; [|done]. rewrite map_forallb_true in Hx.
    assert (Hv : forall k v, x !! k = Some v -> exists w, view depth m v = Some w).
    { intros k v Hk. specialize (Hx k v Hk). by apply bool_decide_eq_true in Hx. }
    intros [= <-]. replace (map_forallb _ x) with true.
    + do 2 f_equal. apply map_eq. intros k. rewrite !lookup_omap. destruct (x !! k) as [v|] eqn:Hk; [|done]. cbn.
      destruct (Hv k v Hk) as [w Hw]. by rewrite Hw, (IH v w Hw).
    + symmetry. apply map_forallb_true. intros k v Hk. destruct (Hv k v Hk) as [w Hw].
      rewrite (IH v w Hw). by apply bool_decide_eq_true.
  - destruct (mem_at m !! l) as [[x|a]|] eqn:Hl; try done. rewrite (lookup_weaken _ _ _ _ Hl Hm).
    intros (l' & Ha & ->)%fmap_Some. apply mapM_Some in Ha.
    apply fmap_Some. exists l'. split; [|done]. apply mapM_Some.
    eapply Forall2_impl; [exact Ha|]. intros. by apply IH.
Qed.

(** A map of the caller's. *)
Definition points (m : memory) (a : attributes) : Prop :=
  match a with None => True | Some l => exists x, mem_at m !! l = Some (StoredMap x) end.

(** The copy holds what the original holds, in maps nobody else knows. *)
Definition clone_of (m m' : memory) (a b : attributes) : Prop :=
  match a, b with
  | None, None => True
  | Some l, Some clone =>
      mem_next m <= clone < mem_next m' /\
      exists x, mem_at m !! l = Some (StoredMap x) /\ mem_at m' !! clone = Some (StoredMap x)
  | _, _ => False
  end.

Lemma clone_of_kept m m1 m2 a b : kept m1 m2 -> clone_of m m1 a b -> clone_of m m2 a b.
Proof.
  intros [Hm Hn]. destruct a as [l|], b as [k|]; try done. intros [Hk (x & Hl & Hc)]. split; [lia|].
  exists x. split; [done|]. by eapply lookup_weaken.
Qed.

Lemma clone_spec_from m0 actingAs : Forall (points m0) actingAs -> forall m out m', kept m0 m -> in_use m ->
  cloneUserIdentityAttributes actingAs m = (out, m') ->
  kept m m' /\ in_use m' /\ Forall2 (clone_of m0 m') actingAs out.
Proof.
  induction 1 as [|a actingAs Ha _ IH]; intros m out m' Hk Hu; cbn [cloneUserIdentityAttributes].
  - intros [= <- <-]. by split.
  - destruct a as [l|].
    + destruct Ha as [x Hx]. rewrite copied_same, (map_at_Some l x) by (by eapply lookup_weaken; [|apply Hk]).
      destruct (new_map_kept x m Hu) as [Hk1 Hu1]. set (m1 := new_map x m) in *.
      destruct (cloneUserIdentityAttributes actingAs m1) as [out1 m2] eqn:Hc. intros [= <- <-].
      destruct (IH m1 out1 m2) as (Hk2 & Hu2 & Hf); [by etrans|done|done|].
      split; [by etrans|]. split; [done|]. constructor; [|done].
      apply (clone_of_kept _ m1); [done|]. split; [destruct Hk; cbn; lia|]. exists x. split; [done|apply lookup_insert_eq].
    + destruct (cloneUserIdentityAttributes actingAs m) as [out1 m2] eqn:Hc. intros [= <- <-].
      destruct (IH m out1 m2 Hk Hu Hc) as (Hk2 & Hu2 & Hf). split; [done|]. split; [done|]. by constructor.
Qed.
Lemma clone_spec actingAs m out m' : in_use m -> Forall (points m) actingAs ->
  cloneUserIdentityAttributes actingAs m = (out, m') ->
  kept m m' /\ in_use m' /\ Forall2 (clone_of m m') actingAs out.
Proof. intros Hu Ha. by apply clone_spec_from. Qed.

(** ** What the caller does later *)

(** Claims without maps and slices inside. *)
Definition flat (m : memory) (a : attributes) : Prop :=
  match a with None => True | Some l => forall key v, map_at l m !! key = Some v -> exists w, v = Constant w end.

(** The caller writes to memory that is there, and cannot write to a map it has never been given;
    [lo] and [hi] bound the addresses of those. *)
Definition writes (ws : list write) (m : memory) : memory := fold_left (fun m w => do_write w m) ws m.
Fixpoint caller_writes (lo hi : Z) (ws : list write) (m : memory) : bool :=
  match ws with
  | [] => true
  | w :: rest =>
      match written_at w with None => true | Some l => (l <? mem_next m) && negb ((lo <=? l) && (l <? hi)) end
      && caller_writes lo hi rest (do_write w m)
  end.

Lemma do_write_elsewhere w m l : in_use m -> is_Some (mem_at m !! l) -> written_at w <> Some l ->
  mem_at (do_write w m) !! l = mem_at m !! l.
Proof.
  intros Hu Hl Hw. destruct w as [l' key v|l' key|l' i v|x]; cbn in *.
  - rewrite lookup_insert_ne; [done|congruence].
  - rewrite lookup_insert_ne; [done|congruence].
  - destruct (mem_at m !! l') as [[|a]|] eqn:E; [done| |done]. cbn. rewrite lookup_insert_ne; [done|congruence].
  - rewrite lookup_insert_ne; [done|]. intros <-. apply Hu in Hl. lia.
Qed.

Lemma do_write_in_use w m : in_use m -> (forall l, written_at w = Some l -> l < mem_next m) -> in_use (do_write w m).
Proof.
  intros Hu Hw. destruct w as [l' key v|l' key|l' i v|x]; cbn in *; [| | |by apply new_map_kept].
  1-2: intros l; cbn; intros [y [[<- _]|[_ Hl]]%lookup_insert_Some]; [by apply Hw|apply Hu; by eexists].
  destruct (mem_at m !! l') as [[|a]|] eqn:E; [done| |done].
  intros l; cbn; intros [y [[<- _]|[_ Hl]]%lookup_insert_Some]; [by apply Hw|apply Hu; by eexists].
Qed.

Lemma writes_elsewhere lo hi ws l : lo <= l < hi -> forall m, in_use m -> caller_writes lo hi ws m = true ->
  is_Some (mem_at m !! l) -> mem_at (writes ws m) !! l = mem_at m !! l.
Proof.
  intros Hl. induction ws as [|w ws IH]; intros m Hu Hw Hs; [done|]. cbn [writes fold_left caller_writes] in *.
  apply andb_true_iff in Hw as [Hw Hws].
  assert (Hok : forall k, written_at w = Some k -> k < mem_next m /\ ~ lo <= k < hi).
  { intros k Hk. rewrite Hk in Hw. apply andb_true_iff in Hw as [Hn Hr%negb_true_iff]. split; [lia|]. intros [? ?].
    apply andb_false_iff in Hr as [Hr|Hr]; lia. }
  assert (Hsame : mem_at (do_write w m) !! l = mem_at m !! l).
  { apply do_write_elsewhere; [done..|]. intros Hk. by destruct (Hok l Hk). }
  unfold writes in IH. rewrite IH; [done| |done|by rewrite Hsame].
  apply do_write_in_use; [done|]. intros k Hk. by apply Hok.
Qed.

Lemma claims_flat depth m l x : mem_at m !! l = Some (StoredMap x) ->
  (forall key v, x !! key = Some v -> exists w, v = Constant w) ->
  claims depth m (Some l) = Some (Some (omap (fun v => match v with Constant w => Some w | _ => None end) x)).
Proof.
  intros Hl Hx. unfold claims. cbn [view]. rewrite Hl.
  assert (Hv : forall key v, x !! key = Some v -> view depth m v = match v with Constant w => Some w | _ => None end).
  { intros key v Hk. destruct (Hx key v Hk) as [w ->]. by destruct depth. }
  replace (map_forallb _ x) with true.
  - do 2 f_equal. apply map_eq. intros key. rewrite !lookup_omap. destruct (x !! key) as [v|] eqn:Hk; [|done]. by apply (Hv key).
  - symmetry. apply map_forallb_true. intros key v Hk. rewrite (Hv key v Hk). by destruct (Hx key v Hk) as [w ->].
Qed.

(** What [SetAdminAuthContext] has been given is what a realtime client made later gets, although the
    caller has gone on writing to its maps: the claims, as the facade keeps them, are those of the
    call.  The claims are flat. *)
Theorem kept_claims_unchanged actingAs m out m' ws :
  in_use m -> Forall (points m) actingAs -> Forall (flat m) actingAs ->
  cloneUserIdentityAttributes actingAs m = (out, m') ->
  caller_writes (mem_next m) (mem_next m') ws m' = true ->
  exists attrs, mapM (claims 0 m) actingAs = Some attrs /\ mapM (claims 0 (writes ws m')) out = Some attrs.
Proof.
  intros Hu Hp Hf Hc Hw. destruct (clone_spec _ _ _ _ Hu Hp Hc) as (_ & Hu' & Hcl). clear Hc Hp.
  induction Hcl as [|a b actingAs out Hab _ IH]; [by exists []|].
  apply Forall_cons in Hf as [Ha Hf]. destruct (IH Hf) as (attrs & H1 & H2). cbn [mapM]. rewrite H1, H2.
  destruct a as [l|], b as [k|]; try done; cbn [clone_of flat] in *; [|by exists (None :: attrs)].
  destruct Hab as [Hk (x & Hl & Hx)]. rewrite (map_at_Some l x m Hl) in Ha.
  rewrite (claims_flat 0 m l x Hl Ha), (claims_flat 0 (writes ws m') k x); [by eexists| |done].
  by rewrite (writes_elsewhere _ _ ws k Hk m' Hu' Hw ltac:(by eexists)).
Qed.

(** ** Maps inside *)

(** Claims with a map inside, which the caller changes before the first subscription: HTTP requests
    go on naming the role of the call, a realtime client made then announces the other one. *)
Definition with_role : memory :=
  mkMemory {[0 := StoredMap {["issuer" := Constant (WStr "i"); "subject" := Constant (WStr "s"); "org" := MapAt 1]};
             1 := StoredMap {["role" := Constant (WStr "user")]}]} 2.
Definition role_of (a : option UserIdentityAttributes) : option wire :=
  match a with Some x => match x !! "org" with Some (WObj o) => o !! "role" | _ => None end | None => None end.

Lemma nested_claims_shared :
  let '(out, m') := cloneUserIdentityAttributes [Some 0] with_role in
  let m'' := do_write (SetMember 1 "role" (Constant (WStr "admin"))) m' in
  map_at 2 m' = map_at 0 with_role /\
  (map role_of <$> mapM (claims 1 with_role) [Some 0]) = Some [Some (WStr "user")] /\
  (map role_of <$> mapM (claims 1 m'') out) = Some [Some (WStr "admin")].
Proof. vm_compute. repeat split. Qed.

Definition flat_claims : memory :=
  mkMemory {[0 := StoredMap {["issuer" := Constant (WStr "i"); "subject" := Constant (WStr "s")]}]} 1.
Definition flat_clone : list attributes * memory := cloneUserIdentityAttributes [Some 0] flat_claims.
Definition later_writes : list write := [SetMember 0 "subject" (Constant (WStr "other")); DeleteMember 0 "issuer"].

Lemma kept_claims_unchanged_witness :
  mapM (claims 0 flat_claims) [Some 0] = mapM (claims 0 (writes later_writes (snd flat_clone))) (fst flat_clone) /\
  mapM (claims 0 flat_claims) [Some 0] <> mapM (claims 0 (writes later_writes (snd flat_clone))) [Some 0].
Proof.
  split; [|by vm_compute].
  destruct (kept_claims_unchanged [Some 0] flat_claims (fst flat_clone) (snd flat_clone) later_writes) as (attrs & -> & ->);
    try reflexivity.
  - intros l. cbn [flat_claims mem_at mem_next]. intros [y [<- _]%lookup_singleton_Some]. lia.
  - constructor; [|constructor]. by eexists.
  - constructor; [|constructor]. intros key v. unfold map_at. cbn [flat_claims mem_at]. rewrite lookup_singleton_eq.
    intros [[_ <-]|[_ [_ <-]%lookup_singleton_Some]]%lookup_insert_Some; by eexists.
Defined.
