(* ===== verification/FacadeRun.v ===== *)
(** * The facade at work

    The methods of [client_facade.go] that use the realtime client, over the machine of
    RealtimeClient: any number of calls of the facade, each of them a sequence of accesses to what
    is shared, any number of realtime clients, one after another or at once, with all their
    goroutines, and the steps of all of these in any order.

    A realtime client is a number, which stands for its address; a call of one of its methods is a
    call of its machine, which the call of the facade starts and then waits for.  The observers of
    the connection state are in FacadeObservers. *)
From S2P Require Import Prelude GoStrings GoJson Values Results GoEncode Protocol ClientMessages ServerMessages ClientState BaseClient ClientInvariant SyncManager HttpClient Facade ManagerRun RealtimeClient.
Local Open Scope Z_scope.

(** ** State *)

(** What a call wants of the realtime client. *)
Inductive use : Type :=
  | UseSubscribe (path : string) (args : goval)
  | UseWatchAll.
Definition use_call (u : use) : call :=
  match u with UseSubscribe path args => CallSubscribe path args | UseWatchAll => CallWatchAll end.

(** A change of the identity by [SetAuthContext], [SetAdminAuthContext] or [ClearAuthContext]. *)
Inductive change : Type :=
  | ChangeAuth (token : string)
  | ChangeAdmin (token : string) (actingAs : list (option UserIdentityAttributes))
  | ChangeNone.

(** What [realtime] reads under the lock. *)
Definition settings : Type :=
  (list WebSocketOption * option UserTokenFetcher * string * list (option UserIdentityAttributes) * string)%type.

Inductive facade_failure : Type :=
  | FailedFacade (e : facade_error)
  | FailedRealtime (e : rt_error).
Inductive facade_returned : Type :=
  | GotSubscription (n h : Z)
  | GotWatcher (n w : Z)
  | GotNil
  | GotError (e : facade_failure).

(** The calls, at the step they come to next: [realtime] with what follows it, [Close], the changes
    of the identity, and [SetAuthCallbackContext]. *)
Inductive facade_call : Type :=
  | RealtimeCheck (u : use)
  | RealtimeReuse (u : use)
  | RealtimeRead (u : use)
  | RealtimeNew (u : use) (st : settings)
  | RealtimeIdentity (u : use) (st : settings) (n : Z)
  | RealtimeIdentityWait (u : use) (st : settings) (n j : Z)
  | RealtimeGiveUp (n : Z) (e : rt_error)
  | RealtimeGiveUpWait (n : Z) (e : rt_error)
  | RealtimeInstall (u : use) (st : settings) (n : Z)
  | RealtimeDiscard (u : use) (n existing : Z)
  | RealtimeDiscardWait (u : use) (n existing : Z)
  | UseClient (u : use) (n : option Z)
  | UseWait (n j : Z)
  | CloseTake
  | CloseCancel (n : Z)
  | CloseWait (n : Z)
  | ChangeHTTP (ch : change)
  | ChangeFields (ch : change)
  | ChangeRealtime (ch : change) (n : option Z)
  | ChangeWait (n j : Z)
  | CallbackRead (fetcher : option UserTokenFetcher)
  | CallbackRealtime (fetcher : option UserTokenFetcher) (n : option Z)
  | CallbackWait (fetcher : option UserTokenFetcher) (n j : Z)
  | CallbackHTTP (fetcher : option UserTokenFetcher)
  | CallbackFields (fetcher : option UserTokenFetcher)
  | NilDereferenced
  | FacadeReturned (r : facade_returned).

(** [sy_fields] are the fields of [Client] but [webSocketClient], which is [sy_webSocketClient];
    its own [fc_realtime] is left empty. *)
Record system : Type := mkSystem {
  sy_fields : Facade;
  sy_webSocketClient : option Z;
  sy_clients : gmap Z WebSocketClient;
  sy_nextClient : Z;
  sy_calls : gmap Z facade_call;
  sy_nextCall : Z
}.
Definition sy_put_fields (v : Facade) (s : system) : system :=
  mkSystem v (sy_webSocketClient s) (sy_clients s) (sy_nextClient s) (sy_calls s) (sy_nextCall s).
Definition sy_put_webSocketClient (v : option Z) (s : system) : system :=
  mkSystem (sy_fields s) v (sy_clients s) (sy_nextClient s) (sy_calls s) (sy_nextCall s).
Definition sy_put_client (n : Z) (c : WebSocketClient) (s : system) : system :=
  mkSystem (sy_fields s) (sy_webSocketClient s) (<[n := c]> (sy_clients s)) (sy_nextClient s) (sy_calls s) (sy_nextCall s).
Definition sy_put_call (k : Z) (p : facade_call) (s : system) : system :=
  mkSystem (sy_fields s) (sy_webSocketClient s) (sy_clients s) (sy_nextClient s) (<[k := p]> (sy_calls s)) (sy_nextCall s).
Definition sy_new_client (s : system) : system :=
  mkSystem (sy_fields s) (sy_webSocketClient s) (<[sy_nextClient s := NewWebSocketClient]> (sy_clients s))
    (sy_nextClient s + 1) (sy_calls s) (sy_nextCall s).
Definition sy_new_call (p : facade_call) (s : system) : system :=
  mkSystem (sy_fields s) (sy_webSocketClient s) (sy_clients s) (sy_nextClient s)
    (<[sy_nextCall s := p]> (sy_calls s)) (sy_nextCall s + 1).

Definition newSystem (f : Facade) : system := mkSystem f None ∅ 0 ∅ 0.

(** ** Pieces *)

Definition settings_options (st : settings) : list WebSocketOption := let '(opts, _, _, _, _) := st in opts.

(** The operation by which a new realtime client gets the identity, if there is one to get. *)
Definition settings_operation (env : token_environment) (st : settings) : option operation :=
  let '(_, authCallback, adminAuthToken, adminActingAs, authToken) := st in
  match authCallback with
  | Some cb => Some (OSetAuthCallback (adaptUserTokenFetcher env) (Some (Callback cb)))
  | None =>
      if negb (bool_decide (adminAuthToken = "")) then
        Some (OSetAdminAuth adminAuthToken (syncIdentityAttributes adminActingAs))
      else if negb (bool_decide (authToken = "")) then Some (OSetAuth authToken)
      else None
  end.

(** What a change does to the HTTP client, to the fields, and to the realtime client. *)
Definition change_http (ch : change) (c : HTTPClient) : result facade_error HTTPClient :=
  match ch with
  | ChangeAuth token => Ok (HTTPClient_SetAuth token c)
  | ChangeAdmin token actingAs => HTTPClient_SetAdminAuth token actingAs c
  | ChangeNone => Ok (HTTPClient_ClearAuth c)
  end.
Definition change_fields (ch : change) (f : Facade) : Facade :=
  match ch with
  | ChangeAuth token => fc_put_identity token "" [] None f
  | ChangeAdmin token actingAs => fc_put_identity "" token actingAs None f
  | ChangeNone => fc_put_identity "" "" [] None f
  end.
Definition change_call (ch : change) : call :=
  match ch with
  | ChangeAuth token => ws_SetAuthContext token
  | ChangeAdmin token actingAs => ws_SetAdminAuthContext token (syncIdentityAttributes actingAs)
  | ChangeNone => ws_ClearAuthContext
  end.

(** How a call of a realtime client has ended, if it has. *)
Definition ended (n j : Z) (s : system) : option returned :=
  c ← sy_clients s !! n;
  match ws_calls c !! j with Some (CallReturned r) => Some r | _ => None end.
Definition facade_result (n : Z) (r : returned) : facade_returned :=
  match r with
  | RetSubscription h => GotSubscription n h
  | RetWatcher w => GotWatcher n w
  | RetError e => GotError (FailedRealtime e)
  | RetNil => GotNil
  end.

(** [Close] of a realtime client, from the end of its context on. *)
Definition closed (n : Z) (s : system) : option (option rt_error) :=
  c ← sy_clients s !! n; WebSocketClient_Close c.

(** ** Steps *)

Section steps.
Context (proto_text : proto_error -> string).

(** A step of a realtime client, and the start of a call of it. *)
Definition client_step (n : Z) (e : ws_event) (s : system) : option system :=
  c ← sy_clients s !! n; c' ← ws_step proto_text e c; Some (sy_put_client n c' s).
Definition invoke (n : Z) (m : call) (s : system) : option (system * Z) :=
  c ← sy_clients s !! n; s' ← client_step n (RCall m) s; Some (s', ws_next c).

(** [realtime]. *)
Definition realtime_step (env : token_environment) (k : Z) (p : facade_call) (s : system) : option system :=
  match p with
  | RealtimeCheck u =>
      Some (sy_put_call k (if bool_decide (is_Some (sy_webSocketClient s)) then RealtimeReuse u else RealtimeRead u) s)
  | RealtimeReuse u => Some (sy_put_call k (UseClient u (sy_webSocketClient s)) s)
  | RealtimeRead u => Some (sy_put_call k (RealtimeNew u (realtime_settings (sy_fields s))) s)
  | RealtimeNew u st =>
      match realtime_new (settings_options st) with
      | Err e => Some (sy_put_call k (FacadeReturned (GotError (FailedFacade e))) s)
      | Ok _ => Some (sy_put_call k (RealtimeIdentity u st (sy_nextClient s)) (sy_new_client s))
      end
  | RealtimeIdentity u st n =>
      match settings_operation env st with
      | None => Some (sy_put_call k (RealtimeInstall u st n) s)
      | Some op =>
          '(s, j) ← invoke n (CallOperation op false) s; Some (sy_put_call k (RealtimeIdentityWait u st n j) s)
      end
  | RealtimeIdentityWait u st n j =>
      r ← ended n j s;
      Some (sy_put_call k (match r with RetError e => RealtimeGiveUp n e | _ => RealtimeInstall u st n end) s)
  | RealtimeGiveUp n e => s ← client_step n RCancel s; Some (sy_put_call k (RealtimeGiveUpWait n e) s)
  | RealtimeGiveUpWait n e =>
      _ ← closed n s; Some (sy_put_call k (FacadeReturned (GotError (FailedRealtime e))) s)
  | RealtimeInstall u st n =>
      match sy_webSocketClient s with
      | Some existing => Some (sy_put_call k (RealtimeDiscard u n existing) s)
      | None => Some (sy_put_call k (UseClient u (Some n)) (sy_put_webSocketClient (Some n) s))
      end
  | RealtimeDiscard u n existing =>
      s ← client_step n RCancel s; Some (sy_put_call k (RealtimeDiscardWait u n existing) s)
  | RealtimeDiscardWait u n existing => _ ← closed n s; Some (sy_put_call k (UseClient u (Some existing)) s)
  | _ => None
  end.

(** The methods that use what [realtime] returned.  A method of nil looks at the caller's context
    first, and then at a field. *)
Definition use_step (k : Z) (i : input) (p : facade_call) (s : system) : option system :=
  match p with
  | UseClient u None =>
      match i with
      | ContextEnds => Some (sy_put_call k (FacadeReturned (GotError (FailedRealtime ErrContext))) s)
      | Go => Some (sy_put_call k NilDereferenced s)
      | ChannelReady => None
      end
  | UseClient u (Some n) => '(s, j) ← invoke n (use_call u) s; Some (sy_put_call k (UseWait n j) s)
  | UseWait n j => r ← ended n j s; Some (sy_put_call k (FacadeReturned (facade_result n r)) s)
  | _ => None
  end.

(** [Close]. *)
Definition close_step (k : Z) (p : facade_call) (s : system) : option system :=
  match p with
  | CloseTake =>
      Some (sy_put_call k (match sy_webSocketClient s with None => FacadeReturned GotNil | Some n => CloseCancel n end)
              (sy_put_webSocketClient None s))
  | CloseCancel n => s ← client_step n RCancel s; Some (sy_put_call k (CloseWait n) s)
  | CloseWait n =>
      e ← closed n s;
      Some (sy_put_call k (FacadeReturned (match e with None => GotNil | Some e => GotError (FailedRealtime e) end)) s)
  | _ => None
  end.

(** [SetAuthContext], [SetAdminAuthContext] and [ClearAuthContext]. *)
Definition change_step (k : Z) (p : facade_call) (s : system) : option system :=
  match p with
  | ChangeHTTP ch =>
      match change_http ch (fc_http (sy_fields s)) with
      | Err e => Some (sy_put_call k (FacadeReturned (GotError (FailedFacade e))) s)
      | Ok http => Some (sy_put_call k (ChangeFields ch) (sy_put_fields (fc_put_http http (sy_fields s)) s))
      end
  | ChangeFields ch =>
      Some (sy_put_call k (ChangeRealtime ch (sy_webSocketClient s))
              (sy_put_fields (change_fields ch (sy_fields s)) s))
  | ChangeRealtime ch None => Some (sy_put_call k (FacadeReturned GotNil) s)
  | ChangeRealtime ch (Some n) => '(s, j) ← invoke n (change_call ch) s; Some (sy_put_call k (ChangeWait n j) s)
  | ChangeWait n j => r ← ended n j s; Some (sy_put_call k (FacadeReturned (facade_result n r)) s)
  | _ => None
  end.

(** [SetAuthCallbackContext]. *)
Definition callback_step (env : token_environment) (k : Z) (p : facade_call) (s : system) : option system :=
  match p with
  | CallbackRead fetcher => Some (sy_put_call k (CallbackRealtime fetcher (sy_webSocketClient s)) s)
  | CallbackRealtime fetcher (Some n) =>
      '(s, j) ← invoke n (CallOperation (OSetAuthCallback (adaptUserTokenFetcher env) (Callback <$> fetcher)) true) s;
      Some (sy_put_call k (CallbackWait fetcher n j) s)
  | CallbackRealtime fetcher None =>
      Some (sy_put_call k
              match fetcher with
              | Some cb =>
                  match env cb false with
                  | Err e => FacadeReturned (GotError (FailedFacade (TokenCallbackFailed e)))
                  | Ok _ => CallbackHTTP fetcher
                  end
              | None => CallbackHTTP fetcher
              end s)
  | CallbackWait fetcher n j =>
      r ← ended n j s;
      Some (sy_put_call k
              match r with RetError e => FacadeReturned (GotError (FailedRealtime e)) | _ => CallbackHTTP fetcher end s)
  | CallbackHTTP fetcher =>
      Some (sy_put_call k (CallbackFields fetcher)
              (sy_put_fields (fc_put_http (HTTPClient_setAuthCallback fetcher (fc_http (sy_fields s))) (sy_fields s)) s))
  | CallbackFields fetcher =>
      Some (sy_put_call k (FacadeReturned GotNil)
              (sy_put_fields (fc_put_identity "" "" [] fetcher (sy_fields s)) s))
  | _ => None
  end.

Definition facade_step (env : token_environment) (k : Z) (i : input) (p : facade_call) (s : system) : option system :=
  match p with
  | RealtimeCheck _ | RealtimeReuse _ | RealtimeRead _ | RealtimeNew _ _ | RealtimeIdentity _ _ _
  | RealtimeIdentityWait _ _ _ _ | RealtimeGiveUp _ _ | RealtimeGiveUpWait _ _ | RealtimeInstall _ _ _
  | RealtimeDiscard _ _ _ | RealtimeDiscardWait _ _ _ => realtime_step env k p s
  | UseClient _ _ | UseWait _ _ => use_step k i p s
  | CloseTake | CloseCancel _ | CloseWait _ => close_step k p s
  | ChangeHTTP _ | ChangeFields _ | ChangeRealtime _ _ | ChangeWait _ _ => change_step k p s
  | CallbackRead _ | CallbackRealtime _ _ | CallbackWait _ _ _ | CallbackHTTP _ | CallbackFields _ => callback_step env k p s
  | NilDereferenced | FacadeReturned _ => None
  end.

(** [YClient] is a step of a realtime client that no call of the facade takes: of its goroutines, of
    a call on its way, of a user with a handle, or the end of the context it was made with, which is
    that of the call that made it. *)
Inductive system_event : Type :=
  | YCall (p : facade_call)
  | YStep (env : token_environment) (k : Z) (i : input)
  | YClient (n : Z) (e : ws_event).

Definition facade_start (p : facade_call) : bool :=
  match p with RealtimeCheck _ | CloseTake | ChangeHTTP _ | CallbackRead _ => true | _ => false end.
Definition from_outside (e : ws_event) : bool :=
  match e with RCall (CallUnsubscribe _) => true | RCall _ => false | _ => true end.

(** A panic ends the program. *)
Definition stopped (s : system) : bool :=
  negb (map_forallb (fun _ p => match p with NilDereferenced => false | _ => true end) (sy_calls s))
  || negb (map_forallb (fun _ c => negb (crashed c)) (sy_clients s)).

Definition system_step (e : system_event) (s : system) : option system :=
  if stopped s then None else
  match e with
  | YCall p => if facade_start p then Some (sy_new_call p s) else None
  | YStep env k i => p ← sy_calls s !! k; facade_step env k i p s
  | YClient n e => if from_outside e then client_step n e s else None
  end.

(** [system_runs allowed f n s]: [n] events, each allowed in the state it happens in, lead from a new
    client with these fields to [s]. *)
Inductive system_runs (allowed : system_event -> system -> Prop) (f : Facade) : Z -> system -> Prop :=
  | system_runs_start : system_runs allowed f 0 (newSystem f)
  | system_runs_step n s e s' : system_runs allowed f n s -> allowed e s -> system_step e s = Some s' ->
      system_runs allowed f (n + 1) s'.

Fixpoint system_play (es : list system_event) (s : system) : option system :=
  match es with [] => Some s | e :: rest => system_step e s ≫= system_play rest end.

Lemma system_play_runs f n es s s' :
  system_runs (fun _ _ => True) f n s -> system_play es s = Some s' ->
  system_runs (fun _ _ => True) f (n + Z.of_nat (length es)) s'.
Proof.
  revert n s. induction es as [|e es IH]; intros n s Hr Hp; cbn [system_play length] in *.
  - injection Hp as <-. by rewrite Z.add_0_r.
  - apply bind_Some in Hp as (s1 & Hs & Hp).
    replace (n + Z.of_nat (S (length es))) with ((n + 1) + Z.of_nat (length es)) by lia.
    apply (IH _ s1); [by eapply system_runs_step|done].
Qed.

Lemma system_play_app es es' s s' :
  system_play (es ++ es') s = Some s' <-> exists s1, system_play es s = Some s1 /\ system_play es' s1 = Some s'.
Proof.
  revert s. induction es as [|e es IH]; intros s; cbn.
  - split; [eauto|]. by intros (s1 & [= <-] & H).
  - rewrite bind_Some. setoid_rewrite IH. split.
    + intros (s1 & Hs & s2 & H1 & H2). exists s2. split; [|done]. rewrite bind_Some. eauto.
    + intros (s2 & (s1 & Hs & H1)%bind_Some & H2). eauto.
Qed.
End steps.
