(* ===== verification/FacadeRunFacts.v ===== *)
(** * The realtime clients of a facade at work

    What the calls of the facade do to the realtime clients: each of these takes steps of its own
    machine only, and somebody always sees to its end. *)
From S2P Require Import Prelude GoStrings Values Results GoEncode Protocol ClientMessages ServerMessages ClientState BaseClient ClientInvariant SyncManager HttpClient Facade ManagerRun RealtimeClient FacadeRun.
Local Open Scope Z_scope.

(** ** Steps of a realtime client *)

Definition over (c : WebSocketClient) : Prop := exists e, ws_runner c = Done e.

Section facts.
Context (proto_text : proto_error -> string).

Lemma client_step_eq n e s s' :
  client_step proto_text n e s = Some s' <->
  exists c c', sy_clients s !! n = Some c /\ ws_step proto_text e c = Some c' /\ s' = sy_put_client n c' s.
Proof.
  unfold client_step. rewrite bind_Some. setoid_rewrite bind_Some. split.
  - intros (c & Hc & c' & Hs & [= <-]). eauto.
  - intros (c & c' & Hc & Hs & ->). eauto.
Qed.

Lemma invoke_eq n m s s' j :
  invoke proto_text n m s = Some (s', j) <->
  exists c c', sy_clients s !! n = Some c /\ ws_step proto_text (RCall m) c = Some c' /\ s' = sy_put_client n c' s /\ j = ws_next c.
Proof.
  unfold invoke. rewrite bind_Some. setoid_rewrite bind_Some. setoid_rewrite client_step_eq. split.
  - intros (c & Hc & s1 & (c1 & c' & Hc1 & Hs & ->) & [= <- <-]). simplify_eq. exists c, c'. done.
  - intros (c & c' & Hc & Hs & -> & ->). exists c. split; [done|]. eexists. split; [|done]. by exists c, c'.
Qed.

(** Once a client is over, or its context has ended, it stays so. *)
Lemma after_flush_runner k f e c :
  ws_runner (after_flush k f e c) = ws_runner c /\ ws_canceled (after_flush k f e c) = ws_canceled c.
Proof.
  destruct f as [h| |h], e as [e|]; try done; cbn [after_flush]; unfold finishUnsubscribe;
    [destruct (ws_canceled c) eqn:E; [|by rewrite ?E]|]; by destruct (ws_handles c !! h).
Qed.

Lemma call_step_runner k i p c c' :
  call_step proto_text k i p c = Some c' -> ws_runner c' = ws_runner c /\ ws_canceled c' = ws_canceled c.
Proof.
  intros Hs. assert (Hstart : forall i next, start k i next c = Some c' -> ws_runner c' = ws_runner c /\ ws_canceled c' = ws_canceled c).
  { intros i' next Hst. unfold start in Hst. by destruct i'; try discriminate Hst; injection Hst as <-. }
  assert (Hman : forall e c1, manager_step proto_text e c = Some c1 -> ws_runner c1 = ws_runner c /\ ws_canceled c1 = ws_canceled c).
  { intros e c1 (m & _ & [= <-])%bind_Some. done. }
  destruct p as [path args|op flush| |h|path args|id|op flush| |h|q|snapshot q|f|f|h e|id e| |r];
    cbn [call_step] in Hs; unfold begin_unsubscribe, do_subscribe, do_operation, do_unsubscribe in Hs; try discriminate Hs.
  - by eapply Hstart.
  - by eapply Hstart.
  - by eapply Hstart.
  - destruct i; [|by injection Hs as <-|by destruct (ws_handles c !! h)].
    destruct (ws_handles c !! h) as [hs|]; [|discriminate].
    destruct (h_locked hs); [discriminate|]. by destruct (h_closedOK hs); injection Hs as <-.
  - apply bind_Some in Hs as (c1 & Hm%Hman & [= <-]). exact Hm.
  - injection Hs as <-. unfold register. by destruct (ws_subscriptions c).
  - destruct (is_control op); [|discriminate]. apply bind_Some in Hs as (c1 & Hm%Hman & [= <-]). exact Hm.
  - injection Hs as <-. unfold watch. by destruct (ws_watchers c).
  - apply bind_Some in Hs as (hs & Hh & (c1 & Hm%Hman & [= <-])%bind_Some).
    by destruct (snd (Unsubscribe (h_id hs) (mx_client (ws_manager c)))).
  - by injection Hs as <-.
  - injection Hs as <-. by destruct q.
  - destruct i; apply bind_Some in Hs as (x & Hx & [= <-]); [apply after_flush_runner..|by apply Hman in Hx].
  - apply bind_Some in Hs as (x & Hx & [= <-]). apply after_flush_runner.
  - by apply bind_Some in Hs as (hs & Hh & [= <-]).
  - apply bind_Some in Hs as (c1 & Hm%Hman & [= <-]). exact Hm.
Qed.

Lemma ws_step_runner e c c' : ws_step proto_text e c = Some c' ->
  (over c -> over c') /\ (ws_canceled c = true -> ws_canceled c' = true).
Proof.
  unfold ws_step. destruct (crashed c); [discriminate|].
  destruct e as [e| | | | |p|k i|h|w|w]; intros Hs.
  - destruct (internal e c); [|discriminate]. by apply bind_Some in Hs as (m & _ & [= <-]).
  - by injection Hs as <-.
  - unfold run in Hs. unfold over. destruct (ws_runner c); [destruct (mx_pc (ws_manager c)); try discriminate Hs|..];
      try discriminate Hs; injection Hs as <-; (split; [by intros []|done]).
  - unfold pump_take in Hs. destruct (ws_pump c); [discriminate|]. destruct (mx_results (ws_manager c)); [discriminate|].
    by apply bind_Some in Hs as (c1 & (m & _ & [= <-])%bind_Some & [= <-]).
  - unfold pump_publish in Hs. destruct (ws_pump c); [|discriminate]. by injection Hs as <-.
  - destruct (call_start p c); [|discriminate]. by injection Hs as <-.
  - apply bind_Some in Hs as (p & _ & Hs). unfold over. by apply call_step_runner in Hs as [-> ->].
  - unfold QuerySubscription_Next in Hs. apply bind_Some in Hs as (x & _ & Hs).
    destruct (h_closedOK x || is_done c); [discriminate|]. destruct (h_updates x); [discriminate|]. by injection Hs as <-.
  - unfold QuerySetSubscription_Next in Hs. apply bind_Some in Hs as (x & _ & Hs).
    destruct (wt_closed x || is_done c); [discriminate|]. destruct (wt_updates x); [discriminate|]. by injection Hs as <-.
  - injection Hs as <-. unfold QuerySetSubscription_Close. by destruct (ws_sets c !! w) as [[? []]|].
Qed.

(** ** A step of the system *)

(** What it does to the realtime clients: nothing, a new one, or a step of one of them. *)
Inductive clients_move (s s' : system) : Prop :=
  | move_none : sy_clients s' = sy_clients s -> sy_nextClient s' = sy_nextClient s -> clients_move s s'
  | move_new : sy_clients s' = <[sy_nextClient s := NewWebSocketClient]> (sy_clients s) ->
      sy_nextClient s' = sy_nextClient s + 1 -> clients_move s s'
  | move_one n e c c' : sy_clients s !! n = Some c -> ws_step proto_text e c = Some c' ->
      sy_clients s' = <[n := c']> (sy_clients s) -> sy_nextClient s' = sy_nextClient s -> clients_move s s'.

Lemma client_step_moves n e s s' k p :
  client_step proto_text n e s = Some s' -> clients_move s (sy_put_call k p s').
Proof. intros (c & c' & Hc & Hs & ->)%client_step_eq. by eapply (move_one _ _ n e c c'). Qed.
Lemma invoke_moves n m s s' j k p :
  invoke proto_text n m s = Some (s', j) -> clients_move s (sy_put_call k p s').
Proof. intros (c & c' & Hc & Hs & -> & ->)%invoke_eq. by eapply (move_one _ _ n (RCall m) c c'). Qed.

(** Opens a step of a call, and says what it does to the clients. *)
Ltac open_facade H :=
  unfold facade_step in H; cbn [realtime_step use_step close_step change_step callback_step] in H;
  repeat match type of H with
  | (_ ≫= _) = Some _ => apply bind_Some in H; let x := fresh "x" in let Hx := fresh "Hx" in destruct H as (x & Hx & H)
  | (let '(_, _) := ?x in _) = Some _ => destruct x
  end.

Lemma facade_step_moves env k i p s s' : facade_step proto_text env k i p s = Some s' -> clients_move s s'.
Proof.
  intros H. destruct p; open_facade H; try discriminate H; try (injection H as <-; by apply move_none);
    try (injection H as <-; by eapply client_step_moves); try (injection H as <-; by eapply invoke_moves).
  all: repeat case_match; simplify_eq; try (by apply move_none); try (by apply move_new).
  all: open_facade H; simplify_eq; by eapply invoke_moves.
Qed.

(** ** Who sees to a realtime client *)

(** The client a call has in its hands: one it has made and not installed, or one it has to close;
    and the client whose end it waits for. *)
Definition owned (p : facade_call) : option Z :=
  match p with
  | RealtimeIdentity _ _ n | RealtimeIdentityWait _ _ n _ | RealtimeGiveUp n _ | RealtimeGiveUpWait n _
  | RealtimeInstall _ _ n | RealtimeDiscard _ n _ | RealtimeDiscardWait _ n _ | CloseCancel n | CloseWait n => Some n
  | _ => None
  end.
Definition waiting (p : facade_call) : option Z :=
  match p with
  | RealtimeGiveUpWait n _ | RealtimeDiscardWait _ n _ | CloseWait n => Some n
  | _ => None
  end.

(** No client comes or goes, and none comes back. *)
Definition keeps (c c' : WebSocketClient) : Prop :=
  (over c -> over c') /\ (ws_canceled c = true -> ws_canceled c' = true).
Record same_clients (s s' : system) : Prop := {
  sc_next : sy_nextClient s' = sy_nextClient s;
  sc_back n c' : sy_clients s' !! n = Some c' -> exists c, sy_clients s !! n = Some c /\ keeps c c';
  sc_forth n : is_Some (sy_clients s !! n) -> is_Some (sy_clients s' !! n)
}.

(** A step of a call at [p], which comes to [p']. *)
Inductive hands (p p' : facade_call) (s s' : system) : Prop :=
  | hands_keep : owned p' = owned p -> same_clients s s' -> sy_webSocketClient s' = sy_webSocketClient s ->
      (forall n c', waiting p' = Some n -> sy_clients s' !! n = Some c' -> ws_canceled c' = true) -> hands p p' s s'
  | hands_make : owned p = None -> owned p' = Some (sy_nextClient s) -> waiting p' = None ->
      sy_clients s' = <[sy_nextClient s := NewWebSocketClient]> (sy_clients s) ->
      sy_nextClient s' = sy_nextClient s + 1 -> sy_webSocketClient s' = sy_webSocketClient s -> hands p p' s s'
  | hands_install n : owned p = Some n -> owned p' = None -> waiting p' = None -> same_clients s s' ->
      sy_webSocketClient s = None -> sy_webSocketClient s' = Some n -> hands p p' s s'
  | hands_take n : owned p = None -> owned p' = Some n -> waiting p' = None -> same_clients s s' ->
      sy_webSocketClient s = Some n -> sy_webSocketClient s' = None -> hands p p' s s'
  | hands_end n c : owned p = Some n -> owned p' = None -> waiting p' = None -> same_clients s s' ->
      sy_webSocketClient s' = sy_webSocketClient s -> sy_clients s !! n = Some c -> over c -> hands p p' s s'.

#[export] Instance keeps_preorder : PreOrder keeps.
Proof. by split; [split|intros c1 c2 c3 [? ?] [? ?]; split; auto]. Qed.

Lemma same_clients_eq s s' : sy_clients s' = sy_clients s -> sy_nextClient s' = sy_nextClient s -> same_clients s s'.
Proof. intros E1 E2. split; [done|intros n c; rewrite E1; intros Hc; by exists c|by rewrite E1]. Qed.

Lemma same_clients_step n e s s' k p :
  client_step proto_text n e s = Some s' -> same_clients s (sy_put_call k p s').
Proof.
  intros (c & c' & Hc & Hs & ->)%client_step_eq. split; [done| |].
  - intros n1 c1. cbn. intros [[<- <-]|[Hne H1]]%lookup_insert_Some; [|by exists c1]. exists c. split; [done|].
    by apply (ws_step_runner e).
  - intros n1 [c1 H1]. cbn. destruct (decide (n = n1)) as [<-|Hne]; [rewrite lookup_insert_eq; eauto|].
    rewrite lookup_insert_ne by done. eauto.
Qed.
Lemma same_clients_invoke n m s s' j k p :
  invoke proto_text n m s = Some (s', j) -> same_clients s (sy_put_call k p s').
Proof.
  intros (c & c' & Hc & Hs & -> & ->)%invoke_eq. apply (same_clients_step n (RCall m)), client_step_eq. eauto.
Qed.

Lemma cancel_canceled n s s' : client_step proto_text n RCancel s = Some s' ->
  forall c', sy_clients s' !! n = Some c' -> ws_canceled c' = true.
Proof.
  intros (c & c' & Hc & Hs & ->)%client_step_eq c1. cbn. rewrite lookup_insert_eq. intros [= <-].
  unfold ws_step in Hs. destruct (crashed c); [discriminate|]. by injection Hs as <-.
Qed.

Lemma closed_over n s r : closed n s = Some r -> exists c, sy_clients s !! n = Some c /\ over c.
Proof.
  intros (c & Hc & H)%bind_Some. exists c. split; [done|]. unfold WebSocketClient_Close in H. unfold over.
  destruct (ws_runner c); try discriminate H; eauto.
Qed.

Lemma facade_step_hands env k i p s s' : facade_step proto_text env k i p s = Some s' ->
  exists p', sy_calls s' = <[k := p']> (sy_calls s) /\ sy_nextCall s' = sy_nextCall s /\ hands p p' s s'.
Proof.
  intros H.
  assert (Hcall : forall n m s1 j p', invoke proto_text n m s = Some (s1, j) -> owned p' = owned p -> waiting p' = None ->
    exists q, sy_calls (sy_put_call k p' s1) = <[k := q]> (sy_calls s) /\
      sy_nextCall (sy_put_call k p' s1) = sy_nextCall s /\ hands p q s (sy_put_call k p' s1)).
  { intros n m s1 j p' Hi Ho Hw. pose proof (same_clients_invoke _ _ _ _ _ k p' Hi) as Hs.
    apply invoke_eq in Hi as (c & c' & Hc & _ & -> & ->). exists p'. split; [done|]. split; [done|].
    apply hands_keep; try done. congruence. }
  assert (Hcancel : forall n s1 p', client_step proto_text n RCancel s = Some s1 -> owned p' = owned p ->
    waiting p' = Some n ->
    exists q, sy_calls (sy_put_call k p' s1) = <[k := q]> (sy_calls s) /\
      sy_nextCall (sy_put_call k p' s1) = sy_nextCall s /\ hands p q s (sy_put_call k p' s1)).
  { intros n s1 p' Hi Ho Hw. pose proof (same_clients_step _ _ _ _ k p' Hi) as Hs.
    pose proof (cancel_canceled _ _ _ Hi) as Hc'.
    apply client_step_eq in Hi as (c & c' & Hc & _ & ->). exists p'. split; [done|]. split; [done|].
    apply hands_keep; try done. intros n1 c1. rewrite Hw. intros [= <-]. apply Hc'. }
  destruct p; open_facade H; try discriminate H;
    try (injection H as <-; by eapply Hcancel);
    try (injection H as <-; by eapply Hcall).
  all: repeat case_match; simplify_eq.
  all: try (eexists; split; [reflexivity|]; split; [reflexivity|];
    first [ by apply hands_keep; [|apply same_clients_eq| |]
          | by eapply hands_make
          | by eapply hands_install; [..|apply same_clients_eq| |]
          | by eapply hands_take; [..|apply same_clients_eq| |]
          | match goal with Hx : closed ?n ?s = Some _ |- _ =>
              destruct (closed_over n s _ Hx) as (c & Hc & Ho); by eapply hands_end; [..|apply same_clients_eq| | |] end ]).
  all: open_facade H; injection H as <-; by eapply Hcall.
Qed.

(** Every client is in the facade, in the hands of one call, or over. *)
Record attended (s : system) : Prop := {
  at_next n : is_Some (sy_clients s !! n) -> n < sy_nextClient s;
  at_calls k : is_Some (sy_calls s !! k) -> k < sy_nextCall s;
  at_current n : sy_webSocketClient s = Some n -> is_Some (sy_clients s !! n);
  at_owned k p n : sy_calls s !! k = Some p -> owned p = Some n ->
    is_Some (sy_clients s !! n) /\ sy_webSocketClient s <> Some n;
  at_once k k' p p' n : sy_calls s !! k = Some p -> sy_calls s !! k' = Some p' ->
    owned p = Some n -> owned p' = Some n -> k = k';
  at_all n c : sy_clients s !! n = Some c ->
    sy_webSocketClient s = Some n \/ (exists k p, sy_calls s !! k = Some p /\ owned p = Some n) \/ over c;
  at_waits k p n c : sy_calls s !! k = Some p -> waiting p = Some n -> sy_clients s !! n = Some c ->
    ws_canceled c = true
}.

Lemma waiting_owned p n : waiting p = Some n -> owned p = Some n.
Proof. by destruct p. Qed.

(** Lookups after the step of a call. *)
Ltac after_call Ec :=
  rewrite ?Ec;
  repeat match goal with
  | |- <[_ := _]> _ !! _ = Some _ -> _ => let Hq := fresh "Hq" in intros [[<- <-]|[? Hq]]%lookup_insert_Some
  end.

Section step.
Context (s s' : system) (k : Z) (p p' : facade_call) (H : attended s) (Hk : sy_calls s !! k = Some p)
  (Ec : sy_calls s' = <[k := p']> (sy_calls s)) (En : sy_nextCall s' = sy_nextCall s).

Lemma attended_ids k' : is_Some (sy_calls s' !! k') -> k' < sy_nextCall s'.
Proof.
  intros [q Hq]. rewrite En. apply (at_calls _ H). rewrite Ec in Hq.
  apply lookup_insert_Some in Hq as [[<- _]|[_ Hq]]; eauto.
Qed.

(** Another call keeps what it has in its hands. *)
Lemma attended_other n k1 q : sy_calls s !! k1 = Some q -> owned q = Some n -> owned p <> Some n ->
  exists k1 q, sy_calls s' !! k1 = Some q /\ owned q = Some n.
Proof. intros Hq Hn Hp. exists k1, q. rewrite Ec, lookup_insert_ne; [done|]. intros <-. congruence. Qed.

Lemma attended_keep : owned p' = owned p -> same_clients s s' -> sy_webSocketClient s' = sy_webSocketClient s ->
  (forall n c', waiting p' = Some n -> sy_clients s' !! n = Some c' -> ws_canceled c' = true) -> attended s'.
Proof.
  intros Ho [S1 S2 S3] Ew Hwt. destruct H as [A1 A2 A3 A4 A5 A6 A7]. split; try apply attended_ids.
  - intros n [c Hc]. rewrite S1. apply A1. apply S2 in Hc as (c0 & Hc0 & _). eauto.
  - intros n. rewrite Ew. intros Hn. by apply S3, A3.
  - intros k1 q n. rewrite Ew. after_call Ec; rewrite ?Ho; intros Hn;
      [destruct (A4 k p n Hk Hn)|destruct (A4 k1 q n ltac:(done) Hn)]; (split; [by apply S3|done]).
  - intros k1 k2 q1 q2 n. after_call Ec; rewrite ?Ho; eauto.
  - intros n c' (c & Hc & Hkp)%S2. rewrite Ew. destruct (A6 n c Hc) as [Hn|[(k1 & q & Hq & Hn)|Hov]]; [by left| |].
    + right; left. destruct (decide (owned p = Some n)) as [Hp|Hp]; [|by eapply attended_other].
      exists k, p'. rewrite Ec, lookup_insert_eq. by rewrite Ho.
    + right; right. by apply Hkp.
  - intros k1 q n c'. after_call Ec; intros Hn Hc'; [by eapply Hwt|].
    destruct (S2 n c' Hc') as (c & Hc & Hkp). apply Hkp. by eapply A7.
Qed.

Lemma attended_make : owned p = None -> owned p' = Some (sy_nextClient s) -> waiting p' = None ->
  sy_clients s' = <[sy_nextClient s := NewWebSocketClient]> (sy_clients s) ->
  sy_nextClient s' = sy_nextClient s + 1 -> sy_webSocketClient s' = sy_webSocketClient s -> attended s'.
Proof.
  intros Ho Ho' Hw Es Enx Ew. destruct H as [A1 A2 A3 A4 A5 A6 A7].
  assert (Hfresh : forall n, is_Some (sy_clients s !! n) -> n <> sy_nextClient s) by (intros n Hn%A1; lia).
  assert (Hforth : forall n, is_Some (sy_clients s !! n) -> is_Some (sy_clients s' !! n)).
  { intros n Hn. rewrite Es, lookup_insert_ne; [done|]. apply not_eq_sym. auto. }
  split; try apply attended_ids.
  - intros n [c Hc]. rewrite Enx. rewrite Es in Hc. apply lookup_insert_Some in Hc as [[<- _]|[_ Hc]]; [lia|].
    enough (n < sy_nextClient s) by lia. apply A1. eauto.
  - intros n. rewrite Ew. intros Hn. by apply Hforth, A3.
  - intros k1 q n. rewrite Ew. after_call Ec.
    + rewrite Ho'. intros [= <-]. split; [by rewrite Es, lookup_insert_eq|]. intros Hn%A3. by apply (Hfresh _ Hn).
    + intros Hn. destruct (A4 k1 q n ltac:(done) Hn). auto.
  - intros k1 k2 q1 q2 n. after_call Ec; try done; rewrite ?Ho'; try (by eauto).
    + intros [= <-] Hn. destruct (A4 _ _ _ ltac:(done) Hn) as [Hs _]. by destruct (Hfresh _ Hs).
    + intros Hn [= <-]. destruct (A4 _ _ _ ltac:(done) Hn) as [Hs _]. by destruct (Hfresh _ Hs).
  - intros n c. rewrite Es, Ew. intros [[<- <-]|[Hne Hc]]%lookup_insert_Some.
    + right; left. exists k, p'. by rewrite Ec, lookup_insert_eq.
    + destruct (A6 n c Hc) as [Hn|[(k1 & q & Hq & Hn)|Hov]]; [by left| |by right; right].
      right; left. eapply attended_other; [done..|congruence].
  - intros k1 q n c. after_call Ec; [congruence|]. intros Hn. rewrite Es.
    intros [[<- <-]|[_ Hc]]%lookup_insert_Some; [|by eapply A7].
    destruct (A4 _ _ _ ltac:(done) (waiting_owned _ _ Hn)) as [Hs _]. by destruct (Hfresh _ Hs).
Qed.

(** A client changes hands between the call and the facade, or is over. *)
Lemma attended_pass : waiting p' = None -> same_clients s s' ->
  (forall n, sy_webSocketClient s' = Some n -> is_Some (sy_clients s !! n)) ->
  (forall n, owned p' = Some n -> is_Some (sy_clients s !! n) /\ sy_webSocketClient s' <> Some n /\
     forall k1 q, k1 <> k -> sy_calls s !! k1 = Some q -> owned q <> Some n) ->
  (forall k1 q n, k1 <> k -> sy_calls s !! k1 = Some q -> owned q = Some n -> sy_webSocketClient s' <> Some n) ->
  (forall n c, sy_webSocketClient s = Some n \/ owned p = Some n -> sy_clients s !! n = Some c ->
     sy_webSocketClient s' = Some n \/ owned p' = Some n \/ over c) -> attended s'.
Proof.
  intros Hw [S1 S2 S3] B1 B2 B3 B4. destruct H as [A1 A2 A3 A4 A5 A6 A7]. split; try apply attended_ids.
  - intros n [c Hc]. rewrite S1. apply A1. apply S2 in Hc as (c0 & Hc0 & _). eauto.
  - intros n Hn. apply S3. auto.
  - intros k1 q n. after_call Ec; intros Hn.
    + destruct (B2 n Hn) as (Hs & Hc & _). auto.
    + destruct (A4 k1 q n ltac:(done) Hn). eauto.
  - intros k1 k2 q1 q2 n. after_call Ec; try done; try (by eauto).
    + intros Hn Hn2. destruct (B2 n Hn) as (_ & _ & Ho). destruct (Ho k2 q2); [congruence|done..].
    + intros Hn1 Hn. destruct (B2 n Hn) as (_ & _ & Ho). destruct (Ho k1 q1); [congruence|done..].
  - intros n c' (c & Hc & Hkp)%S2.
    assert (Hmine : sy_webSocketClient s = Some n \/ owned p = Some n -> sy_webSocketClient s' = Some n \/
      (exists k1 q, sy_calls s' !! k1 = Some q /\ owned q = Some n) \/ over c').
    { intros Hm. destruct (B4 n c Hm Hc) as [Hn|[Hn|Hov]]; [by left| |right; right; by apply Hkp].
      right; left. exists k, p'. by rewrite Ec, lookup_insert_eq. }
    destruct (A6 n c Hc) as [Hn|[(k1 & q & Hq & Hn)|Hov]]; [by auto| |right; right; by apply Hkp].
    destruct (decide (owned p = Some n)) as [Hp|Hp]; [by auto|]. right; left. by eapply attended_other.
  - intros k1 q n c'. after_call Ec; [congruence|]. intros Hn (c & Hc & Hkp)%S2. apply Hkp. by eapply A7.
Qed.

Lemma attended_hands : hands p p' s s' -> attended s'.
Proof.
  assert (Hone : forall n k1 q, k1 <> k -> owned p = Some n -> sy_calls s !! k1 = Some q -> owned q <> Some n).
  { intros n k1 q Hne Hp Hq Hn. by apply Hne, (at_once _ H k1 k q p n). }
  intros [Ho Hs Ew Hwt|Ho Ho' Hw Es Enx Ew|n Ho Ho' Hw Hs Ew Ew'|n Ho Ho' Hw Hs Ew Ew'|n c Ho Ho' Hw Hs Ew Hc Hov].
  - by apply attended_keep.
  - by apply attended_make.
  - apply attended_pass; try done.
    + intros n'. rewrite Ew'. intros [= <-]. by apply (at_owned _ H k p).
    + by rewrite Ho'.
    + intros k1 q n' Hne Hq Hn. rewrite Ew'. intros [= <-]. by eapply Hone.
    + intros n' c. rewrite Ew, Ew'. intros [?|Hn] _; [done|]. left. congruence.
  - apply attended_pass; try done.
    + by rewrite Ew'.
    + intros n'. rewrite Ho', Ew'. intros [= <-]. split; [by apply (at_current _ H)|]. split; [done|].
      intros k1 q _ Hq Hn. by destruct (at_owned _ H k1 q n Hq Hn).
    + intros k1 q n' _ _ _. by rewrite Ew'.
    + intros n' c. rewrite Ew, Ho, Ho'. intros [[= <-]|?]; [|done]. auto.
  - apply attended_pass; try done.
    + intros n'. rewrite Ew. apply (at_current _ H).
    + by rewrite Ho'.
    + intros k1 q n' _ Hq Hn. rewrite Ew. by destruct (at_owned _ H k1 q n' Hq Hn).
    + intros n' c'. rewrite Ew, Ho. intros [Hn|[= <-]] Hc'; [by left|]. right; right. congruence.
Qed.
End step.

(** *** In every reachable state *)

Lemma attended_new_call p s : facade_start p = true -> attended s -> attended (sy_new_call p s).
Proof.
  intros Hp [A1 A2 A3 A4 A5 A6 A7]. assert (Ho : owned p = None /\ waiting p = None) by (by destruct p).
  destruct Ho as [Ho Hw]. split; cbn; try done.
  - intros k [q [[<- _]|[_ Hq]]%lookup_insert_Some]; [lia|]. enough (k < sy_nextCall s) by lia. apply A2. eauto.
  - intros k q n [[<- <-]|[_ Hq]]%lookup_insert_Some Hn; [congruence|by eapply A4].
  - intros k1 k2 q1 q2 n [[<- <-]|[_ H1]]%lookup_insert_Some [[<- <-]|[_ H2]]%lookup_insert_Some; try congruence; eauto.
  - intros n c Hc. destruct (A6 n c Hc) as [Hn|[(k & q & Hq & Hn)|Hov]]; [by left| |by right; right].
    right; left. exists k, q. rewrite lookup_insert_ne; [done|]. intros <-.
    assert (sy_nextCall s < sy_nextCall s) by eauto. lia.
  - intros k q n c [[<- <-]|[_ Hq]]%lookup_insert_Some; [congruence|by eapply A7].
Qed.

Lemma attended_client n e s s' : attended s -> client_step proto_text n e s = Some s' -> attended s'.
Proof.
  intros [A1 A2 A3 A4 A5 A6 A7] H. destruct (same_clients_step n e s s' 0 CloseTake H) as [_ S2 S3].
  apply client_step_eq in H as (c & c' & Hc & Hs & ->). cbn -[insert] in *. split; try done.
  - intros n1 [c1 (c0 & H0 & _)%S2]. eauto.
  - intros n1 Hn. by apply S3, A3.
  - intros k p n1 Hp Hn. destruct (A4 k p n1 Hp Hn). auto.
  - intros n1 c1 (c0 & H0 & Hk)%S2. destruct (A6 n1 c0 H0) as [?|[?|Hov]]; [by left|by right; left|].
    right; right. by apply Hk.
  - intros k p n1 c1 Hp Hw (c0 & H0 & Hk)%S2. apply Hk. by eapply A7.
Qed.

Lemma system_step_attended e s s' : attended s -> system_step proto_text e s = Some s' -> attended s'.
Proof.
  intros H. unfold system_step. destruct (stopped s); [discriminate|]. destruct e as [p|env k i|n e].
  - destruct (facade_start p) eqn:Hp; [|discriminate]. intros [= <-]. by apply attended_new_call.
  - intros (p & Hk & (p' & Ec & En & Hh)%facade_step_hands)%bind_Some. by eapply attended_hands.
  - destruct (from_outside e); [|discriminate]. by apply attended_client.
Qed.

Lemma system_runs_attended allowed f n s : system_runs proto_text allowed f n s -> attended s.
Proof.
  induction 1 as [|n s e s' _ IH _ Hs]; [|by eapply system_step_attended].
  split; cbn; try done; by intros ? [? ?].
Qed.

(** Each realtime client has taken steps of its own machine only. *)
Lemma system_step_moves e s s' : system_step proto_text e s = Some s' -> clients_move s s'.
Proof.
  unfold system_step. destruct (stopped s); [discriminate|]. destruct e as [p|env k i|n e].
  - destruct (facade_start p); [|discriminate]. intros [= <-]. by apply move_none.
  - intros (p & Hk & H)%bind_Some. by eapply facade_step_moves.
  - destruct (from_outside e); [|discriminate].
    intros (c & c' & Hc & Hs & ->)%client_step_eq. by eapply (move_one _ _ n e c c').
Qed.

Lemma clients_run allowed f n s : system_runs proto_text allowed f n s -> 0 <= n /\
  forall j c, sy_clients s !! j = Some c -> exists m, m <= n /\ ws_runs proto_text m c.
Proof.
  induction 1 as [|n s e s' _ [Hn IH] _ Hs]; [by split|]. split; [lia|]. intros j c.
  assert (Hold : forall c, sy_clients s !! j = Some c -> exists m, m <= n + 1 /\ ws_runs proto_text m c).
  { intros c0 (m & Hm & Hr)%IH. exists m. split; [lia|done]. }
  destruct (system_step_moves _ _ _ Hs) as [-> _| -> _|i ev c0 c1 H0 Hs1 -> _].
  - apply Hold.
  - intros [[_ <-]|[_ Hc]]%lookup_insert_Some; [exists 0; split; [lia|constructor]|by apply Hold].
  - intros [[<- <-]|[_ Hc]]%lookup_insert_Some; [|by apply Hold].
    destruct (IH i c0 H0) as (m & Hm & Hr). exists (m + 1). split; [lia|by eapply ws_runs_step].
Qed.
End facts.
