(* ===== verification/FacadeLifetimes.v ===== *)
(** * How long the realtime clients of a facade live

    None is left running: every client that [realtime] has made is the facade's, or a call is about
    to install it or to close it, or it has ended, under every interleaving of calls; and a call of
    [Close] can always be brought to its end, which the goroutines of the client see to alone.  And
    one schedule: the client lives no longer than the context of the call that made it. *)
From S2P Require Import Prelude GoStrings GoJson Values Results GoEncode Protocol ClientMessages ServerMessages ClientState BaseClient ClientInvariant SyncManager HttpClient Facade FacadeTheorems ManagerRun RealtimeClient RealtimeTheorems FacadeRun FacadeRunFacts.
From Stdlib Require Import Strings.Byte.
Local Open Scope Z_scope.

(** ** Schedules, for the concrete instances *)

Definition any_event : system_event -> system -> Prop := fun _ _ => True.
Definition steps_of (k : Z) (l : list input) : list system_event := YStep sample_tokens k <$> l.
Definition played (es : list system_event) (f : Facade) : system :=
  default (newSystem f) (system_play ws_no_text es (newSystem f)).

Lemma played_runs es f :
  bool_decide (is_Some (system_play ws_no_text es (newSystem f))) = true ->
  system_runs ws_no_text any_event f (0 + Z.of_nat (length es)) (played es f).
Proof.
  intros [s Hs]%bool_decide_eq_true. unfold played. rewrite Hs. cbn.
  by apply (system_play_runs _ f 0 es (newSystem f)); [constructor|].
Qed.

(** ** Nobody is forgotten *)

(** No call of the facade is on its way. *)
Definition calls_over (s : system) : bool :=
  map_forallb (fun _ p => match p with FacadeReturned _ => true | _ => false end) (sy_calls s).

(** C11. Whatever calls of the facade overlap, and whatever the realtime clients do meanwhile: a
    client that has been made is the facade's own, or exactly one call has it in its hands, to
    install or to close it, or it has ended; so once no call is on its way, every client but the
    facade's has ended.  And each of them has made a run of its own machine, so that what is proved
    of the realtime client holds of it. *)
Theorem clients_attended proto_text allowed f n s :
  system_runs proto_text allowed f n s ->
  (forall i c, sy_clients s !! i = Some c ->
     (sy_webSocketClient s = Some i /\ forall k p, sy_calls s !! k = Some p -> owned p <> Some i) \/
     (sy_webSocketClient s <> Some i /\ exists k p, sy_calls s !! k = Some p /\ owned p = Some i /\
        forall k' p', sy_calls s !! k' = Some p' -> owned p' = Some i -> k' = k) \/
     over c) /\
  (calls_over s = true -> forall i c, sy_clients s !! i = Some c -> sy_webSocketClient s <> Some i -> over c) /\
  (forall i c, sy_clients s !! i = Some c -> exists m, m <= n /\ ws_runs proto_text m c).
Proof.
  intros Hr. pose proof (system_runs_attended _ _ _ _ _ Hr) as H. split; [|split; [|by eapply clients_run]].
  - intros i c Hc. destruct (at_all _ H i c Hc) as [Hi|[(k & p & Hk & Hp)|Ho]]; [left|right; left|by right; right].
    + split; [done|]. intros k p Hk Hp. by destruct (at_owned _ H k p i Hk Hp).
    + destruct (at_owned _ H k p i Hk Hp) as [_ Hne]. split; [done|]. exists k, p. split; [done|]. split; [done|].
      intros k' p' Hk' Hp'. by eapply (at_once _ H).
  - intros Hq i c Hc Hne. destruct (at_all _ H i c Hc) as [Hi|[(k & p & Hk & Hp)|Ho]]; [done| |done].
    unfold calls_over in Hq. rewrite map_forallb_true in Hq. specialize (Hq k p Hk). by destruct p.
Qed.

(** Two watchers at once make two clients; the second to come closes its own and uses the other. *)
Definition stop_events : list ws_event := [RManager (ERun None 0); RRun; RRun; RRun].
Definition call_events (n j : Z) : list system_event := YClient n <$> [RStep j Go; RStep j Go].
Definition two_watchers : list system_event :=
  [YCall (RealtimeCheck UseWatchAll); YCall (RealtimeCheck UseWatchAll)] ++
  steps_of 0 [Go; Go; Go; Go] ++ steps_of 1 [Go; Go; Go; Go] ++ call_events 0 0 ++ call_events 1 0 ++
  steps_of 0 [Go; Go; Go] ++ call_events 0 1 ++ steps_of 0 [Go] ++
  steps_of 1 [Go; Go; Go] ++ (YClient 1 <$> stop_events) ++ steps_of 1 [Go; Go] ++ call_events 0 3 ++ steps_of 1 [Go].

Definition user_facade : Facade := new_facade [WithAuth "token"].
Definition watched : system := played two_watchers user_facade.
Lemma watched_runs : system_runs ws_no_text any_event user_facade (0 + Z.of_nat (length two_watchers)) watched.
Proof. exact (played_runs two_watchers user_facade ltac:(vm_compute; reflexivity)). Qed.

Lemma clients_attended_witness :
  sy_webSocketClient watched = Some 0 /\
  map_to_list (sy_calls watched) = [(1, FacadeReturned (GotWatcher 0 4)); (0, FacadeReturned (GotWatcher 0 2))] /\
  exists c, sy_clients watched !! 1 = Some c /\ over c.
Proof.
  split; [vm_compute; reflexivity|]. split; [vm_compute; reflexivity|].
  destruct (clients_attended ws_no_text any_event user_facade _ watched watched_runs) as (_ & H & _).
  assert (Hc : is_Some (sy_clients watched !! 1)) by (apply (bool_decide_unpack _); vm_compute; exact I).
  destruct Hc as [c Hc]. exists c. split; [exact Hc|].
  apply (H ltac:(vm_compute; reflexivity) 1 c Hc). vm_compute. discriminate.
Defined.

(** ** Close ends *)

(** The steps of a client that has been told to end. *)
Definition stop_event (e : ws_event) : bool :=
  match e with RManager (ERun _ _ | ECancel _) | RRun => true | _ => false end.

Lemma stop_outside e : stop_event e = true -> from_outside e = true.
Proof. by destruct e. Qed.

Section close.
Context (proto_text : proto_error -> string).

Lemma run_out c : crashed c = false -> (ws_runner c = Running -> exists e, mx_pc (ws_manager c) = Finished e) ->
  exists es c', (length es <= 3)%nat /\ forallb stop_event es = true /\ ws_play proto_text es c = Some c' /\ over c' /\
    crashed c' = false.
Proof.
  intros Hcr Hfin.
  assert (Hd : forall c e, crashed c = false -> ws_runner c = Closing e -> exists c', ws_step proto_text RRun c = Some c' /\
    over c' /\ crashed c' = false).
  { intros c0 e H0 He. exists (ws_put_runner true (Done e) c0). unfold ws_step, run. rewrite H0, He.
    split; [done|]. split; [by exists e|done]. }
  assert (Hr : forall c e, crashed c = false -> ws_runner c = Releasing e -> exists c1 c2, ws_step proto_text RRun c = Some c1 /\
    ws_step proto_text RRun c1 = Some c2 /\ over c2 /\ crashed c2 = false).
  { intros c0 e H0 He. exists (ws_put_runner true (Closing e) (releaseRuntimeState c0)).
    destruct (Hd (ws_put_runner true (Closing e) (releaseRuntimeState c0)) e) as (c2 & ? & ?); [done|done|].
    exists c2. split; [|done]. unfold ws_step, run. by rewrite H0, He. }
  destruct (ws_runner c) as [|e|e|e] eqn:He.
  - destruct (Hfin eq_refl) as [e Hp]. set (c0 := ws_put_runner true (Releasing e) c).
    destruct (Hr c0 e) as (c1 & c2 & H1 & H2 & H3); [done|done|]. exists [RRun; RRun; RRun], c2.
    assert (H0 : ws_step proto_text RRun c = Some c0) by (unfold ws_step, run; by rewrite Hcr, He, Hp).
    split; [done|]. split; [done|]. split; [|done]. cbn. by rewrite H0; cbn; rewrite H1; cbn; rewrite H2.
  - destruct (Hr c e) as (c1 & c2 & H1 & H2 & H3); [done|done|]. exists [RRun; RRun], c2.
    split; [cbn; lia|]. split; [done|]. split; [|done]. cbn. by rewrite H1; cbn; rewrite H2.
  - destruct (Hd c e) as (c1 & H1 & H3); [done|done|]. exists [RRun], c1.
    split; [cbn; lia|]. split; [done|]. split; [|done]. cbn. by rewrite H1.
  - exists [], c. split; [cbn; lia|]. split; [done|]. split; [done|]. split; [by exists e|done].
Qed.

Lemma finished_pc e now m : mx_pc (finishRun e now m) = Finished e.
Proof. unfold finishRun, mark. by destruct (markDisconnected now _). Qed.

(** Once its context has ended, a client can come to its end by itself. *)
Lemma stop_client c : crashed c = false -> ws_canceled c = true ->
  exists es c', (length es <= 4)%nat /\ forallb stop_event es = true /\ ws_play proto_text es c = Some c' /\ over c' /\
    crashed c' = false.
Proof.
  intros Hcr Hca.
  assert (Hgo : forall e m, internal e c = true -> stop_event (RManager e) = true ->
    step proto_text e (ws_manager c) = Some m -> (exists x, mx_pc m = Finished x) ->
    exists es c', (length es <= 4)%nat /\ forallb stop_event es = true /\ ws_play proto_text es c = Some c' /\ over c' /\
      crashed c' = false).
  { intros e m Hi Hse Hs Hm. destruct (run_out (ws_put_manager m c)) as (es & c' & Hl & Hes & Hp & Ho); [done|done|].
    exists (RManager e :: es), c'. split; [cbn; lia|]. split; [by cbn; rewrite Hes; destruct e|]. split; [|done].
    cbn [ws_play]. unfold ws_step. rewrite Hcr, Hi. unfold manager_step. rewrite Hs. exact Hp. }
  destruct (mx_pc (ws_manager c)) eqn:Hp.
  2-7: (eapply (Hgo (ECancel 0)); [done|done|cbn; by rewrite Hp|]; exists RunCanceled; apply finished_pc).
  - apply (Hgo (ERun None 0) (startRun None 0 (ws_manager c))); [done|done|by cbn; rewrite Hp|]. eexists. apply finished_pc.
  - destruct (run_out c) as (es & c' & Hl & H); [done|by eauto|]. exists es, c'. split; [lia|done].
Qed.

(** *** In the system *)

Lemma stopped_put_client n c s : stopped s = false -> crashed c = false -> stopped (sy_put_client n c s) = false.
Proof.
  unfold stopped. rewrite !orb_false_iff, !negb_false_iff, !map_forallb_true. cbn. intros [H1 H2] Hc. split; [done|].
  intros i c' [[<- <-]|[_ Hi]]%lookup_insert_Some; [by rewrite Hc|by eapply H2].
Qed.

Lemma stopped_put_call k p s : stopped s = false -> p <> NilDereferenced -> stopped (sy_put_call k p s) = false.
Proof.
  unfold stopped. rewrite !orb_false_iff, !negb_false_iff, !map_forallb_true. cbn. intros [H1 H2] Hp. split; [|done].
  intros i q [[<- <-]|[_ Hi]]%lookup_insert_Some; [by destruct p|by eapply H1].
Qed.

Lemma stopped_client n c s : stopped s = false -> sy_clients s !! n = Some c -> crashed c = false.
Proof.
  unfold stopped. rewrite orb_false_iff, !negb_false_iff, !map_forallb_true. intros [_ H] Hc.
  apply H in Hc. by apply negb_true_iff.
Qed.

Lemma ws_play_crashed es c c' : ws_play proto_text es c = Some c' -> crashed c' = false -> crashed c = false.
Proof.
  destruct es as [|e es]; cbn; [by intros [= <-]|]. intros (c1 & Hs & _)%bind_Some _.
  unfold ws_step in Hs. by destruct (crashed c).
Qed.

(** The steps of a client are steps of the system. *)
Lemma lift_play n es : forall s c c', stopped s = false -> sy_clients s !! n = Some c -> forallb from_outside es = true ->
  ws_play proto_text es c = Some c' -> crashed c' = false ->
  system_play proto_text (YClient n <$> es) s = Some (sy_put_client n c' s).
Proof.
  induction es as [|e es IH]; intros s c c' Hst Hc Hes Hp Hcr; cbn in *.
  - injection Hp as <-. unfold sy_put_client. rewrite insert_id by done. by destruct s.
  - apply andb_true_iff in Hes as [He Hes]. apply bind_Some in Hp as (c1 & Hs & Hp).
    unfold system_step. rewrite Hst, He.
    rewrite (proj2 (client_step_eq proto_text n e s (sy_put_client n c1 s))) by eauto. cbn.
    rewrite (IH _ c1 c'); [|apply stopped_put_client; [done|by eapply ws_play_crashed]|apply lookup_insert_eq|done..].
    unfold sy_put_client. cbn. by rewrite insert_insert_eq.
Qed.

Lemma outside_stops es : forallb stop_event es = true -> forallb from_outside es = true.
Proof. rewrite !forallb_forall. intros H e He. by apply stop_outside, H. Qed.
End close.

(** A call of [Close], the client it closes, and the steps that it waits for. *)
Definition closing (p : facade_call) : bool :=
  match p with CloseTake | CloseCancel _ | CloseWait _ => true | _ => false end.
Definition taken (p : facade_call) (s : system) : option Z :=
  match p with CloseTake => sy_webSocketClient s | CloseCancel n | CloseWait n => Some n | _ => None end.
Definition closing_event (k : Z) (e : system_event) : bool :=
  match e with YCall _ => false | YStep _ k' _ => k' =? k | YClient _ e => stop_event e end.

Section close_ends.
Context (proto_text : proto_error -> string) (k : Z).

Definition can_close (s : system) (t : option Z) (bound : nat) : Prop :=
  exists es s' r, (length es <= bound)%nat /\ forallb (closing_event k) es = true /\
    system_play proto_text es s = Some s' /\ sy_calls s' !! k = Some (FacadeReturned r) /\
    forall n, t = Some n -> exists c, sy_clients s' !! n = Some c /\ over c.

Lemma can_close_step env s s1 t b : system_step proto_text (YStep env k Go) s = Some s1 -> can_close s1 t b -> can_close s t (S b).
Proof.
  intros Hs (es & s' & r & Hl & He & Hp & Hr). exists (YStep env k Go :: es), s', r. split; [cbn; lia|].
  split; [by cbn; rewrite Z.eqb_refl|]. split; [|done]. cbn. by rewrite Hs.
Qed.

Lemma close_waits s n c : stopped s = false -> sy_calls s !! k = Some (CloseWait n) -> sy_clients s !! n = Some c ->
  ws_canceled c = true -> can_close s (Some n) 5.
Proof.
  intros Hst Hk Hc Hca.
  destruct (stop_client proto_text c) as (es & c' & Hl & Hes & Hp & [e Ho] & Hcr); [by eapply stopped_client|done|].
  pose proof (lift_play proto_text n es s c c' Hst Hc (outside_stops es Hes) Hp Hcr) as Hlift.
  set (s1 := sy_put_client n c' s) in *.
  assert (Hst1 : stopped s1 = false) by (by apply stopped_put_client).
  assert (Hcl : closed n s1 = WebSocketClient_Close c') by (unfold closed, s1; cbn; by rewrite lookup_insert_eq).
  assert (Hfin : exists r, system_step proto_text (YStep (fun _ _ => Err "") k Go) s1 = Some (sy_put_call k (FacadeReturned r) s1)).
  { unfold system_step. rewrite Hst1. cbn [sy_calls s1 sy_put_client]. rewrite Hk. cbn [mbind option_bind facade_step close_step].
    rewrite Hcl. unfold WebSocketClient_Close. rewrite Ho. destruct e; by eexists. }
  destruct Hfin as [r' Hfin]. exists ((YClient n <$> es) ++ [YStep (fun _ _ => Err "") k Go]), (sy_put_call k (FacadeReturned r') s1), r'.
  split; [rewrite length_app, length_fmap; cbn; lia|]. split; [|split; [|split]].
  - rewrite forallb_app. cbn. rewrite Z.eqb_refl, andb_true_r. apply forallb_forall.
    intros x (y & <- & Hy)%in_map_iff. rewrite forallb_forall in Hes. by apply Hes.
  - apply system_play_app. exists s1. split; [done|]. cbn. by rewrite Hfin.
  - apply lookup_insert_eq.
  - intros ? [= <-]. exists c'. split; [apply lookup_insert_eq|]. by exists e.
Qed.
Lemma close_cancels s n c : stopped s = false -> sy_calls s !! k = Some (CloseCancel n) -> sy_clients s !! n = Some c ->
  can_close s (Some n) 6.
Proof.
  intros Hst Hk Hc. pose proof (stopped_client n c s Hst Hc) as Hcr.
  set (c1 := ws_put_runner true (ws_runner c) c).
  apply (can_close_step (fun _ _ => Err "") s (sy_put_call k (CloseWait n) (sy_put_client n c1 s))).
  - unfold system_step. rewrite Hst, Hk. cbn [mbind option_bind facade_step close_step].
    rewrite (proj2 (client_step_eq proto_text n RCancel s (sy_put_client n c1 s))); [done|].
    exists c, c1. split; [done|]. split; [|done]. unfold ws_step. by rewrite Hcr.
  - apply (close_waits _ n c1); [|apply lookup_insert_eq..|done].
    apply stopped_put_call; [by apply stopped_put_client|done].
Qed.

(** C12. [Close] ends.  Whenever a call of it is on its way, the call itself and the goroutines of the
    client it closes can bring it to its end, in seven steps at most, without the network, the user or
    another call; and the client it has taken has ended then. *)
Theorem close_ends allowed f n s p :
  system_runs proto_text allowed f n s -> stopped s = false -> sy_calls s !! k = Some p -> closing p = true ->
  can_close s (taken p s) 7.
Proof.
  intros Hr Hst Hk Hp. pose proof (system_runs_attended _ _ _ _ _ Hr) as H.
  assert (Hmore : forall t b, (b <= 7)%nat -> can_close s t b -> can_close s t 7).
  { intros t b Hb (es & s' & r & Hl & He). exists es, s', r. split; [lia|done]. }
  destruct p; try discriminate Hp; cbn [taken].
  - set (s1 := sy_put_webSocketClient None s).
    assert (Hst1 : stopped s1 = false) by done.
    destruct (sy_webSocketClient s) as [i|] eqn:Hi.
    + destruct (at_current _ H i Hi) as [c Hc].
      apply (can_close_step (fun _ _ => Err "") s (sy_put_call k (CloseCancel i) s1)).
      * unfold system_step. rewrite Hst, Hk. cbn. by rewrite Hi.
      * apply (close_cancels _ i c); [by apply stopped_put_call|apply lookup_insert_eq|done].
    + apply (Hmore _ 1%nat); [lia|]. apply (can_close_step (fun _ _ => Err "") s (sy_put_call k (FacadeReturned GotNil) s1)).
      * unfold system_step. rewrite Hst, Hk. cbn. by rewrite Hi.
      * exists [], (sy_put_call k (FacadeReturned GotNil) s1), GotNil. split; [done|]. split; [done|]. split; [done|].
        split; [apply lookup_insert_eq|done].
  - destruct (at_owned _ H k _ _ Hk eq_refl) as [[c Hc] _]. apply (Hmore _ 6%nat); [lia|]. by eapply close_cancels.
  - destruct (at_owned _ H k _ _ Hk eq_refl) as [[c Hc] _]. apply (Hmore _ 5%nat); [lia|].
    eapply close_waits; [done..|]. by apply (at_waits _ H k _ _ c Hk eq_refl).
Qed.
End close_ends.

(** The two watchers, and then [Close]. *)
Definition closing_events : list system_event := two_watchers ++ [YCall CloseTake].
Definition about_to_close : system := played closing_events user_facade.

Lemma close_ends_witness :
  sy_calls about_to_close !! 2 = Some CloseTake /\ can_close ws_no_text 2 about_to_close (Some 0) 7.
Proof.
  split; [vm_compute; reflexivity|].
  exact (close_ends ws_no_text 2 any_event user_facade _ about_to_close CloseTake
    (played_runs closing_events user_facade ltac:(vm_compute; reflexivity))
    ltac:(vm_compute; reflexivity) ltac:(vm_compute; reflexivity) eq_refl).
Defined.

(** ** The context of the first call *)

(** [realtime] makes the client with the context of the call that happens to be the first, and the
    client ends with it.  A subscription with a context of its own is then refused, although the
    facade has a realtime client, and so is every later one until [Close]. *)
Definition short_lived_events : list system_event :=
  [YCall (RealtimeCheck UseWatchAll)] ++ steps_of 0 [Go; Go; Go; Go; Go; Go] ++ call_events 0 0 ++ steps_of 0 [Go] ++
  (YClient 0 <$> [RManager (ERun (Some (repeat Byte.x00 16)) 1); RCancel; RManager (ECancel 2); RRun; RRun; RRun]) ++
  [YCall (RealtimeCheck (UseSubscribe "messages:list" GNil))] ++ steps_of 1 [Go; Go; Go] ++ [YClient 0 (RStep 2 Go)] ++ steps_of 1 [Go].

Lemma first_context_ends_client :
  let s := played short_lived_events (new_facade []) in
  sy_webSocketClient s = Some 0 /\ sy_calls s !! 0 = Some (FacadeReturned (GotWatcher 0 1)) /\
  sy_calls s !! 1 = Some (FacadeReturned (GotError (FailedRealtime ErrContext))).
Proof. split; [vm_compute; reflexivity|]. split; vm_compute; reflexivity. Qed.

(** And there is no way around it: a client whose context has ended refuses every use. *)
Lemma ended_client_refuses proto_text j i u c c' :
  ws_canceled c = true -> ws_calls c !! j = Some (use_call u) -> ws_step proto_text (RStep j i) c = Some c' ->
  exists e, ws_calls c' !! j = Some (CallReturned (RetError e)).
Proof.
  intros Hca Hj. unfold ws_step. destruct (crashed c); [discriminate|]. rewrite Hj. cbn [mbind option_bind].
  assert (Hd : exists e, doneErr c = Some e) by (unfold doneErr; rewrite Hca; destruct (ws_runner c); eauto).
  destruct Hd as [e Hd]. destruct u; cbn [use_call call_step]; unfold start; rewrite Hd;
    destruct i; try discriminate; intros [= <-]; eexists; apply lookup_insert_eq.
Qed.
