(* ===== verification/RealtimeIdentity.v ===== *)
(** * Changes of the identity at a realtime client

    Whom a realtime client acts for is changed by four operations and by nothing else; and how far a
    call of one of them has come says whether the change has been made.  And what Facade takes such a
    method to do is what the model of the realtime client does. *)
From S2P Require Import Prelude GoStrings GoJson Values Results GoEncode Protocol ClientMessages ServerMessages ClientState BaseClient ClientInvariant SyncManager HttpClient Facade FacadeTheorems ManagerRun ManagerFacts RealtimeClient RealtimeFacts RealtimeInvariant RealtimeTheorems FacadeRun FacadeRunFacts.
Local Open Scope Z_scope.

(** ** A change of the identity at a realtime client *)

(** Whom the client acts for, and whether it still acts. *)
Abbreviation fetcher c := (authFetcher (mx_client (ws_manager c))).
Definition live (c : WebSocketClient) : Prop := doneErr c = None.

(** What an operation that succeeds makes of it; and which operations can be refused. *)
Definition sets (op : operation) : option AuthTokenFetcher :=
  match op with
  | OSetAuth token => Some (FixedToken (UserAuthToken token))
  | OSetAdminAuth token actingAs => Some (FixedToken (AdminAuthToken token actingAs))
  | OSetAuthCallback _ f => f
  | _ => None
  end.
Definition refusable (op : operation) : bool :=
  match op with OSetAuthCallback _ (Some _) => true | _ => false end.

Lemma identity_operation op c : changes_identity op = true ->
  match operation_result op c with
  | Ok _ => authFetcher (perform op c) = sets op
  | Err _ => refusable op = true /\ authFetcher (perform op c) = authFetcher c
  end.
Proof.
  destruct op as [| | |t|t i| |env f| | | | |]; try discriminate; intros _; cbn; try done.
  destruct f as [f|]; cbn; [|done]. by destruct (call_fetcher env f false).
Qed.

(** A call of the client that makes such a change, and what its progress says: [before] is whom the
    client acted for when the call began. *)
Definition expects (op : operation) (before : option AuthTokenFetcher) (p : call) : option (option AuthTokenFetcher) :=
  match p with
  | CallOperation _ _ | DoOperation _ _ | CallReturned (RetError (ErrClient _)) => Some before
  | Flush FlushOperation | AwaitFlush FlushOperation | CallReturned (RetNil | RetError _) => Some (sets op)
  | _ => None
  end.
Definition fits (op : operation) (p : call) : Prop :=
  match p with
  | CallOperation op' _ | DoOperation op' _ => op' = op
  | CallReturned (RetError (ErrClient _)) => refusable op = true
  | _ => True
  end.
Definition op_at (op : operation) (before : option AuthTokenFetcher) (j : Z) (c : WebSocketClient) : Prop :=
  exists p f, ws_calls c !! j = Some p /\ fits op p /\ expects op before p = Some f /\ (live c -> fetcher c = f).

Definition identity_call (p : call) : bool :=
  match p with CallOperation op _ | DoOperation op _ => changes_identity op | _ => false end.

Section client.
Context (proto_text : proto_error -> string).

Lemma manager_step_fetcher e m m' : step proto_text e m = Some m' ->
  match e with EUser op => changes_identity op = false | _ => True end ->
  authFetcher (mx_client m') = authFetcher (mx_client m).
Proof.
  intros [->|(op & -> & Hop)]%step_does He; [done|]. apply perform_fetcher.
  destruct (changes_identity op) eqn:Hc; [|done].
  assert (Hu : user_operation op = true) by (by destruct op). specialize (Hop Hu).
  destruct e; try done. injection Hop as ->. congruence.
Qed.

Lemma live_step e c c' : ws_step proto_text e c = Some c' -> live c' -> live c.
Proof.
  intros [Ho Hc]%ws_step_runner. unfold live, doneErr, over in *. destruct (ws_runner c) as [|e1|e1|e1].
  4: { destruct Ho as [e2 He]; [by eexists|]. by rewrite He. }
  all: destruct (ws_canceled c); [|done]; rewrite Hc by done; by destruct (ws_runner c').
Qed.

(** A step of a call changes the state of that call alone. *)
Lemma after_flush_calls k f e c : exists q, ws_calls (after_flush k f e c) = <[k := q]> (ws_calls c) /\
  ws_next (after_flush k f e c) = ws_next c.
Proof.
  destruct f as [h| |h], e as [e|]; cbn [after_flush]; unfold finishUnsubscribe; repeat case_match; by eexists.
Qed.

Lemma manager_step_calls e c c' : manager_step proto_text e c = Some c' ->
  ws_calls c' = ws_calls c /\ ws_next c' = ws_next c.
Proof. by intros (m & _ & ->)%manager_step_eq. Qed.

Lemma call_step_calls k i p c c' : call_step proto_text k i p c = Some c' ->
  exists q, ws_calls c' = <[k := q]> (ws_calls c) /\ ws_next c <= ws_next c'.
Proof.
  intros Hs. assert (Hstart : forall i next, start k i next c = Some c' -> exists q, ws_calls c' = <[k := q]> (ws_calls c) /\ ws_next c <= ws_next c').
  { intros i' next Hst. unfold start in Hst. destruct i'; try discriminate Hst; injection Hst as <-; by eexists. }
  assert (Hman : forall e c1 q, manager_step proto_text e c = Some c1 ->
    exists q', ws_calls (put_call k q c1) = <[k := q']> (ws_calls c) /\ ws_next c <= ws_next (put_call k q c1)).
  { intros e c1 q [E1 E2]%manager_step_calls. exists q. cbn. by rewrite E1, E2. }
  destruct p as [path args|op flush| |h|path args|id|op flush| |h|q|snapshot q|f|f|h e|id e| |r];
    open_call Hs; try discriminate Hs; try (by eapply Hstart).
  - repeat case_match; simplify_eq; by eexists.
  - apply bind_Some in Hs as (c1 & Hm & [= <-]). by eapply Hman.
  - injection Hs as <-. unfold register. destruct (ws_subscriptions c); eexists; (split; [done|cbn; lia]).
  - destruct (is_control op); [|discriminate]. apply bind_Some in Hs as (c1 & Hm & [= <-]). by eapply Hman.
  - injection Hs as <-. unfold watch. destruct (ws_watchers c); eexists; (split; [done|cbn; lia]).
  - apply bind_Some in Hs as (hs & Hh & (c1 & Hm & [= <-])%bind_Some).
    destruct (snd _); [by eapply Hman|]. apply manager_step_calls in Hm as [E1 E2].
    eexists. cbn. by rewrite E1, E2.
  - injection Hs as <-. by eexists.
  - injection Hs as <-. destruct q; by eexists.
  - destruct i; apply bind_Some in Hs as (x & Hx & [= <-]); [| |by eapply Hman];
      destruct (after_flush_calls k f (flush_error x c) c) as (q & ? & ->); by eexists.
  - apply bind_Some in Hs as (x & Hx & [= <-]).
    destruct (after_flush_calls k f (flush_error x c) c) as (q & ? & ->); by eexists.
  - apply bind_Some in Hs as (hs & Hh & [= <-]). by eexists.
  - apply bind_Some in Hs as (c1 & Hm & [= <-]). by eapply Hman.
Qed.

(** A change comes from a change: no call turns into one. *)
Lemma after_flush_identity k f e c q :
  ws_calls (after_flush k f e c) !! k = Some q -> identity_call q = false.
Proof.
  destruct f as [h| |h], e as [e|]; cbn [after_flush]; unfold finishUnsubscribe; repeat case_match; cbn;
    rewrite lookup_insert_eq; by intros [= <-].
Qed.

Lemma call_step_identity k i p c c' q : call_step proto_text k i p c = Some c' ->
  ws_calls c' !! k = Some q -> identity_call q = true -> identity_call p = true.
Proof.
  intros Hs Hq Hid.
  assert (Hput : forall c0 q0, c' = put_call k q0 c0 -> identity_call q0 = true).
  { intros c0 q0 ->. cbn in Hq. rewrite lookup_insert_eq in Hq. by injection Hq as ->. }
  assert (Hstart : forall i next, start k i next c = Some c' -> identity_call next = true).
  { intros i' next Hst. unfold start in Hst. destruct i'; try discriminate Hst; injection Hst as Hst.
    - apply eq_sym, Hput in Hst. by destruct (doneErr c).
    - by apply eq_sym, Hput in Hst. }
  destruct p as [path args|op fl| |h|path args|id|op fl| |h|r|snapshot r|f|f|h e|id e| |r];
    open_call Hs; try discriminate Hs.
  1, 3: by apply Hstart in Hs.
  - by apply Hstart in Hs.
  - exfalso. destruct i; [|by injection Hs as Hs; apply eq_sym, Hput in Hs|by destruct (ws_handles c !! h)].
    destruct (ws_handles c !! h) as [hs|]; [|discriminate]. destruct (h_locked hs); [discriminate|].
    destruct (h_closedOK hs); injection Hs as Hs; apply eq_sym, Hput in Hs; [done|]. by destruct (h_unsubscribeQueued hs).
  - exfalso. apply bind_Some in Hs as (c1 & _ & [= Hs]). apply eq_sym, Hput in Hs. by destruct (snd _).
  - exfalso. injection Hs as Hs. unfold register in Hs. destruct (ws_subscriptions c); by apply eq_sym, Hput in Hs.
  - destruct (is_control op); [|discriminate]. apply bind_Some in Hs as (c1 & _ & [= Hs]). apply eq_sym, Hput in Hs.
    destruct (operation_result op _); [|done]. destruct (is_mutation op); [done|]. by destruct fl.
  - exfalso. injection Hs as Hs. unfold watch in Hs. destruct (ws_watchers c); by apply eq_sym, Hput in Hs.
  - exfalso. apply bind_Some in Hs as (hs & _ & (c1 & _ & Hs)%bind_Some). injection Hs as Hs.
    destruct (snd _); by apply eq_sym, Hput in Hs.
  - exfalso. injection Hs as Hs. by apply eq_sym, Hput in Hs.
  - exfalso. injection Hs as Hs. destruct r; by apply eq_sym, Hput in Hs.
  - exfalso. destruct i; apply bind_Some in Hs as (x & _ & [= Hs]); [| |by apply eq_sym, Hput in Hs];
      subst c'; by rewrite (after_flush_identity _ _ _ _ _ Hq) in Hid.
  - exfalso. apply bind_Some in Hs as (x & _ & [= Hs]). subst c'. by rewrite (after_flush_identity _ _ _ _ _ Hq) in Hid.
  - exfalso. apply bind_Some in Hs as (x & _ & [= Hs]). by apply eq_sym, Hput in Hs.
  - exfalso. apply bind_Some in Hs as (x & _ & [= Hs]). by apply eq_sym, Hput in Hs.
Qed.

Definition calls_below (c : WebSocketClient) : Prop := forall j, is_Some (ws_calls c !! j) -> j < ws_next c.

(** What a step does to the calls: it starts one, or takes one a step further, or none. *)
Lemma ws_step_calls e c c' : ws_step proto_text e c = Some c' ->
  match e with
  | RCall p => ws_calls c' = <[ws_next c := p]> (ws_calls c) /\ ws_next c' = ws_next c + 1
  | RStep k i => exists p q, ws_calls c !! k = Some p /\ call_step proto_text k i p c = Some c' /\
      ws_calls c' = <[k := q]> (ws_calls c) /\ ws_next c <= ws_next c'
  | _ => ws_calls c' = ws_calls c /\ ws_next c' = ws_next c
  end.
Proof.
  unfold ws_step. destruct (crashed c); [discriminate|].
  destruct e as [e| | | | |p|k i|h|w|w]; intros Hs.
  - destruct (internal e c); [|discriminate]. by apply manager_step_calls in Hs.
  - by injection Hs as <-.
  - unfold run in Hs. destruct (ws_runner c); [destruct (mx_pc (ws_manager c)); try discriminate Hs|..];
      try discriminate Hs; by injection Hs as <-.
  - unfold pump_take in Hs. destruct (ws_pump c); [discriminate|]. destruct (mx_results (ws_manager c)); [discriminate|].
    apply bind_Some in Hs as (c1 & Hm & [= <-]). by apply manager_step_calls in Hm.
  - unfold pump_publish in Hs. destruct (ws_pump c); [|discriminate]. by injection Hs as <-.
  - destruct (call_start p c); [|discriminate]. by injection Hs as <-.
  - apply bind_Some in Hs as (p & Hp & Hs). destruct (call_step_calls _ _ _ _ _ Hs) as (q & ? & ?). by exists p, q.
  - unfold QuerySubscription_Next in Hs. apply bind_Some in Hs as (x & _ & Hs).
    destruct (h_closedOK x || is_done c); [discriminate|]. destruct (h_updates x); [discriminate|]. by injection Hs as <-.
  - unfold QuerySetSubscription_Next in Hs. apply bind_Some in Hs as (x & _ & Hs).
    destruct (wt_closed x || is_done c); [discriminate|]. destruct (wt_updates x); [discriminate|]. by injection Hs as <-.
  - injection Hs as <-. unfold QuerySetSubscription_Close. by destruct (ws_sets c !! w) as [[? []]|].
Qed.

Lemma ws_step_below e c c' : ws_step proto_text e c = Some c' -> calls_below c -> calls_below c'.
Proof.
  intros Hs%ws_step_calls Hb j. destruct e as [e| | | | |p|k i|h|w|w];
    try (destruct Hs as [-> ->]; apply Hb).
  - destruct Hs as [-> ->]. intros [q [[<- _]|[_ Hq]]%lookup_insert_Some]; [lia|].
    enough (j < ws_next c) by lia. apply Hb. eauto.
  - destruct Hs as (p & q & Hk & _ & -> & Hn). intros [q' [[<- _]|[_ Hq]]%lookup_insert_Some];
      enough (_ < ws_next c) by (eapply Z.lt_le_trans; done); apply Hb; eauto.
Qed.

(** Only the steps of operations about the identity change it. *)
Lemma call_step_fetcher k i p c c' : call_step proto_text k i p c = Some c' ->
  (forall op fl, p = DoOperation op fl -> changes_identity op = false) -> fetcher c' = fetcher c.
Proof.
  intros Hs Hp.
  assert (Hman : forall e c1, manager_step proto_text e c = Some c1 ->
    match e with EUser op => changes_identity op = false | _ => True end -> fetcher c1 = fetcher c).
  { intros e c1 (m & Hm & ->)%manager_step_eq He. by apply (manager_step_fetcher e). }
  assert (Hflush : forall f x, fetcher (after_flush k f (flush_error x c) c) = fetcher c).
  { intros f x. by rewrite after_flush_manager. }
  destruct p as [path args|op fl| |h|path args|id|op fl| |h|q|snapshot q|f|f|h e'|id e'| |r]; open_call Hs.
  1-3: unfold start in Hs; repeat case_match; by simplify_eq.
  - by repeat case_match; simplify_eq.
  - apply bind_Some in Hs as (c1 & Hm & [= <-]). by apply (Hman _ c1 Hm).
  - injection Hs as <-. unfold register. by destruct (ws_subscriptions c).
  - destruct (is_control op); [|discriminate]. apply bind_Some in Hs as (c1 & Hm & [= <-]).
    by apply (Hman _ c1 Hm), (Hp op fl).
  - injection Hs as <-. unfold watch. by destruct (ws_watchers c).
  - apply bind_Some in Hs as (hs & Hh & (c1 & Hm & [= <-])%bind_Some). apply Hman in Hm; [|done].
    by destruct (snd _).
  - by injection Hs as <-.
  - injection Hs as <-. by destruct q.
  - destruct i; apply bind_Some in Hs as (x & Hx & [= <-]); [apply Hflush..|]. by apply (Hman _ x Hx).
  - apply bind_Some in Hs as (x & Hx & [= <-]). apply Hflush.
  - by apply bind_Some in Hs as (hs & Hh & [= <-]).
  - apply bind_Some in Hs as (c1 & Hm & [= <-]). by apply (Hman _ c1 Hm).
  - discriminate.
  - discriminate.
Qed.

Lemma ws_step_fetcher e c c' : ws_step proto_text e c = Some c' ->
  (forall k i op fl, e = RStep k i -> ws_calls c !! k = Some (DoOperation op fl) -> changes_identity op = false) ->
  fetcher c' = fetcher c.
Proof.
  unfold ws_step. destruct (crashed c); [discriminate|].
  destruct e as [e| | | | |p|k i|h|w|w]; intros Hs Hid.
  - destruct (internal e c) eqn:Hi; [|discriminate]. apply manager_step_eq in Hs as (m & Hm & ->).
    apply (manager_step_fetcher e); [done|]. by destruct e.
  - by injection Hs as <-.
  - unfold run in Hs. by repeat case_match; simplify_eq.
  - unfold pump_take in Hs. destruct (ws_pump c); [discriminate|]. destruct (mx_results (ws_manager c)); [discriminate|].
    apply bind_Some in Hs as (c1 & (m & Hm & ->)%manager_step_eq & [= <-]). by apply (manager_step_fetcher EConsume).
  - unfold pump_publish in Hs. destruct (ws_pump c); [|discriminate]. by injection Hs as <-.
  - destruct (call_start p c); [|discriminate]. by injection Hs as <-.
  - apply bind_Some in Hs as (p & Hp & Hs). apply (call_step_fetcher k i p); [done|]. intros op fl ->. by eapply Hid.
  - unfold QuerySubscription_Next in Hs. apply bind_Some in Hs as (x & _ & Hs). by repeat case_match; simplify_eq.
  - unfold QuerySetSubscription_Next in Hs. apply bind_Some in Hs as (x & _ & Hs). by repeat case_match; simplify_eq.
  - injection Hs as <-. unfold QuerySetSubscription_Close. by destruct (ws_sets c !! w) as [[? []]|].
Qed.

(** The step of the operation itself. *)
Lemma do_operation_at before k op fl c c' : changes_identity op = true ->
  do_operation proto_text k op fl c = Some c' -> (live c' -> fetcher c = before) -> op_at op before k c'.
Proof.
  intros Hop Hs Hb. revert Hs. unfold do_operation. destruct (is_control op) eqn:Hc; [|discriminate].
  intros (c1 & (m & Hm & ->)%manager_step_eq & Hc')%bind_Some. injection Hc' as Hc'. unfold op_at.
  apply user_event in Hm. pose proof (identity_operation op (mx_client (ws_manager c)) Hop) as Hi.
  replace (fetcher c') with (authFetcher (perform op (mx_client (ws_manager c)))) by (by subst c'; cbn; rewrite Hm).
  assert (Hq : ws_calls c' !! k = Some (match operation_result op (mx_client (ws_manager c)) with
      Err e => CallReturned (RetError (ErrClient e)) | Ok _ => if fl then Flush FlushOperation else CallReturned RetNil end)).
  { subst c'. cbn. rewrite lookup_insert_eq. by replace (is_mutation op) with false by (by destruct op). }
  rewrite Hq. clear Hc' Hq. destruct (operation_result op (mx_client (ws_manager c))) as [[]|e]; cbn.
  - destruct fl; eexists _, _; (split; [done|]); (split; [done|]); by split.
  - destruct Hi as [H1 H2]. eexists _, _. split; [done|]. split; [exact H1|]. split; [done|].
    intros Hl. rewrite H2. by apply Hb.
Qed.

Lemma flush_error_kind k i c e : flush_outcome k i c = Some e ->
  match flush_error e c with Some (ErrClient _) => False | _ => True end.
Proof.
  intros Hf. assert (He : match e with Some (ErrClient _) => False | _ => True end).
  { unfold flush_outcome in Hf. destruct i.
    - destruct (mx_pc (ws_manager c)) as [| | | | | | |x]; try discriminate Hf. injection Hf as <-. by destruct x.
    - by injection Hf as <-.
    - destruct (mx_acks (ws_manager c) !! k) as [[]|]; by simplify_eq. }
  destruct e as [e|]; [|done]. cbn. destruct (ws_canceled c) eqn:Hc; [|done].
  unfold doneErr. rewrite Hc. by destruct (ws_runner c) as [| | |[]].
Qed.

Lemma after_flush_at op before k f e c c' : f = FlushOperation ->
  match e with Some (ErrClient _) => False | _ => True end -> (live c -> fetcher c = sets op) ->
  c' = after_flush k f e c -> op_at op before k c'.
Proof.
  intros -> He Hf ->. destruct e as [e|]; cbn [after_flush]; eexists _, _; (split; [apply lookup_insert_eq|]);
    [destruct e; try done|]; (split; [done|]); (split; [done|]); exact Hf.
Qed.

(** The steps of the call that makes the change. *)
Lemma op_at_own op before j i p c c' : changes_identity op = true -> op_at op before j c ->
  ws_calls c !! j = Some p -> call_step proto_text j i p c = Some c' -> (live c' -> live c) -> op_at op before j c'.
Proof.
  intros Hop (q & f & Hj & Hfit & Hex & Hlive) Hp Hs Hl. replace q with p in * by congruence. clear q Hj.
  destruct p as [path args|op' fl| |h|path args|id|op' fl| |h|q|snapshot q|fr|fr|h e'|id e'| |r]; try discriminate Hex; cbn in Hfit.
  - subst op'. injection Hex as <-. open_call Hs. unfold start in Hs.
    replace (is_mutation op) with false in Hs by (by destruct op). cbn in Hs. injection Hs as <-.
    destruct (doneErr c) as [e|] eqn:Hd; cbn.
    + assert (Hno : ~ live c) by (unfold live; congruence).
      assert (He : match e with ErrClient _ => False | _ => True end).
      { unfold doneErr in Hd. destruct (ws_runner c) as [| | |[]]; try (by destruct (ws_canceled c); simplify_eq); by simplify_eq. }
      exists (CallReturned (RetError e)), (sets op). split; [apply lookup_insert_eq|].
      destruct e; try done; (split; [done|]); (split; [done|]); by intros Hl'%Hl.
    + eexists _, _. split; [apply lookup_insert_eq|]. split; [done|]. split; [done|]. exact Hlive.
  - subst op'. injection Hex as <-. cbn [call_step] in Hs.
    eapply do_operation_at; [done|done|by auto].
  - destruct fr; try discriminate Hex. injection Hex as <-. open_call Hs. destruct i; apply bind_Some in Hs as (x & Hx & [= <-]).
    + eapply after_flush_at; [done|by eapply flush_error_kind|done|done].
    + eapply after_flush_at; [done|by eapply flush_error_kind|done|done].
    + apply manager_step_eq in Hx as (m & Hm & ->). eexists _, _. split; [apply lookup_insert_eq|].
      split; [done|]. split; [done|]. intros Hl'. cbn. rewrite (manager_step_fetcher (EFlush j) _ _ Hm I). by apply Hlive, Hl.
  - destruct fr; try discriminate Hex. injection Hex as <-. open_call Hs. apply bind_Some in Hs as (x & Hx & [= <-]).
    eapply after_flush_at; [done|by eapply flush_error_kind|done|done].
  - discriminate Hs.
Qed.

(** A step keeps what is known of a change at the client, if it is none of another change. *)
Lemma op_at_step op before j e c c' : changes_identity op = true ->
  op_at op before j c -> calls_below c -> ws_step proto_text e c = Some c' ->
  (forall k i op fl, e = RStep k i -> ws_calls c !! k = Some (DoOperation op fl) -> changes_identity op = true -> k = j) ->
  op_at op before j c'.
Proof.
  intros Hop Hat Hb Hs Hid. pose proof (live_step _ _ _ Hs) as Hl.
  pose proof (ws_step_calls _ _ _ Hs) as Hc.
  assert (Hcase : (exists i, e = RStep j i) \/ ~ exists i, e = RStep j i).
  { destruct e as [| | | | | |k i| | |]; try (right; by intros [? ?]).
    destruct (decide (k = j)) as [->|Hk]; [left; by eexists|right; intros [? [= ? _]]; congruence]. }
  destruct Hcase as [[i ->]|Hne].
  - destruct Hc as (p & q & Hp & Hcs & _). by eapply op_at_own.
  - destruct Hat as (p & f & Hj & Hfit & Hex & Hf). exists p, f. split; [|split; [done|split; [done|]]].
    + rewrite <- Hj. destruct e as [e| | | | |q|k i|h|w|w]; try (by destruct Hc as [-> _]).
      * destruct Hc as [-> _]. rewrite lookup_insert_ne; [done|].
        intros <-. assert (ws_next c < ws_next c) by (apply Hb; eauto). lia.
      * destruct Hc as (p' & q & _ & _ & -> & _). rewrite lookup_insert_ne; [done|]. intros ->. by apply Hne; exists i.
    + intros Hl'. rewrite (ws_step_fetcher e c c' Hs); [by auto|]. intros k i op' fl -> Hk.
      destruct (changes_identity op') eqn:Hc'; [|done]. assert (k = j) as -> by eauto.
      exfalso. by apply Hne; exists i.
Qed.
End client.

(** ** The realtime client behind the facade

    The step of [do_operation] changes the base client as [realtime_control] says, fails as it
    says, and goes on to the flush. *)

Definition facade_view (c : WebSocketClient) : realtime_client :=
  mkRealtime (mx_client (ws_manager c)) (bool_decide (is_Some (doneErr c))).

(** The operation behind a method. *)
Definition operate (op : operation) (c : Client) : Client * result client_error unit :=
  (perform op c, operation_result op c).

Lemma operate_methods c :
  (forall t, operate (OSetAuth t) c = SetAuth t c) /\
  (forall t i, operate (OSetAdminAuth t i) c = SetAdminAuth t i c) /\
  operate OClearAuth c = ClearAuth c /\
  (forall env f, operate (OSetAuthCallback env f) c = SetAuthCallback env f c).
Proof.
  split; [done|]. split; [done|]. split; [done|]. intros env f. unfold operate. cbn.
  by destruct (SetAuthCallback env f c).
Qed.

Lemma method_of_facade proto_text k op flush flushed c c' :
  is_control op = true -> is_mutation op = false -> doneErr c = None ->
  do_operation proto_text k op flush c = Some c' ->
  let '(rt, r) := realtime_control (operate op) flushed (facade_view c) in
  rt = facade_view c' /\
  match ws_calls c' !! k with
  | Some (CallReturned (RetError (ErrClient e))) => r = Err (RealtimeRefused e)
  | Some (Flush FlushOperation) => flush = true /\ r = if flushed then Ok () else Err RealtimeNotFlushed
  | Some (CallReturned RetNil) => flush = false /\ r = if flushed then Ok () else Err RealtimeNotFlushed
  | _ => False
  end.
Proof.
  intros Hc Hm Hd Hs. unfold do_operation in Hs. rewrite Hc, Hm in Hs.
  apply bind_Some in Hs as (c1 & (m & He & ->)%manager_step_eq & [= <-]).
  apply user_event in He. unfold realtime_control, facade_view. cbn [rt_over rt_client]. rewrite Hd.
  rewrite bool_decide_false by (by intros []). cbn [operate]. split.
  - cbn [ws_manager put_call ws_put_calls ws_put_manager doneErr]. rewrite He. f_equal. symmetry.
    apply bool_decide_false. unfold doneErr in *. cbn. rewrite Hd. by intros [].
  - cbn. rewrite lookup_insert_eq. destruct (operation_result op (mx_client (ws_manager c))) as [[]|e]; [|done].
    by destruct flush.
Qed.
