(* ===== verification/FacadeIdentity.v ===== *)
(** * One identity, under every interleaving

    The calls of the facade overlap, and with them the goroutines of the realtime clients; as long as
    the changes of the identity themselves are apart from each other and from the making of realtime
    clients, the HTTP client and the realtime client act for the same caller. *)
From S2P Require Import Prelude GoStrings GoJson Values Results GoEncode Protocol ClientMessages ServerMessages ClientState BaseClient ClientInvariant SyncManager HttpClient Facade FacadeTheorems ManagerRun ManagerFacts RealtimeClient RealtimeFacts RealtimeInvariant RealtimeTheorems FacadeRun FacadeRunFacts FacadeLifetimes RealtimeIdentity.
Local Open Scope Z_scope.

(** ** The calls that matter *)

(** A change of the identity, a client being made, and a call of a client that is waited for. *)
Definition changing (p : facade_call) : bool :=
  match p with
  | ChangeHTTP _ | ChangeFields _ | ChangeRealtime _ _ | ChangeWait _ _ | CallbackRead _ | CallbackRealtime _ _
  | CallbackWait _ _ _ | CallbackHTTP _ | CallbackFields _ => true
  | _ => false
  end.
Definition making (p : facade_call) : bool :=
  match p with
  | RealtimeNew _ _ | RealtimeIdentity _ _ _ | RealtimeIdentityWait _ _ _ _ | RealtimeInstall _ _ _ => true
  | _ => false
  end.
Definition awaits (p : facade_call) : option (Z * Z) :=
  match p with
  | RealtimeIdentityWait _ _ n j | ChangeWait n j | CallbackWait _ n j => Some (n, j)
  | _ => None
  end.
Definition no_call (f : facade_call -> bool) (s : system) : bool := map_forallb (fun _ p => negb (f p)) (sy_calls s).

Lemma no_call_spec f s : no_call f s = true <-> forall k p, sy_calls s !! k = Some p -> f p = false.
Proof. unfold no_call. rewrite map_forallb_true. setoid_rewrite negb_true_iff. done. Qed.

Definition change_operation (ch : change) : operation :=
  match ch with
  | ChangeAuth token => OSetAuth token
  | ChangeAdmin token actingAs => OSetAdminAuth token (syncIdentityAttributes actingAs)
  | ChangeNone => OClearAuth
  end.

(** The schedules: a change begins when no other is on its way and no client is being made, and
    [realtime] reads the settings when no change is on its way; tokens are not empty, and the
    identities to act as are whole; and the flush of a callback that a live client has taken does not
    fail. *)
Definition given_token (p : facade_call) : Prop :=
  match p with
  | ChangeHTTP (ChangeAuth token) => token <> ""
  | ChangeHTTP (ChangeAdmin token actingAs) => token <> "" /\ whole actingAs = true
  | _ => True
  end.
Definition changes_apart (e : system_event) (s : system) : Prop :=
  match e with
  | YCall p => changing p = true -> no_call changing s = true /\ no_call making s = true /\ given_token p
  | YStep _ k _ =>
      match sy_calls s !! k with
      | Some (RealtimeRead _) => no_call changing s = true
      | Some (CallbackWait _ n j) =>
          forall c e, sy_clients s !! n = Some c -> ended n j s = Some (RetError e) ->
            (exists e', e = ErrClient e') \/ ~ live c
      | _ => True
      end
  | YClient _ _ => True
  end.

(** ** What is known *)

(** Whom the facade's client acts for, if it does; and which client that can be. *)
Definition serves (f : option AuthTokenFetcher) (s : system) : Prop :=
  forall n c, sy_webSocketClient s = Some n -> sy_clients s !! n = Some c -> live c -> fetcher c = f.
Definition within (on : option Z) (s : system) : Prop := forall n, sy_webSocketClient s = Some n -> on = Some n.
Definition client_at (n : Z) (P : WebSocketClient -> Prop) (s : system) : Prop :=
  forall c, sy_clients s !! n = Some c -> P c.

Definition in_agreement (s : system) : Prop :=
  http_agrees (fc_http (sy_fields s)) (sy_fields s) /\ serves (facade_fetcher (sy_fields s)) s.

Definition changing_ok (p : facade_call) (s : system) : Prop :=
  let f := sy_fields s in
  match p with
  | ChangeHTTP ch => given_token p /\ in_agreement s
  | ChangeFields ch =>
      http_agrees (fc_http f) (change_fields ch f) /\ facade_fetcher (change_fields ch f) = sets (change_operation ch)
  | ChangeRealtime ch on =>
      http_agrees (fc_http f) f /\ facade_fetcher f = sets (change_operation ch) /\ within on s
  | ChangeWait n j =>
      http_agrees (fc_http f) f /\ within (Some n) s /\
      exists op before, changes_identity op = true /\ refusable op = false /\ facade_fetcher f = sets op /\
        client_at n (op_at op before j) s
  | CallbackRead cb => in_agreement s
  | CallbackRealtime cb on => in_agreement s /\ within on s
  | CallbackWait cb n j =>
      http_agrees (fc_http f) f /\ within (Some n) s /\
      exists env, sy_webSocketClient s = Some n ->
        client_at n (op_at (OSetAuthCallback env (Callback <$> cb)) (facade_fetcher f) j) s
  | CallbackHTTP cb => serves (Callback <$> cb) s
  | CallbackFields cb => http_agrees (fc_http f) (fc_put_identity "" "" [] cb f) /\ serves (Callback <$> cb) s
  | _ => True
  end.

Definition making_ok (p : facade_call) (s : system) : Prop :=
  let settled st := st = realtime_settings (sy_fields s) in
  match p with
  | RealtimeNew _ st => settled st
  | RealtimeIdentity _ st n => settled st /\ client_at n (fun c => live c -> fetcher c = None) s
  | RealtimeIdentityWait _ st n j =>
      settled st /\ exists env op, settings_operation env st = Some op /\ client_at n (op_at op None j) s
  | RealtimeInstall _ st n =>
      settled st /\ client_at n (fun c => live c -> fetcher c = facade_fetcher (sy_fields s)) s
  | _ => True
  end.

(** [ex] is a call of a client that nobody waits for yet. *)
Record one_caller (ex : option (Z * Z)) (s : system) : Prop := {
  oc_below n c : sy_clients s !! n = Some c -> calls_below c;
  oc_awaited n c j p : sy_clients s !! n = Some c -> ws_calls c !! j = Some p -> identity_call p = true ->
    ex = Some (n, j) \/ exists k q, sy_calls s !! k = Some q /\ awaits q = Some (n, j);
  oc_once k k' p p' : sy_calls s !! k = Some p -> sy_calls s !! k' = Some p' ->
    changing p = true -> changing p' = true -> k = k';
  oc_apart k k' p p' : sy_calls s !! k = Some p -> sy_calls s !! k' = Some p' ->
    changing p = true -> making p' = true -> False;
  oc_quiet : no_call changing s = true -> in_agreement s;
  oc_changing k p : sy_calls s !! k = Some p -> changing_ok p s;
  oc_making k p : sy_calls s !! k = Some p -> making_ok p s
}.

Lemma settings_fetcher env f :
  match settings_operation env (realtime_settings f) with
  | None => facade_fetcher f = None
  | Some op => changes_identity op = true /\ sets op = facade_fetcher f
  end.
Proof.
  unfold settings_operation, realtime_settings, facade_fetcher. destruct (fc_authCallback f); [done|].
  case_bool_decide as Ha; cbn [negb]; [|by rewrite decide_False].
  rewrite decide_True by done. case_bool_decide as Hu; cbn [negb]; [by rewrite decide_True|by rewrite decide_False].
Qed.

(** ** A step of a realtime client *)

Section identity.
Context (proto_text : proto_error -> string).

Section client.
Context (s : system) (H : one_caller None s) (Ha : attended s) (n : Z) (e : ws_event) (c c' : WebSocketClient)
  (Hc : sy_clients s !! n = Some c) (Hs : ws_step proto_text e c = Some c').

Lemma awaits_kind q w : awaits q = Some w -> changing q = true \/ making q = true /\ owned q = Some (fst w).
Proof. destruct q; try discriminate; intros [= <-]; by auto. Qed.

(** Nobody else waits for a change at a client. *)
Lemma awaits_once k k' q q' j j' : sy_calls s !! k = Some q -> sy_calls s !! k' = Some q' ->
  awaits q = Some (n, j) -> awaits q' = Some (n, j') -> k = k'.
Proof.
  intros Hk Hk' Hq Hq'.
  destruct (awaits_kind _ _ Hq) as [H1|[H1 O1]], (awaits_kind _ _ Hq') as [H2|[H2 O2]].
  - by eapply (oc_once _ _ H).
  - by destruct (oc_apart _ _ H k k' q q').
  - by destruct (oc_apart _ _ H k' k q' q).
  - by eapply (at_once _ Ha).
Qed.

Lemma fetcher_keeps : (forall k q j, sy_calls s !! k = Some q -> awaits q = Some (n, j) -> False) -> fetcher c' = fetcher c.
Proof.
  intros Hno. apply (ws_step_fetcher proto_text e); [done|]. intros j i op fl _ Hj.
  destruct (changes_identity op) eqn:Hop; [|done].
  destruct (oc_awaited _ _ H n c j _ Hc Hj Hop) as [?|(k & q & Hk & Hq)]; [done|]. by destruct (Hno k q j).
Qed.

Lemma op_at_keeps k q op before j : sy_calls s !! k = Some q -> awaits q = Some (n, j) ->
  changes_identity op = true -> op_at op before j c -> op_at op before j c'.
Proof.
  intros Hk Hq Hop Hat. apply (op_at_step proto_text op before j e c); try done; [by apply (oc_below _ _ H n)|].
  intros j' i op' fl _ Hj Hop'. destruct (oc_awaited _ _ H n c j' _ Hc Hj Hop') as [?|(k' & q' & Hk' & Hq')]; [done|].
  assert (k = k') as <- by (by eapply awaits_once). congruence.
Qed.

(** Only a change waits for the facade's own client. *)
Lemma current_changing k q j : sy_webSocketClient s = Some n -> sy_calls s !! k = Some q -> awaits q = Some (n, j) ->
  changing q = true.
Proof.
  intros Hcur Hk Hq. destruct (awaits_kind _ _ Hq) as [?|[_ Ho]]; [done|]. by destruct (at_owned _ Ha k q n Hk Ho).
Qed.

Lemma elsewhere m c1 : m <> n -> <[n := c']> (sy_clients s) !! m = Some c1 -> sy_clients s !! m = Some c1.
Proof. intros Hm. by rewrite lookup_insert_ne. Qed.

(** What is known stays known. *)
Lemma serves_keeps f : serves f s ->
  (forall k q j, sy_calls s !! k = Some q -> awaits q = Some (n, j) -> changing q = true -> False) ->
  serves f (sy_put_client n c' s).
Proof.
  intros Hf Hno m c1 Hm. cbn -[insert]. intros [[<- <-]|[Hne H1]]%lookup_insert_Some Hl; [|by apply (Hf m)].
  rewrite fetcher_keeps; [apply (Hf n c Hm Hc); by eapply live_step|].
  intros k q j Hk Hq. eapply Hno; [done..|]. by eapply current_changing.
Qed.

Lemma client_at_keeps m (P : WebSocketClient -> Prop) : client_at m P s -> (m = n -> P c -> P c') ->
  client_at m P (sy_put_client n c' s).
Proof. intros HP Hn c1. cbn -[insert]. intros [[-> <-]|[Hne H1]]%lookup_insert_Some; auto. Qed.

Lemma at_keeps k q m op before j : sy_calls s !! k = Some q -> awaits q = Some (m, j) -> changes_identity op = true ->
  client_at m (op_at op before j) s -> client_at m (op_at op before j) (sy_put_client n c' s).
Proof. intros Hk Hq Hop Hat. apply client_at_keeps; [done|]. intros ->. by eapply op_at_keeps. Qed.

Lemma agreement_keeps : in_agreement s ->
  (forall k q j, sy_calls s !! k = Some q -> awaits q = Some (n, j) -> changing q = true -> False) ->
  in_agreement (sy_put_client n c' s).
Proof. intros [H1 H2] Hno. split; [done|]. by apply serves_keeps. Qed.

Lemma changing_keeps k p : sy_calls s !! k = Some p -> changing_ok p (sy_put_client n c' s).
Proof.
  intros Hk. pose proof (oc_changing _ _ H k p Hk) as Hp.
  assert (Hno : changing p = true -> awaits p = None ->
    forall k q j, sy_calls s !! k = Some q -> awaits q = Some (n, j) -> changing q = true -> False).
  { intros Hcp Ha0 k1 q j Hk1 Hq Hcq. assert (k1 = k) as -> by (by eapply (oc_once _ _ H)). congruence. }
  destruct p; try exact I; cbn [changing_ok] in *.
  - destruct Hp as [Ht Hp]. split; [done|]. apply agreement_keeps; [done|by apply Hno].
  - exact Hp.
  - exact Hp.
  - destruct Hp as (H1 & H2 & op & before & Hop & Hr & Hf & Hat). split; [done|]. split; [done|].
    exists op, before. do 3 (split; [done|]). by eapply at_keeps.
  - apply agreement_keeps; [done|by apply Hno].
  - destruct Hp as [Hp Hw]. split; [|done]. apply agreement_keeps; [done|by apply Hno].
  - destruct Hp as (H1 & H2 & env & Hat). split; [done|]. split; [done|]. exists env. intros Hcur. eapply at_keeps; [done..|by apply Hat].
  - apply serves_keeps; [done|by apply Hno].
  - destruct Hp as [H1 H2]. split; [done|]. apply serves_keeps; [done|by apply Hno].
Qed.

Lemma making_keeps k p : sy_calls s !! k = Some p -> making_ok p (sy_put_client n c' s).
Proof.
  intros Hk. pose proof (oc_making _ _ H k p Hk) as Hp.
  assert (Hmine : forall f, making p = true -> awaits p = None -> owned p = Some n ->
    (live c -> fetcher c = f) -> live c' -> fetcher c' = f).
  { intros f Hmp Ha0 Ho Hf Hl. rewrite fetcher_keeps; [by apply Hf; eapply live_step|].
    intros k1 q j Hk1 Hq. destruct (awaits_kind _ _ Hq) as [Hcq|[_ Hoq]]; [by eapply (oc_apart _ _ H k1 k)|].
    assert (k1 = k) as -> by (by eapply (at_once _ Ha)). congruence. }
  destruct p; try exact I; cbn [making_ok] in *.
  - exact Hp.
  - destruct Hp as [Hst Hat]. split; [done|]. apply client_at_keeps; [done|]. intros ->. by apply Hmine.
  - destruct Hp as (Hst & env & op & Hop & Hat). split; [done|]. exists env, op. split; [done|].
    eapply at_keeps; [done..| |done]. subst st.
    pose proof (settings_fetcher env (sy_fields s)) as Hsf. rewrite Hop in Hsf. by destruct Hsf.
  - destruct Hp as [Hst Hat]. split; [done|]. apply client_at_keeps; [done|]. intros ->. by apply Hmine.
Qed.

(** The call that the step starts, if it is one that changes the identity. *)
Definition asked : option (Z * Z) :=
  match e with RCall q => if identity_call q then Some (n, ws_next c) else None | _ => None end.

Lemma client_one_caller : one_caller asked (sy_put_client n c' s).
Proof.
  pose proof (ws_step_calls _ _ _ _ Hs) as Hcalls. split.
  - intros m c1. cbn -[insert]. intros [[<- <-]|[_ H1]]%lookup_insert_Some; [|by apply (oc_below _ _ H m)].
    eapply ws_step_below; [done|]. by apply (oc_below _ _ H n).
  - assert (Hold : forall m c1 j q, sy_clients s !! m = Some c1 -> ws_calls c1 !! j = Some q -> identity_call q = true ->
      asked = Some (m, j) \/ exists k q, sy_calls s !! k = Some q /\ awaits q = Some (m, j)).
    { intros m c1 j q H1 Hj Hid. destruct (oc_awaited _ _ H m c1 j q H1 Hj Hid) as [?|?]; [done|by right]. }
    intros m c1 j q. cbn -[insert]. intros [[<- <-]|[_ H1]]%lookup_insert_Some Hj Hid; [|by eapply Hold].
    unfold asked in *. destruct e as [e0| | | | |q0|k0 i|h|w|w]; try (by destruct Hcalls as [Hq _]; rewrite Hq in Hj; eapply Hold).
    + destruct Hcalls as [Hq _]. rewrite Hq in Hj. apply lookup_insert_Some in Hj as [[<- <-]|[_ Hj]]; [|by eapply Hold].
      left. by rewrite Hid.
    + destruct Hcalls as (p & q' & Hk0 & Hcs & Hq & _). destruct (decide (j = k0)) as [->|Hne].
      * eapply Hold; [done..|]. by eapply call_step_identity.
      * rewrite Hq, lookup_insert_ne in Hj by done. by eapply Hold.
  - apply (oc_once _ _ H).
  - apply (oc_apart _ _ H).
  - intros Hq. apply agreement_keeps; [by apply (oc_quiet _ _ H)|]. intros k q j Hk _ Hcq.
    apply no_call_spec with (k := k) (p := q) in Hq; [congruence|done].
  - apply changing_keeps.
  - apply making_keeps.
Qed.
End client.

(** ** A step of a call *)

Lemma step_one_caller n e s s' : one_caller None s -> attended s -> client_step proto_text n e s = Some s' ->
  match e with RCall q => identity_call q = false | _ => True end -> one_caller None s'.
Proof.
  intros H Ha (c & c' & Hc & Hs & ->)%client_step_eq He.
  pose proof (client_one_caller s H Ha n e c c' Hc Hs) as H'. unfold asked in H'. destruct e; try done. by rewrite He in H'.
Qed.
Lemma invoke_one_caller n m s s' j : one_caller None s -> attended s -> invoke proto_text n m s = Some (s', j) ->
  one_caller (if identity_call m then Some (n, j) else None) s'.
Proof.
  intros H Ha (c & c' & Hc & Hs & -> & ->)%invoke_eq. exact (client_one_caller s H Ha n (RCall m) c c' Hc Hs).
Qed.

(** The operation a client has been asked for. *)
Lemma invoke_at n op fl before s s' j : invoke proto_text n (CallOperation op fl) s = Some (s', j) ->
  client_at n (fun c => live c -> fetcher c = before) s -> client_at n (op_at op before j) s'.
Proof.
  intros (c & c' & Hc & Hs & -> & ->)%invoke_eq Hat c1. cbn -[insert]. rewrite lookup_insert_eq. intros [= <-].
  pose proof (ws_step_calls _ _ _ _ Hs) as [Hq _].
  assert (Hf : fetcher c' = fetcher c) by (by eapply ws_step_fetcher).
  exists (CallOperation op fl), before. rewrite Hq, lookup_insert_eq. do 3 (split; [done|]).
  rewrite Hf. intros Hl. apply (Hat c Hc). by eapply live_step.
Qed.

Lemma invoke_rest n m s s' j : invoke proto_text n m s = Some (s', j) ->
  sy_fields s' = sy_fields s /\ sy_webSocketClient s' = sy_webSocketClient s /\ sy_calls s' = sy_calls s.
Proof. by intros (c & c' & Hc & Hs & -> & ->)%invoke_eq. Qed.

Lemma ended_at n j r op before s : ended n j s = Some r -> client_at n (op_at op before j) s ->
  exists c f, sy_clients s !! n = Some c /\ fits op (CallReturned r) /\ expects op before (CallReturned r) = Some f /\
    (live c -> fetcher c = f).
Proof.
  intros (c & Hc & Hr)%bind_Some Hat. destruct (Hat c Hc) as (p & f & Hj & Hfit & Hex & Hf). rewrite Hj in Hr.
  destruct p; try discriminate Hr. injection Hr as <-. by exists c, f.
Qed.

(** The call at [k] comes from [p] to [p'], and may set the fields if it is a change. *)
Lemma turn ex k p p' v s : one_caller ex s -> sy_calls s !! k = Some p ->
  (changing p' = true -> changing p = true) ->
  (making p' = true -> making p = true \/ no_call changing s = true) ->
  (forall n j, ex = Some (n, j) \/ awaits p = Some (n, j) -> awaits p' = Some (n, j) \/
    forall c q, sy_clients s !! n = Some c -> ws_calls c !! j = Some q -> identity_call q = false) ->
  (v = sy_fields s \/ changing p = true) ->
  let s' := sy_put_call k p' (sy_put_fields v s) in
  (changing p' = true -> changing_ok p' s') -> (making p' = true -> making_ok p' s') ->
  (changing p = true -> changing p' = false -> in_agreement s') -> one_caller None s'.
Proof.
  intros H Hk Hch Hmk Haw Hv s' Hcok Hmok Hag.
  assert (Hlook : forall k1 q, sy_calls s' !! k1 = Some q -> (k1 = k /\ q = p') \/ (k1 <> k /\ sy_calls s !! k1 = Some q)).
  { intros k1 q. cbn -[insert]. intros [[<- <-]|[Hne Hq]]%lookup_insert_Some; [by left|right; by split]. }
  assert (Hquiet : forall k1 q, no_call changing s = true -> sy_calls s !! k1 = Some q -> changing q = false).
  { intros k1 q Hq Hk1. by eapply no_call_spec. }
  assert (Hrest : forall k1 q, k1 <> k -> sy_calls s !! k1 = Some q -> changing_ok q s' /\ making_ok q s').
  { intros k1 q Hne Hq. destruct Hv as [->|Hp].
    - split; [pose proof (oc_changing _ _ H k1 q Hq) as Hok|pose proof (oc_making _ _ H k1 q Hq) as Hok];
        by destruct q.
    - assert (changing q = false) as Hcq.
      { destruct (changing q) eqn:Hcq; [|done]. by destruct Hne; eapply (oc_once _ _ H). }
      assert (making q = false) as Hmq.
      { destruct (making q) eqn:Hmq; [|done]. by destruct (oc_apart _ _ H k k1 p q). }
      by destruct q. }
  split.
  - apply (oc_below _ _ H).
  - intros n c j q Hc Hj Hid. right.
    assert (Hmine : ex = Some (n, j) \/ awaits p = Some (n, j) -> exists k0 q0, sy_calls s' !! k0 = Some q0 /\ awaits q0 = Some (n, j)).
    { intros Hor. destruct (Haw n j Hor) as [Hp'|Hno]; [|by rewrite (Hno c q Hc Hj) in Hid].
      exists k, p'. split; [apply lookup_insert_eq|done]. }
    destruct (oc_awaited _ _ H n c j q Hc Hj Hid) as [Hex|(k1 & q1 & Hk1 & Hq1)]; [by auto|].
    destruct (decide (k1 = k)) as [->|Hne]; [apply Hmine; right; congruence|].
    exists k1, q1. split; [|done]. cbn -[insert]. by rewrite lookup_insert_ne.
  - intros k1 k2 q1 q2 H1 H2 C1 C2. apply Hlook in H1 as [[-> ->]|[N1 H1]], H2 as [[-> ->]|[N2 H2]]; [done|..].
    + symmetry. eapply (oc_once _ _ H); [done..|by apply Hch].
    + eapply (oc_once _ _ H); [done..|by apply Hch].
    + by eapply (oc_once _ _ H).
  - intros k1 k2 q1 q2 H1 H2 C1 M2. apply Hlook in H1 as [[-> ->]|[N1 H1]], H2 as [[-> ->]|[N2 H2]].
    + by destruct p'.
    + by apply (oc_apart _ _ H k k2 p q2); [..|apply Hch|].
    + destruct (Hmk M2) as [Mp|Hq]; [by apply (oc_apart _ _ H k1 k q1 p)|]. by rewrite (Hquiet _ _ Hq H1) in C1.
    + by apply (oc_apart _ _ H k1 k2 q1 q2).
  - intros Hq. assert (Hq' : forall k1 q, sy_calls s' !! k1 = Some q -> changing q = false) by (by apply no_call_spec).
    assert (changing p' = false) as Hcp' by (apply (Hq' k), lookup_insert_eq).
    destruct (changing p) eqn:Hcp; [by apply Hag|]. destruct Hv as [->|?]; [|done]. apply (oc_quiet _ _ H), no_call_spec.
    intros k1 q Hk1. destruct (decide (k1 = k)) as [->|Hne]; [congruence|].
    apply (Hq' k1). cbn -[insert]. by rewrite lookup_insert_ne.
  - intros k1 q [[-> ->]|[Hne Hq]]%Hlook; [|by apply (Hrest k1)]. destruct (changing p') eqn:Hc; [by apply Hcok|by destruct p'].
  - intros k1 q [[-> ->]|[Hne Hq]]%Hlook; [|by apply (Hrest k1)]. destruct (making p') eqn:Hc; [by apply Hmok|by destruct p'].
Qed.

Lemma aside k p p' s : one_caller None s -> sy_calls s !! k = Some p ->
  changing p = false -> changing p' = false -> making p' = false -> awaits p = None -> one_caller None (sy_put_call k p' s).
Proof.
  intros H Hk Hc Hc' Hm Ha. apply (turn None k p p' (sy_fields s) s H Hk); try congruence.
  - intros n j [?|?]; congruence.
  - by left.
Qed.

(** The client of the facade goes, or one comes. *)
Lemma leave_one_caller ex s : one_caller ex s -> one_caller ex (sy_put_webSocketClient None s).
Proof.
  intros [H1 H2 H3 H4 H5 H6 H7]. split; try done.
  - intros Hq. by destruct (H5 Hq).
  - intros k p Hp. specialize (H6 k p Hp). destruct p; try done; cbn [changing_ok] in *.
    + by destruct H6 as (? & ? & _).
    + by destruct H6 as (? & ? & _).
    + destruct H6 as (? & _ & ?). by split.
    + by destruct H6.
    + by destruct H6 as ((? & _) & _).
    + destruct H6 as (? & _ & env & _). split; [done|]. split; [done|]. by exists env.
    + by destruct H6.
Qed.

Lemma install_one_caller n s : one_caller None s -> no_call changing s = true ->
  client_at n (fun c => live c -> fetcher c = facade_fetcher (sy_fields s)) s ->
  one_caller None (sy_put_webSocketClient (Some n) s).
Proof.
  intros [H1 H2 H3 H4 H5 H6 H7] Hq Hn. split; try done.
  - intros _. destruct (H5 Hq) as [Hh _]. split; [done|]. intros m c [= <-] Hc. by apply Hn.
  - intros k p Hp. assert (changing p = false) by (by eapply no_call_spec). by destruct p.
Qed.

Lemma making_quiet k p s : one_caller None s -> sy_calls s !! k = Some p -> making p = true -> no_call changing s = true.
Proof.
  intros H Hk Hp. apply no_call_spec. intros k1 q Hq. destruct (changing q) eqn:Hc; [|done].
  by destruct (oc_apart _ _ H k1 k q p).
Qed.

Lemma new_client_one_caller s : one_caller None s -> attended s -> no_call changing s = true ->
  one_caller None (sy_new_client s).
Proof.
  intros H Ha Hq. pose proof H as [H1 H2 H3 H4 H5 H6 H7].
  assert (Hnot : forall n, is_Some (sy_clients s !! n) -> n <> sy_nextClient s) by (intros n Hn%(at_next _ Ha); lia).
  assert (Hserves : forall f, serves f s -> serves f (sy_new_client s)).
  { intros f Hf n c Hn. cbn -[insert]. intros [[<- _]|[_ Hc]]%lookup_insert_Some; [|by eapply Hf].
    by destruct (Hnot _ (at_current _ Ha _ Hn)). }
  assert (Hat : forall k p n P, sy_calls s !! k = Some p -> owned p = Some n -> client_at n P s -> client_at n P (sy_new_client s)).
  { intros k p n P Hp Ho HP c. cbn -[insert]. intros [[<- _]|[_ Hc]]%lookup_insert_Some; [|by apply HP].
    destruct (at_owned _ Ha k p _ Hp Ho) as [Hs _]. by destruct (Hnot _ Hs). }
  split; try done.
  - intros n c. cbn -[insert]. intros [[_ <-]|[_ Hc]]%lookup_insert_Some; [by intros j [? ?]|by apply (H1 n)].
  - intros n c j p. cbn -[insert]. intros [[_ <-]|[_ Hc]]%lookup_insert_Some; [done|by apply H2].
  - intros _. destruct (H5 Hq). split; auto.
  - intros k p Hp. assert (changing p = false) by (by eapply no_call_spec). by destruct p.
  - intros k p Hp. pose proof (H7 k p Hp) as Hok. destruct p; try done; cbn [making_ok] in *.
    + destruct Hok as [Hst Hc]. split; [done|]. by eapply Hat.
    + destruct Hok as (Hst & env & op & Hop & Hc). split; [done|]. exists env, op. split; [done|]. by eapply Hat.
    + destruct Hok as [Hst Hc]. split; [done|]. by eapply Hat.
Qed.

(** A new call. *)
Lemma call_one_caller p s : one_caller None s -> attended s -> facade_start p = true -> changes_apart (YCall p) s ->
  one_caller None (sy_new_call p s).
Proof.
  intros H Ha Hp Hap. pose proof H as [H1 H2 H3 H4 H5 H6 H7]. cbn [changes_apart] in Hap.
  assert (Hfresh : forall k q, sy_calls s !! k = Some q -> k <> sy_nextCall s).
  { intros k q Hk ->. assert (sy_nextCall s < sy_nextCall s) by (apply (at_calls _ Ha); eauto). lia. }
  assert (making p = false /\ awaits p = None) as [Hmk Haw] by (by destruct p).
  split; try done.
  - intros n c j q Hc Hj Hid. destruct (H2 n c j q Hc Hj Hid) as [?|(k & q1 & Hk & Hq1)]; [done|]. right.
    exists k, q1. split; [|done]. cbn -[insert]. rewrite lookup_insert_ne; [done|]. apply not_eq_sym. by eapply Hfresh.
  - intros k k' q q'. cbn -[insert].
    intros [[<- <-]|[_ Hq]]%lookup_insert_Some [[<- <-]|[_ Hq']]%lookup_insert_Some C C'; [done| | |by eapply H3].
    + destruct (Hap C) as [Hn _]. eapply no_call_spec in Hn; [|done]. congruence.
    + destruct (Hap C') as [Hn _]. eapply no_call_spec in Hn; [|done]. congruence.
  - intros k k' q q'. cbn -[insert].
    intros [[<- <-]|[_ Hq]]%lookup_insert_Some [[<- <-]|[_ Hq']]%lookup_insert_Some C M; [congruence| | |by eapply (H4 k k')].
    + destruct (Hap C) as (_ & Hn & _). eapply no_call_spec in Hn; [|done]. congruence.
    + congruence.
  - intros Hq. apply H5, no_call_spec. intros k q Hk.
    eapply no_call_spec in Hq; [exact Hq|]. cbn -[insert]. rewrite lookup_insert_ne; [done|]. apply not_eq_sym. by eapply Hfresh.
  - intros k q. cbn -[insert]. intros [[_ <-]|[_ Hq]]%lookup_insert_Some.
    + destruct p; try done; (destruct Hap as (Hn & _ & Ht); [done|]); [split; [done|]|]; apply H5, Hn.
    + specialize (H6 k q Hq). by destruct q.
  - intros k q. cbn -[insert]. intros [[_ <-]|[_ Hq]]%lookup_insert_Some; [by destruct p|].
    specialize (H7 k q Hq). by destruct q.
Qed.
End identity.
