(* ===== verification/OneIdentity.v ===== *)
(** * One identity

    Every step keeps what FacadeIdentity knows of the calls on their way, and so the HTTP client and
    the realtime client act for the same caller whenever no change is on its way. *)
From S2P Require Import Prelude GoStrings Addresses GoJson Values Results GoEncode Protocol ClientMessages ServerMessages ClientState BaseClient ClientInvariant SyncManager HttpClient Facade FacadeTheorems ManagerRun ManagerFacts RealtimeClient RealtimeFacts RealtimeInvariant RealtimeTheorems FacadeRun FacadeRunFacts FacadeLifetimes RealtimeIdentity FacadeIdentity.
Local Open Scope Z_scope.

(** ** What a change makes of the fields *)

Lemma change_agrees ch http f : given_token (ChangeHTTP ch) -> http_agrees (fc_http f) f ->
  change_http ch (fc_http f) = Ok http ->
  let f' := fc_put_http http f in
  http_agrees (fc_http f') (change_fields ch f') /\ facade_fetcher (change_fields ch f') = sets (change_operation ch).
Proof.
  intros Ht Hh. destruct ch as [t|t a|]; cbn [given_token change_http] in *.
  - intros [= <-]. split; [by split; cbn; rewrite ?decide_False by done|].
    unfold facade_fetcher. cbn. rewrite decide_True by done. by rewrite decide_False.
  - destruct Ht as [Ht Hw]. unfold HTTPClient_SetAdminAuth. intros (s & Hs & [= <-])%bind_Ok. split.
    + split; cbn; try done. by rewrite decide_False by (by eapply encodeAdminAuth_nonempty).
    + unfold facade_fetcher. cbn. by rewrite decide_False.
  - intros [= <-]. by split; [split|].
Qed.

Lemma callback_agrees cb f : let f' := fc_put_http (HTTPClient_setAuthCallback cb (fc_http f)) f in
  http_agrees (fc_http f') (fc_put_identity "" "" [] cb f').
Proof. by split. Qed.
Lemma callback_fetcher cb f : facade_fetcher (fc_put_identity "" "" [] cb f) = Callback <$> cb.
Proof. by destruct cb. Qed.

(** ** The steps of a call *)

Section identity.
Context (proto_text : proto_error -> string).

Section step.
Context (env : token_environment) (k : Z) (i : input) (s s' : system) (H : one_caller None s) (Ha : attended s).

Lemma ended_spent n j r : ended n j s = Some r ->
  forall c q, sy_clients s !! n = Some c -> ws_calls c !! j = Some q -> identity_call q = false.
Proof.
  intros (c & Hc & Hr)%bind_Some c1 q Hc1 Hq. simplify_eq. rewrite Hq in Hr. by destruct q.
Qed.

(** A call that starts an operation of a client and is none of the others. *)
Lemma invoke_aside p p' n m s1 j : sy_calls s !! k = Some p -> changing p = false -> changing p' = false ->
  making p' = false -> awaits p = None -> identity_call m = false ->
  invoke proto_text n m s = Some (s1, j) -> one_caller None (sy_put_call k p' s1).
Proof.
  intros Hk C1 C2 C3 C4 Hm Hi. pose proof (invoke_one_caller proto_text _ _ _ _ _ H Ha Hi) as H1. rewrite Hm in H1.
  destruct (invoke_rest proto_text _ _ _ _ _ Hi) as (_ & _ & E). apply (aside k p); try done. by rewrite E.
Qed.
Lemma cancel_aside p p' n s1 : sy_calls s !! k = Some p -> changing p = false -> changing p' = false ->
  making p' = false -> awaits p = None ->
  client_step proto_text n RCancel s = Some s1 -> one_caller None (sy_put_call k p' s1).
Proof.
  intros Hk C1 C2 C3 C4 Hi. pose proof (step_one_caller proto_text _ _ _ _ H Ha Hi I) as H1.
  apply client_step_eq in Hi as (c & c' & _ & _ & ->). by apply (aside k p).
Qed.

Lemma use_one_caller p : sy_calls s !! k = Some p -> use_step proto_text k i p s = Some s' -> one_caller None s'.
Proof.
  intros Hk Hs. destruct p as [| | | | | | | | | | |u [n|]|n j| | | | | | | | | | | | | |]; try discriminate Hs; cbn [use_step] in Hs.
  - apply bind_Some in Hs as ([s1 j] & Hi & [= <-]). eapply invoke_aside; try done. by destruct u.
  - destruct i; try discriminate Hs; injection Hs as <-; by eapply aside.
  - apply bind_Some in Hs as (r & _ & [= <-]). by eapply aside.
Qed.

Lemma close_one_caller p : sy_calls s !! k = Some p -> close_step proto_text k p s = Some s' -> one_caller None s'.
Proof.
  intros Hk Hs. destruct p; try discriminate Hs; cbn [close_step] in Hs.
  - injection Hs as <-. eapply aside; [by apply leave_one_caller|done|done|..]; by destruct (sy_webSocketClient s).
  - apply bind_Some in Hs as (s1 & Hi & [= <-]). by eapply cancel_aside.
  - apply bind_Some in Hs as (e & _ & [= <-]). by eapply aside.
Qed.

Lemma realtime_one_caller p : sy_calls s !! k = Some p -> changes_apart (YStep env k i) s ->
  realtime_step proto_text env k p s = Some s' -> one_caller None s'.
Proof.
  intros Hk Hap Hs. cbn [changes_apart] in Hap. rewrite Hk in Hap.
  assert (Hturn : forall ex p' s1, one_caller ex s1 -> sy_fields s1 = sy_fields s -> sy_calls s1 = sy_calls s ->
    making p = true -> making p' = true -> making_ok p' s1 ->
    (forall n j, ex = Some (n, j) \/ awaits p = Some (n, j) -> awaits p' = Some (n, j) \/
      forall c q, sy_clients s1 !! n = Some c -> ws_calls c !! j = Some q -> identity_call q = false) ->
    one_caller None (sy_put_call k p' s1)).
  { intros ex p' s1 H1 Ef Ec Hp Hp' Hok Haw.
    assert (changing p = false) as Hcp by (by destruct p). assert (changing p' = false) as Hcp' by (by destruct p').
    apply (turn ex k p p' (sy_fields s1) s1 H1); try congruence; auto. }
  destruct p as [u|u|u|u st|u st n|u st n j|n e|n e|u st n|u n x|u n x| | | | | | | | | | | | | | | |];
    try discriminate Hs; cbn [realtime_step] in Hs.
  - injection Hs as <-. by eapply aside; try done; case_bool_decide.
  - injection Hs as <-. by eapply aside.
  - injection Hs as <-. apply (turn None k (RealtimeRead u) _ (sy_fields s) s H Hk); try done; [by right| |by left].
    by intros n j [?|?].
  - destruct (realtime_new (settings_options st)); injection Hs as <-; [|by eapply aside].
    pose proof (oc_making _ _ H k _ Hk) as Hst. cbn in Hst.
    apply (Hturn None); try done; [by apply new_client_one_caller; try eapply making_quiet|..].
    + split; [done|]. intros c. cbn -[insert]. rewrite lookup_insert_eq. by intros [= <-].
    + by intros ? ? [?|?].
  - pose proof (oc_making _ _ H k _ Hk) as [Hst Hat]. pose proof (settings_fetcher env (sy_fields s)) as Hf. rewrite <- Hst in Hf.
    destruct (settings_operation env st) as [op|] eqn:Hop.
    + destruct Hf as [Hop1 Hf]. apply bind_Some in Hs as ([s1 j] & Hi & [= <-]).
      pose proof (invoke_one_caller proto_text _ _ _ _ _ H Ha Hi) as H1. cbn [identity_call] in H1. rewrite Hop1 in H1.
      destruct (invoke_rest proto_text _ _ _ _ _ Hi) as (E1 & E2 & E3).
      apply (Hturn (Some (n, j))); try done.
      * split; [by rewrite E1|]. exists env, op. split; [done|]. by eapply invoke_at.
      * intros n1 j1 [[= <- <-]|?]; [by left|done].
    + injection Hs as <-. apply (Hturn None); try done; [|by intros ? ? [?|?]].
      split; [done|]. intros c Hc Hl. rewrite Hf. by apply Hat.
  - apply bind_Some in Hs as (r & Hr & [= <-]). pose proof (oc_making _ _ H k _ Hk) as (Hst & env1 & op & Hop & Hat).
    assert (Haw : forall n1 j1 p', None = Some (n1, j1) \/ Some (n, j) = Some (n1, j1) -> awaits p' = Some (n1, j1) \/
      forall c q, sy_clients s !! n1 = Some c -> ws_calls c !! j1 = Some q -> identity_call q = false).
    { intros n1 j1 p' [?|[= <- <-]]; [done|]. right. by eapply ended_spent. }
    assert (Hin : match r with RetError _ => False | _ => True end -> one_caller None (sy_put_call k (RealtimeInstall u st n) s)).
    { intros Hok. apply (Hturn None); try done; [|intros ? ?; by apply Haw].
      split; [done|]. intros c Hc Hl. destruct (ended_at _ _ _ _ _ _ Hr Hat) as (c1 & f & Hc1 & _ & Hex & Hf). simplify_eq.
      rewrite Hf by done. pose proof (settings_fetcher env1 (sy_fields s)) as Hsf. rewrite Hop in Hsf. destruct Hsf as [_ <-].
      destruct r; try discriminate Hex; [done|]. by injection Hex as <-. }
    destruct r as [h|w|e|]; try (by apply Hin).
    apply (turn None k (RealtimeIdentityWait u _ n j) _ (sy_fields s) s H Hk); try done; [intros ? ?; by apply Haw|by left].
  - apply bind_Some in Hs as (s1 & Hi & [= <-]). by eapply cancel_aside.
  - apply bind_Some in Hs as (r & _ & [= <-]). by eapply aside.
  - destruct (sy_webSocketClient s); injection Hs as <-; [by eapply aside|].
    pose proof (oc_making _ _ H k _ Hk) as [Hst Hat].
    apply (aside k (RealtimeInstall u st n)); try done. apply install_one_caller; [done|by eapply making_quiet|done].
  - apply bind_Some in Hs as (s1 & Hi & [= <-]). by eapply cancel_aside.
  - apply bind_Some in Hs as (r & _ & [= <-]). by eapply aside.
Qed.

(** A change takes a step, and may set the fields. *)
Lemma change_turn ex p p' v s1 : one_caller ex s1 -> sy_calls s1 !! k = Some p -> changing p = true -> making p' = false ->
  (forall n j, ex = Some (n, j) \/ awaits p = Some (n, j) -> awaits p' = Some (n, j) \/
    forall c q, sy_clients s1 !! n = Some c -> ws_calls c !! j = Some q -> identity_call q = false) ->
  (if changing p' then changing_ok p' (sy_put_fields v s1) else in_agreement (sy_put_fields v s1)) ->
  one_caller None (sy_put_call k p' (sy_put_fields v s1)).
Proof.
  intros H1 Hk Hp Hm Haw Hok. apply (turn ex k p p' v s1 H1 Hk); try congruence; auto.
  - intros Hp'. rewrite Hp' in Hok. by destruct p'.
  - intros _ Hp'. by rewrite Hp' in Hok.
Qed.
Lemma change_set p p' v : sy_calls s !! k = Some p -> changing p = true -> making p' = false -> awaits p = None ->
  (if changing p' then changing_ok p' (sy_put_fields v s) else in_agreement (sy_put_fields v s)) ->
  one_caller None (sy_put_call k p' (sy_put_fields v s)).
Proof. intros Hk Hp Hm Hn. apply (change_turn None p); try done. intros n j [?|?]; congruence. Qed.
Lemma change_next p p' : sy_calls s !! k = Some p -> changing p = true -> making p' = false -> awaits p = None ->
  (if changing p' then changing_ok p' s else in_agreement s) -> one_caller None (sy_put_call k p' s).
Proof. intros Hk Hp Hm Hn Hok. apply (change_set p p' (sy_fields s)); try done. Qed.
Lemma change_ended p p' n j r : sy_calls s !! k = Some p -> changing p = true -> making p' = false -> awaits p = Some (n, j) ->
  ended n j s = Some r -> (if changing p' then changing_ok p' s else in_agreement s) -> one_caller None (sy_put_call k p' s).
Proof.
  intros Hk Hp Hm Hn Hr Hok. apply (change_turn None p p' (sy_fields s) s); try done.
  rewrite Hn. intros n1 j1 [?|[= <- <-]]; [done|]. right. by eapply ended_spent.
Qed.

(** A change asks the realtime client. *)
Lemma change_asks p p' op fl n s1 j : sy_calls s !! k = Some p -> changing p = true -> changes_identity op = true ->
  making p' = false -> awaits p = None -> changing p' = true -> awaits p' = Some (n, j) ->
  invoke proto_text n (CallOperation op fl) s = Some (s1, j) ->
  changing_ok p' s1 -> one_caller None (sy_put_call k p' s1).
Proof.
  intros Hk Hp Hop Hm Hn Hp' Haw Hi Hok.
  pose proof (invoke_one_caller proto_text _ _ _ _ _ H Ha Hi) as H1. cbn [identity_call] in H1. rewrite Hop in H1.
  destruct (invoke_rest proto_text _ _ _ _ _ Hi) as (_ & _ & E).
  apply (change_turn (Some (n, j)) p p' (sy_fields s1) s1 H1); try congruence.
  - intros n1 j1 [[= <- <-]|?]; [by left|congruence].
  - rewrite Hp'. by destruct p'.
Qed.

Lemma change_one_caller p : sy_calls s !! k = Some p -> change_step proto_text k p s = Some s' -> one_caller None s'.
Proof.
  intros Hk Hs. pose proof (oc_changing _ _ H k p Hk) as Hok.
  destruct p as [| | | | | | | | | | | | | | | |ch|ch|ch [n|]|n j| | | | | | |]; try discriminate Hs;
    cbn [change_step changing_ok] in *.
  - destruct Hok as [Ht [Hh Hserve]]. destruct (change_http ch _) as [http|e] eqn:Hc; injection Hs as <-.
    + apply (change_set (ChangeHTTP ch)); try done. cbn [changing changing_ok]. by apply change_agrees.
    + by apply (change_next (ChangeHTTP ch)).
  - destruct Hok as [Hh Hf]. injection Hs as <-.
    apply (change_set (ChangeFields ch)); try done. cbn [changing changing_ok].
    split; [by destruct ch|]. split; [by destruct ch|]. by intros n Hn.
  - destruct Hok as (Hh & Hf & Hw). apply bind_Some in Hs as ([s1 j] & Hi & [= <-]).
    destruct (invoke_rest proto_text _ _ _ _ _ Hi) as (E1 & E2 & _).
    pose proof (proj1 (invoke_eq _ _ _ _ _ _) Hi) as (c & _ & Hc & _).
    eapply (change_asks _ _ (change_operation ch)) with (fl := true); [done|done|by destruct ch|done|done|done|done|..].
    { by destruct ch. }
    cbn [changing_ok]. rewrite E1. split; [done|]. split; [intros m; rewrite E2; apply Hw|].
    exists (change_operation ch), (fetcher c). split; [by destruct ch|]. split; [by destruct ch|]. split; [done|].
    eapply (invoke_at _ n _ true); [by destruct ch|]. intros c1 Hc1 _. congruence.
  - destruct Hok as (Hh & Hf & Hw). injection Hs as <-. apply (change_next (ChangeRealtime ch None)); try done.
    split; [done|]. intros n c Hn. by specialize (Hw n Hn).
  - destruct Hok as (Hh & Hw & op & before & Hop & Hr & Hf & Hat). apply bind_Some in Hs as (r & He & [= <-]).
    eapply (change_ended (ChangeWait n j)); try done. split; [done|]. intros m c Hm Hc Hl.
    specialize (Hw m Hm) as [= ->]. destruct (ended_at _ _ _ _ _ _ He Hat) as (c1 & f & Hc1 & Hfit & Hex & Hfe). simplify_eq.
    rewrite Hfe, Hf by done. cbn in Hfit. destruct r as [| |[]|]; try discriminate Hex; try congruence; by injection Hex as <-.
Qed.

Lemma callback_one_caller p : sy_calls s !! k = Some p -> changes_apart (YStep env k i) s ->
  callback_step proto_text env k p s = Some s' -> one_caller None s'.
Proof.
  intros Hk Hap Hs. cbn [changes_apart] in Hap. rewrite Hk in Hap. pose proof (oc_changing _ _ H k p Hk) as Hok.
  destruct p as [| | | | | | | | | | | | | | | | | | | |cb|cb [n|]|cb n j|cb|cb| |]; try discriminate Hs;
    cbn [callback_step changing_ok] in *.
  - injection Hs as <-. apply (change_next (CallbackRead cb)); try done. split; [done|]. by intros n Hn.
  - destruct Hok as [[Hh Hserve] Hw]. apply bind_Some in Hs as ([s1 j] & Hi & [= <-]).
    destruct (invoke_rest proto_text _ _ _ _ _ Hi) as (E1 & E2 & _).
    eapply (change_asks (CallbackRealtime cb (Some n)) _ (OSetAuthCallback _ _)); [done..|exact Hi|].
    cbn [changing_ok]. rewrite E1. split; [done|]. split; [intros m; rewrite E2; apply Hw|].
    exists (adaptUserTokenFetcher env). rewrite E2. intros Hcur. eapply invoke_at; [done|].
    intros c Hc Hl. by apply (Hserve n).
  - destruct Hok as [Hag Hw]. injection Hs as <-.
    assert (Hnone : sy_webSocketClient s = None) by (destruct (sy_webSocketClient s) as [m|] eqn:Hm; [by specialize (Hw m Hm)|done]).
    assert (Hserve : serves (Callback <$> cb) s) by (intros n c; by rewrite Hnone).
    destruct cb as [cb|]; [destruct (env cb false)|]; by eapply change_next.
  - destruct Hok as (Hh & Hw & env1 & Hat). apply bind_Some in Hs as (r & He & [= <-]).
    eapply (change_ended (CallbackWait cb n j)); try done; [by destruct r|].
    assert (Hcase : forall f, (forall c f', sy_clients s !! n = Some c -> live c ->
      expects (OSetAuthCallback env1 (Callback <$> cb)) (facade_fetcher (sy_fields s)) (CallReturned r) = Some f' -> f' = f) -> serves f s).
    { intros f Hf m c Hm Hc Hl. specialize (Hw m Hm) as [= ->].
      destruct (ended_at _ _ _ _ _ _ He (Hat Hm)) as (c1 & f' & Hc1 & _ & Hex & Hfe). simplify_eq.
      rewrite Hfe by done. by eapply Hf. }
    destruct r as [| |e|]; cbn [changing changing_ok].
    + apply Hcase. by intros.
    + apply Hcase. by intros.
    + split; [done|]. apply Hcase. intros c f' Hc Hl. destruct (Hap c e Hc He) as [[e' ->]|]; [|done]. by intros [= <-].
    + apply Hcase. by intros c f' _ _ [= <-].
  - injection Hs as <-. apply (change_set (CallbackHTTP cb)); [done..|].
    split; [apply callback_agrees|exact Hok].
  - destruct Hok as [Hh Hserve]. injection Hs as <-. apply (change_set (CallbackFields cb)); [done..|].
    split; [done|]. cbn [sy_fields sy_put_fields]. by rewrite callback_fetcher.
Qed.

Lemma facade_one_caller p : sy_calls s !! k = Some p -> changes_apart (YStep env k i) s ->
  facade_step proto_text env k i p s = Some s' -> one_caller None s'.
Proof.
  intros Hk Hap Hs. destruct p; cbn [facade_step] in Hs;
    first [ discriminate Hs | by eapply realtime_one_caller | by eapply use_one_caller | by eapply close_one_caller
          | by eapply change_one_caller | by eapply callback_one_caller ].
Qed.
End step.

Lemma system_one_caller e s s' : one_caller None s -> attended s -> changes_apart e s ->
  system_step proto_text e s = Some s' -> one_caller None s'.
Proof.
  intros H Ha Hap. unfold system_step. destruct (stopped s); [discriminate|]. destruct e as [p|env k i|n e].
  - destruct (facade_start p) eqn:Hp; [|discriminate]. intros [= <-]. by apply call_one_caller.
  - intros (p & Hk & Hs)%bind_Some. by eapply facade_one_caller.
  - destruct (from_outside e) eqn:He; [|discriminate]. intros Hs. eapply step_one_caller; [done..|].
    destruct e as [| | | | |q| | | |]; try done. by destruct q.
Qed.

Lemma runs_one_caller f n s : http_agrees (fc_http f) f -> system_runs proto_text changes_apart f n s -> one_caller None s.
Proof.
  intros Hf. induction 1 as [|n s e s' Hr IH Hap Hs].
  - by split.
  - eapply system_one_caller; [exact IH|by eapply system_runs_attended|done..].
Qed.
End identity.

(** C9. One identity, while its changes are kept apart.  Take any schedule of overlapping calls of the
    facade and of the goroutines of its realtime clients, with these conditions.  The options of
    [NewClient] give at most one identity.  A change of the identity begins when no other is on its way
    and no client is being made, and the settings for a new client are read when no change is on its
    way.  Tokens and admin keys are not empty.  An identity to act as names someone, by a token
    identifier or by an issuer and a subject, and does not follow a nil one.  The flush of a callback
    that a live client has taken does not fail.  Then, in any state in which no change is on its way,
    the header of an HTTP request names the caller that the live realtime client of the facade
    announces: nobody, the user with the token of the same callback or the same token, or the admin
    with the same key, who acts as itself, or as the one whose claims both have, the realtime client
    with the token identifier added.  And so does a client that a call is about to install.  Each
    condition is needed: see [two_options_two_identities], [overlapping_changes_differ],
    [identity_lost_in_race], [empty_token_keeps_admin], [incomplete_claims_dropped],
    [identity_after_nil] and [unflushed_callback_half_installed]. *)
Theorem one_identity_whatever_overlaps proto_text lit address os f n s env force :
  NewClient lit address os = Ok f -> ordinary_options os = true ->
  system_runs proto_text changes_apart f n s -> no_call changing s = true ->
  let header := fst (authHeaderValue env force (fc_http (sy_fields s))) in
  let acts_for c := same_caller header (fetched (adaptUserTokenFetcher env) force (fetcher c)) in
  (forall m c, sy_webSocketClient s = Some m -> sy_clients s !! m = Some c -> live c -> acts_for c) /\
  (forall k u st m c, sy_calls s !! k = Some (RealtimeInstall u st m) -> sy_clients s !! m = Some c -> live c -> acts_for c).
Proof.
  intros Hf Hos Hr Hq header acts_for.
  pose proof (runs_one_caller proto_text f n s (ag_http _ (NewClient_agrees _ _ _ _ Hf Hos)) Hr) as H.
  destruct (oc_quiet _ _ H Hq) as [Hh Hserve].
  assert (Hacts : forall c, fetcher c = facade_fetcher (sy_fields s) -> acts_for c).
  { intros c E. unfold acts_for. rewrite E. by apply agrees_same_caller. }
  split.
  - intros m c Hm Hc Hl. by apply Hacts, (Hserve m).
  - intros k u st m c Hk Hc Hl. destruct (oc_making _ _ H k _ Hk) as [_ Hat]. by apply Hacts, Hat.
Qed.

(** ** Schedules that keep the changes apart *)

Definition apart_now (e : system_event) (s : system) : bool :=
  match e with
  | YCall p =>
      negb (changing p) ||
      (no_call changing s && no_call making s &&
       match p with
       | ChangeHTTP (ChangeAuth token) => negb (bool_decide (token = ""))
       | ChangeHTTP (ChangeAdmin token actingAs) => negb (bool_decide (token = "")) && whole actingAs
       | _ => true
       end)
  | YStep _ k _ =>
      match sy_calls s !! k with
      | Some (RealtimeRead _) => no_call changing s
      | Some (CallbackWait _ n j) => match ended n j s with Some (RetError (ErrClient _)) | Some RetNil => true | _ => false end
      | _ => true
      end
  | YClient _ _ => true
  end.
Fixpoint play_apart (es : list system_event) (s : system) : option system :=
  match es with
  | [] => Some s
  | e :: rest => if apart_now e s then s' ← system_step ws_no_text e s; play_apart rest s' else None
  end.

Lemma apart_now_apart e s : apart_now e s = true -> changes_apart e s.
Proof.
  destruct e as [p|env k i|n e]; cbn; [| |done].
  - intros Hor Hc. rewrite Hc in Hor. cbn in Hor. apply andb_true_iff in Hor as [[? ?]%andb_true_iff Ht].
    split; [done|]. split; [done|]. destruct p as [| | | | | | | | | | | | | | | |[t|t a|]| | | | | | | | | |]; try done.
    + by apply negb_true_iff, bool_decide_eq_false in Ht.
    + by apply andb_true_iff in Ht as [Ht%negb_true_iff%bool_decide_eq_false ?].
  - destruct (sy_calls s !! k) as [p|]; [|done]. destruct p; try done.
    intros Hr c e Hc He. rewrite He in Hr. destruct e; try done. left. by eexists.
Qed.

Lemma play_apart_runs f es n s s' : system_runs ws_no_text changes_apart f n s -> play_apart es s = Some s' ->
  system_runs ws_no_text changes_apart f (n + Z.of_nat (length es)) s'.
Proof.
  revert n s. induction es as [|e es IH]; intros n s Hr Hp; cbn [play_apart length] in *.
  - injection Hp as <-. by rewrite Z.add_0_r.
  - destruct (apart_now e s) eqn:Ha; [|discriminate]. apply bind_Some in Hp as (s1 & Hs & Hp).
    replace (n + Z.of_nat (S (length es))) with ((n + 1) + Z.of_nat (length es)) by lia.
    apply (IH _ s1); [|done]. eapply system_runs_step; [done|by apply apart_now_apart|done].
Qed.

(** Two watchers make a client each; then the token changes while a third watcher comes, and the
    context of the change ends before its flush. *)
Definition overlapping : list system_event :=
  two_watchers ++ [YCall (ChangeHTTP (ChangeAuth "other")); YCall (RealtimeCheck UseWatchAll)] ++
  steps_of 2 [Go] ++ steps_of 3 [Go] ++ steps_of 2 [Go] ++ steps_of 3 [Go] ++ steps_of 2 [Go] ++
  call_events 0 5 ++ steps_of 3 [Go] ++ [YClient 0 (RStep 5 ContextEnds)] ++ steps_of 2 [Go].
Definition overlapped : system := default (newSystem user_facade) (play_apart overlapping (newSystem user_facade)).

Lemma overlapped_runs : system_runs ws_no_text changes_apart user_facade (0 + Z.of_nat (length overlapping)) overlapped.
Proof.
  apply (play_apart_runs user_facade overlapping 0 (newSystem user_facade)); [constructor|].
  unfold overlapped. destruct (play_apart overlapping (newSystem user_facade)) eqn:E; [done|].
  exfalso. assert (bool_decide (is_Some (play_apart overlapping (newSystem user_facade))) = true) as Hb by (vm_compute; reflexivity).
  rewrite E in Hb. discriminate.
Qed.

Lemma one_identity_whatever_overlaps_witness :
  sy_calls overlapped !! 2 = Some (FacadeReturned (GotError (FailedRealtime ErrContext))) /\
  sy_webSocketClient overlapped = Some 0 /\
  exists c, sy_clients overlapped !! 0 = Some c /\ live c /\ fetcher c = Some (FixedToken (UserAuthToken "other")) /\
    same_caller (Ok "Bearer other") (fetched (adaptUserTokenFetcher sample_tokens) false (fetcher c)).
Proof.
  split; [vm_compute; reflexivity|]. split; [vm_compute; reflexivity|].
  assert (Hh : fst (authHeaderValue sample_tokens false (fc_http (sy_fields overlapped))) = Ok "Bearer other")
    by (vm_compute; reflexivity).
  destruct (sy_clients overlapped !! 0) as [c|] eqn:Hc.
  - exists c. split; [reflexivity|].
    assert (Hl : option_map doneErr (sy_clients overlapped !! 0) = Some None) by (vm_compute; reflexivity).
    rewrite Hc in Hl. injection Hl as Hl. split; [exact Hl|]. split.
    + assert (Hf : option_map (fun c => fetcher c) (sy_clients overlapped !! 0)
        = Some (Some (FixedToken (UserAuthToken "other")))) by (vm_compute; reflexivity).
      rewrite Hc in Hf. by injection Hf.
    + rewrite <- Hh.
      exact (proj1 (one_identity_whatever_overlaps ws_no_text no_literal "https://a.convex.cloud" [WithAuth "token"]
        user_facade _ overlapped sample_tokens false ltac:(vm_compute; reflexivity) ltac:(vm_compute; reflexivity)
        overlapped_runs ltac:(vm_compute; reflexivity)) 0 c ltac:(vm_compute; reflexivity) Hc Hl).
  - exfalso. assert (Hs : bool_decide (is_Some (sy_clients overlapped !! 0)) = true) by (vm_compute; reflexivity).
    rewrite Hc in Hs. discriminate.
Defined.

(** Two changes that overlap: each sets the HTTP client first and then, under the lock, the fields
    and what the realtime client is told, so that the two clients may be left with one token each. *)
Definition two_changes : list system_event :=
  two_watchers ++ [YCall (ChangeHTTP (ChangeAuth "one")); YCall (ChangeHTTP (ChangeAuth "two"))] ++
  steps_of 2 [Go] ++ steps_of 3 [Go] ++ steps_of 3 [Go; Go] ++ call_events 0 5 ++ [YClient 0 (RStep 5 ContextEnds)] ++ steps_of 3 [Go] ++
  steps_of 2 [Go; Go] ++ call_events 0 6 ++ [YClient 0 (RStep 6 ContextEnds)] ++ steps_of 2 [Go].

Lemma overlapping_changes_differ :
  let s := played two_changes user_facade in
  no_call changing s = true /\ http_header (sy_fields s) = Ok "Bearer two" /\ fc_authToken (sy_fields s) = "one" /\
  option_map (fun c => (fetcher c, doneErr c)) (sy_clients s !! 0) = Some (Some (FixedToken (UserAuthToken "one")), None).
Proof. split; [vm_compute; reflexivity|]. split; [vm_compute; reflexivity|]. split; vm_compute; reflexivity. Qed.
