(* ===== verification/Chat.v ===== *)
(** * The example program

    [examples/realtime_chat/main.go] as an interaction tree: its events are the calls of the client, of
    the clock and of the standard output, its loop is [ITree.iter].  It uses the client as it is meant
    to be used: [Next] only on a subscription it has, the subscription given back and the observer
    removed whatever happens, and the client closed at last.  The log is left out. *)
From S2P Require Import Prelude GoStrings GoFlag GoJson Values Results GoEncode Protocol ClientMessages ServerMessages ClientState BaseClient SyncManager HttpClient Facade TypedRefs ManagerRun RealtimeClient FacadeRun.
From stdpp Require Import pretty.
From ITree Require Import ITree Shallow.
From Paco Require Import paco.

#[export] Instance itree_bind (E : Type -> Type) : MBind (itree E) := fun A B k t => ITree.bind t k.

Definition liveListMessagesPath : string := "live:listMessages".
Definition liveSendMessagePath : string := "live:sendMessage".

Record config : Type := mkConfig { deploymentURL : string; authToken : string; room : string; send : string; once : bool }.

Record liveMessage : Type := mkLive { lm_ID : string; lm_CreationTime : Z; lm_Room : string; lm_Body : string; lm_RequestID : string }.

(** [parseConfig]; [flag.Parse] ends the program on an error. *)
Definition parseConfig (getenv : string -> string) (args : list string) : result flag_error config :=
  '(fs, _) ← parse_flags
    {["url" := FlagString (getenv "CONVEX_URL"); "token" := FlagString (getenv "CONVEX_AUTH_TOKEN");
      "room" := FlagString "general"; "send" := FlagString ""; "once" := FlagBool false]} args;
  Ok (mkConfig (flag_text fs "url") (flag_text fs "token") (flag_text fs "room") (flag_text fs "send") (flag_set fs "once")).

Inductive chat_error : Type :=
  | NoURL
  | ClientRefused (e : facade_error)
  | ListFailed (e : reference_error http_error)
  | SendFailed (e : http_error)
  | SubscribeFailed (e : facade_failure)
  | NextFailed (e : rt_error)
  | ResultFailed (e : result_error)
  | UndecodableMessages (e : decode_error)
  | PrintFailed (reason : string).

(** The calls, with what they return. *)
Inductive chatE : Type -> Type :=
  | NewClientE (url : string) : chatE (result facade_error unit)
  | SetAuthE (token : string) : chatE unit
  | ObserveE : chatE unit
  | StopObservingE : chatE unit
  | QueryIntoE (path : string) (args : goval) : chatE (result (reference_error http_error) (list liveMessage))
  | NowE : chatE Z
  | MutationE (path : string) (args : goval) : chatE (result http_error goval)
  | SubscribeE (path : string) (args : goval) : chatE (result facade_failure unit)
  | NextE : chatE (result rt_error FunctionResult)
  | UnsubscribeE : chatE unit
  | CloseE : chatE unit
  | PrintE (label : string) (messages : list liveMessage) : chatE (result string unit).

Abbreviation chat A := (itree chatE (result chat_error A)).

Section program.
(** [json.Unmarshal] into a list of [liveMessage]. *)
Context (unmarshal : json -> result string (list liveMessage)).

Definition call_chat {E A : Type} (fail : E -> chat_error) (e : chatE (result E A)) : chat A :=
  r ← ITree.trigger e; Ret (map_err fail r).
(** [if err != nil { return err }], and [defer]. *)
Definition try {A B : Type} (t : chat A) (k : A -> chat B) : chat B :=
  ITree.bind t (fun r => match r with Ok a => k a | Err e => Ret (Err e) end).
Definition defer {A : Type} (cleanup : chatE unit) (t : chat A) : chat A :=
  r ← t; _ ← ITree.trigger cleanup; Ret r.

Definition room_args (room : string) : goval := GMap (Some {["room" := GString room]}).
Definition listMessages (room : string) : chat (list liveMessage) :=
  call_chat ListFailed (QueryIntoE liveListMessagesPath (room_args room)).
Definition sendMessage (room body : string) : chat string :=
  now ← ITree.trigger NowE;
  let requestID := ("go-demo-" +:+ pretty now)%string in
  try (call_chat SendFailed (MutationE liveSendMessagePath
         (GMap (Some {["room" := GString room; "body" := GString body; "requestId" := GString requestID]}))))
    (fun _ => Ret (Ok requestID)).
Definition decodeMessages (value : Value) : result chat_error (list liveMessage) :=
  map_err UndecodableMessages (decodeInto (Some unmarshal) (GoValue value)).
Definition printMessages (label : string) (messages : list liveMessage) : chat unit :=
  call_chat PrintFailed (PrintE label messages).

(** [context.Canceled] and [ErrSubscriptionClosed] end the stream. *)
Definition ends_stream (e : rt_error) : bool :=
  match e with ErrSubscriptionClosed | ErrContext | ErrRun RunCanceled => true | _ => false end.

(** One round of the loop: [inl] goes on. *)
Definition next_messages (_ : unit) : itree chatE (unit + result chat_error unit) :=
  r ← ITree.trigger NextE;
  match r with
  | Err e => Ret (inr (if ends_stream e then Ok () else Err (NextFailed e)))
  | Ok result =>
      match FunctionResult_Err result, FunctionResult_Value result with
      | Some e, _ => Ret (inr (Err (ResultFailed e)))
      | None, (_, false) => Ret (inl tt)
      | None, (value, true) =>
          match decodeMessages value with
          | Err e => Ret (inr (Err e))
          | Ok messages =>
              p ← printMessages "realtime" messages;
              Ret (match p with Ok _ => inl tt | Err e => inr (Err e) end)
          end
      end
  end.

Definition one_shot (cfg : config) : chat unit :=
  if decide (send cfg = "") then Ret (Ok ())
  else try (sendMessage (room cfg) (send cfg)) (fun _ =>
       try (listMessages (room cfg)) (fun updated => printMessages "after-send" updated)).
Definition stream (cfg : config) : chat unit :=
  try (call_chat SubscribeFailed (SubscribeE liveListMessagesPath (room_args (room cfg)))) (fun _ =>
    defer UnsubscribeE
      (try (if decide (send cfg = "") then Ret (Ok "") else sendMessage (room cfg) (send cfg)) (fun _ =>
         ITree.iter next_messages tt))).
Definition run (cfg : config) : chat unit :=
  if decide (deploymentURL cfg = "") then Ret (Err NoURL)
  else try (call_chat ClientRefused (NewClientE (deploymentURL cfg))) (fun _ =>
    defer CloseE
      (_ ← (if decide (authToken cfg = "") then Ret tt else ITree.trigger (SetAuthE (authToken cfg)));
       _ ← ITree.trigger ObserveE;
       defer StopObservingE
         (try (listMessages (room cfg)) (fun initial =>
          try (printMessages "initial" initial) (fun _ =>
            if once cfg then one_shot cfg else stream cfg))))).
End program.

(** ** How the client may be used *)

(** Before there is a client; with one, an observer and a subscription or not; and after. *)
Inductive usage : Type :=
  | NoClient
  | InUse (observing subscribed : bool)
  | Over.

(** A call in its place, and what the client is like after it.  With [-once] nobody subscribes. *)
Definition after (once : bool) (s : usage) {X : Type} (e : chatE X) : option (X -> usage) :=
  match e, s with
  | NewClientE _, NoClient => Some (fun r => if is_ok r then InUse false false else Over)
  | (SetAuthE _ | QueryIntoE _ _ | MutationE _ _), InUse _ _ => Some (fun _ => s)
  | ObserveE, InUse false subscribed => Some (fun _ => InUse true subscribed)
  | StopObservingE, InUse true false => Some (fun _ => InUse false false)
  | SubscribeE _ _, InUse observing false =>
      if once then None else Some (fun r => if is_ok r then InUse observing true else s)
  | NextE, InUse _ true => Some (fun _ => s)
  | UnsubscribeE, InUse observing true => Some (fun _ => InUse observing false)
  | CloseE, InUse false false => Some (fun _ => Over)
  | (NowE | PrintE _ _), _ => Some (fun _ => s)
  | _, _ => None
  end.

(** Every call is in its place, for ever; and what holds when the program returns. *)
Section proper.
Context (only_once : bool).

Inductive properF {R : Type} (Q : R -> usage -> Prop) (rec : usage -> itree chatE R -> Prop) (s : usage)
    : itree' chatE R -> Prop :=
  | proper_ret r : Q r s -> properF Q rec s (RetF r)
  | proper_tau t : rec s t -> properF Q rec s (TauF t)
  | proper_vis X (e : chatE X) k next : after only_once s e = Some next -> (forall x, rec (next x) (k x)) ->
      properF Q rec s (VisF e k).
Definition proper_ {R : Type} (Q : R -> usage -> Prop) (rec : usage -> itree chatE R -> Prop)
    (s : usage) (t : itree chatE R) : Prop := properF Q rec s (observe t).

Lemma proper_mon {R : Type} (Q : R -> usage -> Prop) : monotone2 (proper_ Q).
Proof. intros s t r r' H Hr. unfold proper_ in *. destruct H; econstructor; eauto. Qed.
Hint Resolve proper_mon : paco.

Definition proper {R : Type} (Q : R -> usage -> Prop) (s : usage) (t : itree chatE R) : Prop := paco2 (proper_ Q) bot2 s t.

Lemma proper_return {R : Type} (Q : R -> usage -> Prop) s r : Q r s -> proper Q s (Ret r).
Proof. intros H. pfold. by constructor. Qed.

Lemma proper_trigger {X : Type} (Q : X -> usage -> Prop) s (e : chatE X) next :
  after only_once s e = Some next -> (forall x, Q x (next x)) -> proper Q s (ITree.trigger e).
Proof. intros He H. pfold. econstructor; [exact He|]. intros x. left. by apply proper_return. Qed.

Lemma proper_bind {A B : Type} (P : A -> usage -> Prop) (Q : B -> usage -> Prop) (k : A -> itree chatE B) :
  (forall a s, P a s -> proper Q s (k a)) -> forall s t, proper P s t -> proper Q s (t ≫= k).
Proof.
  intros Hk. pcofix CIH. intros s t Ht. punfold Ht. pfold. unfold proper_ in *.
  change (observe (t ≫= k)) with (observe (ITree.bind t k)). rewrite observe_bind. destruct Ht as [a Ha|t1 Ht|X e h next He Hh].
  - assert (H : proper Q s (k a)) by auto. punfold H. eapply proper_mon; [exact H|]. intros s' t' [?|[]]. by left; eapply paco2_mon_bot.
  - constructor. right. destruct Ht as [Ht|[]]. by apply CIH.
  - econstructor; [exact He|]. intros x. right. destruct (Hh x) as [Hx|[]]. by apply CIH.
Qed.

Lemma proper_iter {I R : Type} (J : I -> usage -> Prop) (Q : R -> usage -> Prop) (body : I -> itree chatE (I + R)) :
  (forall i s, J i s -> proper (fun lr s' => match lr with inl i => J i s' | inr r => Q r s' end) s (body i)) ->
  forall i s, J i s -> proper Q s (ITree.iter body i).
Proof.
  intros Hbody. set (k := fun lr => ITree.on_left lr l (Tau (ITree.iter body l))).
  assert (H : forall s u, (exists t, proper (fun lr s' => match lr with inl i => J i s' | inr r => Q r s' end) s t /\
      observe u = observe (ITree.bind t k)) -> proper Q s u).
  { pcofix CIH. intros s u (t & Ht & Hu). punfold Ht. pfold. unfold proper_ in *. rewrite Hu, observe_bind.
    destruct Ht as [[i|r0] Hr|t1 [Ht|[]]|X e h next He Hh]; cbn.
    - constructor. right. apply CIH. exists (body i). split; [by apply Hbody|done].
    - by constructor.
    - constructor. right. apply CIH. by exists t1.
    - econstructor; [exact He|]. intros x. right. apply CIH. exists (h x). split; [|done]. by destruct (Hh x) as [?|[]]. }
  intros i s Hi. apply H. exists (body i). split; [by apply Hbody|done].
Qed.

Lemma proper_impl {R : Type} (P Q : R -> usage -> Prop) s t : (forall r s, P r s -> Q r s) -> proper P s t -> proper Q s t.
Proof.
  intros HPQ. revert s t. pcofix CIH. intros s t Ht. punfold Ht. pfold. unfold proper_ in *.
  destruct Ht as [a Ha|t1 [Ht|[]]|X e h next He Hh].
  - constructor. by apply HPQ.
  - constructor. right. by apply CIH.
  - econstructor; [exact He|]. intros x. right. apply CIH. by destruct (Hh x) as [?|[]].
Qed.

(** What is not in its place is told apart. *)
Lemma next_needs_subscription {R : Type} (Q : R -> usage -> Prop) rec o t :
  properF Q rec (InUse o false) t -> match t with VisF NextE _ => False | _ => True end.
Proof. remember (InUse o false) as s eqn:Hs. destruct 1 as [| |X e k next He _]; [done..|]. subst s. by destruct e. Qed.
Lemma return_needs_close (Q : unit -> usage -> Prop) rec s r : properF Q rec s (RetF r) -> Q r s.
Proof. by inversion 1. Qed.

(** *** The pieces of the program *)

Lemma proper_call {E A : Type} (Q : result chat_error A -> usage -> Prop) s (fail : E -> chat_error) (e : chatE (result E A)) next :
  after only_once s e = Some next -> (forall r, Q (map_err fail r) (next r)) -> proper Q s (call_chat fail e).
Proof.
  intros He HQ. apply (proper_bind (fun r s' => s' = next r)); [|by eapply proper_trigger].
  intros r s' ->. by apply proper_return.
Qed.

Lemma proper_try {A B : Type} (P : A -> usage -> Prop) (Q : result chat_error B -> usage -> Prop) s t (k : A -> chat B) :
  proper (fun r s' => match r with Ok a => P a s' | Err e => Q (Err e) s' end) s t ->
  (forall a s', P a s' -> proper Q s' (k a)) -> proper Q s (try t k).
Proof. intros Ht Hk. eapply proper_bind; [|exact Ht]. intros [a|e] s' H; [by apply Hk|by apply proper_return]. Qed.

Lemma proper_defer {A : Type} (Q : result chat_error A -> usage -> Prop) s s1 s2 cleanup (t : chat A) :
  after only_once s1 cleanup = Some (fun _ => s2) -> (forall r, Q r s2) ->
  proper (fun _ s' => s' = s1) s t -> proper Q s (defer cleanup t).
Proof.
  intros He HQ Ht. eapply proper_bind; [|exact Ht]. intros r s' ->.
  apply (proper_bind (fun _ s' => s' = s2)); [|by eapply proper_trigger]. intros _ s' ->. by apply proper_return.
Qed.

(** Calls that leave the client as it is. *)
Definition stays {A : Type} (s : usage) : A -> usage -> Prop := fun _ s' => s' = s.

Lemma proper_list room o b : proper (stays (InUse o b)) (InUse o b) (listMessages room).
Proof. by eapply proper_call. Qed.
Lemma proper_print label messages s : proper (stays s) s (printMessages label messages).
Proof. by eapply proper_call. Qed.
Lemma proper_send room body o b : proper (stays (InUse o b)) (InUse o b) (sendMessage room body).
Proof.
  apply (proper_bind (stays (InUse o b))); [|by eapply proper_trigger]. intros now s ->.
  apply (proper_try (stays (InUse o b))); [|intros a s ->; by apply proper_return].
  eapply proper_call; [done|]. by intros [].
Qed.
End proper.

Section program_proper.
Context (unmarshal : json -> result string (list liveMessage)).

Lemma proper_next o b : proper b (fun lr s' => s' = InUse o true) (InUse o true) (next_messages unmarshal tt).
Proof.
  apply (proper_bind b (stays (InUse o true))); [|by eapply proper_trigger]. intros [r|e] s ->; [|by apply proper_return].
  destruct (FunctionResult_Err r), (FunctionResult_Value r) as [v []]; try (by apply proper_return).
  destruct (decodeMessages unmarshal v) as [messages|e]; [|by apply proper_return].
  eapply proper_bind; [|apply proper_print]. intros [u|e] s ->; by apply proper_return.
Qed.

Lemma proper_stream cfg o : proper false (stays (InUse o false)) (InUse o false) (stream unmarshal cfg).
Proof.
  apply (proper_try _ (stays (InUse o true))).
  { eapply proper_call; [done|]. by intros []. }
  intros _ s ->. eapply (proper_defer _ _ _ (InUse o true)); [done|done|].
  apply (proper_try _ (stays (InUse o true))).
  - case_decide; [by apply proper_return|]. eapply proper_impl; [|apply proper_send]. by intros [] s.
  - intros _ s ->. apply (proper_iter _ (fun _ s => s = InUse o true)); [|done]. intros [] s ->.
    eapply proper_impl; [|apply proper_next]. by intros [] s.
Qed.

Lemma proper_one_shot cfg o b c : proper c (stays (InUse o b)) (InUse o b) (one_shot cfg).
Proof.
  unfold one_shot. case_decide; [by apply proper_return|].
  apply (proper_try _ (stays (InUse o b))); [eapply proper_impl; [|apply proper_send]; by intros [] s|]. intros _ s ->.
  apply (proper_try _ (stays (InUse o b))); [eapply proper_impl; [|apply proper_list]; by intros [] s|]. intros l s ->.
  apply proper_print.
Qed.

(** The example uses the client as it is meant to be used, whatever the calls return and however long
    it runs: a client is made once at most, results are read from a subscription it has, each
    subscription is given back and each observer removed, and when the program returns the client has
    been closed, if there ever was one, by the last call of it; with [-once] it never subscribes. *)
Theorem chat_uses_client_properly cfg :
  proper (once cfg) (fun _ s => s = NoClient \/ s = Over) NoClient (run unmarshal cfg).
Proof.
  unfold run. case_decide; [apply proper_return; by left|].
  apply (proper_try _ (stays (InUse false false))); [eapply proper_call; [done|]; intros []; [done|by right]|]. intros _ s ->.
  eapply (proper_defer _ _ _ (InUse false false)); [done|by right|].
  apply (proper_bind _ (stays (InUse false false))).
  2: { case_decide; [by apply proper_return|by eapply proper_trigger]. }
  intros [] s ->. apply (proper_bind _ (stays (InUse true false))); [|by eapply proper_trigger]. intros [] s ->.
  eapply (proper_defer _ _ _ (InUse true false)); [done|done|].
  apply (proper_try _ (stays (InUse true false))); [eapply proper_impl; [|apply proper_list]; by intros [] s|]. intros initial s ->.
  apply (proper_try _ (stays (InUse true false))); [eapply proper_impl; [|apply proper_print]; by intros [] s|]. intros _ s ->.
  destruct (once cfg); [apply proper_one_shot|apply proper_stream].
Qed.
End program_proper.
